(* ===== verification/_CoqProject ===== *)
-Q . S2P
Prelude.v
History.v
Interfaces.v
ByteOrder.v
Addr.v
Inet.v
Options.v
PacketBuf.v
PacketProto.v
SendPath.v
BufferFlow.v
RecvPath.v
SocksClient.v
TunClient.v
TunDevice.v
LinkedLists.v
Index.v
Pending.v
Avl.v
CAvl.v
BAvl.v
Reactor.v
Connection.v
Datagram.v
FairQueue.v
UdpGwProto.v
SocksUdpGw.v
UdpGw.v
UdpGwReconnect.v
Device.v
TunMain.v
Ancillary.v
