(* ===== verification/Prelude.v ===== *)
(** * tun2socks: a verification of the native program of ProxyDroid

    ** The program

    The application runs a local VPN.  Its native part, tun2socks (the program that
    src/vpn/src/main/jni/Android.mk builds from badvpn, lwIP and libancillary), reads
    IP packets from the device of the VPN and relays what is in them through a SOCKS
    server: TCP connections are ended by lwIP and each becomes a connection of the SOCKS
    client, UDP datagrams go to the SOCKS server's relay, DNS queries to a gateway.
    Everything runs in one thread around an event loop: components call each other
    through handlers and pending jobs, and wait for descriptors and timers.

    All paths below are relative to src/vpn/src/main/jni/badvpn.  The build that is
    modelled is the one of the repository: [__ANDROID__], Linux with epoll,
    little-endian; assertions are kept (they are compiled out by [NDEBUG]), so a theorem that a function
    yields a result says that none of its assertions can fail.

    ** How code becomes definitions

    A component is a Module: its struct a Record, its enums Inductive types, each function
    a Definition or Fixpoint in the monad [M] of this file, which passes the state,
    collects the calls to other components and fails at a violated [ASSERT].
    [r <| f := v |>] is the assignment [r->f = v].  Integers are [Z] with the
    conversions [u8] to [u64] where the code converts; buffers are lists of bytes,
    and [memcpy] is [write_at] and [read_at].  Memory that the code does not
    initialise is an argument ([junk]), and so are the results of [malloc] ([mem]), of the system calls and of lwIP.
    Objects that are linked into lists and trees are in a heap ([gmap]).  A run of a
    component is a sequence of events (calls of its users, completions of its
    providers, jobs, timers) in any order the interfaces allow; the theorems are
    invariants of all runs.  [wp] (here) and [tri] (History.v) are the rules the
    proofs use; [IndexLaws] (Index.v) is the contract of a search tree, against
    which its users are proved, and which the trees in memory (BAvl.v, CAvl.v) and a sorted list satisfy;
    [TotalCmp] (Addr.v) is the contract of a comparator.

    ** The files

    Foundations: Prelude (this file), History (programs with a history of their calls),
    ByteOrder (misc/byteorder.h, read_write_int.h, bsize.h, balign.h, compare.h),
    Addr (system/BAddr.h), Inet (misc/ipv4_proto.h, ipv6_proto.h, udp_proto.h: header
    layouts, checks and checksums).

    Data structures: LinkedLists (structure/LinkedList1.h, SLinkedList_impl.h, on their
    pointers), Index (the contract of a search tree), CAvl (structure/CAvl_impl.h, SAvl_impl.h: the
    trees of the timers and of the queued flows) and BAvl (structure/BAVL.h: the trees of the UDP
    clients), both on their nodes in memory, link by link, and proved against the inductive
    trees of Avl, which are a specification and model no code, Pending (base/BPending.c on the list of
    LinkedLists, and [BReactor_Synchronize]).

    System: Reactor (system/BReactor_badvpn.c: timers, descriptors, limits,
    [wait_for_events], [BReactor_Exec]), Connection (system/BConnection_unix.c: [BConnection] and
    [BConnector]), Datagram (system/BDatagram_unix.c), Device (tuntap/BTap.c with the buffer
    that reads its packets, system/BSignal.c, BUnixSignal.c, BNetwork.c), Ancillary
    (libancillary/fd_send.c, fd_recv.c, beside badvpn).

    Flow of packets: Interfaces (flow/PacketPassInterface, PacketRecvInterface,
    StreamPassInterface, StreamRecvInterface), PacketProto (flow/PacketProtoEncoder.c, PacketProtoDecoder.c),
    PacketBuf (structure/ChunkBuffer2.h, flow/PacketBuffer.c), FairQueue
    (flow/PacketPassFairQueue.c), SendPath (flowextra/PacketPassInactivityMonitor.c,
    flow/PacketPassConnector.c, flow/PacketStreamSender.c, joined as UdpGwClient.c joins
    them), RecvPath (the decoder between its interfaces), BufferFlow (flow/SinglePacketBuffer.c, BufferWriter.c, PacketProtoFlow.c).

    Protocols: SocksClient (socksclient/BSocksClient.c, misc/socks_proto.h), UdpGwProto
    (protocol/udpgw_proto.h), UdpGw (udpgw_client/UdpGwClient.c), SocksUdpGw and
    UdpGwReconnect (tun2socks/SocksUdpGwClient.c: the Android build and the other builds).

    The program (tun2socks/tun2socks.c): Options ([parse_arguments]), TunDevice (the device,
    [process_device_udp_packet], [netif_output_func], [udpgw_client_handler_received]),
    TunClient ([listener_accept_func] and the [client_*] functions), TunMain ([main],
    [process_arguments], [lwip_init_job_hadler] and the release of everything).

    ** What the theorems show

    - TCP (TunClient): for every order of the callbacks of lwIP, the SOCKS client and
      the jobs, both byte streams are relayed in order and unchanged, an orderly close loses nothing,
      no freed object is used, callbacks return [ERR_ABRT] exactly when the pcb is
      gone, and data within the advertised window fits the buffer.
    - Device (TunDevice, Device): packets of the device are read once, in order and unchanged, reading never
      stops, and everything that was opened is closed; a packet reaches the UDP relay if and only if it
      is a well-formed UDP datagram by the RFCs (lengths, checksums), with exactly the addresses and payload of its
      bytes; a datagram written to the device reads back the same; chains of lwIP
      reach the device whole or not at all.
    - UDP (SocksUdpGw, UdpGw, UdpGwReconnect): the tables of connections stay
      consistent in every run and implement least-recently-used tables; every run of the Android relay is a run of
      an abstract table, which says where each datagram goes, and fails only when a message is longer than its
      block; replies are delivered to the right peer without their header, everything is released; and the exact
      condition of a buffer overrun in the Android relay.
    - SOCKS (SocksClient): the client reports UP only after a valid handshake and
      without consuming a byte of the stream, reaches it in the run with any compliant
      server, with or without a password, however the bytes are cut, and processes a lost
      connection in every state.
    - Flow (PacketProto, RecvPath, PacketBuf, FairQueue, SendPath, BufferFlow, Interfaces): framing is
      decoded exactly, in place, whatever the order of the jobs; the packet buffer is a FIFO queue on its circular memory;
      no flow of the fair queue starves; packets cross lost connections whole; the
      packet flow frames in place what is written to it.
    - Trees and lists (BAvl, CAvl, LinkedLists): the trees give the answers of a sorted list, no link leads
      outside, and they pass the program's own verification; the lists are lists.
    - System (Reactor, Connection, Datagram, Pending, Device, Ancillary): handlers are called exactly for
      due timers and reported events; connections and datagram sockets lose
      no byte and no wakeup, and fail an assertion exactly for an event of a registration that an
      error event has left behind; the job list is a stack; signals are delivered; descriptors that are
      sent are received, and so is -1 when none was sent ([closed_ends_wait]).
    - Start and end (TunMain, Options): every object is released once and in order on every
      path, except that the reactor is freed under the signal handler when [main] cannot make its socket; a command
      line is accepted exactly if it is well formed, and means what its options say.

    ** Bounds and fuel

    Loops over a list recurse on it.  The others have fuel, and the theorems are proved
    with the fuel the definitions choose: the carry loop of a checksum ends
    after two rounds ([FOLD_FUEL] is 3); the mutually recursive release functions of
    a client call each other at most once each ([FREE_FUEL] is 1); [send_out_loop] sends at
    least one byte per round and has the length of the buffer; the argument loop consumes an
    argument per round; the timer loops have the number of timers, the loops
    that release connections, clients and limits the length of the list they empty; the search for a
    free conid has a round for each of the [max_connections]; [BReactor_Synchronize] takes its fuel as an
    argument, and its theorem says how much is enough; the loops of CAvl and BAvl have the number of nodes and
    one more ([fuel_of]), since each passes a node at most once.
    Unbounded behaviour (the event loop, runs of a component) is a list of events of any length.

    ** What the theorems assume

    Of the environment: an interface's user has one operation at a time and its provider answers
    only what was asked, within the size that was asked for ([enabled], [allowed] and the like in each file); system calls
    return values their documentation allows ([kernel_allows], [write_ok], [read_ok], [answers_ok], [recvmsg_ok]);
    descriptors report any events, errors and hangups included; lwIP delivers no more than
    the window and calls back only for live pcbs.  The buffers of the packet buffer have at most
    [INT_MAX] bytes.  Which of several pending jobs runs first is left open in Interfaces,
    SendPath and BufferFlow, so that their theorems hold in particular for the stack of Pending.v.
    Pointers are offsets and never null where the code asserts it.

    ** Not modelled

    lwIP, the TCP/IP stack (third-party; its calls and callbacks are arguments and events).
    Other programs of the badvpn tree that are not built: NCD, the peer-to-peer VPN
    client and server, the udpgw server, tests, examples, and generated parsers with their generators.
    The Kotlin and Java application with jni-helper.cpp.  Log output, and the
    debugging objects and counters other than those of the reactor.
    Reading the clock (system/BTime.h): the times are arguments of the reactor.  Listeners and packet
    sockets, which the program does not use.  The features of structure/CAvl_impl.h that are not
    compiled: counts, associated sums, indices as keys and queries of the nearest key.
    Name resolution and printing of addresses; builds for Windows, FreeBSD, kqueue, poll and
    big-endian machines.

    What could follow: the fair queue as the user of the sending path, and the udpgw server
    as the peer of the udpgw client. *)
From stdpp Require Import base list option numbers strings.
From Stdlib Require Import ZArith Lia.

Declare Scope c_scope.
Delimit Scope c_scope with c.
#[local] Open Scope Z_scope.

(** ** Record update *)

(** [Eta R] gives the eta-expansion of a record type; [Setter proj] is derived
    from it, so that [r <| f := v |>] is the C assignment [r->f = v]. *)
Class Eta (R : Type) := eta_rec : R → R.
Class Setter {R T : Type} (proj : R → T) := upd_field : (T → T) → R → R.

Ltac solve_setter R proj :=
  let e := constr:(_ : Eta R) in
  let e := eval hnf in e in
  exact (fun f r => ltac:(
    let b := eval cbv beta in (e r) in
    match b with
    | context C [proj r] => let b' := context C [f (proj r)] in exact b'
    end)).

#[global] Hint Extern 1 (@Setter ?R _ ?proj) => solve_setter R proj : typeclass_instances.

Notation "r <| f := v |>" := (upd_field (proj:=f) (λ _, v) r)
  (at level 12, f at next level, left associativity, format "r  <| f  :=  v |>").
Notation "r <| f ::= g |>" := (upd_field (proj:=f) g r)
  (at level 12, f at next level, left associativity, format "r  <| f  ::=  g |>").

(** ** Machine integers *)

Definition UINT8_MAX : Z := 255.
Definition UINT16_MAX : Z := 65535.
Definition INT_MAX : Z := 2147483647.
Definition SIZE_MAX : Z := 18446744073709551615.
Definition UINT64_MAX : Z := 18446744073709551615.

(** Conversions to the unsigned types of C: reduction modulo [2^w]. *)
Definition u8 (x : Z) : Z := x mod 2 ^ 8.
Definition u16 (x : Z) : Z := x mod 2 ^ 16.
Definition u32 (x : Z) : Z := x mod 2 ^ 32.
Definition u64 (x : Z) : Z := x mod 2 ^ 64.

#[global] Arguments Z.add : simpl nomatch.
#[global] Arguments Z.sub : simpl nomatch.
#[global] Arguments Z.mul : simpl nomatch.
#[global] Arguments u8 : simpl never.
#[global] Arguments u16 : simpl never.
#[global] Arguments u32 : simpl never.
#[global] Arguments u64 : simpl never.

Definition is_u8 (x : Z) : Prop := 0 ≤ x < 2 ^ 8.
Definition is_u16 (x : Z) : Prop := 0 ≤ x < 2 ^ 16.
Definition is_u32 (x : Z) : Prop := 0 ≤ x < 2 ^ 32.

#[global] Instance is_u8_dec x : Decision (is_u8 x).
Proof. unfold is_u8. apply _. Defined.
#[global] Instance is_u16_dec x : Decision (is_u16 x).
Proof. unfold is_u16. apply _. Defined.
#[global] Instance is_u32_dec x : Decision (is_u32 x).
Proof. unfold is_u32. apply _. Defined.

(** A byte buffer: every element is a [uint8_t]. *)
Abbreviation bytes := (list Z).
Abbreviation bytes_ok := (Forall is_u8).

(** [sizeof]-style length, as the C [int]s and [size_t]s that hold it. *)
Definition zlen {A} (l : list A) : Z := Z.of_nat (length l).

(** [memcpy(dst + off, src, len)] into a buffer that is long enough. *)
Definition write_at {A} (off : Z) (src dst : list A) : list A :=
  take (Z.to_nat off) dst ++ src ++ drop (Z.to_nat off + length src) dst.

(** [len] bytes at [ptr + off]. *)
Definition read_at {A} (off len : Z) (l : list A) : list A :=
  take (Z.to_nat len) (drop (Z.to_nat off) l).

Create HintDb badvpn.

Ltac zlen_simpl := unfold zlen, write_at, read_at in *.

Lemma zlen_nonneg {A} (l : list A) : 0 ≤ zlen l.
Proof. unfold zlen. lia. Qed.
Lemma zlen_nil {A} : zlen (@nil A) = 0.
Proof. reflexivity. Qed.
Lemma zlen_cons {A} (x : A) l : zlen (x :: l) = 1 + zlen l.
Proof. unfold zlen. simpl. lia. Qed.
Lemma zlen_app {A} (l k : list A) : zlen (l ++ k) = zlen l + zlen k.
Proof. unfold zlen. rewrite length_app. lia. Qed.
Lemma zlen_take {A} n (l : list A) : zlen (take n l) = Z.min (Z.of_nat n) (zlen l).
Proof. unfold zlen. rewrite length_take. lia. Qed.
Lemma zlen_drop {A} n (l : list A) : zlen (drop n l) = Z.max 0 (zlen l - Z.of_nat n).
Proof. unfold zlen. rewrite length_drop. lia. Qed.
Lemma zlen_0_nil {A} (l : list A) : zlen l = 0 → l = [].
Proof. unfold zlen. destruct l; simpl; [done|lia]. Qed.
Lemma zlen_replicate {A} n (x : A) : zlen (replicate n x) = Z.of_nat n.
Proof. unfold zlen. by rewrite length_replicate. Qed.

#[export] Hint Rewrite @zlen_nil @zlen_cons @zlen_app @zlen_take @zlen_drop
  @zlen_replicate : zlen.
#[export] Hint Resolve zlen_nonneg : badvpn.

Lemma zlen_read_at {A} off len (l : list A) :
  0 ≤ off → 0 ≤ len → off + len ≤ zlen l → zlen (read_at off len l) = len.
Proof. intros. unfold read_at. autorewrite with zlen. lia. Qed.

Lemma zlen_write_at {A} off (src dst : list A) :
  0 ≤ off → off + zlen src ≤ zlen dst → zlen (write_at off src dst) = zlen dst.
Proof.
  intros. unfold write_at. autorewrite with zlen. unfold zlen in *. lia.
Qed.

Lemma read_at_write_at {A} off (src dst : list A) :
  0 ≤ off → off + zlen src ≤ zlen dst →
  read_at off (zlen src) (write_at off src dst) = src.
Proof.
  intros. unfold read_at, write_at, zlen in *.
  rewrite drop_app_length' by (rewrite length_take; lia).
  rewrite take_app_length' by lia. done.
Qed.

Lemma read_at_write_at_before {A} off len off' (src dst : list A) :
  0 ≤ off → 0 ≤ len → off + len ≤ off' → off' ≤ zlen dst →
  read_at off len (write_at off' src dst) = read_at off len dst.
Proof.
  intros. unfold read_at, write_at, zlen in *.
  rewrite !firstn_skipn_comm. f_equal.
  rewrite take_app_le by (rewrite length_take; lia).
  rewrite take_take. f_equal. lia.
Qed.

Lemma read_at_write_at_after {A} off len off' (src dst : list A) :
  0 ≤ off' → off' + zlen src ≤ off → off' + zlen src ≤ zlen dst →
  read_at off len (write_at off' src dst) = read_at off len dst.
Proof.
  intros. unfold read_at, write_at, zlen in *. f_equal.
  rewrite app_assoc, drop_app_ge by (rewrite length_app, length_take; lia).
  rewrite drop_drop. f_equal. rewrite length_app, length_take. lia.
Qed.

Lemma read_at_app {A} off n m (l : list A) :
  0 ≤ off → 0 ≤ n → 0 ≤ m →
  read_at off (n + m) l = read_at off n l ++ read_at (off + n) m l.
Proof.
  intros. unfold read_at. rewrite Z2Nat.inj_add by lia.
  rewrite (Z2Nat.inj_add off n) by lia. rewrite <- drop_drop.
  rewrite <- (take_drop (Z.to_nat n) (take (Z.to_nat n + Z.to_nat m) _)).
  f_equal.
  - rewrite take_take. f_equal. lia.
  - rewrite skipn_firstn_comm. f_equal. lia.
Qed.

Lemma read_at_all {A} n (l : list A) : zlen l ≤ n → read_at 0 n l = l.
Proof. intros. unfold read_at, zlen in *. rewrite drop_0, take_ge by lia. done. Qed.

Lemma read_at_read_at {A} off len off' len' (l : list A) :
  0 ≤ off → 0 ≤ off' → 0 ≤ len' → off' + len' ≤ len →
  read_at off' len' (read_at off len l) = read_at (off + off') len' l.
Proof.
  intros. unfold read_at. rewrite skipn_firstn_comm, take_take, drop_drop.
  rewrite Z2Nat.inj_add by lia. f_equal. lia.
Qed.

Lemma drop_read_at {A} off len n (l : list A) : 0 ≤ off → 0 ≤ n ≤ len →
  drop (Z.to_nat n) (read_at off len l) = read_at (off + n) (len - n) l.
Proof.
  intros. unfold read_at. rewrite skipn_firstn_comm, drop_drop.
  rewrite Z2Nat.inj_add, Z2Nat.inj_sub by lia. done.
Qed.

Lemma write_at_all {A} (src dst : list A) : zlen dst = zlen src → write_at 0 src dst = src.
Proof.
  intros H. unfold write_at, zlen in *. simpl. rewrite drop_ge by lia. by rewrite app_nil_r.
Qed.

Lemma write_read_at {A} off len (m : list A) : 0 ≤ off → 0 ≤ len → off + len ≤ zlen m →
  write_at off (read_at off len m) m = m.
Proof.
  intros ? ? H. unfold write_at, read_at, zlen in *. etransitivity; [|apply (take_drop (Z.to_nat off))]. f_equal.
  rewrite length_take_le by (rewrite length_drop; lia). rewrite <- drop_drop. apply take_drop.
Qed.

(** A header and a body written into a fresh block, in either order. *)
Lemma write_at_header_body {A} (a b m : list A) : zlen m = zlen a + zlen b →
  write_at (zlen a) b (write_at 0 a m) = a ++ b.
Proof.
  intros H. unfold write_at, zlen in *. simpl.
  rewrite take_app_length' by lia. rewrite drop_app_ge by lia.
  rewrite drop_drop, drop_ge by lia. by rewrite app_nil_r.
Qed.
Lemma write_at_body_header {A} (a b m : list A) : zlen m = zlen a + zlen b →
  write_at 0 a (write_at (zlen a) b m) = a ++ b.
Proof.
  intros H. unfold write_at, zlen in *. simpl. rewrite drop_app_ge; rewrite length_take_le by lia; [|lia].
  rewrite Nat2Z.id, Nat.sub_diag, drop_0, (drop_ge m) by lia. by rewrite app_nil_r.
Qed.

(** Two adjacent writes are one. *)
Lemma write_at_app {A} off (a b m : list A) : 0 ≤ off → off + zlen a + zlen b ≤ zlen m →
  write_at (off + zlen a) b (write_at off a m) = write_at off (a ++ b) m.
Proof.
  intros Ho H. unfold write_at, zlen in *.
  rewrite Z2Nat.inj_add, Nat2Z.id by lia. set (n := Z.to_nat off).
  assert (length (take n m) = n) as Hn by (rewrite length_take; lia).
  rewrite (app_assoc (take n m)), (take_app_length' (take n m ++ a)) by (rewrite length_app; lia).
  rewrite drop_app_ge by (rewrite length_app; lia).
  rewrite drop_drop, length_app, Hn, length_app, <- !app_assoc. do 4 f_equal. lia.
Qed.

Lemma take_write_at {A} off (a m : list A) : 0 ≤ off → off + zlen a ≤ zlen m →
  take (Z.to_nat (off + zlen a)) (write_at off a m) = take (Z.to_nat off) m ++ a.
Proof.
  intros Ho H. unfold write_at, zlen in *. rewrite Z2Nat.inj_add, Nat2Z.id by lia.
  rewrite app_assoc, take_app_length'; [done|].
  rewrite length_app, length_take. lia.
Qed.

(** ** Allocation *)

(** [mem n] is the block that [malloc(n)] (or [realloc]) returns, with arbitrary
    contents, or [None] when it fails. *)
Definition mem_ok (mem : Z → option (list Z)) : Prop :=
  ∀ n b, mem n = Some b → Forall is_u8 b ∧ zlen b = n.

Definition alloc_zero (n : Z) : option (list Z) :=
  if n <? 0 then None else Some (replicate (Z.to_nat n) 0).
Lemma alloc_zero_ok : mem_ok alloc_zero.
Proof.
  intros n b. unfold alloc_zero. destruct (Z.ltb_spec n 0); [done|]. intros [= <-].
  split; [apply Forall_replicate; unfold is_u8; lia|]. rewrite zlen_replicate. lia.
Qed.

Lemma bytes_ok_take n l : bytes_ok l → bytes_ok (take n l).
Proof. apply Forall_take. Qed.
Lemma bytes_ok_drop n l : bytes_ok l → bytes_ok (drop n l).
Proof. apply Forall_drop. Qed.
Lemma bytes_ok_app l k : bytes_ok l → bytes_ok k → bytes_ok (l ++ k).
Proof. intros. by apply Forall_app. Qed.
Lemma bytes_ok_read_at off len l : bytes_ok l → bytes_ok (read_at off len l).
Proof. intros. by apply bytes_ok_take, bytes_ok_drop. Qed.
#[export] Hint Resolve bytes_ok_take bytes_ok_drop bytes_ok_app bytes_ok_read_at : badvpn.

Lemma u8_id x : is_u8 x → u8 x = x.
Proof. apply Z.mod_small. Qed.
Lemma u16_id x : is_u16 x → u16 x = x.
Proof. apply Z.mod_small. Qed.
Lemma u32_id x : is_u32 x → u32 x = x.
Proof. apply Z.mod_small. Qed.
Lemma u8_range x : is_u8 (u8 x).
Proof. apply Z.mod_pos_bound. lia. Qed.
Lemma u16_range x : is_u16 (u16 x).
Proof. apply Z.mod_pos_bound. lia. Qed.
Lemma u32_range x : is_u32 (u32 x).
Proof. apply Z.mod_pos_bound. lia. Qed.
#[export] Hint Resolve u8_range u16_range u32_range : badvpn.

(** [x && y] etc. on C conditions, and their reflection for [lia]. *)
Ltac bool_prop :=
  repeat match goal with
  | H : _ && _ = true |- _ => apply andb_true_iff in H as [? ?]
  | H : _ || _ = false |- _ => apply orb_false_iff in H as [? ?]
  | H : negb _ = true |- _ => apply negb_true_iff in H
  | H : negb _ = false |- _ => apply negb_false_iff in H
  | H : (_ =? _) = true |- _ => apply Z.eqb_eq in H
  | H : (_ =? _) = false |- _ => apply Z.eqb_neq in H
  | H : (_ <? _) = true |- _ => apply Z.ltb_lt in H
  | H : (_ <? _) = false |- _ => apply Z.ltb_ge in H
  | H : (_ <=? _) = true |- _ => apply Z.leb_le in H
  | H : (_ <=? _) = false |- _ => apply Z.leb_gt in H
  end.

(** ** Programs with state, trace and assertions *)

(** A C function over the object state [St]: it yields a result, the new state
    and the calls it makes to other components, in order (type [Ev]).  [None]
    is a violated [ASSERT] of the source, so a theorem that a handler yields
    [Some] says that none of its assertions can fail. *)
Definition M (St Ev A : Type) : Type := St → option (A * St * list Ev).

#[global] Instance M_ret {St Ev} : MRet (M St Ev) := λ A a s, Some (a, s, []).
#[global] Instance M_bind {St Ev} : MBind (M St Ev) := λ A B f m s,
  match m s with
  | Some (a, s', t) =>
      match f a s' with
      | Some (b, s'', t') => Some (b, s'', t ++ t')
      | None => None
      end
  | None => None
  end.

Section Ops.
Context {St Ev : Type}.
Definition get : M St Ev St := λ s, Some (s, s, []).
Definition gets {A} (f : St → A) : M St Ev A := λ s, Some (f s, s, []).
Definition modify (f : St → St) : M St Ev () := λ s, Some ((), f s, []).
Definition emit (e : Ev) : M St Ev () := λ s, Some ((), s, [e]).
Definition ASSERT (b : bool) : M St Ev () := λ s, if b then Some ((), s, []) else None.
Definition when (b : bool) (m : M St Ev ()) : M St Ev () := if b then m else mret ().

(** Total-correctness weakest precondition. *)
Definition wp {A} (m : M St Ev A) (s : St) (Q : A → St → list Ev → Prop) : Prop :=
  match m s with Some (a, s', t) => Q a s' t | None => False end.

Lemma wp_ret {A} (a : A) s Q : Q a s [] → wp (mret a) s Q.
Proof. done. Qed.
Lemma wp_bind {A B} (m : M St Ev A) (f : A → M St Ev B) s Q :
  wp m s (λ a s' t, wp (f a) s' (λ b s'' t', Q b s'' (t ++ t'))) →
  wp (m ≫= f) s Q.
Proof.
  unfold wp, mbind, M_bind. destruct (m s) as [[[a s'] t]|]; [|done].
  by destruct (f a s') as [[[b s''] t']|].
Qed.
Lemma wp_mono {A} (m : M St Ev A) s (P Q : A → St → list Ev → Prop) :
  wp m s P → (∀ a s' t, P a s' t → Q a s' t) → wp m s Q.
Proof. unfold wp. destruct (m s) as [[[a s'] t]|]; eauto. Qed.
Lemma wp_get s Q : Q s s [] → wp get s Q.
Proof. done. Qed.
Lemma wp_gets {A} (f : St → A) s Q : Q (f s) s [] → wp (gets f) s Q.
Proof. done. Qed.
Lemma wp_modify f s Q : Q () (f s) [] → wp (modify f) s Q.
Proof. done. Qed.
Lemma wp_emit e s Q : Q () s [e] → wp (emit e) s Q.
Proof. done. Qed.
Lemma wp_ASSERT b s Q : b = true → Q () s [] → wp (ASSERT b) s Q.
Proof. by intros ->. Qed.
Lemma wp_when b m s Q :
  (b = true → wp m s Q) → (b = false → Q () s []) → wp (when b m) s Q.
Proof. destruct b; intros; unfold when; [auto|by apply wp_ret; auto]. Qed.
Lemma wp_some {A} (m : M St Ev A) s Q :
  wp m s Q ↔ ∃ a s' t, m s = Some (a, s', t) ∧ Q a s' t.
Proof.
  unfold wp. destruct (m s) as [[[a s'] t]|]; naive_solver.
Qed.
End Ops.

(** One symbolic step of a handler under [wp]. *)
Ltac wp_step :=
  lazymatch goal with
  | |- wp (_ ≫= _) _ _ => apply wp_bind
  | |- wp (mret _) _ _ => apply wp_ret
  | |- wp get _ _ => apply wp_get
  | |- wp (gets _) _ _ => apply wp_gets
  | |- wp (modify _) _ _ => apply wp_modify
  | |- wp (emit _) _ _ => apply wp_emit
  | |- wp (ASSERT _) _ _ => apply wp_ASSERT
  | |- wp (when _ _) _ _ =>
      apply wp_when; (let Hc := fresh "Hc" in intros Hc; try discriminate Hc)
  | |- wp (if ?b then _ else _) _ _ => let E := fresh "E" in destruct b eqn:E
  | |- wp (match ?x with _ => _ end) _ _ => let E := fresh "E" in destruct x eqn:E
  end.

(** The steps of a handler up to its next assertion or branch. *)
Ltac wp_pure :=
  repeat (lazymatch goal with
  | |- wp (_ ≫= _) _ _ => apply wp_bind
  | |- wp (mret _) _ _ => apply wp_ret
  | |- wp get _ _ => apply wp_get
  | |- wp (gets _) _ _ => apply wp_gets
  | |- wp (modify _) _ _ => apply wp_modify
  | |- wp (emit _) _ _ => apply wp_emit
  end; simpl).

(** An assertion whose condition holds by computation and the hypotheses. *)
Ltac wp_assert :=
  wp_pure; apply wp_ASSERT;
  [simpl; repeat (rewrite ?bool_decide_true by done; rewrite ?bool_decide_false by done; simpl);
   try done | simpl; wp_pure].
