(* ===== verification/History.v ===== *)
(** * Programs and their history

    The components call each other and the system; what they may do depends on what
    was called before.  A history [H] is computed from the calls alone by [obs];
    [ok] says when a call is allowed.  [tri] is the Hoare triple of a program whose
    assertions hold, whose calls are allowed, and whose result, history and state
    satisfy a postcondition. *)
From stdpp Require Import base list.
From S2P Require Import Prelude.

Section History.
Context {H St Ev : Type} (obs : H → Ev → H) (ok : H → Ev → Prop).

Definition after : H → list Ev → H := foldl obs.
Fixpoint trace_ok (h : H) (l : list Ev) : Prop :=
  match l with [] => True | a :: l => ok h a ∧ trace_ok (obs h a) l end.

Lemma after_app h l k : after h (l ++ k) = after (after h l) k.
Proof. apply foldl_app. Qed.
Lemma trace_ok_app h l k : trace_ok h (l ++ k) ↔ trace_ok h l ∧ trace_ok (after h l) k.
Proof.
  revert h. induction l as [|a l IH]; intros h; [simpl; tauto|].
  change (ok h a ∧ trace_ok (obs h a) (l ++ k) ↔ (ok h a ∧ trace_ok (obs h a) l) ∧ trace_ok (after (obs h a) l) k).
  rewrite IH. tauto.
Qed.
(** Every call of an allowed trace is allowed by what came before it. *)
Lemma trace_ok_split h l a k : trace_ok h (l ++ a :: k) → ok (after h l) a.
Proof. intros [_ Ha]%trace_ok_app. apply Ha. Qed.

Definition tri {A} (h : H) (s : St) (m : M St Ev A) (Q : A → H → St → Prop) : Prop :=
  wp m s (λ a s' acts, trace_ok h acts ∧ Q a (after h acts) s').

Lemma tri_some {A} h s (m : M St Ev A) Q :
  tri h s m Q ↔ ∃ a s' acts, m s = Some (a, s', acts) ∧ trace_ok h acts ∧ Q a (after h acts) s'.
Proof. apply wp_some. Qed.
Lemma tri_ret {A} h s (a : A) (Q : A → H → St → Prop) : Q a h s → tri h s (mret a) Q.
Proof. done. Qed.
Lemma tri_bind {A B} h s (m : M St Ev A) (f : A → M St Ev B) Q :
  tri h s m (λ a h' s', tri h' s' (f a) Q) → tri h s (m ≫= f) Q.
Proof.
  intros Hm. apply wp_bind. eapply wp_mono; [exact Hm|]. intros a s' acts [Hok Hf].
  eapply wp_mono; [exact Hf|]. intros b s'' acts' [Hok' HQ]. by rewrite trace_ok_app, after_app.
Qed.
Lemma tri_mono {A} h s (m : M St Ev A) (P Q : A → H → St → Prop) :
  tri h s m P → (∀ a h' s', P a h' s' → Q a h' s') → tri h s m Q.
Proof. intros Hm HPQ. eapply wp_mono; [exact Hm|]. intros a s' acts [? ?]. auto. Qed.
Lemma tri_get h s (Q : St → H → St → Prop) : Q s h s → tri h s get Q.
Proof. done. Qed.
Lemma tri_gets {A} (f : St → A) h s (Q : A → H → St → Prop) : Q (f s) h s → tri h s (gets f) Q.
Proof. done. Qed.
Lemma tri_modify f h s (Q : () → H → St → Prop) : Q () h (f s) → tri h s (modify f) Q.
Proof. done. Qed.
Lemma tri_emit a h s (Q : () → H → St → Prop) : ok h a → Q () (obs h a) s → tri h s (emit a) Q.
Proof. done. Qed.
Lemma tri_ASSERT b h s (Q : () → H → St → Prop) : b = true → Q () h s → tri h s (ASSERT b) Q.
Proof. by intros ->. Qed.
End History.

(** The steps of a program up to the next one that needs a proof. *)
Ltac tri_pure :=
  cbv beta; repeat (lazymatch goal with
  | |- tri _ _ _ _ (_ ≫= _) _ => apply tri_bind
  | |- tri _ _ _ _ (mret _) _ => apply tri_ret
  | |- tri _ _ _ _ get _ => apply tri_get
  | |- tri _ _ _ _ (gets _) _ => apply tri_gets
  | |- tri _ _ _ _ (modify _) _ => apply tri_modify
  end; cbv beta).
