(* ===== verification/Interfaces.v ===== *)
(** * Interfaces between flow components: flow/PacketPassInterface,
      flow/PacketRecvInterface, flow/StreamPassInterface and flow/StreamRecvInterface

    A component that sends or receives data is the user of an interface whose
    provider performs the operation.  The user asks for one operation at a time; the
    request and the answer reach the other side through pending jobs, never by a
    direct call.  A pointer is an offset into the memory of the caller ([Z]), and a
    handler or job that is set is [true]. *)
From stdpp Require Import base list numbers relations.
From Stdlib Require Import ZArith Lia.
From S2P Require Import Prelude History.
#[local] Open Scope Z_scope.

(** The states of an interface, the same four in each of the headers. *)
Inductive istate := STATE_NONE | STATE_OPERATION_PENDING | STATE_BUSY | STATE_DONE_PENDING.
#[global] Instance istate_eq : EqDecision istate.
Proof. solve_decision. Defined.
Definition in_state (x y : istate) : bool := bool_decide (x = y).

(** The calls of the other side's handlers, made by the jobs. *)
Inductive icall :=
| CallOperation (data len : Z)   (** [handler_operation] *)
| CallRecv (data : Z)            (** [handler_operation] of a packet receiver *)
| CallRequestCancel              (** [handler_requestcancel] *)
| CallDone (len : Z)             (** [handler_done] *)
| CallSent.                      (** [handler_done] of a packet sender *)

(** The state after an operation, and the handler calls of a job. *)
Definition exec {St Ev A} (m : M St Ev A) (i : St) : option St :=
  match m i with Some (_, i', _) => Some i' | None => None end.
Definition fire {St Ev} (m : M St Ev ()) (i : St) : option (St * list Ev) :=
  match m i with Some (_, i', acts) => Some (i', acts) | None => None end.

(** Computes a handler whose assertions follow from the hypotheses. *)
Ltac run_fire := unfold fire; repeat (unfold mbind, M_bind, get, ASSERT, when, emit, modify; cbn -[Z.leb Z.ltb Z.eqb Z.add Z.sub];
  repeat first [rewrite (proj2 (Z.leb_le _ _)) by lia | rewrite (proj2 (Z.ltb_lt _ _)) by lia]).

(** ** Packets passed on *)
Module PacketPassInterface.

Record t := mk_t {
  mtu : Z; handler_requestcancel : bool; handler_done : bool;
  job_operation : bool; job_operation_data : Z; job_operation_len : Z;
  job_requestcancel : bool; job_done : bool; state : istate; cancel_requested : bool
}.
#[global] Instance eta : Eta t := λ i, mk_t (mtu i) (handler_requestcancel i) (handler_done i)
  (job_operation i) (job_operation_data i) (job_operation_len i) (job_requestcancel i) (job_done i)
  (state i) (cancel_requested i).
Abbreviation IM := (M t icall).

(** The fields that are not initialised ([junk]) keep what was in memory. *)
Definition Init (m : Z) (junk : t) : option t :=
  if 0 <=? m then
    Some (junk <| mtu := m |> <| handler_requestcancel := false |> <| handler_done := false |>
               <| job_operation := false |> <| job_requestcancel := false |> <| job_done := false |>
               <| state := STATE_NONE |>)
  else None.
Definition Free : IM () :=
  modify (λ i, i <| job_done := false |> <| job_requestcancel := false |> <| job_operation := false |>).
Definition EnableCancel : IM () :=
  i ← get; ASSERT (negb (handler_requestcancel i));; ASSERT (negb (handler_done i));;
  modify (λ i, i <| handler_requestcancel := true |>).
Definition Done : IM () :=
  i ← get; ASSERT (in_state (state i) STATE_BUSY);;
  modify (λ i, i <| job_requestcancel := false |> <| job_done := true |> <| state := STATE_DONE_PENDING |>).
Definition GetMTU : IM Z := gets mtu.
Definition Sender_Init : IM () :=
  i ← get; ASSERT (negb (handler_done i));; modify (λ i, i <| handler_done := true |>).
Definition Sender_Send (data len : Z) : IM () :=
  i ← get; ASSERT (0 <=? len);; ASSERT (len <=? mtu i);;
  ASSERT (in_state (state i) STATE_NONE);; ASSERT (handler_done i);;
  modify (λ i, i <| job_operation_data := data |> <| job_operation_len := len |> <| job_operation := true |>
                 <| state := STATE_OPERATION_PENDING |> <| cancel_requested := false |>).
Definition Sender_RequestCancel : IM () :=
  i ← get; ASSERT (negb (in_state (state i) STATE_NONE));; ASSERT (handler_requestcancel i);;
  when (negb (cancel_requested i))
    (modify (λ i, i <| cancel_requested := true |>);;
     match state i with
     | STATE_OPERATION_PENDING =>
         modify (λ i, i <| job_operation := false |> <| job_done := true |> <| state := STATE_DONE_PENDING |>)
     | STATE_BUSY => modify (λ i, i <| job_requestcancel := true |>)
     | _ => mret ()
     end).
Definition HasCancel : IM bool := gets handler_requestcancel.

(** The jobs; a job is unset when it starts to run. *)
Definition run_job_operation : IM () :=
  i ← get; modify (λ i, i <| job_operation := false |>);;
  ASSERT (in_state (state i) STATE_OPERATION_PENDING);;
  modify (λ i, i <| state := STATE_BUSY |>);;
  emit (CallOperation (job_operation_data i) (job_operation_len i)).
Definition run_job_requestcancel : IM () :=
  i ← get; modify (λ i, i <| job_requestcancel := false |>);;
  ASSERT (in_state (state i) STATE_BUSY);; ASSERT (cancel_requested i);; ASSERT (handler_requestcancel i);;
  emit CallRequestCancel.
Definition run_job_done : IM () :=
  i ← get; modify (λ i, i <| job_done := false |>);;
  ASSERT (in_state (state i) STATE_DONE_PENDING);;
  modify (λ i, i <| state := STATE_NONE |>);;
  emit CallSent.

End PacketPassInterface.

(** ** Packets received *)
Module PacketRecvInterface.

Record t := mk_t {
  mtu : Z; handler_done : bool; job_operation : bool; job_operation_data : Z;
  job_done : bool; job_done_len : Z; state : istate
}.
#[global] Instance eta : Eta t := λ i, mk_t (mtu i) (handler_done i) (job_operation i) (job_operation_data i)
  (job_done i) (job_done_len i) (state i).
Abbreviation IM := (M t icall).

Definition Init (m : Z) (junk : t) : option t :=
  if 0 <=? m then
    Some (junk <| mtu := m |> <| handler_done := false |> <| job_operation := false |> <| job_done := false |>
               <| state := STATE_NONE |>)
  else None.
Definition Free : IM () := modify (λ i, i <| job_done := false |> <| job_operation := false |>).
Definition Done (len : Z) : IM () :=
  i ← get; ASSERT (0 <=? len);; ASSERT (len <=? mtu i);; ASSERT (in_state (state i) STATE_BUSY);;
  modify (λ i, i <| job_done_len := len |> <| job_done := true |> <| state := STATE_DONE_PENDING |>).
Definition GetMTU : IM Z := gets mtu.
Definition Receiver_Init : IM () :=
  i ← get; ASSERT (negb (handler_done i));; modify (λ i, i <| handler_done := true |>).
Definition Receiver_Recv (data : Z) : IM () :=
  i ← get; ASSERT (in_state (state i) STATE_NONE);; ASSERT (handler_done i);;
  modify (λ i, i <| job_operation_data := data |> <| job_operation := true |> <| state := STATE_OPERATION_PENDING |>).
Definition run_job_operation : IM () :=
  i ← get; modify (λ i, i <| job_operation := false |>);;
  ASSERT (in_state (state i) STATE_OPERATION_PENDING);;
  modify (λ i, i <| state := STATE_BUSY |>);;
  emit (CallRecv (job_operation_data i)).
Definition run_job_done : IM () :=
  i ← get; modify (λ i, i <| job_done := false |>);;
  ASSERT (in_state (state i) STATE_DONE_PENDING);;
  modify (λ i, i <| state := STATE_NONE |>);;
  emit (CallDone (job_done_len i)).

End PacketRecvInterface.

(** ** Streams passed on *)
Module StreamPassInterface.

Record t := mk_t {
  handler_done : bool; job_operation : bool; job_operation_data : Z; job_operation_len : Z;
  job_done : bool; job_done_len : Z; state : istate
}.
#[global] Instance eta : Eta t := λ i, mk_t (handler_done i) (job_operation i) (job_operation_data i)
  (job_operation_len i) (job_done i) (job_done_len i) (state i).
Abbreviation IM := (M t icall).

Definition Init (junk : t) : t :=
  junk <| handler_done := false |> <| job_operation := false |> <| job_done := false |> <| state := STATE_NONE |>.
Definition Free : IM () := modify (λ i, i <| job_done := false |> <| job_operation := false |>).
Definition Done (len : Z) : IM () :=
  i ← get; ASSERT (in_state (state i) STATE_BUSY);; ASSERT (0 <? len);; ASSERT (len <=? job_operation_len i);;
  modify (λ i, i <| job_done_len := len |> <| job_done := true |> <| state := STATE_DONE_PENDING |>).
Definition Sender_Init : IM () :=
  i ← get; ASSERT (negb (handler_done i));; modify (λ i, i <| handler_done := true |>).
Definition Sender_Send (data len : Z) : IM () :=
  i ← get; ASSERT (0 <? len);; ASSERT (in_state (state i) STATE_NONE);; ASSERT (handler_done i);;
  modify (λ i, i <| job_operation_data := data |> <| job_operation_len := len |> <| job_operation := true |>
                 <| state := STATE_OPERATION_PENDING |>).
Definition run_job_operation : IM () :=
  i ← get; modify (λ i, i <| job_operation := false |>);;
  ASSERT (in_state (state i) STATE_OPERATION_PENDING);;
  modify (λ i, i <| state := STATE_BUSY |>);;
  emit (CallOperation (job_operation_data i) (job_operation_len i)).
Definition run_job_done : IM () :=
  i ← get; modify (λ i, i <| job_done := false |>);;
  ASSERT (in_state (state i) STATE_DONE_PENDING);;
  modify (λ i, i <| state := STATE_NONE |>);;
  emit (CallDone (job_done_len i)).

End StreamPassInterface.

(** ** Streams received *)
Module StreamRecvInterface.

Record t := mk_t {
  handler_done : bool; job_operation : bool; job_operation_data : Z; job_operation_len : Z;
  job_done : bool; job_done_len : Z; state : istate
}.
#[global] Instance eta : Eta t := λ i, mk_t (handler_done i) (job_operation i) (job_operation_data i)
  (job_operation_len i) (job_done i) (job_done_len i) (state i).
Abbreviation IM := (M t icall).

Definition Init (junk : t) : t :=
  junk <| handler_done := false |> <| job_operation := false |> <| job_done := false |> <| state := STATE_NONE |>.
Definition Free : IM () := modify (λ i, i <| job_done := false |> <| job_operation := false |>).
Definition Done (data_len : Z) : IM () :=
  i ← get; ASSERT (in_state (state i) STATE_BUSY);; ASSERT (0 <? data_len);; ASSERT (data_len <=? job_operation_len i);;
  modify (λ i, i <| job_done_len := data_len |> <| job_done := true |> <| state := STATE_DONE_PENDING |>).
Definition Receiver_Init : IM () :=
  i ← get; ASSERT (negb (handler_done i));; modify (λ i, i <| handler_done := true |>).
Definition Receiver_Recv (data data_len : Z) : IM () :=
  i ← get; ASSERT (0 <? data_len);; ASSERT (in_state (state i) STATE_NONE);; ASSERT (handler_done i);;
  modify (λ i, i <| job_operation_data := data |> <| job_operation_len := data_len |> <| job_operation := true |>
                 <| state := STATE_OPERATION_PENDING |>).
Definition run_job_operation : IM () :=
  i ← get; modify (λ i, i <| job_operation := false |>);;
  ASSERT (in_state (state i) STATE_OPERATION_PENDING);;
  modify (λ i, i <| state := STATE_BUSY |>);;
  emit (CallOperation (job_operation_data i) (job_operation_len i)).
Definition run_job_done : IM () :=
  i ← get; modify (λ i, i <| job_done := false |>);;
  ASSERT (in_state (state i) STATE_DONE_PENDING);;
  modify (λ i, i <| state := STATE_NONE |>);;
  emit (CallDone (job_done_len i)).

End StreamRecvInterface.

(** ** What the interfaces promise *)

(** The jobs that are set are those of the state. *)
Record ppi_wf (i : PacketPassInterface.t) : Prop := mk_ppi_wf {
  pw_user : PacketPassInterface.handler_done i = true;
  pw_op : PacketPassInterface.job_operation i = in_state (PacketPassInterface.state i) STATE_OPERATION_PENDING;
  pw_done : PacketPassInterface.job_done i = in_state (PacketPassInterface.state i) STATE_DONE_PENDING;
  pw_cancel : PacketPassInterface.job_requestcancel i = true →
    PacketPassInterface.state i = STATE_BUSY ∧ PacketPassInterface.cancel_requested i = true ∧
    PacketPassInterface.handler_requestcancel i = true
}.

(** *** Interfaces in a known state *)

(** An operation is on its way to the provider or at work. *)
Definition active (st : istate) : bool := in_state st STATE_OPERATION_PENDING || in_state st STATE_BUSY.

(** An interface without cancelling and with MTU [m] is in state [st]; its request, if it has one, is [d], [l]. *)
Definition ppi_is (i : PacketPassInterface.t) (m : Z) (st : istate) (d l : Z) : Prop :=
  ∃ d' l' c, i = PacketPassInterface.mk_t m false true (in_state st STATE_OPERATION_PENDING) d' l' false
    (in_state st STATE_DONE_PENDING) st c ∧ (active st = true → d' = d ∧ l' = l).
(** ... with its answer [n], if it has one. *)
Definition spi_is (i : StreamPassInterface.t) (st : istate) (d l n : Z) : Prop :=
  ∃ d' l' n', i = StreamPassInterface.mk_t true (in_state st STATE_OPERATION_PENDING) d' l'
    (in_state st STATE_DONE_PENDING) n' st ∧ (active st = true → d' = d ∧ l' = l) ∧ (st = STATE_DONE_PENDING → n' = n).
Definition pri_is (i : PacketRecvInterface.t) (m : Z) (st : istate) (d n : Z) : Prop :=
  ∃ d' n', i = PacketRecvInterface.mk_t m true (in_state st STATE_OPERATION_PENDING) d'
    (in_state st STATE_DONE_PENDING) n' st ∧ (active st = true → d' = d) ∧ (st = STATE_DONE_PENDING → n' = n).

Definition sri_is (i : StreamRecvInterface.t) (st : istate) (d l n : Z) : Prop :=
  ∃ d' l' n', i = StreamRecvInterface.mk_t true (in_state st STATE_OPERATION_PENDING) d' l'
    (in_state st STATE_DONE_PENDING) n' st ∧ (active st = true → d' = d ∧ l' = l) ∧ (st = STATE_DONE_PENDING → n' = n).

Section PacketPass.
Import PacketPassInterface.
Lemma ppi_send i m d0 l0 d l : ppi_is i m STATE_NONE d0 l0 → 0 ≤ l ≤ m →
  ∃ i', exec (Sender_Send d l) i = Some i' ∧ ppi_is i' m STATE_OPERATION_PENDING d l.
Proof.
  intros (d' & l' & c & -> & _) H. unfold exec, Sender_Send, mbind, M_bind, get, ASSERT. cbn -[Z.leb].
  rewrite (proj2 (Z.leb_le 0 l)), (proj2 (Z.leb_le l m)) by lia. eexists. split; [reflexivity|]. by do 3 eexists.
Qed.
Lemma ppi_operation i m d l : ppi_is i m STATE_OPERATION_PENDING d l →
  ∃ i', fire run_job_operation i = Some (i', [CallOperation d l]) ∧ ppi_is i' m STATE_BUSY d l.
Proof. intros (d' & l' & c & -> & [-> ->]); [done|]. eexists. split; [reflexivity|]. by do 3 eexists. Qed.
Lemma ppi_done i m d l : ppi_is i m STATE_BUSY d l →
  ∃ i', exec Done i = Some i' ∧ ppi_is i' m STATE_DONE_PENDING d l.
Proof. intros (d' & l' & c & -> & _). eexists. split; [reflexivity|]. by do 3 eexists. Qed.
Lemma ppi_sent i m d l : ppi_is i m STATE_DONE_PENDING d l →
  ∃ i', fire run_job_done i = Some (i', [CallSent]) ∧ ppi_is i' m STATE_NONE d l.
Proof. intros (d' & l' & c & -> & _). eexists. split; [reflexivity|]. by do 3 eexists. Qed.
Lemma ppi_init m junk d l : 0 ≤ m →
  ∃ i, Init m junk = Some i ∧ handler_requestcancel i = false ∧ mtu i = m ∧
    ∃ i', exec Sender_Init i = Some i' ∧ ppi_is i' m STATE_NONE d l.
Proof.
  intros H. unfold Init. rewrite (proj2 (Z.leb_le 0 m)) by lia. eexists. split; [reflexivity|]. split_and!; [done..|].
  eexists. split; [reflexivity|]. by do 3 eexists.
Qed.
Lemma ppi_jobs i m st d l : ppi_is i m st d l → job_operation i = in_state st STATE_OPERATION_PENDING ∧
  job_requestcancel i = false ∧ job_done i = in_state st STATE_DONE_PENDING ∧ state i = st ∧ mtu i = m ∧
  handler_requestcancel i = false.
Proof. by intros (d' & l' & c & -> & _). Qed.
(** The request of an interface that has none is of no interest. *)
Lemma ppi_any i m st d l d' l' : ppi_is i m st d l → active st = false → ppi_is i m st d' l'.
Proof. intros (x & y & c & -> & _) H. exists x, y, c. split; [done|]. by rewrite H. Qed.
End PacketPass.

Section StreamPass.
Import StreamPassInterface.
Lemma spi_send i d0 l0 n0 d l : spi_is i STATE_NONE d0 l0 n0 → 0 < l →
  ∃ i', exec (Sender_Send d l) i = Some i' ∧ spi_is i' STATE_OPERATION_PENDING d l n0.
Proof.
  intros (d' & l' & n' & -> & _ & _) H. unfold exec, Sender_Send, mbind, M_bind, get, ASSERT. cbn -[Z.ltb].
  rewrite (proj2 (Z.ltb_lt 0 l)) by lia. eexists. split; [reflexivity|]. by do 3 eexists.
Qed.
Lemma spi_operation i d l n : spi_is i STATE_OPERATION_PENDING d l n →
  ∃ i', fire run_job_operation i = Some (i', [CallOperation d l]) ∧ spi_is i' STATE_BUSY d l n.
Proof. intros (d' & l' & n' & -> & [-> ->] & _); [done|]. eexists. split; [reflexivity|]. by do 3 eexists. Qed.
Lemma spi_done i d l n0 n : spi_is i STATE_BUSY d l n0 → 0 < n ≤ l →
  ∃ i', exec (Done n) i = Some i' ∧ spi_is i' STATE_DONE_PENDING d l n.
Proof.
  intros (d' & l' & n' & -> & [-> ->] & _) H; [done|]. unfold exec, Done, mbind, M_bind, get, ASSERT. cbn -[Z.ltb Z.leb].
  rewrite (proj2 (Z.ltb_lt 0 n)), (proj2 (Z.leb_le n l)) by lia. eexists. split; [reflexivity|]. by do 3 eexists.
Qed.
Lemma spi_finished i d l n : spi_is i STATE_DONE_PENDING d l n →
  ∃ i', fire run_job_done i = Some (i', [CallDone n]) ∧ spi_is i' STATE_NONE d l n.
Proof. intros (d' & l' & n' & -> & _ & ->); [|done]. eexists. split; [reflexivity|]. by do 3 eexists. Qed.
Lemma spi_init junk d l n : ∃ i, exec Sender_Init (Init junk) = Some i ∧ spi_is i STATE_NONE d l n.
Proof. eexists. split; [reflexivity|]. by do 3 eexists. Qed.
Lemma spi_jobs i st d l n : spi_is i st d l n → job_operation i = in_state st STATE_OPERATION_PENDING ∧
  job_done i = in_state st STATE_DONE_PENDING ∧ state i = st ∧
  (active st = true → job_operation_data i = d ∧ job_operation_len i = l).
Proof. by intros (d' & l' & n' & -> & H & _). Qed.
Lemma spi_any i st d l n d' l' n' : spi_is i st d l n → st = STATE_NONE → spi_is i st d' l' n'.
Proof. intros (x & y & z & -> & _) ->. by exists x, y, z. Qed.
End StreamPass.

Section StreamRecv.
Import StreamRecvInterface.
Lemma sri_recv i d0 l0 n0 d l : sri_is i STATE_NONE d0 l0 n0 → 0 < l →
  ∃ i', exec (Receiver_Recv d l) i = Some i' ∧ sri_is i' STATE_OPERATION_PENDING d l n0.
Proof.
  intros (d' & l' & n' & -> & _ & _) H. unfold exec, Receiver_Recv, mbind, M_bind, get, ASSERT. cbn -[Z.ltb].
  rewrite (proj2 (Z.ltb_lt 0 l)) by lia. eexists. split; [reflexivity|]. by do 3 eexists.
Qed.
Lemma sri_operation i d l n : sri_is i STATE_OPERATION_PENDING d l n →
  ∃ i', fire run_job_operation i = Some (i', [CallOperation d l]) ∧ sri_is i' STATE_BUSY d l n.
Proof. intros (d' & l' & n' & -> & [-> ->] & _); [done|]. eexists. split; [reflexivity|]. by do 3 eexists. Qed.
Lemma sri_done i d l n0 n : sri_is i STATE_BUSY d l n0 → 0 < n ≤ l →
  ∃ i', exec (Done n) i = Some i' ∧ sri_is i' STATE_DONE_PENDING d l n.
Proof.
  intros (d' & l' & n' & -> & [-> ->] & _) H; [done|]. unfold exec, Done, mbind, M_bind, get, ASSERT. cbn -[Z.ltb Z.leb].
  rewrite (proj2 (Z.ltb_lt 0 n)), (proj2 (Z.leb_le n l)) by lia. eexists. split; [reflexivity|]. by do 3 eexists.
Qed.
Lemma sri_finished i d l n : sri_is i STATE_DONE_PENDING d l n →
  ∃ i', fire run_job_done i = Some (i', [CallDone n]) ∧ sri_is i' STATE_NONE d l n.
Proof. intros (d' & l' & n' & -> & _ & ->); [|done]. eexists. split; [reflexivity|]. by do 3 eexists. Qed.
Lemma sri_init junk d l n : ∃ i, exec Receiver_Init (Init junk) = Some i ∧ sri_is i STATE_NONE d l n.
Proof. eexists. split; [reflexivity|]. by do 3 eexists. Qed.
Lemma sri_jobs i st d l n : sri_is i st d l n → job_operation i = in_state st STATE_OPERATION_PENDING ∧
  job_done i = in_state st STATE_DONE_PENDING ∧ state i = st ∧
  (active st = true → job_operation_data i = d ∧ job_operation_len i = l).
Proof. by intros (d' & l' & n' & -> & H & _). Qed.
Lemma sri_any i st d l n d' l' n' : sri_is i st d l n → st = STATE_NONE → sri_is i st d' l' n'.
Proof. intros (x & y & z & -> & _) ->. by exists x, y, z. Qed.
End StreamRecv.

Section PacketRecv.
Import PacketRecvInterface.
Lemma pri_recv i m d0 n0 d : pri_is i m STATE_NONE d0 n0 →
  ∃ i', exec (Receiver_Recv d) i = Some i' ∧ pri_is i' m STATE_OPERATION_PENDING d n0.
Proof. intros (d' & n' & -> & _ & _). eexists. split; [reflexivity|]. by do 2 eexists. Qed.
Lemma pri_operation i m d n : pri_is i m STATE_OPERATION_PENDING d n →
  ∃ i', fire run_job_operation i = Some (i', [CallRecv d]) ∧ pri_is i' m STATE_BUSY d n.
Proof. intros (d' & n' & -> & -> & _); [|done]. eexists. split; [reflexivity|]. by do 2 eexists. Qed.
Lemma pri_done i m d n0 n : pri_is i m STATE_BUSY d n0 → 0 ≤ n ≤ m →
  ∃ i', exec (Done n) i = Some i' ∧ pri_is i' m STATE_DONE_PENDING d n.
Proof.
  intros (d' & n' & -> & _ & _) H. unfold exec, Done, mbind, M_bind, get, ASSERT. cbn -[Z.leb].
  rewrite (proj2 (Z.leb_le 0 n)), (proj2 (Z.leb_le n m)) by lia. eexists. split; [reflexivity|]. by do 2 eexists.
Qed.
Lemma pri_finished i m d n : pri_is i m STATE_DONE_PENDING d n →
  ∃ i', fire run_job_done i = Some (i', [CallDone n]) ∧ pri_is i' m STATE_NONE d n.
Proof. intros (d' & n' & -> & _ & ->); [|done]. eexists. split; [reflexivity|]. by do 2 eexists. Qed.
Lemma pri_init m junk d n : 0 ≤ m →
  ∃ i, Init m junk = Some i ∧ mtu i = m ∧ ∃ i', exec Receiver_Init i = Some i' ∧ pri_is i' m STATE_NONE d n.
Proof.
  intros H. unfold Init. rewrite (proj2 (Z.leb_le 0 m)) by lia. eexists. split; [reflexivity|]. split; [done|].
  eexists. split; [reflexivity|]. by do 2 eexists.
Qed.
Lemma pri_jobs i m st d n : pri_is i m st d n → job_operation i = in_state st STATE_OPERATION_PENDING ∧
  job_done i = in_state st STATE_DONE_PENDING ∧ state i = st ∧ mtu i = m ∧ (active st = true → job_operation_data i = d).
Proof. by intros (d' & n' & -> & H & _). Qed.
Lemma pri_any i m st d n d' n' : pri_is i m st d n → st = STATE_NONE → pri_is i m st d' n'.
Proof. intros (x & y & -> & _) ->. by exists x, y. Qed.
End PacketRecv.

Section Protocol.
Import PacketPassInterface.

(** What the two sides and the event loop do with an interface. *)
Inductive pev := USend (data len : Z) | UCancel | PDone | JOperation | JRequestCancel | JDone.
Definition pev_run (e : pev) : IM () :=
  match e with
  | USend data len => Sender_Send data len
  | UCancel => Sender_RequestCancel
  | PDone => Done
  | JOperation => run_job_operation
  | JRequestCancel => run_job_requestcancel
  | JDone => run_job_done
  end.

(** The operation as the two sides see it, from their calls alone: the user has
    asked for a packet to be sent ([Asked], with whether it cancelled since), the
    provider works on it ([Working], with whether it was cancelled and whether the provider was told), or the
    provider has finished ([Finished]). *)
Inductive phase :=
| Idle | Asked (data len : Z) (cancelled : bool) | Working (cancelled told : bool) | Finished.
Inductive look := LUser (e : pev) | LCall (c : icall).

(** The phase after a step, or [None] for a step that breaks the protocol. *)
Definition advance (ph : phase) (l : look) : option phase :=
  match ph, l with
  | Idle, LUser (USend d n) => Some (Asked d n false)
  | Asked d n _, LUser UCancel => Some (Asked d n true)
  | Asked d n false, LCall (CallOperation d' n') =>
      if (d =? d') && (n =? n') then Some (Working false false) else None
  | Asked _ _ true, LCall CallSent => Some Idle
  | Working _ told, LUser UCancel => Some (Working true told)
  | Working true false, LCall CallRequestCancel => Some (Working true true)
  | Working _ _, LUser PDone => Some Finished
  | Finished, LUser UCancel => Some Finished
  | Finished, LCall CallSent => Some Idle
  | _, _ => None
  end.
Definition advances : phase → list look → option phase :=
  foldl (λ ph l, ph ≫= λ ph, advance ph l) ∘ Some.

(** The interface with the phase.  The user keeps to one operation at a time, within
    the MTU, and cancels only where the provider allows it; the provider finishes
    only what it works on; a job runs only when it is set. *)
Definition pallowed (i : t) (ph : phase) (e : pev) : bool :=
  match e with
  | USend _ len => match ph with Idle => (0 <=? len) && (len <=? mtu i) | _ => false end
  | UCancel => match ph with Idle => false | _ => handler_requestcancel i end
  | PDone => match ph with Working _ _ => true | _ => false end
  | JOperation => job_operation i
  | JRequestCancel => job_requestcancel i
  | JDone => job_done i
  end.
Definition looks (e : pev) (acts : list icall) : list look :=
  match e with USend _ _ | UCancel | PDone => [LUser e] | _ => [] end ++ (LCall <$> acts).
Definition pstep (s : t * phase) (e : pev) : option (t * phase) :=
  match pev_run e s.1 with
  | Some (_, i, acts) => ph ← advances s.2 (looks e acts); Some (i, ph)
  | None => None
  end.
Definition pmoves (s s' : t * phase) : Prop := ∃ e, pallowed s.1 s.2 e = true ∧ pstep s e = Some s'.

Definition pagrees (i : t) (ph : phase) : Prop :=
  ppi_wf i ∧ match ph with
  | Idle => state i = STATE_NONE
  | Asked d n false => state i = STATE_OPERATION_PENDING ∧ job_operation_data i = d ∧ job_operation_len i = n ∧
      cancel_requested i = false
  | Asked _ _ true => state i = STATE_DONE_PENDING ∧ cancel_requested i = true
  | Working c told => state i = STATE_BUSY ∧ cancel_requested i = c ∧
      job_requestcancel i = c && negb told ∧ (told = true → c = true)
  | Finished => state i = STATE_DONE_PENDING
  end.

(** Runs the operation, then finds the phase it leads to. *)
Ltac prun := repeat first [wp_assert | wp_step; simpl]; simpl in *; try congruence;
  eexists; (split; [cbn; rewrite ?Z.eqb_refl; reflexivity|]); (split; [split|]); simpl;
  intuition (reflexivity || congruence).
Lemma pev_run_ok i ph e : pagrees i ph → pallowed i ph e = true →
  wp (pev_run e) i (λ _ i' acts, ∃ ph', advances ph (looks e acts) = Some ph' ∧ pagrees i' ph').
Proof.
  destruct i as [m hc hd jo d n jc jd st cr]. intros [[Hu Ho Hd Hc] Hp] He. simpl in *. subst hd jo jd.
  destruct e; simpl in He.
  - destruct ph; try done. subst. apply andb_true_iff in He as [H0 H1]. unfold pev_run, Sender_Send. prun.
  - unfold pev_run, Sender_RequestCancel. destruct ph as [|? ? []|[] []|]; try done; destruct_and?; subst;
    try match goal with H : true = true → false = true |- _ => discriminate (H eq_refl) end; prun.
  - unfold pev_run, Done. destruct ph as [|? ? []|[] []|]; try done; destruct_and?; subst; prun.
  - apply bool_decide_eq_true in He. unfold pev_run, run_job_operation.
    destruct ph as [|? ? []|c told|]; destruct_and?; subst; try congruence.
    destruct jc; [destruct (Hc eq_refl); congruence|]. prun.
  - destruct (Hc He) as (Est & Ecr & Ehc). unfold pev_run, run_job_requestcancel.
    destruct ph as [|? ? []|[] []|]; destruct_and?; subst; try done; prun.
  - apply bool_decide_eq_true in He. unfold pev_run, run_job_done.
    destruct ph as [|? ? []|c told|]; destruct_and?; subst; try congruence; prun.
Qed.
Lemma pstep_ok i ph e : pagrees i ph → pallowed i ph e = true →
  ∃ s', pstep (i, ph) e = Some s' ∧ pagrees s'.1 s'.2.
Proof.
  intros H He. pose proof (pev_run_ok i ph e H He) as Hr. apply wp_some in Hr as (? & i' & acts & E & ph' & Ea & H').
  unfold pstep. simpl. rewrite E, Ea. simpl. eauto.
Qed.

Lemma pmoves_agrees s s' : pagrees s.1 s.2 → rtc pmoves s s' → pagrees s'.1 s'.2.
Proof.
  intros H Hr. induction Hr as [|[i ph] s1 s2 (e & He & E) _ IH]; [done|]. apply IH.
  destruct (pstep_ok i ph e H He) as (s' & E' & H'). rewrite E' in E. by injection E as <-.
Qed.
(** An interface whose provider allows cancelling or not ([c]), with its user. *)
Definition pready (c : bool) (m : Z) (junk : t) : option t :=
  i ← Init m junk;
  exec (when c EnableCancel;; Sender_Init) i.
Lemma pready_ok c m junk : 0 ≤ m → ∃ i, pready c m junk = Some i ∧ mtu i = m ∧ handler_requestcancel i = c ∧ pagrees i Idle.
Proof.
  intros Hm. unfold pready, Init. rewrite (proj2 (Z.leb_le 0 m)) by lia. destruct c; cbn; eexists; (split; [reflexivity|]); by repeat split.
Qed.

(** The protocol of an interface.  Whatever was in its memory, an initialised
    interface passes, in every interleaving of the user's and the provider's calls
    with the jobs, only steps of the protocol, and no assertion fails: every packet
    is handed to the provider at most once, with the pointer and length the user
    gave; the user is told that it is done exactly once, after the provider has
    finished or, if the user cancelled in time, without the provider having seen
    it; and the provider is told of a cancellation at most once and only while it
    works.  Whenever it is the interface's turn, a job is set, so nothing is lost. *)
Theorem interface_protocol c m junk : 0 ≤ m →
  ∃ i0, pready c m junk = Some i0 ∧ ∀ i ph, rtc pmoves (i0, Idle) (i, ph) →
    (∀ e, pallowed i ph e = true → is_Some (pstep (i, ph) e)) ∧
    match ph with
    | Idle => job_operation i = false ∧ job_requestcancel i = false ∧ job_done i = false
    | Asked _ _ false => job_operation i = true
    | Asked _ _ true | Finished => job_done i = true
    | Working cancelled told => job_requestcancel i = cancelled && negb told ∧ job_done i = false
    end.
Proof.
  intros Hm. destruct (pready_ok c m junk Hm) as (i0 & E & _ & _ & H0). exists i0. split; [done|]. intros i ph Hr.
  destruct (pmoves_agrees (i0, Idle) (i, ph) H0 Hr) as [Hw Hp]. simpl in *. split.
  { intros e He. destruct (pstep_ok i ph e (conj Hw Hp) He) as (? & -> & _). eauto. }
  destruct Hw as [_ Ho Hd Hc]. destruct ph as [|? ? []|cn told|]; rewrite ?Ho, ?Hd; destruct_and?;
    repeat match goal with H : state _ = _ |- _ => rewrite H in * end; try done.
  split_and!; try done. destruct (job_requestcancel i); [by destruct (Hc eq_refl)|done].
Qed.

(** *** Example: a packet is cancelled while the provider works on it *)
Fixpoint pdrive (es : list pev) (s : t * phase) : option (t * phase) :=
  match es with
  | [] => Some s
  | e :: es => if pallowed s.1 s.2 e then s ← pstep s e; pdrive es s else None
  end.
Lemma pdrive_reaches es s s' : pdrive es s = Some s' → rtc pmoves s s'.
Proof.
  revert s. induction es as [|e es IH]; simpl; intros s; [by intros [= ->]; constructor|].
  destruct (pallowed _ _ e) eqn:He; [|done]. destruct (pstep s e) as [s1|] eqn:E; [|done]. simpl. intros H.
  eapply rtc_l; [by exists e|]. by apply IH.
Qed.
Definition junk0 : t := mk_t 7 true true true 1 2 true true STATE_BUSY true.
Definition ex_cancel : list pev := [USend 40 5; JOperation; UCancel; JRequestCancel; UCancel; PDone; JDone; USend 0 9; UCancel].
Lemma interface_protocol_witness :
  match pready true 9 junk0 ≫= λ i, pdrive ex_cancel (i, Idle) with
  | Some (i, ph) => ph = Asked 0 9 true ∧ job_done i = true
  | None => False
  end.
Proof.
  destruct (interface_protocol true 9 junk0 ltac:(lia)) as (i0 & E & H).
  assert (Hd : match pready true 9 junk0 ≫= λ i, pdrive ex_cancel (i, Idle) with
    | Some (_, ph) => ph = Asked 0 9 true | None => False end) by (vm_compute; reflexivity).
  rewrite E in *. cbn -[pdrive] in *. destruct (pdrive ex_cancel (i0, Idle)) as [[i ph]|] eqn:Er; [|exact Hd].
  split; [exact Hd|]. pose proof (proj2 (H i ph (pdrive_reaches _ _ _ Er))) as Hj. rewrite Hd in Hj. exact Hj.
Defined.
End Protocol.
