(* ===== verification/ByteOrder.v ===== *)
(** * Integers in memory: misc/byteorder.h, misc/read_write_int.h,
      misc/compare.h, misc/bsize.h and misc/balign.h *)
From stdpp Require Import base list numbers.
From Stdlib Require Import ZArith Lia.
From S2P Require Import Prelude.
#[local] Open Scope Z_scope.

(** ** Byte access *)

(** [ptr[off]] *)
Definition byte_at (l : bytes) (off : Z) : Z := nth (Z.to_nat off) l 0.

(** The in-memory representation of [uint16_t] and [uint32_t] on the
    little-endian target ([BADVPN_LITTLE_ENDIAN]): what [memcpy] of a packed
    struct field writes and reads. *)
Definition store16 (x : Z) : bytes := [u8 x; u8 (Z.shiftr x 8)].
Definition store32 (x : Z) : bytes :=
  [u8 x; u8 (Z.shiftr x 8); u8 (Z.shiftr x 16); u8 (Z.shiftr x 24)].
Definition load16 (l : bytes) (off : Z) : Z :=
  Z.lor (byte_at l off) (Z.shiftl (byte_at l (off + 1)) 8).
Definition load32 (l : bytes) (off : Z) : Z :=
  Z.lor (Z.lor (byte_at l off) (Z.shiftl (byte_at l (off + 1)) 8))
        (Z.lor (Z.shiftl (byte_at l (off + 2)) 16) (Z.shiftl (byte_at l (off + 3)) 24)).

Definition badvpn_read_be16 (l : bytes) (off : Z) : Z :=
  Z.lor (Z.shiftl (byte_at l off) 8) (Z.shiftl (byte_at l (off + 1)) 0).

(** ** Byte order conversion *)

Definition badvpn_reverse16 (x : Z) : Z :=
  let m := store16 x in load16 [byte_at m 1; byte_at m 0] 0.
Definition badvpn_reverse32 (x : Z) : Z :=
  let m := store32 x in
  load32 [byte_at m 3; byte_at m 2; byte_at m 1; byte_at m 0] 0.

Definition hton8 (x : Z) : Z := u8 x.
Definition hton16 (x : Z) : Z := badvpn_reverse16 (u16 x).
Definition hton32 (x : Z) : Z := badvpn_reverse32 (u32 x).
Definition htol8 (x : Z) : Z := u8 x.
Definition htol16 (x : Z) : Z := u16 x.
Definition ntoh8 (x : Z) : Z := hton8 x.
Definition ntoh16 (x : Z) : Z := hton16 x.
Definition ntoh32 (x : Z) : Z := hton32 x.
Definition ltoh8 (x : Z) : Z := htol8 x.
Definition ltoh16 (x : Z) : Z := htol16 x.

(** ** [B_COMPARE] *)

Definition B_COMPARE (a b : Z) : Z := Z.b2z (b <? a) - Z.b2z (a <? b).

(** ** Sizes with overflow detection (misc/bsize.h) *)

Record bsize_t := mk_bsize { is_overflow : bool; bvalue : Z }.

Definition size_t (x : Z) : Z := u64 x.

Definition bsize_fromsize (v : Z) : bsize_t := mk_bsize false v.
Definition bsize_fromint (v : Z) : bsize_t :=
  mk_bsize ((v <? 0) || (SIZE_MAX <? v)) (size_t v).
Definition bsize_toint (s : bsize_t) : option Z :=
  if is_overflow s || (INT_MAX <? bvalue s) then None else Some (bvalue s).
Definition bsize_add (s1 s2 : bsize_t) : bsize_t :=
  mk_bsize (is_overflow s1 || is_overflow s2 || (SIZE_MAX - bvalue s1 <? bvalue s2))
           (size_t (bvalue s1 + bvalue s2)).
Definition bsize_max (s1 s2 : bsize_t) : bsize_t :=
  mk_bsize (is_overflow s1 || is_overflow s2)
           (Z.b2z (bvalue s2 <? bvalue s1) * bvalue s1 +
            Z.b2z (bvalue s1 <=? bvalue s2) * bvalue s2).
Definition bsize_mul (s1 s2 : bsize_t) : bsize_t :=
  mk_bsize (is_overflow s1 || is_overflow s2 ||
            (negb (bvalue s1 =? 0) && (SIZE_MAX / bvalue s1 <? bvalue s2)))
           (size_t (bvalue s1 * bvalue s2)).

(** ** Rounded division (misc/balign.h) *)

Definition bdivide_up (a b : Z) : Z :=
  let r := a mod b in if 0 <? r then a / b + 1 else a / b.

#[global] Arguments hton16 : simpl never.
#[global] Arguments hton32 : simpl never.
#[global] Arguments ntoh16 : simpl never.
#[global] Arguments ntoh32 : simpl never.
#[global] Arguments badvpn_reverse16 : simpl never.
#[global] Arguments badvpn_reverse32 : simpl never.
#[global] Arguments badvpn_read_be16 : simpl never.
#[global] Arguments load16 : simpl never.
#[global] Arguments load32 : simpl never.
#[global] Arguments B_COMPARE : simpl never.

(** ** Lemmas *)

Lemma byte_at_ok l off : bytes_ok l → is_u8 (byte_at l off).
Proof.
  intros H. unfold byte_at.
  destruct (decide (Z.to_nat off < length l)%nat).
  - eapply Forall_forall; [exact H|]. by apply nth_In.
  - rewrite nth_overflow by lia. unfold is_u8. lia.
Qed.
#[export] Hint Resolve byte_at_ok : badvpn.

(** A disjoint [or] is an addition. *)
Lemma land_disjoint a b n : 0 ≤ n → 0 ≤ a < 2 ^ n → Z.land a (Z.shiftl b n) = 0.
Proof.
  intros Hn Ha. apply Z.bits_inj'. intros i Hi.
  rewrite Z.land_spec, Z.bits_0, Z.shiftl_spec by lia.
  destruct (Z.ltb_spec i n).
  - rewrite (Z.testbit_neg_r b) by lia. apply andb_false_r.
  - rewrite (Z.testbit_eqb a) by lia.
    rewrite Z.div_small; [reflexivity|]. split; [lia|].
    apply Z.lt_le_trans with (2 ^ n); [lia|]. apply Z.pow_le_mono_r; lia.
Qed.

Lemma lor_shiftl_add a b n :
  0 ≤ n → 0 ≤ a < 2 ^ n → Z.lor a (Z.shiftl b n) = a + b * 2 ^ n.
Proof.
  intros Hn Ha. rewrite <- Z.shiftl_mul_pow2 by lia.
  rewrite <- Z.lxor_lor by (by apply land_disjoint).
  symmetry. apply Z.add_nocarry_lxor. by apply land_disjoint.
Qed.

Lemma load16_eq l off : bytes_ok l →
  load16 l off = byte_at l off + byte_at l (off + 1) * 256.
Proof.
  intros H. unfold load16.
  rewrite lor_shiftl_add; [done|lia|]. apply byte_at_ok; done.
Qed.

Lemma badvpn_read_be16_eq l off : bytes_ok l →
  badvpn_read_be16 l off = byte_at l off * 256 + byte_at l (off + 1).
Proof.
  intros H. unfold badvpn_read_be16. rewrite Z.shiftl_0_r, Z.lor_comm.
  rewrite lor_shiftl_add; [lia|lia|]. apply byte_at_ok; done.
Qed.

Lemma load32_eq l off : bytes_ok l →
  load32 l off = byte_at l off + byte_at l (off + 1) * 2 ^ 8
    + byte_at l (off + 2) * 2 ^ 16 + byte_at l (off + 3) * 2 ^ 24.
Proof.
  intros H. unfold load32.
  pose proof (byte_at_ok l off H). pose proof (byte_at_ok l (off + 1) H).
  pose proof (byte_at_ok l (off + 2) H). pose proof (byte_at_ok l (off + 3) H).
  unfold is_u8 in *.
  rewrite (lor_shiftl_add _ _ 8) by lia.
  replace (Z.lor (Z.shiftl (byte_at l (off + 2)) 16) (Z.shiftl (byte_at l (off + 3)) 24))
    with (Z.shiftl (Z.lor (byte_at l (off + 2)) (Z.shiftl (byte_at l (off + 3)) 8)) 16).
  2: { by rewrite Z.shiftl_lor, Z.shiftl_shiftl by lia. }
  rewrite (lor_shiftl_add (byte_at l (off + 2)) _ 8) by lia.
  rewrite lor_shiftl_add by lia. lia.
Qed.

(** Bytes of a stored word. *)
Lemma u8_shiftr x n : 0 ≤ n → u8 (Z.shiftr x n) = x / 2 ^ n mod 256.
Proof. intros. unfold u8. by rewrite Z.shiftr_div_pow2. Qed.

Lemma store16_ok x : bytes_ok (store16 x).
Proof. repeat constructor; apply u8_range. Qed.
Lemma store32_ok x : bytes_ok (store32 x).
Proof. repeat constructor; apply u8_range. Qed.
#[export] Hint Resolve store16_ok store32_ok : badvpn.

Lemma load16_store16 x : is_u16 x → load16 (store16 x) 0 = x.
Proof.
  intros Hx. rewrite load16_eq by apply store16_ok.
  unfold byte_at, store16. simpl nth.
  rewrite u8_shiftr by lia. unfold u8, is_u16 in *.
  change (2 ^ 8) with 256. rewrite (Z.mod_small (x / 256)) by (split; [apply Z.div_pos|apply Z.div_lt_upper_bound]; lia).
  pose proof (Z.div_mod x 256). lia.
Qed.

Lemma load32_store32 x : is_u32 x → load32 (store32 x) 0 = x.
Proof.
  intros Hx. rewrite load32_eq by apply store32_ok.
  unfold byte_at, store32. simpl nth. rewrite !u8_shiftr by lia. unfold u8, is_u32 in *.
  change (2 ^ 32) with 4294967296 in *. change (2 ^ 24) with 16777216.
  change (2 ^ 16) with 65536. change (2 ^ 8) with 256.
  Z.div_mod_to_equations. lia.
Qed.

Lemma store16_load16 l off a b : bytes_ok l →
  byte_at l off = a → byte_at l (off + 1) = b → store16 (load16 l off) = [a; b].
Proof.
  intros H <- <-. unfold store16. rewrite load16_eq by done.
  pose proof (byte_at_ok l off H). pose proof (byte_at_ok l (off + 1) H).
  unfold is_u8 in *. rewrite u8_shiftr by lia. unfold u8. change (2 ^ 8) with 256.
  rewrite Z.mod_add, Z.mod_small by lia.
  rewrite Z.div_add, Z.div_small, Z.add_0_l, Z.mod_small by lia. done.
Qed.

(** Reversal exchanges the bytes: it is an involution on 16-bit words. *)
Lemma badvpn_reverse16_eq x :
  badvpn_reverse16 x = u8 (Z.shiftr x 8) + u8 x * 256.
Proof.
  unfold badvpn_reverse16. rewrite load16_eq; [done|].
  repeat constructor; unfold byte_at, store16; simpl; apply u8_range.
Qed.

Lemma reverse16_range x : is_u16 (badvpn_reverse16 x).
Proof.
  rewrite badvpn_reverse16_eq.
  pose proof (u8_range x). pose proof (u8_range (Z.shiftr x 8)).
  unfold is_u8, is_u16 in *. lia.
Qed.

Lemma hton16_range x : is_u16 (hton16 x).
Proof. apply reverse16_range. Qed.
#[export] Hint Resolve reverse16_range hton16_range : badvpn.

Lemma store16_reverse16 x : is_u16 x →
  store16 (badvpn_reverse16 x) = [x / 256; x mod 256].
Proof.
  intros Hx. rewrite badvpn_reverse16_eq. unfold store16.
  pose proof (u8_range x) as Hb. unfold is_u8, is_u16 in *.
  rewrite !u8_shiftr by lia. unfold u8 in *. change (2 ^ 8) with 256 in *.
  assert (0 ≤ x / 256 < 256) by (split; [apply Z.div_pos|apply Z.div_lt_upper_bound]; lia).
  rewrite (Z.mod_small (x / 256)) by lia.
  rewrite Z.mod_add, (Z.mod_small (x / 256)) by lia.
  rewrite Z.div_add, (Z.div_small (x / 256)), Z.add_0_l, (Z.mod_small (x mod 256)) by lia.
  done.
Qed.

Lemma hton16_u16 x : hton16 (u16 x) = hton16 x.
Proof. unfold hton16. f_equal. unfold u16. rewrite Z.mod_mod; lia. Qed.

Lemma reverse16_involutive x : is_u16 x → badvpn_reverse16 (badvpn_reverse16 x) = x.
Proof.
  intros Hx.
  transitivity (load16 (store16 x) 0); [|by apply load16_store16].
  unfold badvpn_reverse16 at 1. rewrite store16_reverse16 by done.
  unfold byte_at at 1 2. simpl nth. unfold store16.
  unfold is_u16, u8 in *. change (2 ^ 8) with 256. rewrite Z.shiftr_div_pow2 by lia.
  change (2 ^ 8) with 256. by rewrite (Z.mod_small (x / 256))
    by (split; [apply Z.div_pos|apply Z.div_lt_upper_bound]; lia).
Qed.

(** [ntoh16] undoes [hton16]. *)
Lemma ntoh16_hton16 x : is_u16 x → ntoh16 (hton16 x) = x.
Proof.
  intros Hx. unfold ntoh16, hton16.
  rewrite (u16_id x), (u16_id (badvpn_reverse16 x)) by auto with badvpn.
  by apply reverse16_involutive.
Qed.

Lemma store16_hton16 x : is_u16 x → store16 (hton16 x) = [x / 256; x mod 256].
Proof. intros. unfold hton16. rewrite u16_id by done. by apply store16_reverse16. Qed.

(** Reading a big-endian word through the host representation. *)
Lemma ntoh16_load16 l off : bytes_ok l → ntoh16 (load16 l off) = badvpn_read_be16 l off.
Proof.
  intros H. rewrite badvpn_read_be16_eq by done. unfold ntoh16, hton16.
  pose proof (byte_at_ok l off H) as H0. pose proof (byte_at_ok l (off + 1) H) as H1.
  rewrite load16_eq by done. unfold is_u8 in *.
  rewrite u16_id by (unfold is_u16; lia). rewrite badvpn_reverse16_eq, u8_shiftr by lia.
  unfold u8. change (2 ^ 8) with 256.
  rewrite Z.div_add, Z.div_small, Z.add_0_l, Z.mod_small by lia.
  rewrite Z.mod_add, Z.mod_small by lia. lia.
Qed.

Lemma badvpn_reverse32_eq x :
  badvpn_reverse32 x = u8 (Z.shiftr x 24) + u8 (Z.shiftr x 16) * 2 ^ 8
    + u8 (Z.shiftr x 8) * 2 ^ 16 + u8 x * 2 ^ 24.
Proof.
  unfold badvpn_reverse32. rewrite load32_eq; [done|].
  repeat constructor; unfold byte_at, store32; simpl; apply u8_range.
Qed.

Lemma reverse32_range x : is_u32 (badvpn_reverse32 x).
Proof.
  rewrite badvpn_reverse32_eq.
  pose proof (u8_range x). pose proof (u8_range (Z.shiftr x 8)).
  pose proof (u8_range (Z.shiftr x 16)). pose proof (u8_range (Z.shiftr x 24)).
  unfold is_u8, is_u32 in *. lia.
Qed.

(** The bytes of an assembled word are the bytes it was assembled from. *)
Lemma store32_bytes a b c d : is_u8 a → is_u8 b → is_u8 c → is_u8 d →
  store32 (a + b * 2 ^ 8 + c * 2 ^ 16 + d * 2 ^ 24) = [a; b; c; d].
Proof.
  unfold is_u8. intros Ha Hb Hc Hd. unfold store32. rewrite !u8_shiftr by lia. unfold u8.
  change (2 ^ 24) with 16777216. change (2 ^ 16) with 65536. change (2 ^ 8) with 256 in *.
  f_equal; [|f_equal; [|f_equal; [|f_equal]]]; Z.div_mod_to_equations; lia.
Qed.

Lemma reverse32_involutive x : is_u32 x → badvpn_reverse32 (badvpn_reverse32 x) = x.
Proof.
  intros Hx. rewrite <- (load32_store32 x) at 2 by done.
  unfold badvpn_reverse32 at 1. rewrite badvpn_reverse32_eq.
  rewrite store32_bytes by apply u8_range. done.
Qed.

(** Conversion to host order is injective on words of the right width. *)
Lemma ntoh16_inj x y : is_u16 x → is_u16 y → ntoh16 x = ntoh16 y → x = y.
Proof.
  unfold ntoh16, hton16. intros Hx Hy. rewrite !u16_id by done. intros E.
  rewrite <- (reverse16_involutive x), <- (reverse16_involutive y) by done. congruence.
Qed.
Lemma ntoh32_inj x y : is_u32 x → is_u32 y → ntoh32 x = ntoh32 y → x = y.
Proof.
  unfold ntoh32, hton32. intros Hx Hy. rewrite !u32_id by done. intros E.
  rewrite <- (reverse32_involutive x), <- (reverse32_involutive y) by done. congruence.
Qed.

Lemma B_COMPARE_spec a b :
  (B_COMPARE a b = 0 ↔ a = b) ∧ (B_COMPARE a b = -1 ↔ a < b) ∧ (B_COMPARE a b = 1 ↔ b < a).
Proof.
  unfold B_COMPARE. destruct (Z.ltb_spec b a), (Z.ltb_spec a b); simpl; lia.
Qed.

Lemma bdivide_up_spec a b : 0 ≤ a → 0 < b →
  b * (bdivide_up a b - 1) < a ∨ (a = 0 ∧ bdivide_up a b = 0).
Proof.
  intros. unfold bdivide_up. pose proof (Z.div_mod a b). pose proof (Z.mod_pos_bound a b).
  destruct (Z.ltb_spec 0 (a mod b)); [left; nia|].
  destruct (decide (a = 0)) as [->|]; [right; split; [done|apply Z.div_0_l; lia]|left; nia].
Qed.

Lemma bdivide_up_ge a b : 0 ≤ a → 0 < b → a ≤ b * bdivide_up a b.
Proof.
  intros. unfold bdivide_up. pose proof (Z.div_mod a b). pose proof (Z.mod_pos_bound a b).
  destruct (Z.ltb_spec 0 (a mod b)); nia.
Qed.

(** ** Reads through a slice *)

Lemma byte_at_read_at l off len i : 0 ≤ off → 0 ≤ i < len →
  byte_at (read_at off len l) i = byte_at l (off + i).
Proof.
  intros. unfold byte_at, read_at. rewrite !nth_lookup, lookup_take, lookup_drop.
  rewrite Z2Nat.inj_add by lia. rewrite decide_True by lia. done.
Qed.

Lemma byte_at_app_l l k i : 0 ≤ i < zlen l → byte_at (l ++ k) i = byte_at l i.
Proof.
  intros. unfold byte_at. rewrite app_nth1; [done|]. unfold zlen in *. lia.
Qed.

Lemma load16_read_at l off len i : 0 ≤ off → 0 ≤ i → i + 1 < len →
  load16 (read_at off len l) i = load16 l (off + i).
Proof.
  intros. unfold load16. rewrite !byte_at_read_at by lia. by rewrite Z.add_assoc.
Qed.

Lemma load16_app_l l k i : 0 ≤ i → i + 1 < zlen l → load16 (l ++ k) i = load16 l i.
Proof. intros. unfold load16. by rewrite !byte_at_app_l by lia. Qed.

Lemma load16_range l i : bytes_ok l → is_u16 (load16 l i).
Proof.
  intros H. rewrite load16_eq by done.
  pose proof (byte_at_ok l i H). pose proof (byte_at_ok l (i + 1) H).
  unfold is_u8, is_u16 in *. lia.
Qed.

(** ** Sizes that do not overflow *)

Lemma size_t_id x : 0 ≤ x ≤ SIZE_MAX → size_t x = x.
Proof. intros H. unfold size_t, u64, SIZE_MAX in *. apply Z.mod_small. lia. Qed.

Lemma bsize_add_ok a b : 0 ≤ a → 0 ≤ b → a + b ≤ SIZE_MAX →
  bsize_add (mk_bsize false a) (mk_bsize false b) = mk_bsize false (a + b).
Proof.
  intros. unfold bsize_add; simpl. destruct (Z.ltb_spec (SIZE_MAX - a) b); [lia|].
  f_equal. apply size_t_id. lia.
Qed.

Lemma bsize_mul_ok a b : 0 ≤ a → 0 ≤ b → a * b ≤ SIZE_MAX →
  bsize_mul (mk_bsize false a) (mk_bsize false b) = mk_bsize false (a * b).
Proof.
  intros Ha Hb H. unfold bsize_mul; simpl. f_equal; [|apply size_t_id; nia].
  destruct (Z.eqb_spec a 0); [done|]. simpl. apply Z.ltb_ge.
  apply Z.div_le_lower_bound; lia.
Qed.

Lemma bsize_max_ok a b :
  bsize_max (mk_bsize false a) (mk_bsize false b) = mk_bsize false (Z.max a b).
Proof.
  unfold bsize_max; simpl. f_equal.
  destruct (Z.ltb_spec b a), (Z.leb_spec a b); simpl; lia.
Qed.
