(* ===== verification/Addr.v ===== *)
(** * Addresses and their order: system/BAddr.h *)
From stdpp Require Import base list numbers.
From Stdlib Require Import ZArith Lia.
From S2P Require Import Prelude ByteOrder.
#[local] Open Scope Z_scope.

(** ** What an ordered structure asks of its comparator *)

(** The contract of a comparator (structure/BAVL.h: it must be functional and
    its order total), on the keys that satisfy [ok].  The trees are proved
    against this class, and the comparators of the clients are instances. *)
Class TotalCmp {K : Type} (ok : K → Prop) (cmp : K → K → Z) : Prop := {
  cmp_range a b : ok a → ok b → cmp a b = -1 ∨ cmp a b = 0 ∨ cmp a b = 1;
  cmp_eq a b : ok a → ok b → cmp a b = 0 ↔ a = b;
  cmp_antisym a b : ok a → ok b → cmp b a = - cmp a b;
  cmp_trans a b c : ok a → ok b → ok c → cmp a b = -1 → cmp b c = -1 → cmp a c = -1
}.

(** ** Data *)

Record packet_addr := mk_packet_addr {
  phys_proto : Z; interface_index : Z; header_type : Z; packet_type : Z;
  phys_addr : bytes
}.

(** [BAddr]: the [type] tag and the member of the union it selects.  Addresses
    and ports are kept in network byte order, as in the source. *)
Inductive BAddr :=
| BADDR_NONE
| BADDR_IPV4 (ip : Z) (port : Z)
| BADDR_IPV6 (ip : bytes) (port : Z)
| BADDR_PACKET (p : packet_addr).

(** An address without a port. *)
Inductive BIPAddr := BIPADDR_NONE | BIPADDR_IPV4 (ip : Z) | BIPADDR_IPV6 (ip : bytes).

#[export] Instance packet_addr_eq_dec : EqDecision packet_addr.
Proof. solve_decision. Defined.
#[export] Instance BAddr_eq_dec : EqDecision BAddr.
Proof. solve_decision. Defined.

Definition BADDR_TYPE_NONE : Z := 0.
Definition BADDR_TYPE_IPV4 : Z := 1.
Definition BADDR_TYPE_IPV6 : Z := 2.
Definition BADDR_TYPE_PACKET : Z := 5.

Definition addr_type (a : BAddr) : Z :=
  match a with
  | BADDR_NONE => BADDR_TYPE_NONE
  | BADDR_IPV4 _ _ => BADDR_TYPE_IPV4
  | BADDR_IPV6 _ _ => BADDR_TYPE_IPV6
  | BADDR_PACKET _ => BADDR_TYPE_PACKET
  end.

Definition BAddr_MakeIPv4 (ip port : Z) : BAddr := BADDR_IPV4 ip port.
Definition BAddr_MakeIPv6 (ip : bytes) (port : Z) : BAddr := BADDR_IPV6 (take 16 ip) port.
Definition BAddr_IsInvalid (a : BAddr) : bool := addr_type a =? BADDR_TYPE_NONE.

(** ** Comparison *)

(** [memcmp], up to the magnitude of its result. *)
Fixpoint memcmp (l k : bytes) : Z :=
  match l, k with
  | a :: l, b :: k => if B_COMPARE a b =? 0 then memcmp l k else B_COMPARE a b
  | _, _ => 0
  end.

Definition BAddr_Compare (addr1 addr2 : BAddr) : bool :=
  if negb (addr_type addr1 =? addr_type addr2) then false
  else match addr1, addr2 with
  | BADDR_IPV4 ip1 port1, BADDR_IPV4 ip2 port2 => (ip1 =? ip2) && (port1 =? port2)
  | BADDR_IPV6 ip1 port1, BADDR_IPV6 ip2 port2 => (memcmp ip1 ip2 =? 0) && (port1 =? port2)
  | _, _ => false
  end.

Definition BAddr_CompareOrder (addr1 addr2 : BAddr) : Z :=
  let cmp := B_COMPARE (addr_type addr1) (addr_type addr2) in
  if negb (cmp =? 0) then cmp
  else match addr1, addr2 with
  | BADDR_IPV4 ip1 port1, BADDR_IPV4 ip2 port2 =>
      let cmp := B_COMPARE (ntoh32 ip1) (ntoh32 ip2) in
      if negb (cmp =? 0) then cmp else B_COMPARE (ntoh16 port1) (ntoh16 port2)
  | BADDR_IPV6 ip1 port1, BADDR_IPV6 ip2 port2 =>
      let cmp := memcmp ip1 ip2 in
      if negb (cmp =? 0) then B_COMPARE cmp 0 else B_COMPARE (ntoh16 port1) (ntoh16 port2)
  | _, _ => 0
  end.

(** Addresses that the datagram code handles: an IPv4 or IPv6 address (or none)
    whose fields are within their C types. *)
Definition BAddr_ok (a : BAddr) : Prop :=
  match a with
  | BADDR_NONE => True
  | BADDR_IPV4 ip port => is_u32 ip ∧ is_u16 port
  | BADDR_IPV6 ip port => bytes_ok ip ∧ length ip = 16%nat ∧ is_u16 port
  | BADDR_PACKET _ => False
  end.

#[export] Instance BAddr_ok_dec a : Decision (BAddr_ok a).
Proof. destruct a; simpl; apply _. Defined.

Definition addr_is_ip (a : BAddr) : bool :=
  (addr_type a =? BADDR_TYPE_IPV4) || (addr_type a =? BADDR_TYPE_IPV6).

(** ** The order *)

(** [BAddr_CompareOrder] is the lexicographic order of these keys. *)
Definition addr_key (a : BAddr) : list Z :=
  match a with
  | BADDR_NONE => [0]
  | BADDR_IPV4 ip port => [1; ntoh32 ip; ntoh16 port]
  | BADDR_IPV6 ip port => 2 :: ip ++ [ntoh16 port]
  | BADDR_PACKET _ => [5]
  end.

Lemma B_COMPARE_cases a b :
  (a = b ∧ B_COMPARE a b = 0) ∨ (a < b ∧ B_COMPARE a b = -1) ∨ (b < a ∧ B_COMPARE a b = 1).
Proof. pose proof (B_COMPARE_spec a b). destruct (Z.lt_total a b) as [|[|]]; lia. Qed.

Ltac cmp_cases a b :=
  destruct (B_COMPARE_cases a b) as [[? ->]|[[? ->]|[? ->]]]; simpl.

Lemma memcmp_range l k : memcmp l k = -1 ∨ memcmp l k = 0 ∨ memcmp l k = 1.
Proof. revert k; induction l as [|a l IH]; intros [|b k]; simpl; auto. cmp_cases a b; auto. Qed.

Lemma memcmp_eq l k : length l = length k → memcmp l k = 0 ↔ l = k.
Proof.
  revert k; induction l as [|a l IH]; intros [|b k] Hl; simpl in *; try done.
  cmp_cases a b; [|split; [done|intros [= -> ->]; lia]..].
  rewrite IH by lia. subst. naive_solver.
Qed.

Lemma memcmp_antisym l k : memcmp k l = - memcmp l k.
Proof.
  revert k; induction l as [|a l IH]; intros [|b k]; simpl; try done.
  destruct (B_COMPARE_cases a b) as [[? E]|[[? E]|[? E]]];
    destruct (B_COMPARE_cases b a) as [[? E']|[[? E']|[? E']]]; rewrite E, E'; simpl; try lia.
  apply IH.
Qed.

Lemma memcmp_lt_cons a b l k :
  memcmp (a :: l) (b :: k) = -1 ↔ a < b ∨ (a = b ∧ memcmp l k = -1).
Proof. simpl. cmp_cases a b; lia. Qed.

Lemma memcmp_trans l k m :
  length l = length k → length k = length m →
  memcmp l k = -1 → memcmp k m = -1 → memcmp l m = -1.
Proof.
  revert k m; induction l as [|a l IH]; intros [|b k] [|c m] H1 H2; try done.
  rewrite !memcmp_lt_cons. intros [?|[-> ?]] [?|[-> ?]]; [left; lia..|].
  right; split; [done|]. apply (IH k); [by injection H1|by injection H2|done..].
Qed.

Lemma memcmp_app l k x y : length l = length k →
  memcmp (l ++ [x]) (k ++ [y]) = if memcmp l k =? 0 then B_COMPARE x y else memcmp l k.
Proof.
  revert k; induction l as [|a l IH]; intros [|b k] Hl; simpl in *; try done.
  - by cmp_cases x y.
  - cmp_cases a b; try done. apply IH; lia.
Qed.

#[local] Opaque ntoh16 ntoh32.

Lemma CompareOrder_key a b : BAddr_ok a → BAddr_ok b →
  BAddr_CompareOrder a b = memcmp (addr_key a) (addr_key b).
Proof.
  unfold BAddr_CompareOrder.
  destruct a as [|ip p|ip p|], b as [|ip' p'|ip' p'|]; simpl; intros Ha Hb; try done.
  - cmp_cases (ntoh32 ip) (ntoh32 ip'); [|reflexivity..]. by cmp_cases (ntoh16 p) (ntoh16 p').
  - rewrite memcmp_app by lia.
    destruct (memcmp_range ip ip') as [-> | [-> | ->]]; done.
Qed.

Lemma addr_key_inj a b : BAddr_ok a → BAddr_ok b → addr_key a = addr_key b → a = b.
Proof.
  destruct a as [|ip p|ip p|], b as [|ip' p'|ip' p'|]; simpl; try done; intros Ha Hb E;
    try (by injection E).
  - injection E as E1 E2. f_equal; [apply ntoh32_inj|apply ntoh16_inj]; tauto.
  - injection E as E. apply app_inj_tail in E as [-> E].
    f_equal. apply ntoh16_inj; tauto.
Qed.

#[export] Instance BAddr_CompareOrder_total : TotalCmp BAddr_ok BAddr_CompareOrder.
Proof.
  assert (Hlen : ∀ a b, BAddr_ok a → BAddr_ok b → addr_type a = addr_type b →
    length (drop 1 (addr_key a)) = length (drop 1 (addr_key b))).
  { intros [|ip p|ip p|] [|ip' p'|ip' p'|]; simpl; try done; intros.
    rewrite ?drop_0, !length_app; simpl; lia. }
  assert (Hty : ∀ a, BAddr_ok a → addr_key a = addr_type a :: drop 1 (addr_key a)).
  { intros [|? ?|? ?|]; done. }
  split.
  - intros a b Ha Hb. rewrite CompareOrder_key by done. apply memcmp_range.
  - intros a b Ha Hb. rewrite CompareOrder_key by done.
    split; [|intros ->; by apply memcmp_eq].
    intros E. assert (addr_type a = addr_type b) as Et.
    { revert E. rewrite (Hty a), (Hty b) by done. simpl.
      cmp_cases (addr_type a) (addr_type b); done. }
    apply addr_key_inj; [done..|]. apply memcmp_eq; [|done].
    rewrite (Hty a), (Hty b) by done. simpl. f_equal. auto.
  - intros a b Ha Hb. rewrite !CompareOrder_key by done. apply memcmp_antisym.
  - intros a b c Ha Hb Hc. rewrite !CompareOrder_key by done.
    rewrite (Hty a), (Hty b), (Hty c) by done. simpl.
    pose proof (Hlen a b Ha Hb). pose proof (Hlen b c Hb Hc).
    cmp_cases (addr_type a) (addr_type b); cmp_cases (addr_type b) (addr_type c);
      cmp_cases (addr_type a) (addr_type c); try lia.
    apply memcmp_trans; auto.
Qed.

(** [BAddr_Compare] decides equality of IP addresses. *)
Lemma BAddr_Compare_eq a b : BAddr_ok a → BAddr_ok b →
  BAddr_Compare a b = true ↔ a = b ∧ addr_is_ip a = true.
Proof.
  unfold BAddr_Compare.
  destruct a as [|ip p|ip p|], b as [|ip' p'|ip' p'|]; simpl; intros Ha Hb;
    try (split; [done|intros [[=] ?]]); try done.
  - rewrite andb_true_iff, !Z.eqb_eq. naive_solver.
  - rewrite andb_true_iff, !Z.eqb_eq, memcmp_eq by (destruct_and!; congruence). naive_solver.
Qed.

(** ** Properties *)

(** On IPv4, IPv6 and empty addresses [BAddr_CompareOrder] is a total order
    (three-valued, antisymmetric, transitive, zero exactly on equal addresses),
    the contract of the trees keyed by addresses, and [BAddr_Compare] holds
    exactly for equal IP addresses. *)
Theorem BAddr_order a b c :
  BAddr_ok a → BAddr_ok b → BAddr_ok c →
  (BAddr_CompareOrder a b = -1 ∨ BAddr_CompareOrder a b = 0 ∨ BAddr_CompareOrder a b = 1) ∧
  (BAddr_CompareOrder a b = 0 ↔ a = b) ∧
  BAddr_CompareOrder b a = - BAddr_CompareOrder a b ∧
  (BAddr_CompareOrder a b = -1 → BAddr_CompareOrder b c = -1 → BAddr_CompareOrder a c = -1) ∧
  (BAddr_Compare a b = true ↔ BAddr_CompareOrder a b = 0 ∧ addr_is_ip a = true).
Proof.
  intros Ha Hb Hc. split_and!.
  - by apply cmp_range.
  - by apply cmp_eq.
  - by apply cmp_antisym.
  - intros. by apply (cmp_trans a b c).
  - rewrite BAddr_Compare_eq by done. by rewrite (cmp_eq a b).
Qed.

Lemma BAddr_order_witness :
  BAddr_CompareOrder (BADDR_IPV4 16777343 13568) (BADDR_IPV6 (replicate 16 0) 0) = -1.
Proof.
  destruct (BAddr_order (BADDR_IPV4 16777343 13568) (BADDR_IPV6 (replicate 16 0) 0) BADDR_NONE)
    as ([H|[H|H]] & _); try exact H; try (apply (bool_decide_unpack _); vm_compute; exact I);
    vm_compute in H; discriminate H.
Defined.
