(* ===== verification/Inet.v ===== *)
(** * IPv4, IPv6 and UDP headers: misc/ipv4_proto.h, misc/ipv6_proto.h and
      misc/udp_proto.h

    Header structs are records of the integers the fields hold on the
    little-endian target; [*_bytes] is the packed in-memory image of a struct
    and [*_load] is [memcpy] from a buffer into it. *)
From stdpp Require Import base list numbers sets.
From Stdlib Require Import ZArith Lia.
From S2P Require Import Prelude ByteOrder.
#[local] Open Scope Z_scope.

(** ** Headers *)

Record ipv4_header := mk_ipv4_header {
  version4_ihl4 : Z; ds : Z; total_length : Z;
  identification : Z; flags3_fragmentoffset13 : Z;
  ttl : Z; protocol : Z; ip_checksum : Z;
  source_address : Z; destination_address : Z
}.
#[export] Instance eta_ipv4_header : Eta ipv4_header := λ h,
  mk_ipv4_header (version4_ihl4 h) (ds h) (total_length h) (identification h)
    (flags3_fragmentoffset13 h) (ttl h) (protocol h) (ip_checksum h)
    (source_address h) (destination_address h).

Definition SIZEOF_ipv4_header : Z := 20.
Definition IPV4_PROTOCOL_UDP : Z := 17.

Definition ipv4_header_bytes (h : ipv4_header) : bytes :=
  [u8 (version4_ihl4 h); u8 (ds h)] ++ store16 (total_length h) ++
  store16 (identification h) ++ store16 (flags3_fragmentoffset13 h) ++
  [u8 (ttl h); u8 (protocol h)] ++ store16 (ip_checksum h) ++
  store32 (source_address h) ++ store32 (destination_address h).

Definition ipv4_header_load (l : bytes) : ipv4_header :=
  mk_ipv4_header (byte_at l 0) (byte_at l 1) (load16 l 2) (load16 l 4) (load16 l 6)
    (byte_at l 8) (byte_at l 9) (load16 l 10) (load32 l 12) (load32 l 16).

Definition IPV4_GET_VERSION (h : ipv4_header) : Z :=
  Z.shiftr (Z.land (version4_ihl4 h) 240) 4.
Definition IPV4_GET_IHL (h : ipv4_header) : Z :=
  Z.shiftr (Z.land (version4_ihl4 h) 15) 0.
Definition IPV4_MAKE_VERSION_IHL (size : Z) : Z := size / 4 + Z.shiftl 4 4.

Record ipv6_header := mk_ipv6_header {
  version4_tc4 : Z; tc4_fl4 : Z; fl : Z; payload_length : Z;
  next_header : Z; hop_limit : Z;
  source_address6 : bytes; destination_address6 : bytes
}.

Definition SIZEOF_ipv6_header : Z := 40.
Definition IPV6_NEXT_UDP : Z := 17.

Definition ipv6_header_bytes (h : ipv6_header) : bytes :=
  [u8 (version4_tc4 h); u8 (tc4_fl4 h)] ++ store16 (fl h) ++ store16 (payload_length h) ++
  [u8 (next_header h); u8 (hop_limit h)] ++ source_address6 h ++ destination_address6 h.

Definition ipv6_header_load (l : bytes) : ipv6_header :=
  mk_ipv6_header (byte_at l 0) (byte_at l 1) (load16 l 2) (load16 l 4)
    (byte_at l 6) (byte_at l 7) (read_at 8 16 l) (read_at 24 16 l).

Record udp_header := mk_udp_header {
  source_port : Z; dest_port : Z; udp_len : Z; udp_cksum : Z
}.
#[export] Instance eta_udp_header : Eta udp_header := λ h,
  mk_udp_header (source_port h) (dest_port h) (udp_len h) (udp_cksum h).

Definition SIZEOF_udp_header : Z := 8.

Definition udp_header_bytes (h : udp_header) : bytes :=
  store16 (source_port h) ++ store16 (dest_port h) ++ store16 (udp_len h) ++
  store16 (udp_cksum h).

Definition udp_header_load (l : bytes) : udp_header :=
  mk_udp_header (load16 l 0) (load16 l 2) (load16 l 4) (load16 l 6).

(** ** Checksums *)

(** [for (i = 0; i < n; i++) t += badvpn_read_be16(data + 2 * i);] on [uint32_t t]. *)
Definition sum_words (data : bytes) (n : Z) (t : Z) : Z :=
  foldl (λ t i, u32 (t + badvpn_read_be16 data (2 * i))) t (seqZ 0 n).

(** [while (t >> 16) t = (t & 0xFFFF) + (t >> 16);]; the fuel bounds the number
    of iterations, and [fold_carries_exit] shows that two are always enough. *)
Fixpoint fold_carries (fuel : nat) (t : Z) : Z :=
  match fuel with
  | O => t
  | S fuel =>
      if Z.shiftr t 16 =? 0 then t
      else fold_carries fuel (u32 (Z.land t 65535 + Z.shiftr t 16))
  end.
Definition FOLD_FUEL : nat := 3.

(** [~t] on [uint32_t]. *)
Definition not32 (t : Z) : Z := 2 ^ 32 - 1 - t.

Definition ipv4_checksum (h : ipv4_header) (extra : bytes) (extra_len : Z) : Z :=
  let t := sum_words (ipv4_header_bytes h) (SIZEOF_ipv4_header / 2) 0 in
  let t := sum_words extra (extra_len / 2) t in
  hton16 (not32 (fold_carries FOLD_FUEL t)).

Definition udp_checksum_summer (data : bytes) (len : Z) : Z := sum_words data (len / 2) 0.

(** The common tail of both UDP checksums, from the sum of the pseudo header. *)
Definition udp_sum_payload (t : Z) (h : udp_header) (payload : bytes) (payload_len : Z) : Z :=
  let t := u32 (t + udp_checksum_summer (udp_header_bytes h) SIZEOF_udp_header) in
  if payload_len mod 2 =? 0 then
    u32 (t + udp_checksum_summer payload payload_len)
  else
    let t := u32 (t + udp_checksum_summer payload (payload_len - 1)) in
    let x := hton16 (Z.shiftl (byte_at payload (payload_len - 1)) 8) in
    u32 (t + udp_checksum_summer (store16 x) 2).

Definition udp_finish (t : Z) : Z :=
  let t := fold_carries FOLD_FUEL t in
  let t := not32 t in
  let t := if t =? 0 then UINT16_MAX else t in
  hton16 t.

Definition udp_checksum (h : udp_header) (payload : bytes) (payload_len : Z)
    (source_addr dest_addr : Z) : Z :=
  let payload_len := u16 payload_len in
  let t := u32 (0 + udp_checksum_summer (store32 source_addr) 4) in
  let t := u32 (t + udp_checksum_summer (store32 dest_addr) 4) in
  let x := hton16 IPV4_PROTOCOL_UDP in
  let t := u32 (t + udp_checksum_summer (store16 x) 2) in
  let x := hton16 (SIZEOF_udp_header + payload_len) in
  let t := u32 (t + udp_checksum_summer (store16 x) 2) in
  udp_finish (udp_sum_payload t h payload payload_len).

Definition udp_ip6_checksum (h : udp_header) (payload : bytes) (payload_len : Z)
    (source_addr dest_addr : bytes) : Z :=
  let payload_len := u16 payload_len in
  let t := u32 (0 + udp_checksum_summer source_addr 16) in
  let t := u32 (t + udp_checksum_summer dest_addr 16) in
  let x := hton32 (SIZEOF_udp_header + payload_len) in
  let t := u32 (t + udp_checksum_summer (store32 x) 4) in
  let x := hton32 IPV6_NEXT_UDP in
  let t := u32 (t + udp_checksum_summer (store32 x) 4) in
  udp_finish (udp_sum_payload t h payload payload_len).

(** ** Header checks: the header and the payload, or [None] for [return 0] *)

Definition ipv4_check (data : bytes) : option (ipv4_header * bytes) :=
  let data_len := zlen data in
  if data_len <? SIZEOF_ipv4_header then None else
  let h := ipv4_header_load data in
  if negb (IPV4_GET_VERSION h =? 4) then None else
  let header_len := u16 (IPV4_GET_IHL h * 4) in
  if header_len <? SIZEOF_ipv4_header then None else
  if data_len <? header_len then None else
  let total := ntoh16 (total_length h) in
  if total <? header_len then None else
  if data_len <? total then None else
  let checksum_in_packet := ip_checksum h in
  let checksum_computed :=
    ipv4_checksum (h <| ip_checksum := hton16 0 |>)
      (drop (Z.to_nat SIZEOF_ipv4_header) data) (header_len - SIZEOF_ipv4_header) in
  if negb (checksum_in_packet =? checksum_computed) then None else
  Some (h, read_at header_len (total - header_len) data).

Definition ipv6_check (data : bytes) : option (ipv6_header * bytes) :=
  let data_len := zlen data in
  if data_len <? SIZEOF_ipv6_header then None else
  let h := ipv6_header_load data in
  if negb (Z.shiftr (ntoh8 (version4_tc4 h)) 4 =? 6) then None else
  let plen := ntoh16 (payload_length h) in
  if data_len - SIZEOF_ipv6_header <? plen then None else
  Some (h, read_at SIZEOF_ipv6_header plen data).

Definition udp_check (data : bytes) : option (udp_header * bytes) :=
  let data_len := zlen data in
  if data_len <? SIZEOF_udp_header then None else
  let h := udp_header_load data in
  let data := drop (Z.to_nat SIZEOF_udp_header) data in
  let data_len := data_len - SIZEOF_udp_header in
  let udp_length := ntoh16 (udp_len h) in
  if udp_length <? SIZEOF_udp_header then None else
  if SIZEOF_udp_header + data_len <? udp_length then None else
  let data_len := udp_length - SIZEOF_udp_header in
  Some (h, take (Z.to_nat data_len) data).

#[global] Arguments sum_words : simpl never.
#[global] Arguments fold_carries : simpl never.
#[global] Arguments ipv4_checksum : simpl never.
#[global] Arguments udp_checksum : simpl never.
#[global] Arguments udp_ip6_checksum : simpl never.

(** ** Checksum arithmetic *)

Lemma land_65535 t : 0 ≤ t → Z.land t 65535 = t mod 65536.
Proof. intros. change 65535 with (Z.ones 16). by rewrite Z.land_ones by lia. Qed.

Lemma shiftr_16 t : Z.shiftr t 16 = t / 65536.
Proof. by rewrite Z.shiftr_div_pow2 by lia. Qed.

(** One round keeps the sum modulo [2^16 - 1] and makes it smaller. *)
Lemma fold_round t : 65536 ≤ t < 2 ^ 32 →
  let t' := u32 (Z.land t 65535 + Z.shiftr t 16) in
  0 < t' ∧ t' < t ∧ t' ≤ 131070 ∧ t' mod 65535 = t mod 65535.
Proof.
  intros Ht. simpl. rewrite land_65535, shiftr_16 by lia.
  rewrite u32_id.
  2: { unfold is_u32. Z.div_mod_to_equations. lia. }
  assert (t = t mod 65536 + t / 65536 + 65535 * (t / 65536)) as E
    by (Z.div_mod_to_equations; lia).
  split_and!.
  - Z.div_mod_to_equations. lia.
  - Z.div_mod_to_equations. lia.
  - Z.div_mod_to_equations. lia.
  - rewrite E at 3. rewrite Z.mul_comm, Z.mod_add by lia. done.
Qed.

Lemma fold_carries_S fuel t :
  fold_carries (S fuel) t =
  if Z.shiftr t 16 =? 0 then t
  else fold_carries fuel (u32 (Z.land t 65535 + Z.shiftr t 16)).
Proof. reflexivity. Qed.

Lemma fold_carries_small fuel t : 0 ≤ t < 65536 → fold_carries fuel t = t.
Proof.
  destruct fuel; [done|]. intros. rewrite fold_carries_S, shiftr_16.
  by rewrite Z.div_small, Z.eqb_refl by lia.
Qed.

Lemma fold_carries_large fuel t : 65536 ≤ t < 2 ^ 32 →
  fold_carries (S fuel) t = fold_carries fuel (u32 (Z.land t 65535 + Z.shiftr t 16)).
Proof.
  intros. rewrite fold_carries_S, shiftr_16.
  replace (t / 65536 =? 0) with false; [done|]. symmetry. apply Z.eqb_neq.
  Z.div_mod_to_equations. lia.
Qed.

(** The loop exits after at most two rounds, with the sum reduced modulo
    [2^16 - 1]; zero only comes from zero. *)
Lemma fold_carries_exit fuel t : (2 ≤ fuel)%nat → 0 ≤ t < 2 ^ 32 →
  0 ≤ fold_carries fuel t < 65536 ∧
  fold_carries fuel t mod 65535 = t mod 65535 ∧
  (fold_carries fuel t = 0 ↔ t = 0).
Proof.
  intros Hf Ht. destruct fuel as [|[|fuel]]; [lia..|].
  destruct (decide (t < 65536)) as [|Hge].
  { rewrite fold_carries_small by lia. lia. }
  rewrite fold_carries_large by lia.
  pose proof (fold_round t ltac:(lia)) as (H1 & H2 & H3 & H4). simpl in *.
  set (t' := u32 _) in *. clearbody t'.
  destruct (decide (t' < 65536)).
  { rewrite fold_carries_small by lia. lia. }
  rewrite fold_carries_large by lia.
  pose proof (fold_round t' ltac:(lia)) as (K1 & K2 & K3 & K4). simpl in *.
  assert (u32 (Z.land t' 65535 + Z.shiftr t' 16) < 65536).
  { rewrite land_65535, shiftr_16 by lia. rewrite u32_id.
    - Z.div_mod_to_equations. lia.
    - unfold is_u32. Z.div_mod_to_equations. lia. }
  set (t'' := u32 _) in *. clearbody t''.
  rewrite fold_carries_small by lia. lia.
Qed.

Lemma read_be16_range l off : bytes_ok l → is_u16 (badvpn_read_be16 l off).
Proof.
  intros H. rewrite badvpn_read_be16_eq by done.
  pose proof (byte_at_ok l off H). pose proof (byte_at_ok l (off + 1) H).
  unfold is_u8, is_u16 in *. lia.
Qed.

(** The mathematical sum of the words, and that [uint32_t] does not wrap. *)
Definition words_sum (data : bytes) (n : Z) : Z :=
  foldr Z.add 0 ((λ i, badvpn_read_be16 data (2 * i)) <$> seqZ 0 n).

Lemma foldr_add_bound (l : list Z) :
  Forall is_u16 l → 0 ≤ foldr Z.add 0 l ≤ 65535 * zlen l.
Proof.
  induction 1 as [|x l Hx _ IH]; [unfold zlen; simpl; lia|].
  rewrite zlen_cons. simpl. unfold is_u16 in Hx. lia.
Qed.

Lemma words_sum_bound data n : bytes_ok data → 0 ≤ n →
  0 ≤ words_sum data n ≤ 65535 * n.
Proof.
  intros Hd Hn. unfold words_sum.
  pose proof (foldr_add_bound ((λ i, badvpn_read_be16 data (2 * i)) <$> seqZ 0 n)) as H.
  unfold zlen in H. rewrite length_fmap, length_seqZ in H.
  rewrite Z2Nat.id in H by lia. apply H. apply Forall_fmap, Forall_forall.
  intros i _. simpl. by apply read_be16_range.
Qed.

Lemma foldl_u32 (l : list Z) (f : Z → Z) t :
  Forall (λ x, is_u16 (f x)) l → 0 ≤ t → t + 65535 * zlen l < 2 ^ 32 →
  foldl (λ t i, u32 (t + f i)) t l = t + foldr Z.add 0 (f <$> l).
Proof.
  intros Hl. revert t. induction Hl as [|x l Hx Hl IH]; intros t Ht Hb; [simpl; lia|].
  rewrite fmap_cons. cbn [foldl foldr]. rewrite zlen_cons in Hb. unfold is_u16 in Hx. pose proof (zlen_nonneg l).
  rewrite u32_id by (unfold is_u32; lia).
  rewrite IH by lia. lia.
Qed.

Lemma sum_words_eq data n t : bytes_ok data → 0 ≤ n ≤ 32767 → 0 ≤ t < 2 ^ 31 →
  sum_words data n t = t + words_sum data n.
Proof.
  intros Hd Hn Ht. unfold sum_words, words_sum.
  rewrite (foldl_u32 _ (λ i, badvpn_read_be16 data (2 * i))); [done| |lia|].
  - apply Forall_forall. intros i _. by apply read_be16_range.
  - unfold zlen. rewrite length_seqZ. lia.
Qed.

Lemma not32_u16 t : 0 ≤ t < 65536 → u16 (not32 t) = 65535 - t.
Proof.
  intros. unfold not32, u16.
  replace (2 ^ 32 - 1 - t) with ((65535 - t) + 65535 * 2 ^ 16) by lia.
  rewrite Z.mod_add by lia. apply Z.mod_small. lia.
Qed.

(** ** Header images *)

Definition ipv4_header_ok (h : ipv4_header) : Prop :=
  is_u8 (version4_ihl4 h) ∧ is_u8 (ds h) ∧ is_u16 (total_length h) ∧
  is_u16 (identification h) ∧ is_u16 (flags3_fragmentoffset13 h) ∧
  is_u8 (ttl h) ∧ is_u8 (protocol h) ∧ is_u16 (ip_checksum h) ∧
  is_u32 (source_address h) ∧ is_u32 (destination_address h).

Definition ipv6_header_ok (h : ipv6_header) : Prop :=
  is_u8 (version4_tc4 h) ∧ is_u8 (tc4_fl4 h) ∧ is_u16 (fl h) ∧ is_u16 (payload_length h) ∧
  is_u8 (next_header h) ∧ is_u8 (hop_limit h) ∧
  bytes_ok (source_address6 h) ∧ length (source_address6 h) = 16%nat ∧
  bytes_ok (destination_address6 h) ∧ length (destination_address6 h) = 16%nat.

Definition udp_header_ok (h : udp_header) : Prop :=
  is_u16 (source_port h) ∧ is_u16 (dest_port h) ∧ is_u16 (udp_len h) ∧ is_u16 (udp_cksum h).

Lemma ipv4_header_bytes_ok h : bytes_ok (ipv4_header_bytes h).
Proof.
  unfold ipv4_header_bytes.
  repeat (apply Forall_app; split); auto with badvpn; repeat constructor; apply u8_range.
Qed.
Lemma udp_header_bytes_ok h : bytes_ok (udp_header_bytes h).
Proof. unfold udp_header_bytes. repeat (apply Forall_app; split); auto with badvpn. Qed.
Lemma ipv6_header_bytes_ok h : ipv6_header_ok h → bytes_ok (ipv6_header_bytes h).
Proof.
  intros H. unfold ipv6_header_bytes. unfold ipv6_header_ok in H. destruct_and!.
  repeat (apply Forall_app; split); auto with badvpn; repeat constructor; apply u8_range.
Qed.
#[export] Hint Resolve ipv4_header_bytes_ok udp_header_bytes_ok ipv6_header_bytes_ok : badvpn.

Lemma ipv4_load_bytes h rest : ipv4_header_ok h →
  ipv4_header_load (ipv4_header_bytes h ++ rest) = h.
Proof.
  destruct h as [v d tl i f t p c s e]. unfold ipv4_header_ok. simpl.
  intros (Hv & Hd & Htl & Hi & Hf & Ht & Hp & Hc & Hs & He).
  unfold ipv4_header_load. f_equal;
    first [by apply u8_id | by apply load16_store16 | by apply load32_store32].
Qed.

Lemma udp_load_bytes h rest : udp_header_ok h →
  udp_header_load (udp_header_bytes h ++ rest) = h.
Proof.
  destruct h as [s d l c]. intros (Hs & Hd & Hl & Hc). simpl in *.
  unfold udp_header_load. f_equal; by apply load16_store16.
Qed.

Lemma ipv6_load_bytes h rest : ipv6_header_ok h →
  ipv6_header_load (ipv6_header_bytes h ++ rest) = h.
Proof.
  destruct h as [v tc f p n hl s d].
  intros (Hv & Htc & Hf & Hp & Hn & Hhl & Hs & Hls & Hd & Hld). simpl in *.
  unfold ipv6_header_load. f_equal;
    try first [by apply u8_id | by apply load16_store16].
  - unfold read_at. simpl. rewrite drop_0, <- app_assoc, take_app_length'; [done|lia].
  - unfold read_at. simpl. rewrite <- app_assoc, drop_app_length' by (simpl; lia).
    by rewrite take_app_length' by lia.
Qed.

Lemma zlen_ipv4_header h : zlen (ipv4_header_bytes h) = 20.
Proof. reflexivity. Qed.
Lemma zlen_udp_header h : zlen (udp_header_bytes h) = 8.
Proof. reflexivity. Qed.
Lemma zlen_ipv6_header h : ipv6_header_ok h → zlen (ipv6_header_bytes h) = 40.
Proof.
  intros H. unfold ipv6_header_ok in H. destruct_and!. unfold ipv6_header_bytes, zlen.
  rewrite !length_app. simpl. lia.
Qed.

(** A header as [udpgw_client_handler_received] builds it: no options, the
    total length of the packet, and the checksum of the header with a zero
    checksum field. *)
Definition ipv4_header_built (h : ipv4_header) (payload_len : Z) : Prop :=
  ipv4_header_ok h ∧
  version4_ihl4 h = IPV4_MAKE_VERSION_IHL SIZEOF_ipv4_header ∧
  total_length h = hton16 (SIZEOF_ipv4_header + payload_len) ∧
  ip_checksum h = ipv4_checksum (h <| ip_checksum := hton16 0 |>) [] 0.

Lemma ipv4_checksum_range h e n : is_u16 (ipv4_checksum h e n).
Proof. apply hton16_range. Qed.
Lemma udp_checksum_range h p n s d : is_u16 (udp_checksum h p n s d).
Proof. apply hton16_range. Qed.
Lemma udp_ip6_checksum_range h p n s d : is_u16 (udp_ip6_checksum h p n s d).
Proof. apply hton16_range. Qed.
#[export] Hint Resolve ipv4_checksum_range udp_checksum_range udp_ip6_checksum_range : badvpn.

Lemma sum_words_0 data t : sum_words data 0 t = t.
Proof. reflexivity. Qed.

(** A header without options: no words beyond it are summed. *)
Lemma ipv4_checksum_no_extra h e :
  ipv4_checksum h e 0 = hton16 (not32 (fold_carries FOLD_FUEL (sum_words (ipv4_header_bytes h) 10 0))).
Proof. unfold ipv4_checksum. change (0 / 2) with 0. by rewrite sum_words_0. Qed.

Lemma ipv4_check_built h payload :
  zlen payload ≤ 65515 → ipv4_header_built h (zlen payload) →
  ipv4_check (ipv4_header_bytes h ++ payload) = Some (h, payload).
Proof.
  intros Hlen (Hok & Hv & Hl & Hc). pose proof (zlen_nonneg payload).
  unfold ipv4_check. rewrite ipv4_load_bytes by done.
  rewrite zlen_app, zlen_ipv4_header. unfold SIZEOF_ipv4_header.
  destruct (Z.ltb_spec (20 + zlen payload) 20); [lia|].
  assert (IPV4_GET_VERSION h = 4) as -> by (unfold IPV4_GET_VERSION; rewrite Hv; reflexivity).
  assert (u16 (IPV4_GET_IHL h * 4) = 20) as -> by (unfold IPV4_GET_IHL; rewrite Hv; reflexivity).
  change (negb (4 =? 4)) with false. change (20 <? 20) with false. cbv iota.
  destruct (Z.ltb_spec (20 + zlen payload) 20); [lia|].
  rewrite Hl, ntoh16_hton16 by (unfold is_u16, SIZEOF_ipv4_header; lia).
  unfold SIZEOF_ipv4_header.
  destruct (Z.ltb_spec (20 + zlen payload) 20); [lia|].
  destruct (Z.ltb_spec (20 + zlen payload) (20 + zlen payload)); [lia|].
  assert (Ec : ∀ e, ipv4_checksum (h <| ip_checksum := hton16 0 |>) e 0 = ip_checksum h)
    by (intros; rewrite Hc, !ipv4_checksum_no_extra; reflexivity).
  change (20 - 20) with 0. rewrite Ec, Z.eqb_refl. cbn [negb]. do 2 f_equal.
  unfold read_at. rewrite drop_app_length' by reflexivity. rewrite take_ge; [done|]. unfold zlen. lia.
Qed.

Lemma udp_check_built h payload stray :
  udp_header_ok h → zlen payload ≤ 65527 →
  udp_len h = hton16 (SIZEOF_udp_header + zlen payload) →
  udp_check (udp_header_bytes h ++ payload ++ stray) = Some (h, payload).
Proof.
  intros Hok Hlen Hl. pose proof (zlen_nonneg payload). pose proof (zlen_nonneg stray).
  unfold udp_check. rewrite udp_load_bytes by done.
  rewrite !zlen_app, zlen_udp_header. unfold SIZEOF_udp_header in *.
  destruct (Z.ltb_spec (8 + (zlen payload + zlen stray)) 8); [lia|].
  rewrite Hl, ntoh16_hton16 by (unfold is_u16; lia).
  destruct (Z.ltb_spec (8 + zlen payload) 8); [lia|].
  destruct (Z.ltb_spec (8 + (8 + (zlen payload + zlen stray) - 8)) (8 + zlen payload)); [lia|].
  do 2 f_equal. rewrite drop_app_length' by reflexivity.
  rewrite take_app_length'; [done|]. unfold zlen. lia.
Qed.

Lemma ipv6_check_built h payload :
  ipv6_header_ok h → zlen payload ≤ 65535 → version4_tc4 h = 96 →
  payload_length h = hton16 (zlen payload) →
  ipv6_check (ipv6_header_bytes h ++ payload) = Some (h, payload).
Proof.
  intros Hok Hlen Hv Hl. pose proof (zlen_nonneg payload).
  unfold ipv6_check. rewrite ipv6_load_bytes by done.
  rewrite zlen_app, zlen_ipv6_header by done. unfold SIZEOF_ipv6_header in *.
  destruct (Z.ltb_spec (40 + zlen payload) 40); [lia|].
  rewrite Hv. change (Z.shiftr (ntoh8 96) 4 =? 6) with true. cbn [negb].
  rewrite Hl, ntoh16_hton16 by (unfold is_u16; lia).
  destruct (Z.ltb_spec (40 + zlen payload - 40) (zlen payload)); [lia|].
  do 2 f_equal. unfold read_at.
  rewrite drop_app_length'; [|pose proof (zlen_ipv6_header h Hok) as E; unfold zlen in E; lia].
  rewrite take_ge; [done|]. unfold zlen. lia.
Qed.

(** ** Memory safety of the parsers *)

(** A slice that lies inside the buffer it was cut from. *)
Definition inside (off : Z) (p data : bytes) : Prop :=
  0 ≤ off ∧ off + zlen p ≤ zlen data ∧ p = read_at off (zlen p) data.

Lemma ipv4_check_inside data h p : ipv4_check data = Some (h, p) →
  ∃ off, SIZEOF_ipv4_header ≤ off ∧ inside off p data.
Proof.
  unfold ipv4_check, SIZEOF_ipv4_header. cbv zeta.
  generalize (ipv4_header_load data). intros hd E.
  repeat match type of E with
  | (if ?b then None else _) = _ => let B := fresh "B" in destruct b eqn:B; [discriminate|]
  end.
  bool_prop. injection E as <- <-. exists (u16 (IPV4_GET_IHL hd * 4)).
  split; [lia|]. unfold inside. rewrite zlen_read_at by lia. split_and!; [lia..|done].
Qed.

Lemma udp_check_inside data h p : udp_check data = Some (h, p) →
  inside SIZEOF_udp_header p data.
Proof.
  unfold udp_check, SIZEOF_udp_header. cbv zeta.
  generalize (udp_header_load data). intros hd E.
  repeat match type of E with
  | (if ?b then None else _) = _ => let B := fresh "B" in destruct b eqn:B; [discriminate|]
  end.
  bool_prop. injection E as <- <-. unfold inside, read_at.
  rewrite zlen_take, zlen_drop. split_and!; [lia|lia|].
  rewrite Z.min_l by lia. by rewrite Nat2Z.id.
Qed.

Lemma ipv6_check_inside data h p : bytes_ok data → ipv6_check data = Some (h, p) →
  inside SIZEOF_ipv6_header p data.
Proof.
  unfold ipv6_check, SIZEOF_ipv6_header. cbv zeta. intros Hok.
  generalize (ipv6_header_load data). intros hd E.
  repeat match type of E with
  | (if ?b then None else _) = _ => let B := fresh "B" in destruct b eqn:B; [discriminate|]
  end.
  bool_prop. injection E as <- <-.
  pose proof (hton16_range (payload_length hd)) as R.
  unfold is_u16, ntoh16 in *.
  unfold inside. rewrite zlen_read_at by lia. split_and!; [lia..|done].
Qed.

(** ** Checksums as a receiver verifies them *)

Lemma be16_store_hton16 x : is_u16 x → badvpn_read_be16 (store16 (hton16 x)) 0 = x.
Proof.
  intros Hx. rewrite <- ntoh16_load16 by apply store16_ok.
  rewrite load16_store16 by apply hton16_range. by apply ntoh16_hton16.
Qed.

(** The header words, with the checksum word singled out. *)
Lemma words_sum_header_checksum h c : is_u16 c →
  words_sum (ipv4_header_bytes (h <| ip_checksum := hton16 c |>)) 10 =
  words_sum (ipv4_header_bytes (h <| ip_checksum := hton16 0 |>)) 10 + c.
Proof.
  intros Hc.
  pose proof (be16_store_hton16 c Hc) as E.
  pose proof (be16_store_hton16 0 ltac:(unfold is_u16; lia)) as E0.
  unfold words_sum. change (seqZ 0 10) with [0;1;2;3;4;5;6;7;8;9].
  cbn [fmap list_fmap foldr].
  assert (∀ x, badvpn_read_be16 (ipv4_header_bytes (h <| ip_checksum := hton16 x |>)) (2 * 5)
    = badvpn_read_be16 (store16 (hton16 x)) 0) as Ew by reflexivity.
  rewrite !Ew, E, E0.
  assert (∀ i x, i ∈ [0;1;2;3;4;6;7;8;9] →
    badvpn_read_be16 (ipv4_header_bytes (h <| ip_checksum := hton16 x |>)) (2 * i)
    = badvpn_read_be16 (ipv4_header_bytes h) (2 * i)) as Eo.
  { intros i x Hi. repeat (apply elem_of_cons in Hi as [-> | Hi]; [reflexivity|]).
    by apply elem_of_nil in Hi. }
  rewrite !Eo by set_solver. lia.
Qed.

(** The first word of a header without options is not zero, and neither is
    the sum of its words. *)
Lemma words_sum_header_pos h : ipv4_header_ok h →
  version4_ihl4 h = IPV4_MAKE_VERSION_IHL SIZEOF_ipv4_header →
  0 < words_sum (ipv4_header_bytes h) 10.
Proof.
  intros Hok Hv. set (w := λ i, badvpn_read_be16 (ipv4_header_bytes h) (2 * i)).
  assert (1 ≤ w 0) as H1.
  { unfold w. rewrite badvpn_read_be16_eq by auto with badvpn.
    pose proof (byte_at_ok (ipv4_header_bytes h) (2 * 0 + 1) ltac:(auto with badvpn)) as B.
    assert (byte_at (ipv4_header_bytes h) (2 * 0) = 69) as -> by (cbn; rewrite Hv; reflexivity).
    unfold is_u8 in B. lia. }
  assert (Forall is_u16 (w <$> [1;2;3;4;5;6;7;8;9])) as K.
  { apply Forall_fmap, Forall_forall. intros. apply read_be16_range. auto with badvpn. }
  apply foldr_add_bound in K.
  unfold words_sum. fold w. change (seqZ 0 10) with (0 :: [1;2;3;4;5;6;7;8;9]).
  rewrite fmap_cons. cbn [foldr]. lia.
Qed.

(** Folding a sum together with the complement of its own folding gives all
    ones, unless the sum is zero. *)
Lemma fold_carries_complement S0 : 0 < S0 < 2 ^ 31 →
  fold_carries FOLD_FUEL (S0 + (65535 - fold_carries FOLD_FUEL S0)) = 65535.
Proof.
  intros HS.
  destruct (fold_carries_exit FOLD_FUEL S0 ltac:(unfold FOLD_FUEL; lia) ltac:(lia))
    as (Hr & Hm & Hz).
  set (F := fold_carries FOLD_FUEL S0) in *.
  destruct (fold_carries_exit FOLD_FUEL (S0 + (65535 - F)) ltac:(unfold FOLD_FUEL; lia) ltac:(lia))
    as (Gr & Gm & Gz).
  set (G := fold_carries FOLD_FUEL (S0 + (65535 - F))) in *. clearbody G F.
  assert (G mod 65535 = 0).
  { rewrite Gm. replace (S0 + (65535 - F)) with ((S0 - F) + 1 * 65535) by lia.
    rewrite Z.mod_add, Zminus_mod, Hm, Z.sub_diag by lia. done. }
  assert (G ≠ 0) by lia. Z.div_mod_to_equations. lia.
Qed.

(** The ones' complement sum of a built header is all ones: the check a
    standard receiver makes. *)
Lemma ipv4_built_sum h n :
  ipv4_header_built h n →
  fold_carries FOLD_FUEL (sum_words (ipv4_header_bytes h) 10 0) = 65535.
Proof.
  intros (Hok & Hv & Hl & Hc).
  set (h0 := h <| ip_checksum := hton16 0 |>) in *.
  pose proof (words_sum_bound (ipv4_header_bytes h0) 10 ltac:(auto with badvpn) ltac:(lia)) as Hb.
  assert (0 < words_sum (ipv4_header_bytes h0) 10) as Hpos.
  { apply words_sum_header_pos; [|done]. unfold ipv4_header_ok in *. simpl. destruct_and!.
    split_and!; auto with badvpn; apply hton16_range. }
  assert (Hsum : sum_words (ipv4_header_bytes h0) 10 0 = words_sum (ipv4_header_bytes h0) 10)
    by (rewrite sum_words_eq by (auto with badvpn; lia); lia).
  set (S0 := words_sum (ipv4_header_bytes h0) 10) in *.
  set (F := fold_carries FOLD_FUEL S0).
  pose proof (fold_carries_exit FOLD_FUEL S0 ltac:(unfold FOLD_FUEL; lia) ltac:(lia)) as (Hr & _ & _).
  fold F in Hr.
  assert (Ec : ip_checksum h = hton16 (65535 - F)).
  { rewrite Hc, ipv4_checksum_no_extra, Hsum. fold F.
    rewrite <- hton16_u16, not32_u16 by lia. done. }
  assert (h = h <| ip_checksum := hton16 (65535 - F) |>) as -> by (rewrite <- Ec; by destruct h).
  rewrite sum_words_eq by (auto with badvpn; lia).
  rewrite words_sum_header_checksum by (unfold is_u16; lia). fold h0. fold S0.
  rewrite Z.add_0_l. apply fold_carries_complement. lia.
Qed.

(** ** The checksum of RFC 1071 *)

(** The sum of the big-endian 16-bit words of [l], an odd last byte padded with
    zero. *)
Fixpoint rfc_sum (l : bytes) : Z :=
  match l with
  | a :: b :: l => 256 * a + b + rfc_sum l
  | [a] => 256 * a
  | [] => 0
  end.

(** The big-endian word at an offset, from its two bytes. *)
Definition be16 (l : bytes) (off : Z) : Z := 256 * byte_at l off + byte_at l (off + 1).

(** Data that includes its checksum field [c]: the ones' complement sum is
    zero, and the field is the representative in [0, 0xFFFE]. *)
Definition rfc_valid (c : Z) (l : bytes) : Prop := rfc_sum l mod 65535 = 0 ∧ c ≠ 65535.

Lemma be16_read l off : bytes_ok l → badvpn_read_be16 l off = be16 l off.
Proof. intros. rewrite badvpn_read_be16_eq by done. unfold be16. lia. Qed.
Lemma be16_range l off : bytes_ok l → 0 ≤ be16 l off ≤ 65535.
Proof.
  intros H. pose proof (byte_at_ok l off H). pose proof (byte_at_ok l (off + 1) H).
  unfold is_u8, be16 in *. lia.
Qed.
Lemma ntoh16_be16 l off : bytes_ok l → ntoh16 (load16 l off) = be16 l off.
Proof. intros. rewrite ntoh16_load16 by done. by apply be16_read. Qed.

Lemma rfc_sum_app a b : Nat.Even (length a) → rfc_sum (a ++ b) = rfc_sum a + rfc_sum b.
Proof.
  intros [n E]. revert a E. induction n as [|n IH]; intros [|x [|y a]] E; simpl in *; try lia.
  rewrite IH by lia. lia.
Qed.
Lemma rfc_sum_bound l : bytes_ok l → 0 ≤ rfc_sum l ≤ 65535 * ((zlen l + 1) / 2).
Proof.
  assert (∀ n l, (length l ≤ n)%nat → bytes_ok l → 0 ≤ rfc_sum l ≤ 65535 * ((zlen l + 1) / 2)) as H.
  { clear l. intros n. induction n as [|n IH]; intros [|a [|b l]] Hn Hl; cbn [rfc_sum length] in *;
      try (exfalso; lia); try (split; [lia|vm_compute; discriminate]).
    - apply Forall_cons in Hl as [Ha _]. unfold is_u8 in Ha. change (zlen [a]) with 1.
      change ((1 + 1) / 2) with 1. lia.
    - apply Forall_cons in Hl as [Ha Hl]. apply Forall_cons in Hl as [Hb Hl].
      specialize (IH l ltac:(lia) Hl). rewrite !zlen_cons. unfold is_u8 in *.
      replace (1 + (1 + zlen l) + 1) with (zlen l + 1 + 1 * 2) by lia.
      rewrite Z.div_add by lia. lia. }
  by apply (H (length l)).
Qed.

Lemma words_sum_nat (n : nat) l : bytes_ok l → (2 * n ≤ length l)%nat →
  words_sum l (Z.of_nat n) = rfc_sum (take (2 * n) l).
Proof.
  revert l. induction n as [|n IH]; intros l Hl Hn; [done|].
  destruct l as [|a [|b l]]; simpl in Hn; [lia..|].
  replace (2 * S n)%nat with (S (S (2 * n))) by lia. simpl take.
  pose proof Hl as Hl'. apply Forall_cons in Hl as [Ha Hl]. apply Forall_cons in Hl as [Hb Hl].
  simpl rfc_sum. rewrite <- IH by (done || lia). unfold words_sum.
  rewrite Nat2Z.inj_succ, seqZ_cons by lia. rewrite Z.pred_succ. cbn [fmap list_fmap foldr].
  rewrite be16_read by done. f_equal.
  replace (Z.succ 0) with (1 + 0) by lia.
  rewrite <- (fmap_add_seqZ 1 0). rewrite <- list_fmap_compose. f_equal. apply list_fmap_ext.
  intros i x Hx. apply lookup_seqZ in Hx as [-> Hi]. simpl.
  rewrite !be16_read by done. unfold be16, byte_at.
  replace (Z.to_nat (2 * (1 + Z.of_nat i))) with (S (S (Z.to_nat (2 * Z.of_nat i)))) by lia.
  replace (Z.to_nat (2 * (1 + Z.of_nat i) + 1)) with (S (S (Z.to_nat (2 * Z.of_nat i + 1)))) by lia.
  done.
Qed.

(** The words of a buffer, summed as the code does. *)
Lemma words_sum_rfc l n : bytes_ok l → 0 ≤ n → 2 * n ≤ zlen l →
  words_sum l n = rfc_sum (take (Z.to_nat (2 * n)) l).
Proof.
  intros Hl Hn Hb. rewrite <- (Z2Nat.id n) at 1 by lia. unfold zlen in Hb.
  rewrite words_sum_nat by (done || lia). do 2 f_equal. lia.
Qed.
Lemma summer_rfc l n : bytes_ok l → n mod 2 = 0 → 0 ≤ n ≤ 65534 → n ≤ zlen l →
  udp_checksum_summer l n = rfc_sum (take (Z.to_nat n) l).
Proof.
  intros Hl He Hn Hb. assert (n = 2 * (n / 2)) as E by (Z.div_mod_to_equations; lia).
  unfold udp_checksum_summer. rewrite sum_words_eq by (done || lia).
  rewrite words_sum_rfc by (done || lia). rewrite <- E. lia.
Qed.
Lemma summer_rfc_all l n : bytes_ok l → n mod 2 = 0 → 0 ≤ n ≤ 65534 → n = zlen l →
  udp_checksum_summer l n = rfc_sum l.
Proof. intros. rewrite summer_rfc by (done || lia). f_equal. apply take_ge. unfold zlen in *. lia. Qed.

(** A checksum field that equals the computed checksum, as a condition on the
    sum that includes the field. *)
Lemma checksum_iff c s : is_u16 c → 0 < s < 2 ^ 32 →
  c = hton16 (65535 - fold_carries FOLD_FUEL s) ↔
  (s + ntoh16 c) mod 65535 = 0 ∧ ntoh16 c ≠ 65535.
Proof.
  intros Hc Hs.
  destruct (fold_carries_exit FOLD_FUEL s ltac:(unfold FOLD_FUEL; lia) ltac:(lia)) as (Hr & Hm & Hz).
  set (F := fold_carries FOLD_FUEL s) in *. clearbody F.
  pose proof (hton16_range c) as Hn. fold (ntoh16 c) in Hn. unfold is_u16 in Hn.
  transitivity (ntoh16 c = 65535 - F).
  - split; [intros ->; by apply ntoh16_hton16; unfold is_u16; lia|].
    intros E. apply ntoh16_inj; [done|apply hton16_range|].
    rewrite ntoh16_hton16 by (unfold is_u16; lia). done.
  - assert (F ≠ 0) by lia. assert ((s + ntoh16 c) mod 65535 = (F + ntoh16 c) mod 65535) as ->.
    { rewrite Zplus_mod, <- Hm, <- Zplus_mod. done. }
    Z.div_mod_to_equations. lia.
Qed.

(** ** The checksum fields of received headers *)

Lemma store16_load16' l off : bytes_ok l → store16 (load16 l off) = [byte_at l off; byte_at l (off + 1)].
Proof. intros. by apply store16_load16. Qed.
Lemma store32_load32 l off : bytes_ok l →
  store32 (load32 l off) = [byte_at l off; byte_at l (off + 1); byte_at l (off + 2); byte_at l (off + 3)].
Proof. intros H. rewrite load32_eq by done. apply store32_bytes; by apply byte_at_ok. Qed.

Lemma take_bytes (n : nat) (l : bytes) : (n ≤ length l)%nat →
  take n l = (λ i, byte_at l (Z.of_nat i)) <$> seq 0 n.
Proof.
  intros Hn. apply list_eq. intros i. rewrite list_lookup_fmap.
  destruct (decide (i < n)%nat) as [Hi|Hi].
  - rewrite lookup_take_lt, lookup_seq_lt by lia. simpl. unfold byte_at. rewrite Nat2Z.id.
    destruct (lookup_lt_is_Some_2 l i ltac:(lia)) as [x Hx]. rewrite Hx. f_equal. symmetry.
    by apply nth_lookup_Some.
  - rewrite lookup_take_ge, lookup_seq_ge by lia. done.
Qed.

(** The image of a loaded header is the bytes it was loaded from. *)
Lemma ipv4_bytes_load data : bytes_ok data → 20 ≤ zlen data →
  ipv4_header_bytes (ipv4_header_load data) = take 20 data.
Proof.
  intros Hd Hl. rewrite take_bytes by (unfold zlen in Hl; lia).
  unfold ipv4_header_bytes, ipv4_header_load; cbn [version4_ihl4 ds total_length identification
    flags3_fragmentoffset13 ttl protocol ip_checksum source_address destination_address].
  rewrite !store16_load16', !store32_load32, !u8_id by auto with badvpn. reflexivity.
Qed.
Lemma udp_bytes_load data : bytes_ok data → 8 ≤ zlen data →
  udp_header_bytes (udp_header_load data) = take 8 data.
Proof.
  intros Hd Hl. rewrite take_bytes by (unfold zlen in Hl; lia).
  unfold udp_header_bytes, udp_header_load; cbn [source_port dest_port udp_len udp_cksum].
  rewrite !store16_load16' by done. reflexivity.
Qed.

Lemma hton16_ntoh16 x : is_u16 x → hton16 (ntoh16 x) = x.
Proof. apply ntoh16_hton16. Qed.

Lemma even_length {A} (l : list A) : zlen l mod 2 = 0 → Nat.Even (length l).
Proof. unfold zlen. intros H. exists (Z.to_nat (Z.of_nat (length l) / 2)). Z.div_mod_to_equations. lia. Qed.

(** The words that [ipv4_checksum] sums, with the checksum field added. *)
Lemma ipv4_sum_rfc data hl : bytes_ok data → hl mod 4 = 0 → 20 ≤ hl ≤ 60 → hl ≤ zlen data →
  words_sum (ipv4_header_bytes (ipv4_header_load data <| ip_checksum := hton16 0 |>)) 10 +
  words_sum (drop 20 data) ((hl - 20) / 2) + be16 data 10 = rfc_sum (read_at 0 hl data).
Proof.
  intros Hd Hm Hl Hb. set (h := ipv4_header_load data).
  assert (h = h <| ip_checksum := hton16 (be16 data 10) |>) as Eh.
  { rewrite <- ntoh16_be16 by done. change (load16 data 10) with (ip_checksum h).
    rewrite hton16_ntoh16 by (by apply load16_range). done. }
  pose proof (words_sum_header_checksum h (be16 data 10) ltac:(pose proof (be16_range data 10 Hd); unfold is_u16; lia)) as E.
  rewrite <- Eh in E. unfold h in E at 1. rewrite ipv4_bytes_load in E by (done || lia).
  rewrite (words_sum_rfc (take 20 data)) in E by (auto with badvpn || autorewrite with zlen; lia).
  rewrite (words_sum_rfc (drop 20 data)) by (auto with badvpn || autorewrite with zlen; Z.div_mod_to_equations; lia).
  replace (2 * ((hl - 20) / 2)) with (hl - 20) by (Z.div_mod_to_equations; lia).
  transitivity (rfc_sum (take 20 data) + rfc_sum (take (Z.to_nat (hl - 20)) (drop 20 data))).
  - rewrite take_take in E. change (Z.to_nat (2 * 10) `min` 20)%nat with 20%nat in E. lia.
  - rewrite <- rfc_sum_app.
    + f_equal. unfold read_at. rewrite drop_0.
      replace (Z.to_nat hl) with (20 + Z.to_nat (hl - 20))%nat by lia. by rewrite <- take_take_drop.
    + rewrite length_take. unfold zlen in Hb. exists 10%nat. lia.
Qed.

Lemma udp_sum_rfc data : bytes_ok data → 8 ≤ zlen data →
  rfc_sum (udp_header_bytes (udp_header_load data <| udp_cksum := 0 |>)) + be16 data 6 =
  rfc_sum (take 8 data).
Proof.
  intros Hd Hl. rewrite take_bytes by (unfold zlen in Hl; lia).
  change (udp_header_load data <| udp_cksum := 0 |>) with
    (mk_udp_header (load16 data 0) (load16 data 2) (load16 data 4) 0).
  unfold udp_header_bytes; cbn [source_port dest_port udp_len udp_cksum].
  rewrite !store16_load16' by done. change (store16 0) with [0; 0].
  change ((λ i : nat, byte_at data (Z.of_nat i)) <$> seq 0 8) with
    [byte_at data 0; byte_at data (0 + 1); byte_at data 2; byte_at data (2 + 1);
     byte_at data 4; byte_at data (4 + 1); byte_at data 6; byte_at data (6 + 1)].
  cbn [app rfc_sum]. unfold be16. lia.
Qed.

(** The payload, odd or even, after a sum that leaves room for it. *)
Lemma udp_sum_payload_rfc t h p : bytes_ok p → zlen p ≤ 65527 → 0 ≤ t ≤ 2 ^ 22 →
  udp_sum_payload t h p (zlen p) = t + rfc_sum (udp_header_bytes h) + rfc_sum p.
Proof.
  intros Hp Hl Ht. unfold udp_sum_payload.
  rewrite (summer_rfc_all (udp_header_bytes h)) by (auto with badvpn || done || (unfold SIZEOF_udp_header; lia)).
  pose proof (rfc_sum_bound (udp_header_bytes h) ltac:(auto with badvpn)) as Hb1.
  rewrite zlen_udp_header in Hb1. change ((8 + 1) / 2) with 4 in Hb1.
  pose proof (rfc_sum_bound p Hp) as Hb2. pose proof (zlen_nonneg p).
  assert ((zlen p + 1) / 2 ≤ 32764) by (Z.div_mod_to_equations; lia).
  rewrite (u32_id (t + _)) by (unfold is_u32; lia).
  destruct (Z.eqb_spec (zlen p mod 2) 0) as [E|E].
  - rewrite summer_rfc_all by (done || lia). apply u32_id. unfold is_u32. lia.
  - assert (0 < zlen p) as Hpos by (Z.div_mod_to_equations; lia). set (n := zlen p - 1). assert (n mod 2 = 0) as En by (unfold n; Z.div_mod_to_equations; lia).
    assert (p = take (Z.to_nat n) p ++ [byte_at p n]) as Es.
    { rewrite <- (take_drop (Z.to_nat n) p) at 1. f_equal. unfold n, zlen in *.
      destruct (lookup_lt_is_Some_2 p (Z.to_nat (Z.of_nat (length p) - 1)) ltac:(clear - Hpos; lia)) as [x Hx].
      unfold byte_at. rewrite (nth_lookup_Some _ _ _ _ Hx).
      rewrite (drop_S _ _ _ Hx). f_equal. apply drop_ge. clear - Hpos. lia. }
    pose proof (byte_at_ok p n Hp) as Hx. unfold is_u8 in Hx.
    assert (rfc_sum p = rfc_sum (take (Z.to_nat n) p) + 256 * byte_at p n) as Er.
    { rewrite Es at 1. rewrite rfc_sum_app; [done|]. apply even_length. rewrite zlen_take.
      unfold n in *. rewrite Z.min_l by lia. rewrite Z2Nat.id by lia. done. }
    rewrite summer_rfc by (done || unfold n; lia).
    rewrite Z.shiftl_mul_pow2 by lia. change (2 ^ 8) with 256.
    rewrite store16_hton16 by (unfold is_u16; lia).
    rewrite Z.div_mul, Z.mod_mul by lia.
    rewrite (summer_rfc_all [_; 0]); [|repeat constructor; unfold is_u8; lia|done|lia|done].
    pose proof (rfc_sum_bound (take (Z.to_nat n) p) ltac:(auto with badvpn)). cbn [rfc_sum].
    rewrite (u32_id (t + _ + _)) by (unfold is_u32; lia).
    rewrite u32_id by (unfold is_u32; lia). lia.
Qed.

(** ** What the checks accept *)

Definition ihl_bytes (data : bytes) : Z := 4 * (byte_at data 0 mod 16).

Lemma nibble_high x : is_u8 x → Z.shiftr (Z.land x 240) 4 = x / 16.
Proof.
  intros H. rewrite Z.shiftr_land, Z.shiftr_div_pow2 by lia. change (Z.shiftr 240 4) with (Z.ones 4).
  rewrite Z.land_ones by lia. apply Z.mod_small. unfold is_u8 in H. change (2 ^ 4) with 16.
  Z.div_mod_to_equations. lia.
Qed.
Lemma nibble_low x : is_u8 x → Z.shiftr (Z.land x 15) 0 = x mod 16.
Proof. intros H. rewrite Z.shiftr_0_r. change 15 with (Z.ones 4). by rewrite Z.land_ones by lia. Qed.

Lemma ihl_bytes_range data : ihl_bytes data mod 4 = 0 ∧ 0 ≤ ihl_bytes data ≤ 60.
Proof. unfold ihl_bytes. Z.div_mod_to_equations. lia. Qed.

Lemma udp_finish_eq t : 0 ≤ t < 2 ^ 32 → udp_finish t = hton16 (65535 - fold_carries FOLD_FUEL t).
Proof.
  intros Ht. pose proof (fold_carries_exit FOLD_FUEL t ltac:(unfold FOLD_FUEL; lia) Ht) as (Hr & _ & _).
  unfold udp_finish. cbv zeta. destruct (Z.eqb_spec (not32 (fold_carries FOLD_FUEL t)) 0) as [E|E].
  - unfold not32 in E. lia.
  - by rewrite <- hton16_u16, not32_u16 by lia.
Qed.

(** The header checksum of a received IPv4 header. *)
Lemma ipv4_checksum_valid data hl : bytes_ok data → hl mod 4 = 0 → 20 ≤ hl ≤ 60 → hl ≤ zlen data →
  byte_at data 0 ≠ 0 →
  load16 data 10 = ipv4_checksum (ipv4_header_load data <| ip_checksum := hton16 0 |>)
    (drop 20 data) (hl - 20) ↔ rfc_valid (be16 data 10) (read_at 0 hl data).
Proof.
  intros Hd Hm Hl Hb H0. pose proof (ipv4_sum_rfc data hl Hd Hm Hl Hb) as E.
  set (a := words_sum (ipv4_header_bytes _) 10) in E.
  assert (0 < a ≤ 65535 * 10) as Ha.
  { unfold a. pose proof (words_sum_bound (ipv4_header_bytes
      (ipv4_header_load data <| ip_checksum := hton16 0 |>)) 10 ltac:(auto with badvpn) ltac:(lia)) as Hw.
    split; [|lia]. unfold words_sum in *. change (seqZ 0 10) with (0 :: [1;2;3;4;5;6;7;8;9]) in *.
    rewrite fmap_cons in *. cbn [foldr] in *.
    assert (0 ≤ foldr Z.add 0 ((λ i, badvpn_read_be16 (ipv4_header_bytes
      (ipv4_header_load data <| ip_checksum := hton16 0 |>)) (2 * i)) <$> [1;2;3;4;5;6;7;8;9])) as Hr.
    { apply foldr_add_bound. apply Forall_fmap, Forall_forall. intros. apply read_be16_range. auto with badvpn. }
    rewrite be16_read by auto with badvpn. unfold be16.
    pose proof (byte_at_ok (ipv4_header_bytes (ipv4_header_load data <| ip_checksum := hton16 0 |>))
      (2 * 0 + 1) ltac:(auto with badvpn)) as H1. pose proof (byte_at_ok data 0 Hd) as H2.
    assert (byte_at (ipv4_header_bytes (ipv4_header_load data <| ip_checksum := hton16 0 |>)) (2 * 0)
      = byte_at data 0) as -> by (by apply u8_id). unfold is_u8 in *. lia. }
  pose proof (words_sum_bound (drop 20 data) ((hl - 20) / 2) ltac:(auto with badvpn)
    ltac:(Z.div_mod_to_equations; lia)) as Hw.
  assert ((hl - 20) / 2 ≤ 20) by (Z.div_mod_to_equations; lia).
  unfold ipv4_checksum. change (SIZEOF_ipv4_header / 2) with 10.
  rewrite (sum_words_eq (ipv4_header_bytes _)) by (auto with badvpn; lia).
  rewrite sum_words_eq by (auto with badvpn; Z.div_mod_to_equations; lia). fold a. rewrite Z.add_0_l.
  set (s := a + _) in *.
  destruct (fold_carries_exit FOLD_FUEL s ltac:(unfold FOLD_FUEL; lia) ltac:(lia)) as (Hr & _ & _).
  rewrite <- (hton16_u16 (not32 _)), not32_u16 by lia.
  rewrite checksum_iff by (lia || by apply load16_range). rewrite ntoh16_be16 by done.
  unfold rfc_valid. rewrite <- E. done.
Qed.

Lemma ipv4_check_iff data h p : bytes_ok data → 
  ipv4_check data = Some (h, p) ↔
  20 ≤ zlen data ∧ byte_at data 0 / 16 = 4 ∧ 20 ≤ ihl_bytes data ∧
  ihl_bytes data ≤ be16 data 2 ≤ zlen data ∧
  rfc_valid (be16 data 10) (read_at 0 (ihl_bytes data) data) ∧
  h = ipv4_header_load data ∧ p = read_at (ihl_bytes data) (be16 data 2 - ihl_bytes data) data.
Proof.
  intros Hd. pose proof (byte_at_ok data 0 Hd) as H0. pose proof (ihl_bytes_range data) as [Hm Hr].
  assert (IPV4_GET_VERSION (ipv4_header_load data) = byte_at data 0 / 16) as Ev by (by apply nibble_high).
  assert (u16 (IPV4_GET_IHL (ipv4_header_load data) * 4) = ihl_bytes data) as Ei.
  { unfold IPV4_GET_IHL, ihl_bytes. change (version4_ihl4 (ipv4_header_load data)) with (byte_at data 0).
    rewrite nibble_low by done. rewrite u16_id; [lia|]. unfold is_u16, ihl_bytes in *. lia. }
  unfold ipv4_check. rewrite Ev, Ei. unfold SIZEOF_ipv4_header.
  change (total_length (ipv4_header_load data)) with (load16 data 2). rewrite ntoh16_be16 by done.
  change (ip_checksum (ipv4_header_load data)) with (load16 data 10).
  change (Z.to_nat 20) with 20%nat.
  destruct (Z.ltb_spec (zlen data) 20); [naive_solver lia|].
  destruct (Z.eqb_spec (byte_at data 0 / 16) 4) as [E4|]; [cbn [negb]|naive_solver].
  destruct (Z.ltb_spec (ihl_bytes data) 20); [naive_solver lia|].
  destruct (Z.ltb_spec (zlen data) (ihl_bytes data)); [naive_solver lia|].
  destruct (Z.ltb_spec (be16 data 2) (ihl_bytes data)); [naive_solver lia|].
  destruct (Z.ltb_spec (zlen data) (be16 data 2)); [naive_solver lia|].
  assert (byte_at data 0 ≠ 0) as Hn by (intros E; rewrite E in E4; done).
  pose proof (ipv4_checksum_valid data (ihl_bytes data) Hd Hm ltac:(lia) ltac:(lia) Hn) as Hc.
  destruct (Z.eqb_spec (load16 data 10) (ipv4_checksum (ipv4_header_load data <| ip_checksum := hton16 0 |>)
    (drop 20 data) (ihl_bytes data - 20))) as [E|E]; cbn [negb]; naive_solver lia.
Qed.

Lemma udp_check_iff data h p : bytes_ok data →
  udp_check data = Some (h, p) ↔
  8 ≤ be16 data 4 ≤ zlen data ∧ h = udp_header_load data ∧ p = read_at 8 (be16 data 4 - 8) data.
Proof.
  intros Hd. unfold udp_check, SIZEOF_udp_header.
  change (udp_len (udp_header_load data)) with (load16 data 4). rewrite ntoh16_be16 by done. cbv zeta.
  destruct (Z.ltb_spec (zlen data) 8); [naive_solver lia|].
  destruct (Z.ltb_spec (be16 data 4) 8); [naive_solver lia|].
  destruct (Z.ltb_spec (8 + (zlen data - 8)) (be16 data 4)); [naive_solver lia|].
  unfold read_at. naive_solver lia.
Qed.

Lemma ipv6_check_iff data h p : bytes_ok data →
  ipv6_check data = Some (h, p) ↔
  byte_at data 0 / 16 = 6 ∧ 40 + be16 data 4 ≤ zlen data ∧
  h = ipv6_header_load data ∧ p = read_at 40 (be16 data 4) data.
Proof.
  intros Hd. unfold ipv6_check, SIZEOF_ipv6_header. pose proof (be16_range data 4 Hd).
  change (payload_length (ipv6_header_load data)) with (load16 data 4). rewrite ntoh16_be16 by done. cbv zeta.
  assert (ntoh8 (version4_tc4 (ipv6_header_load data)) = byte_at data 0) as ->
    by (apply u8_id; by apply byte_at_ok).
  rewrite Z.shiftr_div_pow2 by lia. change (2 ^ 4) with 16.
  destruct (Z.ltb_spec (zlen data) 40); [naive_solver lia|].
  destruct (Z.eqb_spec (byte_at data 0 / 16) 6); [cbn [negb]|naive_solver].
  destruct (Z.ltb_spec (zlen data - 40) (be16 data 4)); naive_solver lia.
Qed.

(** The bytes of a 16-bit and of a 32-bit length in a pseudo header. *)
Definition be16_bytes (x : Z) : bytes := [x / 256; x mod 256].

Lemma store32_hton32_small x : is_u16 x → store32 (hton32 x) = [0; 0] ++ be16_bytes x.
Proof.
  intros Hx. unfold hton32, is_u16 in *. rewrite u32_id by (unfold is_u32; lia).
  rewrite badvpn_reverse32_eq, store32_bytes by apply u8_range.
  rewrite !u8_shiftr by lia. unfold u8, be16_bytes. change (2 ^ 24) with 16777216.
  change (2 ^ 16) with 65536 in *. change (2 ^ 8) with 256. cbn [app].
  f_equal; [|f_equal; [|f_equal]]; Z.div_mod_to_equations; lia.
Qed.
Lemma be16_bytes_ok x : is_u16 x → bytes_ok (be16_bytes x).
Proof.
  intros Hx. unfold is_u16, be16_bytes in *.
  repeat constructor; unfold is_u8; Z.div_mod_to_equations; lia.
Qed.
Lemma be16_bytes_read l off : bytes_ok l → be16_bytes (be16 l off) = [byte_at l off; byte_at l (off + 1)].
Proof.
  intros H. pose proof (byte_at_ok l off H). pose proof (byte_at_ok l (off + 1) H).
  unfold is_u8, be16, be16_bytes in *. f_equal; [|f_equal]; Z.div_mod_to_equations; lia.
Qed.

Lemma even_app {A} (a b : list A) : Nat.Even (length a) → Nat.Even (length b) → Nat.Even (length (a ++ b)).
Proof. intros [n ?] [m ?]. exists (n + m)%nat. rewrite length_app. lia. Qed.

(** The end of both UDP checksums: the pseudo header [ph], the header without
    its checksum, the payload. *)
Lemma udp_finish_valid ph data n : bytes_ok ph → bytes_ok data → Nat.Even (length ph) → zlen ph ≤ 64 →
  0 < rfc_sum ph → 8 ≤ n ≤ zlen data → n ≤ 65535 →
  load16 data 6 = udp_finish (rfc_sum ph + rfc_sum (udp_header_bytes (udp_header_load data <| udp_cksum := 0 |>))
    + rfc_sum (read_at 8 (n - 8) data)) ↔ rfc_valid (be16 data 6) (ph ++ read_at 0 n data).
Proof.
  intros Hp Hd Hev Hl Hpos Hn Hn'. pose proof (udp_sum_rfc data Hd ltac:(lia)) as E.
  set (u := rfc_sum (udp_header_bytes _)) in *.
  pose proof (rfc_sum_bound ph Hp) as B1. assert ((zlen ph + 1) / 2 ≤ 33) by (Z.div_mod_to_equations; lia).
  pose proof (rfc_sum_bound (udp_header_bytes (udp_header_load data <| udp_cksum := 0 |>)) ltac:(auto with badvpn)) as B2.
  fold u in B2. rewrite zlen_udp_header in B2. change ((8 + 1) / 2) with 4 in B2.
  pose proof (rfc_sum_bound (read_at 8 (n - 8) data) ltac:(auto with badvpn)) as B3.
  rewrite zlen_read_at in B3 by lia. assert ((n - 8 + 1) / 2 ≤ 32764) by (Z.div_mod_to_equations; lia).
  rewrite udp_finish_eq by lia. rewrite checksum_iff by (lia || by apply load16_range).
  rewrite ntoh16_be16 by done. unfold rfc_valid. rewrite rfc_sum_app by done.
  replace (read_at 0 n data) with (take 8 data ++ read_at 8 (n - 8) data).
  - rewrite rfc_sum_app, <- E by (rewrite length_take; unfold zlen in *; exists 4%nat; lia).
    replace (rfc_sum ph + u + rfc_sum (read_at 8 (n - 8) data) + be16 data 6) with
      (rfc_sum ph + (u + be16 data 6 + rfc_sum (read_at 8 (n - 8) data))) by lia. done.
  - change (take 8 data) with (read_at 0 8 data). replace n with (8 + (n - 8)) at 2 by lia.
    by rewrite read_at_app by lia.
Qed.

Lemma udp_checksum_valid data n src dst : bytes_ok data → 8 ≤ n ≤ zlen data → n ≤ 65535 →
  load16 data 6 = udp_checksum (udp_header_load data <| udp_cksum := 0 |>)
    (read_at 8 (n - 8) data) (n - 8) src dst ↔
  rfc_valid (be16 data 6) (store32 src ++ store32 dst ++ [0; 17] ++ be16_bytes n ++ read_at 0 n data).
Proof.
  intros Hd Hn Hn'. assert (is_u16 n) as Hu by (unfold is_u16; lia). 
  set (ph := store32 src ++ store32 dst ++ [0; 17] ++ be16_bytes n).
  assert (bytes_ok ph) as Hph.
  { unfold ph. repeat (apply Forall_app; split); auto with badvpn; [|by apply be16_bytes_ok].
    repeat constructor; unfold is_u8; lia. }
  assert (rfc_sum ph = rfc_sum (store32 src) + rfc_sum (store32 dst) + 17 + n) as Es.
  { unfold ph. rewrite !rfc_sum_app by ((by exists 2%nat) || (by exists 1%nat)). unfold be16_bytes. cbn [app rfc_sum].
    Z.div_mod_to_equations. lia. }
  pose proof (rfc_sum_bound (store32 src) ltac:(auto with badvpn)) as B1.
  pose proof (rfc_sum_bound (store32 dst) ltac:(auto with badvpn)) as B2.
  change ((zlen (store32 src) + 1) / 2) with 2 in B1. change ((zlen (store32 dst) + 1) / 2) with 2 in B2.
  replace (store32 src ++ store32 dst ++ [0; 17] ++ be16_bytes n ++ read_at 0 n data)
    with (ph ++ read_at 0 n data) by (unfold ph; by rewrite <- !app_assoc).
  rewrite <- udp_finish_valid by (done || lia || (by exists 6%nat)).
  unfold udp_checksum. rewrite (u16_id (n - 8)) by (unfold is_u16; lia).
  unfold SIZEOF_udp_header, IPV4_PROTOCOL_UDP. rewrite Z.add_0_l.
  replace (8 + (n - 8)) with n by lia. rewrite !store16_hton16 by (done || unfold is_u16; lia).
  fold (be16_bytes n).
  rewrite !(summer_rfc_all _ 4), !(summer_rfc_all _ 2) by
    (auto with badvpn || done || lia || (by apply be16_bytes_ok) || (repeat constructor; unfold is_u8; Z.div_mod_to_equations; lia)).
  change (rfc_sum [17 / 256; 17 mod 256]) with 17.
  assert (rfc_sum (be16_bytes n) = n) as -> by (unfold be16_bytes; cbn [rfc_sum]; Z.div_mod_to_equations; lia).
  rewrite (u32_id (rfc_sum (store32 src))) by (unfold is_u32; lia).
  rewrite (u32_id (rfc_sum (store32 src) + _)) by (unfold is_u32; lia).
  rewrite (u32_id (_ + 17)) by (unfold is_u32; lia).
  rewrite (u32_id (_ + n)) by (unfold is_u32; lia).
  assert (zlen (read_at 8 (n - 8) data) = n - 8) as El by (rewrite zlen_read_at; lia).
  rewrite <- El at 2. rewrite udp_sum_payload_rfc by (auto with badvpn || lia). by rewrite Es.
Qed.

Lemma udp_ip6_checksum_valid data n src dst : bytes_ok data → 8 ≤ n ≤ zlen data → n ≤ 65535 →
  bytes_ok src → bytes_ok dst → length src = 16%nat → length dst = 16%nat →
  load16 data 6 = udp_ip6_checksum (udp_header_load data <| udp_cksum := 0 |>)
    (read_at 8 (n - 8) data) (n - 8) src dst ↔
  rfc_valid (be16 data 6) (src ++ dst ++ [0; 0] ++ be16_bytes n ++ [0; 0; 0; 17] ++ read_at 0 n data).
Proof.
  intros Hd Hn Hn' Hs Ht Ls Lt. assert (is_u16 n) as Hu by (unfold is_u16; lia).
  set (ph := src ++ dst ++ [0; 0] ++ be16_bytes n ++ [0; 0; 0; 17]).
  assert (bytes_ok ph) as Hph.
  { unfold ph. repeat (apply Forall_app; split); auto with badvpn; [|by apply be16_bytes_ok|];
    repeat constructor; unfold is_u8; lia. }
  assert (length ph = 40%nat) as Lp by (unfold ph; rewrite !length_app, Ls, Lt; done).
  assert (rfc_sum ph = rfc_sum src + rfc_sum dst + n + 17) as Es.
  { unfold ph. rewrite !rfc_sum_app by ((exists 8%nat; lia) || (by exists 1%nat)).
    unfold be16_bytes. cbn [app rfc_sum]. Z.div_mod_to_equations. lia. }
  pose proof (rfc_sum_bound src Hs) as B1. pose proof (rfc_sum_bound dst Ht) as B2.
  unfold zlen in B1, B2. rewrite Ls in B1. rewrite Lt in B2.
  change ((Z.of_nat 16 + 1) / 2) with 8 in *.
  replace (src ++ dst ++ [0; 0] ++ be16_bytes n ++ [0; 0; 0; 17] ++ read_at 0 n data)
    with (ph ++ read_at 0 n data) by (unfold ph; by rewrite <- !app_assoc).
  rewrite <- udp_finish_valid by (done || lia || (exists 20%nat; lia) || (unfold zlen; lia)).
  unfold udp_ip6_checksum. rewrite (u16_id (n - 8)) by (unfold is_u16; lia).
  unfold SIZEOF_udp_header, IPV6_NEXT_UDP. rewrite Z.add_0_l.
  replace (8 + (n - 8)) with n by lia. rewrite !store32_hton32_small by (done || unfold is_u16; lia).
  rewrite !(summer_rfc_all _ 16) by (done || lia || (unfold zlen; lia)).
  assert (∀ x, is_u16 x → udp_checksum_summer ([0; 0] ++ be16_bytes x) 4 = x) as Ex.
  { intros x Hx. rewrite summer_rfc_all; [|apply Forall_app; split;
      [repeat constructor; unfold is_u8; lia|by apply be16_bytes_ok]|done|lia|done].
    unfold be16_bytes. cbn [app rfc_sum]. Z.div_mod_to_equations. lia. }
  rewrite !Ex by (done || unfold is_u16; lia).
  rewrite (u32_id (rfc_sum src)) by (unfold is_u32; lia).
  rewrite (u32_id (rfc_sum src + _)) by (unfold is_u32; lia).
  rewrite (u32_id (_ + n)) by (unfold is_u32; lia).
  rewrite (u32_id (_ + 17)) by (unfold is_u32; lia).
  assert (zlen (read_at 8 (n - 8) data) = n - 8) as El by (rewrite zlen_read_at; lia).
  rewrite <- El at 2. rewrite udp_sum_payload_rfc by (auto with badvpn || lia). by rewrite Es.
Qed.

(** ** Properties *)

(** A header built as [udpgw_client_handler_received] builds it is accepted
    by [ipv4_check], which returns that header and exactly the payload, and the
    ones' complement sum of its words is all ones, as RFC 791 asks. *)
Theorem ipv4_built_accepted h payload :
  zlen payload ≤ 65515 → ipv4_header_built h (zlen payload) →
  ipv4_check (ipv4_header_bytes h ++ payload) = Some (h, payload) ∧
  fold_carries FOLD_FUEL (sum_words (ipv4_header_bytes h) 10 0) = 65535.
Proof. intros Hp Hh. split; [by apply ipv4_check_built|by eapply ipv4_built_sum]. Qed.

(** The payloads that the three header checks return lie inside the
    received buffer, behind the header, for every buffer of bytes. *)
Theorem header_checks_inside data :
  bytes_ok data →
  (∀ h p, ipv4_check data = Some (h, p) → ∃ off, SIZEOF_ipv4_header ≤ off ∧ inside off p data) ∧
  (∀ h p, ipv6_check data = Some (h, p) → inside SIZEOF_ipv6_header p data) ∧
  (∀ h p, udp_check data = Some (h, p) → inside SIZEOF_udp_header p data).
Proof.
  intros Hd. split_and!; intros h p H.
  - by eapply ipv4_check_inside.
  - by eapply ipv6_check_inside.
  - by eapply udp_check_inside.
Qed.

(** The carry loop of the checksums terminates after at most two rounds on
    any 32-bit sum, and its result is a 16-bit value congruent to the sum
    modulo 65535 which is zero only for a zero sum. *)
Theorem checksum_fold_correct fuel t :
  (2 ≤ fuel)%nat → 0 ≤ t < 2 ^ 32 →
  fold_carries fuel t = fold_carries 2 t ∧
  0 ≤ fold_carries fuel t < 65536 ∧
  fold_carries fuel t mod 65535 = t mod 65535 ∧
  (fold_carries fuel t = 0 ↔ t = 0).
Proof.
  intros Hf Ht. pose proof (fold_carries_exit fuel t Hf Ht) as (Hr & Hm & Hz).
  pose proof (fold_carries_exit 2 t ltac:(lia) Ht) as (Hr' & Hm' & Hz').
  assert (t = 0 → fold_carries fuel t = 0) as H0 by (intros ->; by rewrite fold_carries_small).
  assert (t = 0 → fold_carries 2 t = 0) as H0' by (intros ->; by rewrite fold_carries_small).
  destruct (decide (t = 0)) as [E|E].
  { rewrite H0, H0' by done. split_and!; [done..|lia|by rewrite E|lia]. }
  assert (fold_carries fuel t ≠ 0) by lia. assert (fold_carries 2 t ≠ 0) by lia.
  split_and!; [|lia..|done|lia]. Z.div_mod_to_equations. lia.
Qed.

(** The UDP checksum is finished without the substitution that RFC 768
    asks for: the test [t == 0] after [t = ~t] on a [uint32_t] never holds, so
    a sum that folds to 0xFFFF is sent as checksum zero ("no checksum"). *)
Theorem udp_finish_no_substitution t :
  0 ≤ t < 2 ^ 32 →
  udp_finish t = hton16 (65535 - fold_carries FOLD_FUEL t) ∧
  (fold_carries FOLD_FUEL t = 65535 → udp_finish t = 0).
Proof.
  intros Ht. split; [by apply udp_finish_eq|]. intros E. by rewrite udp_finish_eq, E.
Qed.

(** *** Witnesses *)

Definition ex_ipv4 : ipv4_header :=
  let h := mk_ipv4_header 69 0 (hton16 23) 0 0 64 17 (hton16 0) 16777343 33554559 in
  h <| ip_checksum := ipv4_checksum h [] 0 |>.

Lemma ipv4_built_accepted_witness :
  ipv4_check (ipv4_header_bytes ex_ipv4 ++ [1;2;3]) = Some (ex_ipv4, [1;2;3]) ∧
  fold_carries FOLD_FUEL (sum_words (ipv4_header_bytes ex_ipv4) 10 0) = 65535.
Proof.
  apply (ipv4_built_accepted ex_ipv4 [1;2;3]); [vm_compute; discriminate|].
  unfold ipv4_header_built, ipv4_header_ok, is_u8, is_u16, is_u32.
  split_and!; vm_compute; try reflexivity; discriminate.
Defined.

Lemma header_checks_inside_witness :
  udp_check [0;53;0;54;0;10;0;0;7;8] = Some (mk_udp_header 13568 13824 2560 0, [7;8]) ∧
  inside 8 [7;8] [0;53;0;54;0;10;0;0;7;8].
Proof.
  split; [reflexivity|].
  apply (header_checks_inside [0;53;0;54;0;10;0;0;7;8]) with (h := mk_udp_header 13568 13824 2560 0).
  - apply (bool_decide_unpack _). vm_compute. exact I.
  - reflexivity.
Defined.

Lemma checksum_fold_correct_witness :
  fold_carries 5 4294967295 = fold_carries 2 4294967295 ∧ fold_carries 5 4294967295 = 65535.
Proof.
  split; [|reflexivity]. apply (checksum_fold_correct 5 4294967295); [lia|].
  split; vm_compute; [discriminate|reflexivity].
Defined.

Lemma udp_finish_no_substitution_witness : udp_finish 131070 = 0.
Proof.
  apply (udp_finish_no_substitution 131070); [split; vm_compute; [discriminate|reflexivity]|].
  reflexivity.
Defined.
