(* ===== verification/Options.v ===== *)
(** * Command line of tun2socks: [parse_arguments] in tun2socks/tun2socks.c

    The model follows the build of the repository, which defines
    [__ANDROID__]: the options in the [#else] branches do not exist. *)
From stdpp Require Import base list numbers option pretty.
From Stdlib Require Import ZArith Lia String Ascii.
From S2P Require Import Prelude.
#[local] Open Scope string_scope.
#[local] Open Scope Z_scope.

(** [!strcmp(a, b)] *)
#[local] Infix "=s?" := String.eqb (at level 70).

(** ** Numbers in strings *)

Definition is_space (c : ascii) : bool :=
  let n := Z.of_N (N_of_ascii c) in (n =? 32) || ((9 <=? n) && (n <=? 13)).

Definition digit (c : ascii) : option Z :=
  let n := Z.of_N (N_of_ascii c) in
  if (48 <=? n) && (n <=? 57) then Some (n - 48) else None.

Fixpoint skip_spaces (s : string) : string :=
  match s with
  | String c s' => if is_space c then skip_spaces s' else s
  | EmptyString => s
  end.

(** The digits at the front: whether there was one, their value and the rest. *)
Fixpoint scan_digits (s : string) (acc : Z) : Z * string :=
  match s with
  | String c s' =>
      match digit c with
      | Some d => scan_digits s' (10 * acc + d)
      | None => (acc, s)
      end
  | EmptyString => (acc, s)
  end.

Definition starts_with_digit (s : string) : bool :=
  match s with String c _ => match digit c with Some _ => true | None => false end | _ => false end.

Definition LONG_MAX : Z := 2 ^ 63 - 1.
Definition LONG_MIN : Z := - 2 ^ 63.

(** [strtol(s, &end, 10)] with a 64-bit [long]: the value, saturated, and [end]. *)
Definition strtol (s : string) : Z * string :=
  let t := skip_spaces s in
  let '(neg, t) :=
    match t with
    | String "-" t' => (true, t')
    | String "+" t' => (false, t')
    | _ => (false, t)
    end in
  if starts_with_digit t then
    let '(n, rest) := scan_digits t 0 in
    (Z.max LONG_MIN (Z.min LONG_MAX (if neg then - n else n)), rest)
  else (0, s).

(** [atoi]: [strtol] converted to [int]. *)
Definition to_int (x : Z) : Z :=
  let y := x mod 2 ^ 32 in if y <? 2 ^ 31 then y else y - 2 ^ 32.
Definition atoi (s : string) : Z := to_int (fst (strtol s)).

Definition BLOG_ERROR : Z := 1.
Definition BLOG_WARNING : Z := 2.
Definition BLOG_NOTICE : Z := 3.
Definition BLOG_INFO : Z := 4.
Definition BLOG_DEBUG : Z := 5.

(** misc/loglevel.h *)
Definition parse_loglevel (s : string) : Z :=
  if s =s? "none" then 0
  else if s =s? "error" then BLOG_ERROR
  else if s =s? "warning" then BLOG_WARNING
  else if s =s? "notice" then BLOG_NOTICE
  else if s =s? "info" then BLOG_INFO
  else if s =s? "debug" then BLOG_DEBUG
  else
    let '(res, endp) := strtol s in
    if negb (s =s? "") && (endp =s? "") && (0 <=? res) && (res <=? BLOG_DEBUG)
    then res else -1.

(** ** The options *)

Definition LOGGER_STDOUT : Z := 1.
Definition LOGGER_SYSLOG : Z := 2.
Definition DEFAULT_UDPGW_MAX_CONNECTIONS : Z := 256.
Definition DEFAULT_UDPGW_CONNECTION_BUFFER_SIZE : Z := 8.

Record options := mk_options {
  opt_help : bool; opt_version : bool; logger : Z;
  logger_syslog_facility : string; logger_syslog_ident : string;
  loglevel : Z; loglevels : list Z;
  netif_ipaddr : option string; netif_netmask : option string;
  netif_ip6addr : option string; socks_server_addr : option string;
  username : option string; password : option string; password_file : option string;
  append_source_to_username : bool;
  udpgw_remote_server_addr : option string;
  udpgw_max_connections : Z; udpgw_connection_buffer_size : Z;
  udpgw_transparent_dns : bool;
  tun_fd : Z; tun_mtu : Z; fake_proc : bool;
  sock_path : option string; opt_pid : option string; dnsgw : option string
}.
#[export] Instance eta_options : Eta options := λ o,
  mk_options (opt_help o) (opt_version o) (logger o)
    (logger_syslog_facility o) (logger_syslog_ident o) (loglevel o) (loglevels o)
    (netif_ipaddr o) (netif_netmask o) (netif_ip6addr o) (socks_server_addr o)
    (username o) (password o) (password_file o) (append_source_to_username o)
    (udpgw_remote_server_addr o) (udpgw_max_connections o) (udpgw_connection_buffer_size o)
    (udpgw_transparent_dns o) (tun_fd o) (tun_mtu o) (fake_proc o)
    (sock_path o) (opt_pid o) (dnsgw o).

(** The messages the parser prints before it returns 0. *)
Inductive parse_error :=
| RequiresArgument (arg : string)
| RequiresTwoArguments (arg : string)
| WrongArgument (arg : string)
| WrongChannelArgument (arg : string)
| WrongLoglevelArgument (arg : string)
| UnknownOption (arg : string)
| IsRequired (arg : string)
| PasswordNotGiven
| PasswordGivenTwice
| NoProgramName.

Section Parse.
(** The names of the logging channels ([blog_channel_list], a generated table). *)
Context (blog_channel_list : list string).

(** [BLogGlobal_GetChannelByName] *)
Fixpoint channel_index (names : list string) (name : string) (i : Z) : Z :=
  match names with
  | [] => -1
  | n :: names => if n =s? name then i else channel_index names name (i + 1)
  end.
Definition BLogGlobal_GetChannelByName (name : string) : Z :=
  channel_index blog_channel_list name 0.

(** [options] before the loop.  [dnsgw] is not assigned: [options] is a global
    object, so it starts as a null pointer. *)
Definition default_options (argv0 : string) : options :=
  {| opt_help := false; opt_version := false; logger := LOGGER_STDOUT;
     logger_syslog_facility := "daemon"; logger_syslog_ident := argv0;
     loglevel := -1; loglevels := replicate (List.length blog_channel_list) (-1);
     netif_ipaddr := None; netif_netmask := None; netif_ip6addr := None;
     socks_server_addr := None; username := None; password := None;
     password_file := None; append_source_to_username := false;
     udpgw_remote_server_addr := None;
     udpgw_max_connections := DEFAULT_UDPGW_MAX_CONNECTIONS;
     udpgw_connection_buffer_size := DEFAULT_UDPGW_CONNECTION_BUFFER_SIZE;
     udpgw_transparent_dns := false;
     tun_fd := -1; tun_mtu := 1500; fake_proc := false;
     sock_path := None; opt_pid := None; dnsgw := None |}.

(** One turn of the loop: the new options and the arguments that remain. *)
Abbreviation turn := (parse_error + options * list string)%type.

(** Options that take one argument. *)
Definition with_arg (arg : string) (rest : list string) (f : string → parse_error + options) : turn :=
  match rest with
  | [] => inl (RequiresArgument arg)
  | a :: rest => match f a with inl e => inl e | inr o => inr (o, rest) end
  end.

(** The branches for logging, the Android options and the network options, in
    the order of the [else if] chain; [None] when no branch of the group matches. *)
Definition parse_logging_option (o : options) (arg : string) (rest : list string) : option turn :=
  if arg =s? "--help" then Some (inr (o <| opt_help := true |>, rest))
  else if arg =s? "--version" then Some (inr (o <| opt_version := true |>, rest))
  else if arg =s? "--logger" then Some (with_arg arg rest (λ arg2,
    if arg2 =s? "stdout" then inr (o <| logger := LOGGER_STDOUT |>)
    else if arg2 =s? "syslog" then inr (o <| logger := LOGGER_SYSLOG |>)
    else inl (WrongArgument arg)))
  else if arg =s? "--syslog-facility" then Some (with_arg arg rest (λ arg2,
    inr (o <| logger_syslog_facility := arg2 |>)))
  else if arg =s? "--syslog-ident" then Some (with_arg arg rest (λ arg2,
    inr (o <| logger_syslog_ident := arg2 |>)))
  else if arg =s? "--loglevel" then Some (with_arg arg rest (λ arg2,
    let l := parse_loglevel arg2 in
    if (l <? 0) then inl (WrongArgument arg) else inr (o <| loglevel := l |>)))
  else if arg =s? "--channel-loglevel" then Some
    match rest with
    | a1 :: a2 :: rest =>
        let channel := BLogGlobal_GetChannelByName a1 in
        if (channel <? 0) then inl (WrongChannelArgument arg) else
        let l := parse_loglevel a2 in
        if (l <? 0) then inl (WrongLoglevelArgument arg) else
        inr (o <| loglevels ::= <[Z.to_nat channel := l]> |>, rest)
    | _ => inl (RequiresTwoArguments arg)
    end
  else None.

Definition parse_android_option (o : options) (arg : string) (rest : list string) : option turn :=
  if arg =s? "--fake-proc" then Some (inr (o <| fake_proc := true |>, rest))
  else if arg =s? "--tunfd" then Some (with_arg arg rest (λ a,
    if (atoi a <=? 0) then inl (WrongArgument arg) else inr (o <| tun_fd := atoi a |>)))
  else if arg =s? "--tunmtu" then Some (with_arg arg rest (λ a,
    if (atoi a <=? 0) then inl (WrongArgument arg) else inr (o <| tun_mtu := atoi a |>)))
  else if arg =s? "--dnsgw" then Some (with_arg arg rest (λ a, inr (o <| dnsgw := Some a |>)))
  else if arg =s? "--sock-path" then Some (with_arg arg rest (λ a, inr (o <| sock_path := Some a |>)))
  else if arg =s? "--pid" then Some (with_arg arg rest (λ a, inr (o <| opt_pid := Some a |>)))
  else None.

Definition parse_net_option (o : options) (arg : string) (rest : list string) : option turn :=
  if arg =s? "--netif-ipaddr" then Some (with_arg arg rest (λ a, inr (o <| netif_ipaddr := Some a |>)))
  else if arg =s? "--netif-netmask" then Some (with_arg arg rest (λ a, inr (o <| netif_netmask := Some a |>)))
  else if arg =s? "--netif-ip6addr" then Some (with_arg arg rest (λ a, inr (o <| netif_ip6addr := Some a |>)))
  else if arg =s? "--socks-server-addr" then Some (with_arg arg rest (λ a, inr (o <| socks_server_addr := Some a |>)))
  else if arg =s? "--username" then Some (with_arg arg rest (λ a, inr (o <| username := Some a |>)))
  else if arg =s? "--password" then Some (with_arg arg rest (λ a, inr (o <| password := Some a |>)))
  else if arg =s? "--password-file" then Some (with_arg arg rest (λ a, inr (o <| password_file := Some a |>)))
  else if arg =s? "--append-source-to-username" then
    Some (inr (o <| append_source_to_username := true |>, rest))
  else if arg =s? "--enable-udprelay" then
    Some (inr (o <| udpgw_remote_server_addr := Some "0.0.0.0:0" |>, rest))
  else if arg =s? "--udprelay-max-connections" then Some (with_arg arg rest (λ a,
    if (atoi a <=? 0) then inl (WrongArgument arg)
    else inr (o <| udpgw_max_connections := atoi a |>)))
  else None.

Definition parse_option (o : options) (arg : string) (rest : list string) : turn :=
  match parse_logging_option o arg rest with Some r => r | None =>
  match parse_android_option o arg rest with Some r => r | None =>
  match parse_net_option o arg rest with Some r => r | None =>
  inl (UnknownOption arg) end end end.

(** [for (i = 1; i < argc; i++)]: every turn consumes at least one argument,
    so the number of arguments is enough fuel ([parse_loop_fuel]). *)
Fixpoint parse_loop (fuel : nat) (o : options) (args : list string) : parse_error + options :=
  match args, fuel with
  | [], _ => inr o
  | arg :: rest, S fuel =>
      match parse_option o arg rest with
      | inl e => inl e
      | inr (o', rest') => parse_loop fuel o' rest'
      end
  | _ :: _, O => inl NoProgramName
  end.

(** The checks after the loop. *)
Definition check_options (o : options) : parse_error + options :=
  if opt_help o || opt_version o then inr o
  else if negb (bool_decide (is_Some (netif_ipaddr o))) then inl (IsRequired "--netif-ipaddr")
  else if negb (bool_decide (is_Some (netif_netmask o))) then inl (IsRequired "--netif-netmask")
  else if negb (bool_decide (is_Some (socks_server_addr o))) then inl (IsRequired "--socks-server-addr")
  else if bool_decide (is_Some (username o)) then
    if negb (bool_decide (is_Some (password o))) && negb (bool_decide (is_Some (password_file o)))
    then inl PasswordNotGiven
    else if bool_decide (is_Some (password o)) && bool_decide (is_Some (password_file o))
    then inl PasswordGivenTwice
    else inr o
  else inr o.

Definition parse_arguments (argv : list string) : parse_error + options :=
  match argv with
  | [] => inl NoProgramName
  | argv0 :: args =>
      match parse_loop (List.length args) (default_options argv0) args with
      | inl e => inl e
      | inr o => check_options o
      end
  end.

(** ** The loop *)

Lemma with_arg_rest arg rest f o rest' :
  with_arg arg rest f = inr (o, rest') → ∃ a, rest = a :: rest' ∧ f a = inr o.
Proof.
  unfold with_arg. destruct rest as [|a r]; [done|].
  destruct (f a) eqn:E; [done|]. intros [= <- <-]. eauto.
Qed.

(** What every accepted command line guarantees about the values. *)
Definition level_ok (l : Z) : Prop := l = -1 ∨ (0 ≤ l ≤ BLOG_DEBUG).
Record options_ok (o : options) : Prop := {
  ok_logger : logger o = LOGGER_STDOUT ∨ logger o = LOGGER_SYSLOG;
  ok_loglevel : level_ok (loglevel o);
  ok_loglevels : List.length (loglevels o) = List.length blog_channel_list ∧ Forall level_ok (loglevels o);
  ok_tun_fd : tun_fd o = -1 ∨ 0 < tun_fd o ≤ INT_MAX;
  ok_tun_mtu : 0 < tun_mtu o ≤ INT_MAX;
  ok_max_connections : 0 < udpgw_max_connections o ≤ INT_MAX;
  ok_buffer_size : udpgw_connection_buffer_size o = DEFAULT_UDPGW_CONNECTION_BUFFER_SIZE;
  ok_udprelay : udpgw_remote_server_addr o = None ∨ udpgw_remote_server_addr o = Some "0.0.0.0:0"
}.

Lemma to_int_range x : - 2 ^ 31 ≤ to_int x ≤ INT_MAX.
Proof.
  unfold to_int, INT_MAX. pose proof (Z.mod_pos_bound x (2 ^ 32)).
  destruct (Z.ltb_spec (x mod 2 ^ 32) (2 ^ 31)); lia.
Qed.

Lemma parse_loglevel_range s : level_ok (parse_loglevel s).
Proof.
  unfold parse_loglevel, level_ok, BLOG_ERROR, BLOG_WARNING, BLOG_NOTICE, BLOG_INFO, BLOG_DEBUG.
  repeat (case_match; [lia|]).
  destruct (strtol s) as [res endp].
  destruct (_ && _) eqn:E; [|lia]. bool_prop. lia.
Qed.

Lemma default_options_ok argv0 : options_ok (default_options argv0).
Proof.
  split; simpl; unfold level_ok, INT_MAX, DEFAULT_UDPGW_MAX_CONNECTIONS; try lia; auto.
  - split; [apply length_replicate|]. apply Forall_replicate. left. lia.
Qed.

(** Analysis of one turn: the arguments that remain are a suffix, and the
    guarantees are kept. *)
Ltac turn_cases H :=
  repeat match type of H with
  | (if ?b then _ else _) = _ => destruct b eqn:?; [|]
  | Some _ = Some _ => apply (inj Some) in H
  | Some _ = None => discriminate H
  | None = Some _ => discriminate H
  end.

Ltac suffix :=
  match goal with
  | |- ∃ pre, ?r = app pre ?r => by exists []
  | |- ∃ pre, ?a :: ?r = app pre ?r => by exists [a]
  end.

Lemma parse_logging_option_ok o arg rest o' rest' :
  parse_logging_option o arg rest = Some (inr (o', rest')) →
  (∃ pre, rest = app pre rest') ∧ (options_ok o → options_ok o').
Proof.
  unfold parse_logging_option. intros H. turn_cases H;
    try (apply with_arg_rest in H as (a & -> & H)); turn_cases H; try discriminate H;
    try (injection H as <- <-); try (injection H as <-).
  all: try (split; [suffix|]; intros []; split; simpl; auto; fail).
  - split; [by exists [a]|]. intros []. split; simpl; auto.
    apply parse_loglevel_range.
  - destruct rest as [|a1 [|a2 r]]; try discriminate H.
    destruct (_ <? 0) in H; [discriminate H|]. destruct (_ <? 0) in H; [discriminate H|].
    injection H as <- <-. split; [by exists [a1; a2]|]. intros [? ? [? ?] ? ? ? ? ?].
    split; simpl; auto. split; [by rewrite length_insert|].
    apply Forall_insert; [done|]. apply parse_loglevel_range.
Qed.

Lemma parse_android_option_ok o arg rest o' rest' :
  parse_android_option o arg rest = Some (inr (o', rest')) →
  (∃ pre, rest = app pre rest') ∧ (options_ok o → options_ok o').
Proof.
  unfold parse_android_option. intros H. turn_cases H;
    try (apply with_arg_rest in H as (a & -> & H)); turn_cases H; try discriminate H;
    try (injection H as <- <-); try (injection H as <-).
  all: split; [suffix|]; intros []; split; simpl; auto.
  all: bool_prop; match goal with H : context [atoi ?a] |- _ => pose proof (to_int_range (fst (strtol a))) end; unfold atoi in *; lia.
Qed.

Lemma parse_net_option_ok o arg rest o' rest' :
  parse_net_option o arg rest = Some (inr (o', rest')) →
  (∃ pre, rest = app pre rest') ∧ (options_ok o → options_ok o').
Proof.
  unfold parse_net_option. intros H. turn_cases H;
    try (apply with_arg_rest in H as (a & -> & H)); turn_cases H; try discriminate H;
    try (injection H as <- <-); try (injection H as <-).
  all: split; [suffix|]; intros []; split; simpl; auto.
  all: bool_prop; match goal with H : context [atoi ?a] |- _ => pose proof (to_int_range (fst (strtol a))) end; unfold atoi in *; lia.
Qed.

Lemma parse_option_ok o arg rest o' rest' :
  parse_option o arg rest = inr (o', rest') →
  (∃ pre, rest = app pre rest') ∧ (options_ok o → options_ok o').
Proof.
  unfold parse_option. intros H.
  destruct (parse_logging_option o arg rest) eqn:E1; [subst; by apply parse_logging_option_ok in E1|].
  destruct (parse_android_option o arg rest) eqn:E2; [subst; by apply parse_android_option_ok in E2|].
  destruct (parse_net_option o arg rest) eqn:E3; [subst; by apply parse_net_option_ok in E3|].
  discriminate H.
Qed.

Lemma parse_option_shrinks o arg rest o' rest' :
  parse_option o arg rest = inr (o', rest') → (List.length rest' ≤ List.length rest)%nat.
Proof. intros [[pre ->] _]%parse_option_ok. rewrite length_app. lia. Qed.

(** The fuel is enough: more of it changes nothing. *)
Lemma parse_loop_fuel fuel o args :
  (List.length args ≤ fuel)%nat → parse_loop fuel o args = parse_loop (List.length args) o args.
Proof.
  remember (List.length args) as n eqn:En.
  revert fuel o args En. induction n as [n IH] using lt_wf_ind; intros fuel o args En Hf.
  destruct args as [|arg rest]; simpl in *; [by subst; destruct fuel|].
  subst n. destruct fuel as [|fuel]; [lia|]. simpl.
  destruct (parse_option o arg rest) as [e|[o' rest']] eqn:E; [done|].
  apply parse_option_shrinks in E.
  rewrite (IH (List.length rest')), <- (IH (List.length rest') ltac:(lia) (List.length rest)) by lia.
  done.
Qed.

Lemma parse_loop_ok fuel o args o' :
  options_ok o → parse_loop fuel o args = inr o' → options_ok o'.
Proof.
  revert o args. induction fuel as [|fuel IH]; intros o [|arg rest] Ho H; simpl in H; try discriminate H.
  - by injection H as <-.
  - by injection H as <-.
  - destruct (parse_option o arg rest) as [e|[o1 rest1]] eqn:E; [discriminate H|].
    apply parse_option_ok in E as [_ E]. eauto.
Qed.

(** Arguments further to the right do not affect a turn that succeeds. *)
Lemma with_arg_app arg rest f s o rest' :
  with_arg arg rest f = inr (o, rest') → with_arg arg (app rest s) f = inr (o, app rest' s).
Proof. intros (a & -> & H)%with_arg_rest. simpl. by rewrite H. Qed.

Lemma parse_group_app (g : options → string → list string → option turn) o arg rest s o' rest' :
  g = parse_logging_option ∨ g = parse_android_option ∨ g = parse_net_option →
  g o arg rest = Some (inr (o', rest')) →
  g o arg (app rest s) = Some (inr (o', app rest' s)).
Proof.
  intros [-> | [-> | ->]]; unfold parse_logging_option, parse_android_option, parse_net_option;
    intros H; turn_cases H; try (by f_equal; apply with_arg_app);
    try (by injection H as <- <-).
  destruct rest as [|a1 [|a2 r]]; try discriminate H. simpl.
  destruct (_ <? 0); [discriminate H|]. destruct (_ <? 0); [discriminate H|].
  by injection H as <- <-.
Qed.

Lemma parse_group_none (g : options → string → list string → option turn) o arg rest s :
  g = parse_logging_option ∨ g = parse_android_option ∨ g = parse_net_option →
  g o arg rest = None → g o arg (app rest s) = None.
Proof.
  intros [-> | [-> | ->]]; unfold parse_logging_option, parse_android_option, parse_net_option;
    intros H; turn_cases H; done.
Qed.

Lemma parse_option_app o arg rest s o' rest' :
  parse_option o arg rest = inr (o', rest') →
  parse_option o arg (app rest s) = inr (o', app rest' s).
Proof.
  unfold parse_option. intros H.
  destruct (parse_logging_option o arg rest) eqn:E1.
  { subst. eapply parse_group_app in E1; [|by auto]. by rewrite E1. }
  eapply parse_group_none in E1; [|by auto]. rewrite E1.
  destruct (parse_android_option o arg rest) eqn:E2.
  { subst. eapply parse_group_app in E2; [|by auto]. by rewrite E2. }
  eapply parse_group_none in E2; [|by auto]. rewrite E2.
  destruct (parse_net_option o arg rest) eqn:E3; [|discriminate H].
  subst. eapply parse_group_app in E3; [|by auto]. by rewrite E3.
Qed.

(** Parsing is compositional: a prefix that parses by itself is processed
    first, and the remaining options are applied to its result. *)
Lemma parse_loop_app fuel o args1 args2 o1 :
  parse_loop fuel o args1 = inr o1 →
  parse_loop (List.length (app args1 args2)) o (app args1 args2) =
  parse_loop (List.length args2) o1 args2.
Proof.
  revert o args1. induction fuel as [|fuel IH]; intros o [|arg rest] H; simpl in H; try discriminate H.
  - by injection H as <-.
  - by injection H as <-.
  - destruct (parse_option o arg rest) as [e|[o2 rest2]] eqn:E; [discriminate H|].
    pose proof (parse_option_shrinks _ _ _ _ _ E) as Hs.
    apply (parse_option_app _ _ _ args2) in E. simpl. rewrite E.
    rewrite parse_loop_fuel by (rewrite !length_app; lia). by apply IH.
Qed.
End Parse.

(** ** Numerals *)

Lemma digit_pretty x : (x < 10)%N → digit (pretty_N_char x) = Some (Z.of_N x).
Proof.
  intros Hx. assert (x = 0 ∨ x = 1 ∨ x = 2 ∨ x = 3 ∨ x = 4 ∨ x = 5 ∨ x = 6 ∨ x = 7 ∨ x = 8 ∨ x = 9)%N as H by lia.
  by destruct_or! H; subst.
Qed.
Lemma scan_digits_pretty x s : scan_digits (pretty_N_go x s) 0 = scan_digits s (Z.of_N x).
Proof.
  revert s. induction (N.lt_wf_0 x) as [x _ IH]; intros s.
  destruct (decide (x = 0%N)) as [->|Hx]; [done|]. rewrite pretty_N_go_step by lia.
  rewrite IH by (apply N.div_lt; lia). simpl. rewrite digit_pretty by (apply N.mod_lt; lia). f_equal.
  pose proof (N.div_mod x 10 ltac:(lia)). lia.
Qed.
(** A numeral starts with a digit, so nothing is skipped before it. *)
Lemma pretty_go_first x s : (0 < x)%N → ∃ d t, pretty_N_go x s = String (pretty_N_char d) t ∧ (d < 10)%N.
Proof.
  revert s. induction (N.lt_wf_0 x) as [x _ IH]; intros s Hx. rewrite pretty_N_go_step by done.
  destruct (decide (x / 10 = 0)%N) as [E|].
  - rewrite E, pretty_N_go_0. do 2 eexists. split; [done|]. apply N.mod_lt. lia.
  - apply IH; [by apply N.div_lt|by apply N.neq_0_lt_0].
Qed.
Lemma strtol_digits c t : is_Some (digit c) → strtol (String c t) =
  let '(n, rest) := scan_digits (String c t) 0 in (Z.max LONG_MIN (Z.min LONG_MAX n), rest).
Proof. destruct c as [[] [] [] [] [] [] [] []]; intros [? [=]]; reflexivity. Qed.
(** A decimal numeral is read as the number it denotes. *)
Lemma atoi_pretty (n : N) : Z.of_N n ≤ INT_MAX → atoi (pretty n) = Z.of_N n.
Proof.
  intros Hn. unfold pretty, pretty_N. case_decide as H0; [by subst|].
  destruct (pretty_go_first n "" ltac:(lia)) as (d & t & E & Hd). unfold atoi.
  rewrite E, strtol_digits by (rewrite digit_pretty by done; by eexists). rewrite <- E, scan_digits_pretty. simpl.
  unfold to_int, LONG_MIN, LONG_MAX, INT_MAX in *. rewrite Z.min_r, Z.max_r, Z.mod_small by lia.
  destruct (Z.ltb_spec (Z.of_N n) (2 ^ 31)); lia.
Qed.

(** ** What a command line means

    A command line is a sequence of words, an option name with its arguments;
    the options it denotes are given field by field by the last word for it. *)
Section Meaning.
Context (channels : list string).

Abbreviation word := (string * list string)%type.
Definition spell (ws : list word) : list string := mjoin ((λ w, w.1 :: w.2) <$> ws).

Definition flag_options : list string :=
  ["--help"; "--version"; "--fake-proc"; "--append-source-to-username"; "--enable-udprelay"].
Definition string_options : list string :=
  ["--syslog-facility"; "--syslog-ident"; "--dnsgw"; "--sock-path"; "--pid"; "--netif-ipaddr";
   "--netif-netmask"; "--netif-ip6addr"; "--socks-server-addr"; "--username"; "--password";
   "--password-file"].
Definition number_options : list string := ["--tunfd"; "--tunmtu"; "--udprelay-max-connections"].

(** The loggers and the log levels by name; a level may also be its number. *)
Definition logger_names : list (string * Z) := [("stdout", 1); ("syslog", 2)].
Definition level_names : list (string * Z) :=
  [("none", 0); ("error", 1); ("warning", 2); ("notice", 3); ("info", 4); ("debug", 5)].
Definition named (names : list (string * Z)) (v : string) : option Z :=
  (λ p, p.2.2) <$> list_find (λ p, p.1 = v) names.
Definition level_value (v : string) : option Z :=
  match named level_names v with
  | Some l => Some l
  | None =>
      let '(n, rest) := strtol v in
      if bool_decide (v ≠ "" ∧ rest = "" ∧ 0 ≤ n ≤ 5) then Some n else None
  end.
Definition channel_number (c : string) : option nat := fst <$> list_find (λ n, n = c) channels.

(** A known option with as many arguments as it takes, all of them acceptable. *)
Definition word_ok (w : word) : Prop :=
  match w with
  | (n, []) => n ∈ flag_options
  | (n, [v]) =>
      n ∈ string_options ∨ (n ∈ number_options ∧ 0 < atoi v) ∨
      (n = "--logger" ∧ is_Some (named logger_names v)) ∨ (n = "--loglevel" ∧ is_Some (level_value v))
  | (n, [c; l]) => n = "--channel-loglevel" ∧ is_Some (channel_number c) ∧ is_Some (level_value l)
  | _ => False
  end.

Definition given (n : string) (ws : list word) : bool := bool_decide (n ∈ ws.*1).
(** The argument of the last word for [n]. *)
Definition last_value (n : string) (ws : list word) : option string :=
  last (omap (λ w, if bool_decide (w.1 = n) then head w.2 else None) ws).
(** The level of the last word for the channel number [i]. *)
Definition channel_level (i : nat) (ws : list word) : Z :=
  default (-1) (last (omap (λ w,
    match w.2 with
    | [c; l] => if bool_decide (w.1 = "--channel-loglevel" ∧ channel_number c = Some i)
                then level_value l else None
    | _ => None
    end) ws)).

Definition meaning (argv0 : string) (ws : list word) : options :=
  {| opt_help := given "--help" ws; opt_version := given "--version" ws;
     logger := default 1 (last_value "--logger" ws ≫= named logger_names);
     logger_syslog_facility := default "daemon" (last_value "--syslog-facility" ws);
     logger_syslog_ident := default argv0 (last_value "--syslog-ident" ws);
     loglevel := default (-1) (last_value "--loglevel" ws ≫= level_value);
     loglevels := (λ i, channel_level i ws) <$> seq 0 (List.length channels);
     netif_ipaddr := last_value "--netif-ipaddr" ws;
     netif_netmask := last_value "--netif-netmask" ws;
     netif_ip6addr := last_value "--netif-ip6addr" ws;
     socks_server_addr := last_value "--socks-server-addr" ws;
     username := last_value "--username" ws; password := last_value "--password" ws;
     password_file := last_value "--password-file" ws;
     append_source_to_username := given "--append-source-to-username" ws;
     udpgw_remote_server_addr := if given "--enable-udprelay" ws then Some "0.0.0.0:0" else None;
     udpgw_max_connections := default 256 (atoi <$> last_value "--udprelay-max-connections" ws);
     udpgw_connection_buffer_size := 8; udpgw_transparent_dns := false;
     tun_fd := default (-1) (atoi <$> last_value "--tunfd" ws);
     tun_mtu := default 1500 (atoi <$> last_value "--tunmtu" ws);
     fake_proc := given "--fake-proc" ws;
     sock_path := last_value "--sock-path" ws; opt_pid := last_value "--pid" ws;
     dnsgw := last_value "--dnsgw" ws |}.

(** The required options are there, and a user name comes with one password. *)
Definition complete (ws : list word) : Prop :=
  given "--help" ws = true ∨ given "--version" ws = true ∨
  (is_Some (last_value "--netif-ipaddr" ws) ∧ is_Some (last_value "--netif-netmask" ws) ∧
   is_Some (last_value "--socks-server-addr" ws) ∧
   (is_Some (last_value "--username" ws) →
    is_Some (last_value "--password" ws) ↔ ¬ is_Some (last_value "--password-file" ws))).

(** *** One more word *)

Lemma given_snoc n ws w : given n (ws ++ [w])%list = if bool_decide (w.1 = n) then true else given n ws.
Proof.
  unfold given. rewrite fmap_app. simpl. apply eq_true_iff_eq.
  repeat case_bool_decide; rewrite ?elem_of_app, ?list_elem_of_singleton in *; naive_solver.
Qed.
Lemma last_value_snoc n ws m vs : last_value n (ws ++ [(m, vs)])%list =
  if bool_decide (m = n) then match head vs with Some v => Some v | None => last_value n ws end else last_value n ws.
Proof.
  unfold last_value. rewrite omap_app. simpl.
  case_bool_decide; simpl; [|by rewrite app_nil_r]. destruct (head vs); simpl; [by rewrite last_snoc|by rewrite app_nil_r].
Qed.
Lemma channel_level_other i ws m vs : m ≠ "--channel-loglevel" →
  channel_level i (ws ++ [(m, vs)])%list = channel_level i ws.
Proof.
  intros Hm. unfold channel_level. rewrite omap_app. simpl.
  destruct vs as [|c [|l [|]]]; simpl; rewrite ?app_nil_r; try done.
  rewrite bool_decide_false by naive_solver. simpl. by rewrite app_nil_r.
Qed.
Lemma channel_levels_other ws m vs : m ≠ "--channel-loglevel" →
  (λ i, channel_level i (ws ++ [(m, vs)])%list) <$> seq 0 (List.length channels) =
  (λ i, channel_level i ws) <$> seq 0 (List.length channels).
Proof. intros Hm. apply list_fmap_ext. intros _ i _. by apply channel_level_other. Qed.
Lemma channel_level_snoc i ws c l n v : channel_number c = Some n → level_value l = Some v →
  channel_level i (ws ++ [("--channel-loglevel", [c; l])])%list = if bool_decide (i = n) then v else channel_level i ws.
Proof.
  intros Hc Hl. unfold channel_level. rewrite omap_app. simpl. rewrite Hc.
  destruct (decide (i = n)) as [->|].
  - rewrite !bool_decide_true by done. rewrite Hl. simpl. by rewrite last_snoc.
  - rewrite !bool_decide_false by naive_solver. simpl. by rewrite app_nil_r.
Qed.
Lemma channel_levels_snoc ws c l n v : channel_number c = Some n → level_value l = Some v →
  (λ i, channel_level i (ws ++ [("--channel-loglevel", [c; l])])%list) <$> seq 0 (List.length channels) =
  <[n := v]> ((λ i, channel_level i ws) <$> seq 0 (List.length channels)).
Proof.
  intros Hc Hl. apply list_eq. intros i. rewrite list_lookup_fmap.
  assert (n < List.length channels)%nat as Hn.
  { unfold channel_number in Hc. destruct (list_find _ channels) as [[k x]|] eqn:E; [|done].
    injection Hc as ->. apply list_find_Some in E as (E & _). by eapply lookup_lt_Some. }
  destruct (decide (i < List.length channels)%nat) as [Hi|Hi].
  - rewrite lookup_seq_lt by done. simpl. rewrite (channel_level_snoc i ws c l n v) by done. case_bool_decide.
    + subst. rewrite list_lookup_insert_eq; [done|]. by rewrite length_fmap, length_seq.
    + rewrite list_lookup_insert_ne, list_lookup_fmap, lookup_seq_lt by done. done.
  - rewrite lookup_seq_ge by lia. symmetry. apply lookup_ge_None.
    rewrite length_insert, length_fmap, length_seq. lia.
Qed.

(** *** Names and numbers *)

Lemma channel_index_find names c i : 0 ≤ i →
  channel_index names c i = match fst <$> list_find (λ n, n = c) names with Some k => i + Z.of_nat k | None => -1 end.
Proof.
  revert i. induction names as [|n names IH]; intros i Hi; [done|]. simpl.
  destruct (String.eqb_spec n c) as [->|Hne].
  - rewrite decide_True by done. simpl. lia.
  - rewrite decide_False by done. rewrite IH by lia. destruct (list_find _ names) as [[k x]|]; simpl; lia.
Qed.
Lemma channel_number_spec c :
  BLogGlobal_GetChannelByName channels c = match channel_number c with Some k => Z.of_nat k | None => -1 end.
Proof. unfold BLogGlobal_GetChannelByName. rewrite channel_index_find by lia. done. Qed.

Lemma parse_loglevel_spec v : parse_loglevel v = default (-1) (level_value v).
Proof.
  unfold parse_loglevel, level_value, named, level_names. simpl.
  repeat match goal with |- context [(v =s? ?x)] =>
    destruct (String.eqb_spec v x) as [->|?]; [reflexivity|]; rewrite (decide_False (P := x = v)) by congruence; simpl end.
  destruct (strtol v) as [x rest].
  destruct (String.eqb_spec v ""), (String.eqb_spec rest ""), (Z.leb_spec 0 x), (Z.leb_spec x BLOG_DEBUG);
    simpl; unfold BLOG_DEBUG in *;
    first [rewrite bool_decide_true by (split_and!; done || lia); done
          |rewrite bool_decide_false by (intros (? & ? & ?); done || lia); done].
Qed.
Lemma level_value_nonneg v l : level_value v = Some l → 0 ≤ l.
Proof.
  intros E. unfold level_value in E. destruct (named level_names v) as [l'|] eqn:En.
  - unfold named, level_names in En. simpl in En. injection E as ->.
    repeat (case_decide; [by injection En as <-|]; simpl in En). discriminate En.
  - destruct (strtol v). case_bool_decide; [|done]. injection E as ->. lia.
Qed.

(** *** The parser *)

Ltac known H := repeat (apply elem_of_cons in H as [->|H]); [..|by apply elem_of_nil in H].
Ltac same_fields := f_equal; f_equal; unfold meaning;
  rewrite !given_snoc, !last_value_snoc, channel_levels_other by done; reflexivity.

(** A word that is in order is consumed, and adds its meaning. *)
Lemma word_step argv0 ws n vs rest : word_ok (n, vs) →
  parse_option channels (meaning argv0 ws) n (vs ++ rest)%list = inr (meaning argv0 (ws ++ [(n, vs)])%list, rest).
Proof.
  intros H. destruct vs as [|v [|l [|]]]; [| | |done].
  - known H; unfold parse_option; simpl; same_fields.
  - destruct H as [H|[[H Hv]|[[-> Hv]|[-> [l Hv]]]]].
    + known H; unfold parse_option; simpl; same_fields.
    + known H; unfold parse_option; simpl; unfold parse_android_option, parse_net_option; simpl;
        (destruct (Z.leb_spec (atoi v) 0); [lia|]); simpl; same_fields.
    + unfold named in Hv. simpl in Hv. repeat (case_decide; [subst v; unfold parse_option; simpl; same_fields|]; simpl in Hv).
      by destruct Hv.
    + unfold parse_option. simpl. rewrite parse_loglevel_spec, Hv. simpl. apply level_value_nonneg in Hv as Hn.
      destruct (Z.ltb_spec l 0); [lia|]. simpl. f_equal. f_equal. unfold meaning.
      rewrite !given_snoc, !last_value_snoc, channel_levels_other by done. simpl. by rewrite Hv.
  - destruct H as (-> & [i Hc] & [x Hl]). unfold parse_option. simpl.
    rewrite parse_loglevel_spec, channel_number_spec, Hl, Hc. simpl. apply level_value_nonneg in Hl as Hn.
    destruct (Z.ltb_spec (Z.of_nat i) 0); [lia|]. destruct (Z.ltb_spec x 0); [lia|]. simpl.
    f_equal. f_equal. unfold meaning.
    rewrite !given_snoc, !last_value_snoc, (channel_levels_snoc ws v l i x) by done. rewrite Nat2Z.id. reflexivity.
Qed.

Ltac listed := apply (bool_decide_unpack _); vm_compute; exact I.
(** What the parser accepts is a word in order. *)
Lemma word_inv o arg rest o' rest' : parse_option channels o arg rest = inr (o', rest') →
  ∃ vs, rest = (vs ++ rest')%list ∧ word_ok (arg, vs).
Proof.
  unfold parse_option, parse_logging_option, parse_android_option, parse_net_option. intros H.
  repeat match type of H with context [if arg =s? ?x then _ else _] =>
    destruct (String.eqb_spec arg x) as [->|?]; cbv beta iota in H; [clear -H|] end; [..|discriminate H].
  all: try (injection H as <- <-; exists []; split; [done|simpl; listed]).
  all: try (apply with_arg_rest in H as (a & -> & H); exists [a]; split; [done|]; simpl).
  all: try (left; listed).
  - right. right. left. split; [done|]. unfold named. simpl.
    case_decide; [by eexists|]. simpl. case_decide; [by eexists|].
    destruct (String.eqb_spec a "stdout"); [congruence|]. destruct (String.eqb_spec a "syslog"); congruence.
  - right. right. right. split; [done|]. rewrite parse_loglevel_spec in H. destruct (level_value a); [by eexists|done].
  - destruct rest as [|a [|l r]]; try discriminate H. rewrite parse_loglevel_spec, channel_number_spec in H.
    destruct (channel_number a) eqn:Ec; [|done]. destruct (_ <? 0) in H; [done|].
    destruct (level_value l) eqn:El; [|done]. destruct (_ <? 0) in H; [done|]. injection H as <- <-.
    exists [a; l]. split; [done|]. simpl. rewrite Ec, El. eauto.
  - right. left. destruct (Z.leb_spec (atoi a) 0); [done|]. split; [listed|lia].
  - right. left. destruct (Z.leb_spec (atoi a) 0); [done|]. split; [listed|lia].
  - right. left. destruct (Z.leb_spec (atoi a) 0); [done|]. split; [listed|lia].
Qed.

(** The loop accepts exactly the sequences of words. *)
Lemma parse_loop_words argv0 fuel ws args o : (List.length args ≤ fuel)%nat →
  parse_loop channels fuel (meaning argv0 ws) args = inr o ↔
  ∃ ws', args = spell ws' ∧ Forall word_ok ws' ∧ o = meaning argv0 (ws ++ ws')%list.
Proof.
  revert ws args. induction fuel as [|fuel IH]; intros ws [|arg rest] Hf; simpl in Hf; try lia.
  1,2: simpl; split; [intros [= <-]; exists []; by rewrite app_nil_r|].
  1,2: intros ([|[n vs] ws'] & E & _ & ->); [by rewrite app_nil_r|discriminate E].
  split.
  - simpl. destruct (parse_option channels _ arg rest) as [e|[o' rest']] eqn:E; [discriminate|].
    destruct (word_inv _ _ _ _ _ E) as (vs & -> & Hw). rewrite (word_step _ _ _ _ _ Hw) in E. injection E as <-.
    rewrite length_app in Hf. rewrite IH by lia. intros (ws' & -> & Hok & ->).
    exists ((arg, vs) :: ws'). split_and!; [done|by constructor|]. by rewrite <- app_assoc.
  - intros ([|[n vs] ws'] & E & Hok & ->); [discriminate E|].
    apply list.Forall_cons in Hok as [Hw Hok]. injection E as -> ->. simpl.
    change (mjoin _) with (spell ws'). rewrite (word_step _ _ _ _ _ Hw). apply IH.
    + change (mjoin _) with (spell ws') in Hf. rewrite length_app in Hf. lia.
    + exists ws'. split_and!; [done|done|]. by rewrite <- app_assoc.
Qed.

Lemma meaning_default argv0 : meaning argv0 [] = default_options channels argv0.
Proof.
  unfold meaning, default_options. simpl. f_equal.
  apply list_eq. intros i. rewrite list_lookup_fmap. destruct (decide (i < List.length channels)%nat).
  - by rewrite lookup_seq_lt, lookup_replicate_2.
  - rewrite lookup_seq_ge by lia. symmetry. apply lookup_ge_None. rewrite length_replicate. lia.
Qed.

Lemma check_options_meaning argv0 ws o : check_options (meaning argv0 ws) = inr o ↔ complete ws ∧ o = meaning argv0 ws.
Proof.
  unfold check_options, complete. simpl. destruct (given "--help" ws); [naive_solver|].
  destruct (given "--version" ws); [naive_solver|]. simpl.
  repeat case_bool_decide; simpl; naive_solver.
Qed.

(** Whether a command line is complete can be seen from what it means. *)
Lemma complete_meaning argv0 ws : complete ws ↔ ∃ o, check_options (meaning argv0 ws) = inr o.
Proof. setoid_rewrite check_options_meaning. naive_solver. Qed.
End Meaning.

(** ** Properties *)

(** C40: The command line is read as it is meant.  It is accepted exactly when it
    is a sequence of known options, each with as many arguments as it takes and
    acceptable ones, in which the required options are given and a user name
    comes with either a password or a password file (or help or the version is
    asked for); no other command line is.  The options are then, field by field,
    the value of the last word for that field, or the default if there is none.
    The numbers are within [int] and positive, the log levels in range, and a
    decimal numeral stands for its value. *)
Theorem parse_arguments_exact channels argv0 args o :
  (parse_arguments channels (argv0 :: args) = inr o ↔
   ∃ ws, args = spell ws ∧ Forall (word_ok channels) ws ∧ complete ws ∧ o = meaning channels argv0 ws) ∧
  (parse_arguments channels (argv0 :: args) = inr o → options_ok channels o) ∧
  (∀ n : N, Z.of_N n ≤ INT_MAX → atoi (pretty n) = Z.of_N n).
Proof.
  assert (∀ o', parse_loop channels (List.length args) (default_options channels argv0) args = inr o' ↔
    ∃ ws, args = spell ws ∧ Forall (word_ok channels) ws ∧ o' = meaning channels argv0 ws) as Hloop.
  { intros o'. rewrite <- meaning_default. by rewrite (parse_loop_words channels argv0 _ []). }
  unfold parse_arguments. destruct (parse_loop _ _ _ _) as [e|o'] eqn:E.
  { split; [|split; [discriminate|apply atoi_pretty]]. split; [discriminate|]. intros (ws & Hs & Hok & _ & _).
    destruct (Hloop (meaning channels argv0 ws)) as [_ H]. discriminate H. eauto. }
  destruct (proj1 (Hloop o') eq_refl) as (ws & Hs & Hok & ->). split; [|split; [|apply atoi_pretty]].
  - rewrite check_options_meaning. split; [intros [? ->]; eauto 10|]. intros (ws' & Hs' & Hok' & Hc & ->).
    assert (meaning channels argv0 ws = meaning channels argv0 ws') as Em.
    { assert (inr (meaning channels argv0 ws) = (inr (meaning channels argv0 ws') : parse_error + options)) as H
        by (apply (proj2 (Hloop (meaning channels argv0 ws'))); eauto).
      by apply (inj inr) in H. }
    split; [|by rewrite Em]. rewrite (complete_meaning channels argv0 ws), Em. by apply complete_meaning.
  - intros H. apply check_options_meaning in H as [_ ->].
    eapply parse_loop_ok; [apply default_options_ok|exact E].
Qed.

(** Options are applied from left to right: after a command line that is
    accepted, further arguments are parsed starting from its options. *)
Theorem parse_arguments_compositional channels argv0 args1 args2 o1 :
  parse_loop channels (List.length args1) (default_options channels argv0) args1 = inr o1 →
  parse_arguments channels (argv0 :: app args1 args2) =
    match parse_loop channels (List.length args2) o1 args2 with
    | inl e => inl e
    | inr o => check_options o
    end.
Proof. intros H. unfold parse_arguments. by rewrite (parse_loop_app _ _ _ _ _ _ H). Qed.

(** The command line the VPN service starts the program with is accepted
    for every address and socket path, given a positive descriptor and MTU, and
    sets exactly the options it names. *)
Theorem parse_service_command channels argv0 ip socks fd mtu path :
  0 < atoi fd → 0 < atoi mtu →
  parse_arguments channels
    [argv0; "--netif-ipaddr"; ip; "--netif-netmask"; "255.255.255.0";
     "--socks-server-addr"; socks; "--tunfd"; fd; "--tunmtu"; mtu;
     "--sock-path"; path; "--loglevel"; "3"] =
  inr (default_options channels argv0
    <| netif_ipaddr := Some ip |> <| netif_netmask := Some "255.255.255.0" |>
    <| socks_server_addr := Some socks |> <| tun_fd := atoi fd |> <| tun_mtu := atoi mtu |>
    <| sock_path := Some path |> <| loglevel := BLOG_NOTICE |>).
Proof.
  intros Hfd Hmtu. unfold parse_arguments. simpl.
  unfold parse_option. simpl. unfold parse_android_option. simpl.
  destruct (Z.leb_spec (atoi fd) 0); [lia|]. simpl.
  destruct (Z.leb_spec (atoi mtu) 0); [lia|]. simpl.
  change (parse_loglevel "3") with BLOG_NOTICE.
  generalize (atoi fd), (atoi mtu). intros. unfold check_options. simpl.
  done.
Qed.

(** *** Witnesses *)

Lemma parse_service_command_witness :
  parse_arguments ["tun2socks"]
    ["tun2socks"; "--netif-ipaddr"; "172.19.0.2"; "--netif-netmask"; "255.255.255.0";
     "--socks-server-addr"; "127.0.0.1:1080"; "--tunfd"; "42"; "--tunmtu"; "1500";
     "--sock-path"; "sock_path"; "--loglevel"; "3"] =
  inr (default_options ["tun2socks"] "tun2socks"
    <| netif_ipaddr := Some "172.19.0.2" |> <| netif_netmask := Some "255.255.255.0" |>
    <| socks_server_addr := Some "127.0.0.1:1080" |> <| tun_fd := 42 |> <| tun_mtu := 1500 |>
    <| sock_path := Some "sock_path" |> <| loglevel := 3 |>).
Proof.
  apply (parse_service_command ["tun2socks"] "tun2socks" "172.19.0.2" "127.0.0.1:1080" "42" "1500" "sock_path");
    reflexivity.
Defined.

Definition ex_args : list string :=
  ["tun2socks"; "--netif-ipaddr"; "10.0.0.1"; "--netif-netmask"; "255.255.255.0";
   "--socks-server-addr"; "127.0.0.1:1080"; "--username"; "u"; "--password"; "p"].
Definition ex_options : options :=
  match parse_arguments [] ex_args with inr o => o | inl _ => default_options [] "" end.

Definition ex_words : list (string * list string) :=
  [("--netif-ipaddr", ["10.0.0.1"]); ("--netif-netmask", ["255.255.255.0"]);
   ("--socks-server-addr", ["127.0.0.1:1080"]); ("--username", ["u"]); ("--password", ["p"])].
Lemma parse_arguments_exact_witness :
  parse_arguments [] ex_args = inr ex_options ∧ options_ok [] ex_options ∧ password ex_options = Some "p".
Proof.
  assert (parse_arguments [] ex_args = inr ex_options) as E.
  { apply (proj1 (parse_arguments_exact [] "tun2socks" (spell ex_words) ex_options)).
    exists ex_words. split_and!; [reflexivity| | |reflexivity].
    - repeat constructor; left; apply (bool_decide_unpack _); vm_compute; exact I.
    - right. right. split_and!; by eexists. }
  split_and!; [exact E| |reflexivity].
  apply (parse_arguments_exact [] "tun2socks" (spell ex_words) ex_options). exact E.
Defined.

Lemma parse_arguments_compositional_witness :
  parse_arguments [] ["tun2socks"; "--fake-proc"; "--bogus"] = inl (UnknownOption "--bogus").
Proof.
  apply (parse_arguments_compositional [] "tun2socks" ["--fake-proc"] ["--bogus"]
    (default_options [] "tun2socks" <| fake_proc := true |>)).
  reflexivity.
Defined.
