(* ===== verification/PacketBuf.v ===== *)
(** * Packet buffer: structure/ChunkBuffer2.h and flow/PacketBuffer.c

    A circular buffer of packets.  The buffer is an array of 4-byte blocks; a
    packet is a header block with its length, followed by its data.  A packet is
    never split: when a packet of maximal size would no longer fit before the end
    of the array, the end ([wrap]) is moved down and writing goes on at the start
    of the array.  The packet buffer receives into the free part while the first
    packet is being sent from the used part of the same memory. *)
From stdpp Require Import base list numbers relations.
From Stdlib Require Import ZArith Lia.
From S2P Require Import Prelude ByteOrder.
#[local] Open Scope Z_scope.

(** [ASSERT] in a function without other effects. *)
Definition check (b : bool) : option () := if b then Some () else None.
(** Conversion to [int] on the target. *)
Definition to_int (x : Z) : Z := let y := u32 x in if y <=? INT_MAX then y else y - 2 ^ 32.

Module ChunkBuffer2.

(** [buffer] is the memory of the blocks, [size] their number; the two pointers
    are byte offsets into it. *)
Record t := mk_t {
  buffer : bytes; size : Z; wrap : Z; start : Z; used : Z; mtu : Z;
  input_dest : option Z; input_avail : Z; output_dest : option Z; output_avail : Z
}.
#[global] Instance eta_t : Eta t := λ b,
  mk_t (buffer b) (size b) (wrap b) (start b) (used b) (mtu b)
       (input_dest b) (input_avail b) (output_dest b) (output_avail b).

Definition sizeof_block : Z := 4.
Definition get_len (b : t) (i : Z) : Z := to_int (load32 (read_at (sizeof_block * i) sizeof_block (buffer b)) 0).
Definition set_len (b : t) (i len : Z) : t :=
  b <| buffer := write_at (sizeof_block * i) (store32 (u32 len)) (buffer b) |>.
Definition blocks (len : Z) : Z := bdivide_up len sizeof_block.

Definition end_ (b : t) : Z :=
  if wrap b - start b <=? used b then used b - (wrap b - start b) else start b + used b.

Definition assert_buffer (b : t) : bool :=
  (0 <? size b) && (0 <? wrap b) && (wrap b <=? size b) && (0 <=? start b) && (start b <? wrap b) &&
  (0 <=? used b) && (used b <=? wrap b) &&
  ((wrap b =? size b) || (wrap b - start b <=? used b)) && (0 <=? mtu b).

Definition assert_input (b : t) : bool :=
  let end' := end_ b in
  if size b - end' - 1 <? mtu b then bool_decide (input_dest b = None) && (input_avail b =? -1)
  else
    let free := if wrap b - start b <=? used b then start b - end' else size b - end' in
    if 0 <? free then
      bool_decide (input_dest b = Some (sizeof_block * (end' + 1))) && (input_avail b =? (free - 1) * sizeof_block)
    else bool_decide (input_dest b = None) && (input_avail b =? -1).
Definition assert_output (b : t) : bool :=
  if 0 <? used b then
    let datalen := get_len b (start b) in
    let blocklen := blocks datalen in
    (0 <=? datalen) && (blocklen <=? used b - 1) && (blocklen <=? wrap b - start b - 1) &&
    bool_decide (output_dest b = Some (sizeof_block * (start b + 1))) && (output_avail b =? datalen)
  else bool_decide (output_dest b = None) && (output_avail b =? -1).
Definition assert_io (b : t) : bool := assert_input b && assert_output b.

Definition update_input (b : t) : t :=
  let end' := end_ b in
  if size b - end' - 1 <? mtu b then b <| input_dest := None |> <| input_avail := -1 |>
  else
    let free := if wrap b - start b <=? used b then start b - end' else size b - end' in
    if 0 <? free then
      b <| input_dest := Some (sizeof_block * (end' + 1)) |> <| input_avail := to_int ((free - 1) * sizeof_block) |>
    else b <| input_dest := None |> <| input_avail := -1 |>.

Definition update_output (b : t) : option t :=
  if 0 <? used b then
    let datalen := get_len b (start b) in
    _ ← check (0 <=? datalen);
    let blocklen := blocks datalen in
    _ ← check (blocklen <=? used b - 1);
    _ ← check (blocklen <=? wrap b - start b - 1);
    Some (b <| output_dest := Some (sizeof_block * (start b + 1)) |> <| output_avail := datalen |>)
  else Some (b <| output_dest := None |> <| output_avail := -1 |>).

Definition calc_blocks (chunk_len num : Z) : Z :=
  let chunk_data_blocks := blocks chunk_len in
  if INT_MAX - 1 <? chunk_data_blocks then -1 else
  let chunk_blocks := 1 + chunk_data_blocks in
  if INT_MAX - 1 <? num then -1 else
  let num_chunks := num + 1 in
  if INT_MAX / num_chunks <? chunk_blocks then -1 else
  chunk_blocks * num_chunks.

(** [buffer]: the allocated memory. *)
Definition Init (buffer : bytes) (nblocks mtu : Z) : option t :=
  _ ← check (0 <? nblocks);
  _ ← check (0 <=? mtu);
  let b := mk_t buffer nblocks nblocks 0 0 (blocks mtu) None (-1) None (-1) in
  _ ← check (assert_buffer b);
  b ← update_output (update_input b);
  _ ← check (assert_io b);
  Some b.

Definition SubmitPacket (len : Z) (b : t) : option t :=
  _ ← check (bool_decide (is_Some (input_dest b)) && (0 <=? len) && (len <=? input_avail b));
  _ ← check (assert_buffer b && assert_io b);
  let end' := end_ b in
  let blocklen := blocks len in
  _ ← check (blocklen <=? size b - end' - 1);
  _ ← check ((used b <? wrap b - start b) || (blocklen <=? start b - end' - 1));
  let b := set_len b end' len in
  let b := b <| used := used b + (1 + blocklen) |> in
  let b := if (used b <=? wrap b - start b) && (size b - (end' + 1 + blocklen) - 1 <? mtu b)
           then b <| wrap := end' + 1 + blocklen |> else b in
  _ ← check (assert_buffer b);
  let b := update_input b in
  b ← (if used b =? 1 + blocklen then update_output b else Some b);
  _ ← check (assert_io b);
  Some b.

Definition ConsumePacket (b : t) : option t :=
  _ ← check (bool_decide (is_Some (output_dest b)));
  _ ← check (assert_buffer b && assert_io b);
  _ ← check ((1 <=? wrap b - start b) && (1 <=? used b));
  let blocklen := blocks (get_len b (start b)) in
  _ ← check ((blocklen <=? wrap b - start b - 1) && (blocklen <=? used b - 1));
  let data_wrapped := wrap b - start b <=? used b in
  let b := b <| start := start b + (1 + blocklen) |> <| used := used b - (1 + blocklen) |> in
  let b := if start b =? wrap b then b <| start := 0 |> <| wrap := size b |> else b in
  _ ← check (assert_buffer b);
  let b := if data_wrapped then update_input b else b in
  b ← update_output b;
  _ ← check (assert_io b);
  Some b.

End ChunkBuffer2.

Module PacketBuffer.
Import ChunkBuffer2.

Record t := mk_t { buf : ChunkBuffer2.t; input_mtu : Z }.
#[global] Instance eta_t : Eta t := λ b, mk_t (buf b) (input_mtu b).

(** Calls to the input and the output. *)
Inductive act :=
| Recv (dest : option Z)                (** [PacketRecvInterface_Receiver_Recv] *)
| Send (data : option Z) (len : Z).     (** [PacketPassInterface_Sender_Send] *)
Abbreviation BM := (M t act).

Definition on_buf (f : ChunkBuffer2.t → option ChunkBuffer2.t) : BM () := λ b,
  match f (buf b) with Some c => Some ((), b <| buf := c |>, []) | None => None end.

Definition input_handler_done (in_len : Z) : BM () :=
  b ← get;
  ASSERT (0 <=? in_len);;
  ASSERT (in_len <=? input_mtu b);;
  let was_empty := output_avail (buf b) <? 0 in
  on_buf (SubmitPacket in_len);;
  b ← get;
  when (input_mtu b <=? input_avail (buf b)) (emit (Recv (input_dest (buf b))));;
  when was_empty (emit (Send (output_dest (buf b)) (output_avail (buf b)))).

Definition output_handler_done : BM () :=
  b ← get;
  let was_full := input_avail (buf b) <? input_mtu b in
  on_buf ConsumePacket;;
  b ← get;
  when (was_full && (input_mtu b <=? input_avail (buf b))) (emit (Recv (input_dest (buf b))));;
  when (0 <=? output_avail (buf b)) (emit (Send (output_dest (buf b)) (output_avail (buf b)))).

(** The two MTUs are those of the interfaces; [mem] is the allocator.  The object
    with its first request, or [None] inside for a failed initialisation. *)
Definition Init (in_mtu out_mtu num_packets : Z) (mem : Z → option bytes) : option (option (t * list act)) :=
  _ ← check (in_mtu <=? out_mtu);
  _ ← check (0 <? num_packets);
  let num_blocks := calc_blocks in_mtu num_packets in
  if num_blocks <? 0 then Some None else
  match mem (num_blocks * sizeof_block) with
  | None => Some None
  | Some data =>
      c ← ChunkBuffer2.Init data num_blocks in_mtu;
      Some (Some (mk_t c in_mtu, [Recv (input_dest c)]))
  end.

End PacketBuffer.

(** ** The circular buffer holds a queue *)
Section Ring.
Import ChunkBuffer2.

Lemma blocks_le len k : 0 ≤ len → blocks len ≤ k ↔ len ≤ 4 * k.
Proof.
  intros H. unfold blocks, sizeof_block. pose proof (bdivide_up_ge len 4 H). pose proof (bdivide_up_spec len 4 H). lia.
Qed.
Lemma blocks_nonneg len : 0 ≤ len → 0 ≤ blocks len.
Proof. intros H. pose proof (blocks_le len (-1) H). lia. Qed.
Lemma to_int_id x : 0 ≤ x ≤ INT_MAX → to_int x = x.
Proof.
  intros H. unfold to_int. rewrite u32_id by (unfold is_u32, INT_MAX in *; lia). destruct (Z.leb_spec x INT_MAX); lia.
Qed.

(** The blocks of a packet. *)
Definition nblocks (p : bytes) : Z := 1 + blocks (zlen p).
Lemma nblocks_pos p : 0 < nblocks p.
Proof. unfold nblocks. pose proof (blocks_nonneg (zlen p) (zlen_nonneg p)). lia. Qed.

Definition len_at (m : bytes) (i : Z) : Z := to_int (load32 (read_at (4 * i) 4 m) 0).

(** The packets [q] lie in [m] from block [pos] to block [e], none of them starting
    beyond [lim]. *)
Fixpoint laid (m : bytes) (lim pos : Z) (q : list bytes) (e : Z) : Prop :=
  match q with
  | [] => pos = e
  | p :: q => pos ≤ lim ∧ len_at m pos = zlen p ∧ read_at (4 * (pos + 1)) (zlen p) m = p ∧
              laid m lim (pos + nblocks p) q e
  end.

Lemma laid_le m lim pos q e : laid m lim pos q e → pos ≤ e.
Proof.
  revert pos. induction q as [|p q IH]; simpl; intros pos; [lia|]. intros (_ & _ & _ & H%IH).
  pose proof (nblocks_pos p). lia.
Qed.
Lemma laid_first m lim pos p q e : laid m lim pos (p :: q) e → pos + nblocks p ≤ e.
Proof. intros (_ & _ & _ & H). by apply laid_le in H. Qed.
Lemma laid_nonempty m lim pos q e : laid m lim pos q e → pos < e → q ≠ [] ∧ pos ≤ lim.
Proof. destruct q; simpl; [lia|]. by intros (? & _). Qed.
Lemma laid_frame m m' lim pos q e : 0 ≤ pos →
  (∀ off len, 4 * pos ≤ off → 0 ≤ len → off + len ≤ 4 * e → read_at off len m' = read_at off len m) →
  laid m lim pos q e → laid m' lim pos q e.
Proof.
  revert pos. induction q as [|p q IH]; simpl; intros pos Hpos Hk; [done|]. intros (Hl & Hn & Hd & Hq).
  pose proof (laid_le _ _ _ _ _ Hq). pose proof (nblocks_pos p). pose proof (zlen_nonneg p).
  assert (zlen p ≤ 4 * (nblocks p - 1)) by (apply blocks_le; unfold nblocks; lia). split_and!.
  - done.
  - unfold len_at in *. rewrite Hk by lia. done.
  - rewrite Hk by lia. done.
  - apply IH; [lia| |done]. intros. apply Hk; lia.
Qed.
Lemma laid_snoc m lim pos q e p : laid m lim pos q e → e ≤ lim → len_at m e = zlen p →
  read_at (4 * (e + 1)) (zlen p) m = p → laid m lim pos (q ++ [p]) (e + nblocks p).
Proof.
  revert pos. induction q as [|p' q IH]; simpl; intros pos; [intros ->; done|].
  intros (? & ? & ? & ?) ???. split_and!; auto.
Qed.
(** Packets of at most [n] blocks each. *)
Lemma laid_size m lim pos q e n : laid m lim pos q e → Forall (λ p, nblocks p ≤ n) q → e - pos ≤ zlen q * n.
Proof.
  intros H Hq. revert pos H. induction Hq as [|p q Hp Hq IH]; simpl; intros pos.
  - intros ->. unfold zlen. simpl. lia.
  - intros (_ & _ & _ & H%IH). rewrite zlen_cons. lia.
Qed.

(** The layout of the queue [q]: in one piece up to the end of the array, or up to
    [w] and on from the start of the array. *)
Definition unfolded (m : bytes) (lim sz w s u : Z) (q : list bytes) : Prop :=
  u < w - s ∧ w = sz ∧ s + u ≤ lim ∧ laid m lim s q (s + u).
Definition folded (m : bytes) (lim sz w s u mt : Z) (q : list bytes) : Prop :=
  w - s ≤ u ∧ u - (w - s) ≤ s ∧ sz - w ≤ mt ∧
  ∃ q1 q2, q = q1 ++ q2 ∧ laid m lim s q1 w ∧ laid m lim 0 q2 (u - (w - s)).
Definition lim_of (sz mt : Z) : Z := sz - 1 - mt.
Record shape (m : bytes) (sz w s u mt : Z) (q : list bytes) : Prop := mk_shape {
  sh_mem : zlen m = 4 * sz;
  sh_int : 4 * sz ≤ INT_MAX;
  sh_wrap : 0 < w ≤ sz;
  sh_start : 0 ≤ s < w;
  sh_used : 0 ≤ u;
  sh_mtu : 0 ≤ mt;
  sh_lim : 0 ≤ lim_of sz mt;
  sh_queue : unfolded m (lim_of sz mt) sz w s u q ∨ folded m (lim_of sz mt) sz w s u mt q
}.
Definition shaped (b : t) (q : list bytes) : Prop :=
  shape (buffer b) (size b) (wrap b) (start b) (used b) (mtu b) q.

Definition free_blocks (b : t) : Z :=
  if wrap b - start b <=? used b then start b - end_ b else size b - end_ b.
(** With [f] free blocks from block [e] on. *)
Definition in_at (f e : Z) (dest : option Z) (avail : Z) : Prop :=
  if 0 <? f then dest = Some (4 * (e + 1)) ∧ avail = (f - 1) * 4 else dest = None ∧ avail = -1.
Definition in_ok (b : t) : Prop := in_at (free_blocks b) (end_ b) (input_dest b) (input_avail b).
Definition out_ok (b : t) (q : list bytes) : Prop :=
  match q with
  | [] => output_dest b = None ∧ output_avail b = -1
  | p :: _ => output_dest b = Some (4 * (start b + 1)) ∧ output_avail b = zlen p
  end.
(** The buffer represents the queue [q]. *)
Definition ring (b : t) (q : list bytes) : Prop := shaped b q ∧ in_ok b ∧ out_ok b q.

(** What the shape says of the two ends. *)
Lemma shaped_end b q : shaped b q → 0 ≤ end_ b ≤ lim_of (size b) (mtu b) ∧ free_blocks b ≤ size b - end_ b ∧ used b ≤ wrap b.
Proof.
  intros [? ? ? Hs Hu ? ? [(Hc & Hw & He & Hl)|(Hc & He & Hg & q1 & q2 & -> & H1 & H2)]]; unfold free_blocks, end_.
  - destruct (Z.leb_spec (wrap b - start b) (used b)); lia.
  - destruct (Z.leb_spec (wrap b - start b) (used b)); [|lia].
    apply laid_nonempty in H1 as [_ H1]; [|lia]. lia.
Qed.
Lemma shaped_head b p q : shaped b (p :: q) →
  get_len b (start b) = zlen p ∧ read_at (4 * (start b + 1)) (zlen p) (buffer b) = p ∧
  nblocks p ≤ used b ∧ nblocks p ≤ wrap b - start b.
Proof.
  intros [? ? ? Hs Hu ? ? [(Hc & Hw & He & Hl)|(Hc & He & Hg & q1 & q2 & Hq & H1 & H2)]].
  - pose proof (laid_first _ _ _ _ _ _ Hl). destruct Hl as (_ & Hn & Hd & _). split_and!; [done|done|lia..].
  - pose proof (laid_nonempty _ _ _ _ _ H1) as [Hne _]; [lia|]. destruct q1 as [|p1 q1]; [done|]. simplify_eq/=.
    pose proof (laid_first _ _ _ _ _ _ H1). destruct H1 as (_ & Hn & Hd & _). split_and!; [done|done|lia..].
Qed.
Lemma shaped_empty b : shaped b [] → used b = 0.
Proof.
  intros [? ? ? Hs Hu ? ? [(Hc & Hw & He & Hl)|(Hc & He & Hg & q1 & q2 & Hq & H1 & H2)]]; simpl in *; [lia|].
  symmetry in Hq. apply app_eq_nil in Hq as [-> ->]. simpl in *. lia.
Qed.

Lemma shaped_assert b q : shaped b q → assert_buffer b = true.
Proof.
  intros H. pose proof (shaped_end b q H) as (_ & _ & ?).
  destruct H as [? ? ? Hs Hu ? ? [(Hc & Hw & _)|(Hc & _)]]; unfold assert_buffer; repeat (apply andb_true_intro; split); lia.
Qed.

Lemma update_input_ok b q : shaped b q → shaped (update_input b) q ∧ in_ok (update_input b) ∧
  output_dest (update_input b) = output_dest b ∧ output_avail (update_input b) = output_avail b ∧
  start (update_input b) = start b ∧ used (update_input b) = used b ∧ buffer (update_input b) = buffer b ∧
  mtu (update_input b) = mtu b ∧ size (update_input b) = size b ∧ end_ (update_input b) = end_ b.
Proof.
  intros H. pose proof (shaped_end b q H) as (He & Hf & _). unfold lim_of in He. unfold update_input.
  destruct (Z.ltb_spec (size b - end_ b - 1) (mtu b)); [lia|]. change (if wrap b - start b <=? used b then start b - end_ b else size b - end_ b) with (free_blocks b).
  destruct (Z.ltb_spec 0 (free_blocks b)) as [Hp|Hp]; split_and!; try done.
  - change (in_at (free_blocks b) (end_ b) (Some (4 * (end_ b + 1))) (to_int ((free_blocks b - 1) * 4))).
    unfold in_at. rewrite (proj2 (Z.ltb_lt _ _) Hp). split; [done|]. apply to_int_id. destruct H. lia.
  - change (in_at (free_blocks b) (end_ b) None (-1)). unfold in_at. by rewrite (proj2 (Z.ltb_ge _ _) Hp).
Qed.

Lemma update_output_ok b q : shaped b q → ∃ b', update_output b = Some b' ∧ shaped b' q ∧ out_ok b' q ∧
  (in_ok b → in_ok b') ∧ start b' = start b ∧ buffer b' = buffer b ∧ mtu b' = mtu b ∧ size b' = size b ∧ end_ b' = end_ b ∧
  free_blocks b' = free_blocks b.
Proof.
  intros H. unfold update_output. destruct q as [|p q].
  - rewrite (shaped_empty b H). simpl. eexists. split; [done|]. split_and!; done.
  - destruct (shaped_head b p q H) as (Hn & Hd & Hu & Hw). pose proof (nblocks_pos p). rewrite Hn.
    unfold nblocks in *. rewrite (proj2 (Z.ltb_lt 0 (used b))) by lia. pose proof (zlen_nonneg p).
    unfold check. rewrite !(proj2 (Z.leb_le _ _)) by lia. simpl. eexists. split; [done|]. split_and!; done.
Qed.

Lemma assert_io_ok b q : ring b q → assert_io b = true.
Proof.
  intros (H & Hi & Ho). pose proof (shaped_end b q H) as (He & Hf & _). unfold lim_of in He.
  unfold assert_io. apply andb_true_intro. split.
  - unfold assert_input. destruct (Z.ltb_spec (size b - end_ b - 1) (mtu b)); [lia|].
    change (if wrap b - start b <=? used b then start b - end_ b else size b - end_ b) with (free_blocks b).
    unfold in_ok, in_at in Hi. destruct (0 <? free_blocks b); destruct Hi as [-> ->];
      (rewrite bool_decide_true by done); apply Z.eqb_refl.
  - unfold assert_output. destruct q as [|p q]; destruct Ho as [-> ->].
    + rewrite (shaped_empty b H). simpl. done.
    + destruct (shaped_head b p q H) as (Hn & Hd & Hu & Hw). pose proof (nblocks_pos p). rewrite Hn.
      unfold nblocks in *. rewrite (proj2 (Z.ltb_lt 0 (used b))) by lia. pose proof (zlen_nonneg p).
      rewrite bool_decide_true, Z.eqb_refl by done. lia.
Qed.

(** *** Submission *)

Lemma len_at_written m e len : 0 ≤ e → 4 * e + 4 ≤ zlen m → 0 ≤ len ≤ INT_MAX →
  len_at (write_at (4 * e) (store32 (u32 len)) m) e = len.
Proof.
  intros He Hm Hl. unfold len_at. change 4 with (zlen (store32 (u32 len))) at 2.
  rewrite read_at_write_at by (change (zlen (store32 (u32 len))) with 4; lia).
  assert (is_u32 len) by (unfold is_u32, INT_MAX in *; lia). rewrite u32_id, load32_store32 by done. by apply to_int_id.
Qed.

(** The new packet after the writing of its header. *)
Lemma laid_submit m lim pos q e len : 0 ≤ pos → laid m lim pos q e → e ≤ lim → 0 ≤ len ≤ INT_MAX →
  4 * e + 4 + len ≤ zlen m →
  laid (write_at (4 * e) (store32 (u32 len)) m) lim pos (q ++ [read_at (4 * (e + 1)) len m]) (e + (1 + blocks len)).
Proof.
  intros Hpos Hl He Hlen Hm. pose proof (laid_le _ _ _ _ _ Hl).
  assert (zlen (read_at (4 * (e + 1)) len m) = len) as Hz by (apply zlen_read_at; lia).
  replace (1 + blocks len) with (nblocks (read_at (4 * (e + 1)) len m)) by (unfold nblocks; by rewrite Hz).
  apply laid_snoc.
  - eapply laid_frame; [done| |done]. intros off n ???. apply read_at_write_at_before; lia.
  - done.
  - rewrite Hz. apply len_at_written; lia.
  - rewrite Hz. apply read_at_write_at_after; change (zlen (store32 (u32 len))) with 4; lia.
Qed.

Lemma submit_shape m sz w s u mt q e f len : shape m sz w s u mt q →
  e = (if w - s <=? u then u - (w - s) else s + u) → f = (if w - s <=? u then s - e else sz - e) →
  0 ≤ len → 1 + blocks len ≤ f →
  shape (write_at (4 * e) (store32 (u32 len)) m) sz
    (if (u + (1 + blocks len) <=? w - s) && (sz - (e + 1 + blocks len) - 1 <? mt) then e + 1 + blocks len else w)
    s (u + (1 + blocks len)) mt (q ++ [read_at (4 * (e + 1)) len m]).
Proof.
  intros [Hm Hi Hw Hs Hu Hmt Hlim Hq] He Hf Hlen Hfit. pose proof (blocks_nonneg len Hlen).
  assert (len ≤ 4 * blocks len) as Hb by (by apply blocks_le). unfold lim_of in *.
  destruct Hq as [(Hc & Hwe & Hse & Hl)|(Hc & Hend & Hg & q1 & q2 & -> & H1 & H2)].
  - destruct (Z.leb_spec (w - s) u); [lia|]. subst e f.
    assert (zlen (write_at (4 * (s + u)) (store32 (u32 len)) m) = 4 * sz) as Hm'
      by (rewrite zlen_write_at; [done|lia|change (zlen (store32 (u32 len))) with 4; lia]).
    pose proof (laid_submit m _ s q (s + u) len (proj1 Hs) Hl Hse) as Hl'. unfold lim_of in *.
    rewrite (proj2 (Z.leb_le (u + (1 + blocks len)) (w - s))) by lia. simpl.
    destruct (Z.ltb_spec (sz - (s + u + 1 + blocks len) - 1) mt); split; try done; try (unfold lim_of; lia).
    + right. split_and!; [lia..|]. eexists _, []. rewrite app_nil_r. split; [done|]. split.
      * replace (s + u + 1 + blocks len) with (s + u + (1 + blocks len)) by lia. apply Hl'; lia.
      * simpl. lia.
    + left. split_and!; [lia|lia|unfold lim_of; lia|].
      replace (s + (u + (1 + blocks len))) with (s + u + (1 + blocks len)) by lia. apply Hl'; lia.
  - destruct (Z.leb_spec (w - s) u); [|lia]. subst e f. set (e := u - (w - s)) in *.
    assert (zlen (write_at (4 * e) (store32 (u32 len)) m) = 4 * sz) as Hm'
      by (rewrite zlen_write_at; [done|lia|change (zlen (store32 (u32 len))) with 4; lia]).
    pose proof (laid_nonempty _ _ _ _ _ H1) as [_ Hsl]; [lia|].
    rewrite (proj2 (Z.leb_gt (u + (1 + blocks len)) (w - s))) by lia. simpl.
    split; try done; try lia. right. split_and!; [lia..|]. exists q1, (q2 ++ [read_at (4 * (e + 1)) len m]).
    split; [by rewrite app_assoc|]. split.
    + eapply laid_frame; [lia| |done]. intros off n ???.
      apply read_at_write_at_after; change (zlen (store32 (u32 len))) with 4; lia.
    + replace (u + (1 + blocks len) - (w - s)) with (e + (1 + blocks len)) by (unfold e; lia).
      apply laid_submit; [lia|done|unfold lim_of in *; lia..].
Qed.

(** Submitting a packet that has been written at [input_dest] appends it. *)
Lemma SubmitPacket_ok b q d len : ring b q → input_dest b = Some d → 0 ≤ len ≤ input_avail b →
  ∃ b', SubmitPacket len b = Some b' ∧ ring b' (q ++ [read_at d len (buffer b)]) ∧
    size b' = size b ∧ mtu b' = mtu b ∧ start b' = start b.
Proof.
  intros Hr Hd Hlen. pose proof (assert_io_ok b q Hr) as Hio. destruct Hr as (H & Hi & Ho).
  pose proof (shaped_assert b q H) as Hab. pose proof (shaped_end b q H) as (He & Hf & Huw).
  unfold in_ok, in_at in Hi. destruct (Z.ltb_spec 0 (free_blocks b)) as [Hp|Hp]; [|naive_solver].
  destruct Hi as [Ed Ea]. rewrite Hd in Ed. injection Ed as ->.
  assert (1 + blocks len ≤ free_blocks b) as Hfit.
  { enough (blocks len ≤ free_blocks b - 1) by lia. apply blocks_le; lia. }
  pose proof (submit_shape _ _ _ _ _ _ q (end_ b) (free_blocks b) len H eq_refl eq_refl (proj1 Hlen) Hfit) as Hs.
  unfold SubmitPacket. rewrite Hd, (bool_decide_true (is_Some _)) by eauto. rewrite Hab, Hio.
  rewrite (proj2 (Z.leb_le 0 len)), (proj2 (Z.leb_le len (input_avail b))) by lia. simpl.
  rewrite (proj2 (Z.leb_le (blocks len) (size b - end_ b - 1))) by lia. simpl.
  assert ((used b <? wrap b - start b) || (blocks len <=? start b - end_ b - 1) = true) as ->.
  { unfold free_blocks in Hfit. destruct (Z.leb_spec (wrap b - start b) (used b)); lia. }
  simpl. set (b1 := set_len b (end_ b) len). set (b2 := b1 <| used := _ |>).
  set (b3 := if _ && _ then _ else b2).
  assert (shaped b3 (q ++ [read_at (4 * (end_ b + 1)) len (buffer b)])) as H3.
  { unfold b3. simpl. destruct (_ && _); exact Hs. }
  assert (start b3 = start b ∧ used b3 = used b + (1 + blocks len) ∧ size b3 = size b ∧ mtu b3 = mtu b ∧
    output_dest b3 = output_dest b ∧ output_avail b3 = output_avail b) as (Es & Eu & Ez & Em & Eod & Eoa).
  { unfold b3. simpl. by destruct (_ && _). }
  clearbody b3. rewrite (shaped_assert _ _ H3). simpl.
  destruct (update_input_ok b3 _ H3) as (H4 & Hi4 & Eod4 & Eoa4 & Es4 & Eu4 & _ & Em4 & Ez4 & _).
  assert (∃ b5, (if used (update_input b3) =? 1 + blocks len then update_output (update_input b3) else Some (update_input b3)) = Some b5 ∧
    ring b5 (q ++ [read_at (4 * (end_ b + 1)) len (buffer b)]) ∧ size b5 = size b ∧ mtu b5 = mtu b ∧ start b5 = start b) as (b5 & -> & Hr5 & Hz5).
  { rewrite Eu4, Eu. destruct q as [|p q].
    - rewrite (shaped_empty b H). rewrite (proj2 (Z.eqb_eq _ _)) by lia.
      destruct (update_output_ok _ _ H4) as (b5 & -> & H5 & Ho5 & Hi5 & Es5 & _ & Em5 & Ez5 & _). exists b5. split; [done|].
      split; [split_and!; [done|by apply Hi5|done]|]. split_and!; congruence.
    - destruct (shaped_head b p q H) as (_ & _ & Hu & _). pose proof (nblocks_pos p).
      rewrite (proj2 (Z.eqb_neq _ _)) by lia. eexists. split; [done|]. split; [|split_and!; congruence].
      split_and!; [done..|]. simpl. rewrite Eod4, Eoa4, Es4, Es, Eod, Eoa. exact Ho. }
  simpl. rewrite (assert_io_ok _ _ Hr5). simpl. by exists b5.
Qed.

(** *** Consumption *)

Lemma consume_shape m sz w s u mt p q : shape m sz w s u mt (p :: q) →
  let s1 := s + nblocks p in
  shape m sz (if s1 =? w then sz else w) (if s1 =? w then 0 else s1) (u - nblocks p) mt q.
Proof.
  intros [Hm Hi Hw Hs Hu Hmt Hlim Hq] s1. pose proof (nblocks_pos p). unfold lim_of in *.
  destruct Hq as [(Hc & Hwe & Hse & Hl)|(Hc & Hend & Hg & q1 & q2 & Hq & H1 & H2)].
  - pose proof (laid_first _ _ _ _ _ _ Hl). destruct Hl as (? & _ & _ & Hl).
    rewrite (proj2 (Z.eqb_neq _ _)) by (unfold s1; lia). split; try done; try (unfold s1, lim_of; lia).
    left. unfold s1. split_and!; [lia|lia|unfold lim_of; lia|]. by replace (s + nblocks p + (u - nblocks p)) with (s + u) by lia.
  - pose proof (laid_nonempty _ _ _ _ _ H1) as [Hne Hsl]; [lia|]. destruct q1 as [|p1 q1]; [done|]. injection Hq as <- ->.
    pose proof (laid_first _ _ _ _ _ _ H1) as Hf. destruct H1 as (_ & _ & _ & H1). unfold lim_of in *.
    destruct (Z.eqb_spec s1 w) as [E|E].
    + unfold s1 in E. destruct q1 as [|p2 q1].
      2:{ apply laid_first in H1. pose proof (nblocks_pos p2). lia. }
      split; try done; try lia. left. split_and!; [lia|done|unfold lim_of; lia|].
      replace (0 + (u - nblocks p)) with (u - (w - s)) by lia. done.
    + split; try done; try (unfold s1 in *; lia). right. unfold s1 in *. split_and!; [lia..|]. exists q1, q2.
      split_and!; [done|done|]. by replace (u - nblocks p - (w - (s + nblocks p))) with (u - (w - s)) by lia.
Qed.

(** Removing the first packet; the place of the input does not move and its room
    does not shrink. *)
Lemma ConsumePacket_ok b p q : ring b (p :: q) →
  ∃ b', ConsumePacket b = Some b' ∧ ring b' q ∧ buffer b' = buffer b ∧ size b' = size b ∧ mtu b' = mtu b ∧
    end_ b' = end_ b ∧ free_blocks b ≤ free_blocks b'.
Proof.
  intros Hr. pose proof (assert_io_ok b _ Hr) as Hio. destruct Hr as (H & Hi & Ho).
  pose proof (shaped_assert b _ H) as Hab. destruct (shaped_head b p q H) as (Hn & _ & Hu & Hw).
  pose proof (consume_shape _ _ _ _ _ _ p q H) as Hs. cbv zeta in Hs. pose proof (nblocks_pos p).
  unfold ConsumePacket. destruct Ho as [Hod _]. rewrite Hod, (bool_decide_true (is_Some _)) by eauto.
  rewrite Hab, Hio, Hn. change (1 + blocks (zlen p)) with (nblocks p).
  assert (blocks (zlen p) = nblocks p - 1) as Eb by (unfold nblocks; lia).
  rewrite (proj2 (Z.leb_le 1 (wrap b - start b))), (proj2 (Z.leb_le 1 (used b))),
    (proj2 (Z.leb_le (blocks (zlen p)) (wrap b - start b - 1))), (proj2 (Z.leb_le (blocks (zlen p)) (used b - 1))) by lia. simpl.
  set (b2 := if start b + nblocks p =? wrap b then _ else _).
  assert (shaped b2 q) as H2. { unfold b2. destruct (_ =? _); exact Hs. }
  assert (buffer b2 = buffer b ∧ size b2 = size b ∧ mtu b2 = mtu b ∧ input_dest b2 = input_dest b ∧
    input_avail b2 = input_avail b ∧ used b2 = used b - nblocks p) as (Eb2 & Ez & Em & Ed & Ea & Eu).
  { unfold b2. by destruct (_ =? _). }
  assert (end_ b2 = end_ b ∧ free_blocks b ≤ free_blocks b2 ∧
    (used b < wrap b - start b → free_blocks b2 = free_blocks b)) as (Ee & Hfr & Hfe).
  { pose proof (sh_start _ _ _ _ _ _ _ H). pose proof (sh_wrap _ _ _ _ _ _ _ H). pose proof (sh_used _ _ _ _ _ _ _ H2).
    assert (used b - (wrap b - start b) ≤ start b) by (destruct (sh_queue _ _ _ _ _ _ _ H) as [(? & _)|(_ & ? & _)]; lia).
    unfold b2, end_, free_blocks, end_. destruct (Z.eqb_spec (start b + nblocks p) (wrap b)); simpl;
      repeat match goal with |- context [?x <=? ?y] => destruct (Z.leb_spec x y) end; lia. }
  clearbody b2. rewrite (shaped_assert _ _ H2). simpl.
  assert (∃ b3, (if wrap b - start b <=? used b then update_input b2 else b2) = b3 ∧ shaped b3 q ∧ in_ok b3 ∧
    buffer b3 = buffer b ∧ size b3 = size b ∧ mtu b3 = mtu b ∧ end_ b3 = end_ b ∧ free_blocks b ≤ free_blocks b3)
    as (b3 & -> & H3 & Hi3 & Eb3 & Ez3 & Em3 & Ee3 & Hf3).
  { destruct (Z.leb_spec (wrap b - start b) (used b)) as [Hc|Hc].
    - eexists. split; [done|]. destruct (update_input_ok b2 q H2) as (? & ? & _ & _ & ? & ? & ? & ? & ? & ?).
      split_and!; try congruence. unfold update_input. repeat case_match; done.
    - exists b2. split_and!; try done. unfold in_ok in *. by rewrite Ee, (Hfe Hc), Ed, Ea. }
  destruct (update_output_ok b3 q H3) as (b4 & -> & H4 & Ho4 & Hi4 & _ & Eb4 & Em4 & Ez4 & Ee4 & Ef4). simpl.
  assert (ring b4 q) as Hr4 by (split_and!; auto). rewrite (assert_io_ok _ _ Hr4). simpl. exists b4.
  split_and!; [done|done|congruence..|lia].
Qed.

(** *** Writing into the free part, capacity, initial state *)

Lemma write_free b q d w : ring b q → input_dest b = Some d → zlen w ≤ input_avail b →
  ring (b <| buffer := write_at d w (buffer b) |>) q.
Proof.
  intros (H & Hi & Ho) Hd Hw. pose proof (shaped_end b q H) as (He & Hf & _).
  split_and!; [|done|by destruct q]. pose proof Hi as Hi'. unfold in_ok, in_at in Hi'.
  destruct (Z.ltb_spec 0 (free_blocks b)) as [Hp|Hp]; [|naive_solver]. destruct Hi' as [Ed Ea].
  rewrite Hd in Ed. injection Ed as ->. unfold shaped. simpl. destruct H as [Hm ? ? ? ? ? ? Hq]. split; try done.
  - rewrite zlen_write_at; [done|lia..].
  - unfold free_blocks, end_ in *. pose proof (zlen_nonneg w).
    destruct Hq as [(Hc & Hwe & Hse & Hl)|(Hc & Hend & Hg & q1 & q2 & -> & H1 & H2)];
      destruct (Z.leb_spec (wrap b - start b) (used b)); try lia.
    + left. split_and!; [done..|]. eapply laid_frame; [lia| |exact Hl]. intros. apply read_at_write_at_before; lia.
    + right. split_and!; [done..|]. exists q1, q2. split_and!; [done|..].
      * eapply laid_frame; [lia| |exact H1]. intros. apply read_at_write_at_after; lia.
      * eapply laid_frame; [lia| |exact H2]. intros. apply read_at_write_at_before; lia.
Qed.

Lemma room b q num : ring b q → Forall (λ p, nblocks p ≤ 1 + mtu b) q → size b = (1 + mtu b) * (num + 1) →
  zlen q < num → 4 * mtu b ≤ input_avail b.
Proof.
  intros (H & Hi & Ho) Hq Hz Hn. pose proof (shaped_end b q H) as (He & _).
  assert (1 + mtu b ≤ free_blocks b) as Hf.
  { unfold free_blocks, end_, lim_of in *.
    destruct H as [? ? ? ? ? ? ? [(Hc & Hwe & Hse & Hl)|(Hc & Hend & Hg & q1 & q2 & -> & H1 & H2)]];
      destruct (Z.leb_spec (wrap b - start b) (used b)); try lia.
    apply Forall_app in Hq as [Hq1 Hq2]. pose proof (laid_size _ _ _ _ _ _ H1 Hq1). pose proof (laid_size _ _ _ _ _ _ H2 Hq2).
    rewrite zlen_app in Hn. nia. }
  unfold in_ok, in_at in Hi. destruct (Z.ltb_spec 0 (free_blocks b)); [|destruct H; lia]. destruct Hi as [_ ->]. lia.
Qed.

Lemma calc_blocks_spec len num : 0 ≤ len → 0 < num → calc_blocks len num = -1 ∨
  calc_blocks len num = (1 + blocks len) * (num + 1).
Proof. intros. unfold calc_blocks. repeat case_match; lia. Qed.

Lemma ring_Init_ok m len num : 0 ≤ len → 0 < num → let n := (1 + blocks len) * (num + 1) in
  zlen m = 4 * n → 4 * n ≤ INT_MAX →
  ∃ b, ChunkBuffer2.Init m n len = Some b ∧ ring b [] ∧ size b = n ∧ mtu b = blocks len.
Proof.
  intros Hlen Hnum n Hm Hi. pose proof (blocks_nonneg len Hlen). assert (1 + blocks len < n) by (unfold n; nia).
  unfold ChunkBuffer2.Init. rewrite (proj2 (Z.ltb_lt 0 n)), (proj2 (Z.leb_le 0 len)) by lia. simpl.
  set (b := mk_t _ _ _ _ _ _ _ _ _ _).
  assert (shaped b []) as Hs. { unfold b. split; simpl; unfold lim_of; try lia. left. split_and!; simpl; unfold lim_of; lia. }
  rewrite (shaped_assert _ _ Hs). simpl. destruct (update_input_ok b _ Hs) as (H1 & Hi1 & _ & _ & _ & _ & _ & Em & Ez & _).
  destruct (update_output_ok _ _ H1) as (b2 & -> & H2 & Ho2 & Hi2 & _ & _ & Em2 & Ez2 & _). simpl.
  assert (ring b2 []) as Hr by (split_and!; auto). rewrite (assert_io_ok _ _ Hr). simpl.
  exists b2. split_and!; [done|done|by rewrite Ez2, Ez|by rewrite Em2, Em].
Qed.

End Ring.

(** ** The packet buffer between its input and its output *)
Section System.
Import ChunkBuffer2 PacketBuffer.

(** The buffer with the requests it has made: [rx] the place the input is writing
    to, [tx] the packet the output is sending; [ins] and [outs] are the packets that
    have come in and gone out. *)
Record sys := mk_sys {
  pb : PacketBuffer.t; out_mtu : Z; rx : option Z; tx : option (Z * Z); ins : list bytes; outs : list bytes
}.
#[global] Instance eta_sys : Eta sys := λ s, mk_sys (pb s) (out_mtu s) (rx s) (tx s) (ins s) (outs s).

(** The assertions of the two interfaces: one request at a time, with a buffer, and
    within the MTU. *)
Definition perform (s : sys) (a : act) : option sys :=
  match a with
  | Recv d => match rx s, d with None, Some d => Some (s <| rx := Some d |>) | _, _ => None end
  | Send d l =>
      match tx s, d with
      | None, Some d => if (0 <=? l) && (l <=? out_mtu s) then Some (s <| tx := Some (d, l) |>) else None
      | _, _ => None
      end
  end.
Fixpoint performs (s : sys) (l : list act) : option sys :=
  match l with [] => Some s | a :: l => s ← perform s a; performs s l end.

(** The input writes into the buffer it was given, the input has a packet of [len]
    bytes there, the output has sent its packet. *)
Inductive ev := EWrite (w : bytes) | EIn (len : Z) | EOut.
Definition enabled (s : sys) (e : ev) : bool :=
  match e with
  | EWrite w => bool_decide (is_Some (rx s)) && (zlen w <=? input_mtu (pb s))
  | EIn len => bool_decide (is_Some (rx s)) && (0 <=? len) && (len <=? input_mtu (pb s))
  | EOut => bool_decide (is_Some (tx s))
  end.
Definition memory (s : sys) : bytes := buffer (buf (pb s)).
Definition call (m : BM ()) (s : sys) : option sys :=
  match m (pb s) with Some (_, b, acts) => performs (s <| pb := b |>) acts | None => None end.
Definition sys_step (s : sys) (e : ev) : option sys :=
  match e with
  | EWrite w => d ← rx s; Some (s <| pb := pb s <| buf := buf (pb s) <| buffer := write_at d w (memory s) |> |> |>)
  | EIn len => d ← rx s;
      call (input_handler_done len) (s <| rx := None |> <| ins := ins s ++ [read_at d len (memory s)] |>)
  | EOut => '(d, l) ← tx s;
      call output_handler_done (s <| tx := None |> <| outs := outs s ++ [read_at d l (memory s)] |>)
  end.
Definition boot (in_mtu out_mtu num : Z) (mem : Z → option bytes) : option (option sys) :=
  r ← PacketBuffer.Init in_mtu out_mtu num mem;
  match r with
  | None => Some None
  | Some (b, acts) => s ← performs (mk_sys b out_mtu None None [] []) acts; Some (Some s)
  end.
Definition sys_moves (s s' : sys) : Prop := ∃ e, enabled s e = true ∧ sys_step s e = Some s'.

(** What [rx] and [tx] are when no handler runs. *)
Definition rx_of (b : PacketBuffer.t) : option Z :=
  if input_mtu b <=? input_avail (buf b) then input_dest (buf b) else None.
Definition tx_of (b : PacketBuffer.t) : option (Z * Z) :=
  match output_dest (buf b) with Some d => Some (d, output_avail (buf b)) | None => None end.
(** The buffer [b] holds [q]. *)
Record holds (num omtu : Z) (b : PacketBuffer.t) (q : list bytes) : Prop := mk_holds {
  h_ring : ring (buf b) q;
  h_packets : Forall (λ p, zlen p ≤ input_mtu b) q;
  h_mtu : mtu (buf b) = blocks (input_mtu b);
  h_size : size (buf b) = (1 + blocks (input_mtu b)) * (num + 1);
  h_omtu : 0 ≤ input_mtu b ≤ omtu
}.
Definition sys_inv (num : Z) (s : sys) : Prop :=
  ∃ q, holds num (out_mtu s) (pb s) q ∧ ins s = outs s ++ q ∧ rx s = rx_of (pb s) ∧ tx s = tx_of (pb s).

Lemma rx_some num omtu b q : holds num omtu b q → input_mtu b <=? input_avail (buf b) = true →
  is_Some (input_dest (buf b)).
Proof.
  intros [(_ & Hi & _) _ _ _ Hm] Hle. unfold in_ok, in_at in Hi. case_match; destruct Hi as [-> E]; [eauto|].
  rewrite E in Hle. lia.
Qed.

Lemma in_run num omtu b q d len : holds num omtu b q → rx_of b = Some d → 0 ≤ len ≤ input_mtu b →
  ∃ b', holds num omtu b' (q ++ [read_at d len (buffer (buf b))]) ∧ input_mtu b' = input_mtu b ∧ (q ≠ [] → tx_of b' = tx_of b) ∧
    input_handler_done len b = Some ((), b',
      (if input_mtu b' <=? input_avail (buf b') then [Recv (input_dest (buf b'))] else []) ++
      (if bool_decide (q = []) then [Send (output_dest (buf b')) (output_avail (buf b'))] else [])).
Proof.
  intros [Hr Hp Hm Hz Ho] Hd Hlen. unfold rx_of in Hd. destruct (Z.leb_spec (input_mtu b) (input_avail (buf b))); [|done].
  assert (zlen (read_at d len (buffer (buf b))) ≤ input_mtu b) as Hl.
  { unfold read_at. rewrite zlen_take. lia. }
  destruct (SubmitPacket_ok (buf b) q d len Hr Hd) as (c & Ec & Hr' & Ez & Em & Es); [lia|].
  exists (b <| buf := c |>). split; [|split; [done|split]].
  - split; simpl; try done; [|by rewrite Em|by rewrite Ez]. apply Forall_app. by repeat constructor.
  - intros Hq. destruct q as [|p q]; [done|]. destruct Hr as (_ & _ & Hout), Hr' as (_ & _ & Hout').
    destruct Hout as [E1 E2], Hout' as [E1' E2']. unfold tx_of. simpl. by rewrite E1, E2, E1', E2', Es.
  - assert ((output_avail (buf b) <? 0) = bool_decide (q = [])) as Ee.
    { destruct Hr as (_ & _ & Hout). destruct q as [|p q]; destruct Hout as [_ ->]; [done|].
      pose proof (zlen_nonneg p). rewrite bool_decide_false by done. by apply Z.ltb_ge. }
    unfold input_handler_done, mbind, M_bind, get, ASSERT, on_buf, when, emit.
    rewrite (proj2 (Z.leb_le 0 len)), (proj2 (Z.leb_le len _)), Ec, Ee by lia. simpl.
    destruct (_ <=? _), (bool_decide _); done.
Qed.

Lemma out_run num omtu b p q : holds num omtu b (p :: q) →
  ∃ b', holds num omtu b' q ∧ buffer (buf b') = buffer (buf b) ∧ input_mtu b' = input_mtu b ∧
    (rx_of b ≠ None → rx_of b' = rx_of b) ∧
    output_handler_done b = Some ((), b',
      (if bool_decide (rx_of b = None) && (input_mtu b' <=? input_avail (buf b')) then [Recv (input_dest (buf b'))] else []) ++
      (if bool_decide (q = []) then [] else [Send (output_dest (buf b')) (output_avail (buf b'))])).
Proof.
  intros Hh. pose proof (rx_some _ _ _ _ Hh) as Hrx. destruct Hh as [Hr Hp Hm Hz Ho].
  destruct (ConsumePacket_ok (buf b) p q Hr) as (c & Ec & Hr' & Eb & Ez & Em & Ee & Hf).
  exists (b <| buf := c |>). apply list.Forall_cons in Hp as [_ Hp]. split; [by split; simpl; rewrite ?Em, ?Ez|].
  assert ((input_avail (buf b) <? input_mtu b) = bool_decide (rx_of b = None)) as Ef.
  { unfold rx_of. destruct (Z.leb_spec (input_mtu b) (input_avail (buf b))).
    - destruct Hrx as [d ->]; [lia|]. rewrite bool_decide_false by done. by apply Z.ltb_ge.
    - rewrite bool_decide_true by done. by apply Z.ltb_lt. }
  split_and!; [done|done| |].
  - unfold rx_of. simpl. destruct (Z.leb_spec (input_mtu b) (input_avail (buf b))) as [Hle|]; [|done]. intros _.
    destruct Hr as (_ & Hi & _), Hr' as (_ & Hi' & _). unfold in_ok, in_at in Hi, Hi'. rewrite Ee in Hi'.
    destruct (Z.ltb_spec 0 (free_blocks (buf b))); [|lia]. destruct (Z.ltb_spec 0 (free_blocks c)); [|lia].
    destruct Hi as [-> E1], Hi' as [-> E2]. rewrite (proj2 (Z.leb_le _ _)) by lia. done.
  - assert ((0 <=? output_avail c) = negb (bool_decide (q = []))) as Eo.
    { destruct Hr' as (_ & _ & Hout). destruct q as [|p' q]; destruct Hout as [_ ->]; [done|].
      pose proof (zlen_nonneg p'). rewrite bool_decide_false by done. by apply Z.leb_le. }
    unfold output_handler_done, mbind, M_bind, get, on_buf, when, emit. rewrite Ec, Ef. simpl. rewrite Eo.
    destruct (bool_decide (rx_of b = None) && _), (bool_decide (q = [])); done.
Qed.

Lemma tx_head num omtu b p q : holds num omtu b (p :: q) →
  tx_of b = Some (4 * (start (buf b) + 1), zlen p) ∧ read_at (4 * (start (buf b) + 1)) (zlen p) (buffer (buf b)) = p ∧
  (0 <=? zlen p) && (zlen p <=? omtu) = true.
Proof.
  intros [(H & _ & [E1 E2]) [Hp _]%list.Forall_cons _ _ Ho]. unfold tx_of. rewrite E1, E2.
  destruct (shaped_head _ _ _ H) as (_ & Hd & _). pose proof (zlen_nonneg p). split_and!; [done|done|]. lia.
Qed.
Lemma tx_empty num omtu b : holds num omtu b [] → tx_of b = None.
Proof. intros [(_ & _ & [E1 E2]) _ _ _ _]. unfold tx_of. by rewrite E1. Qed.

(** The requests made at the end of a handler. *)
Lemma perform_recv num s b q (c : bool) : holds num (out_mtu s) b q → (c = true → rx s = None) → (c = false → rx s = rx_of b) →
  performs s (if c && (input_mtu b <=? input_avail (buf b)) then [Recv (input_dest (buf b))] else []) =
  Some (s <| rx := rx_of b |>).
Proof.
  intros H H1 H2. unfold rx_of in *. pose proof (rx_some _ _ _ _ H) as Hs. destruct c; simpl.
  - specialize (H1 eq_refl). destruct (_ <=? _); simpl.
    + destruct Hs as [d ->]; [done|]. by rewrite H1.
    + destruct s; simpl in *; by subst.
  - rewrite <- (H2 eq_refl). by destruct s.
Qed.
Lemma perform_send num s b q (c : bool) : holds num (out_mtu s) b q → (c = true → q ≠ [] ∧ tx s = None) → (c = false → tx s = tx_of b) →
  performs s (if c then [Send (output_dest (buf b)) (output_avail (buf b))] else []) = Some (s <| tx := tx_of b |>).
Proof.
  intros H H1 H2. destruct c; simpl.
  - destruct q as [|p q]; [naive_solver|]. destruct (tx_head _ _ _ _ _ H) as (Ht & _ & Hl). rewrite Ht.
    destruct H as [(_ & _ & [-> ->]) _ _ _ _]. destruct (H1 eq_refl) as [_ ->]. by rewrite Hl.
  - rewrite <- (H2 eq_refl). by destruct s.
Qed.
Lemma performs_app s l k s1 s2 : performs s l = Some s1 → performs s1 k = Some s2 → performs s (l ++ k) = Some s2.
Proof.
  revert s. induction l as [|a l IH]; simpl; intros s; [by intros [= ->]|].
  destruct (perform s a); [simpl; apply IH|done].
Qed.

Lemma sys_step_ok num s e : sys_inv num s → enabled s e = true → ∃ s', sys_step s e = Some s' ∧ sys_inv num s'.
Proof.
  intros (q & H & Hio & Hrx & Htx) He. destruct e as [w|len|]; simpl in He.
  - apply andb_true_iff in He as [[d Hd]%bool_decide_eq_true Hw]. unfold sys_step. rewrite Hd. eexists. split; [done|].
    exists q. split_and!; try done. destruct H as [Hr ? ? ? ?]. split; try done. simpl. rewrite Hd in Hrx. unfold rx_of in Hrx.
    destruct (Z.leb_spec (input_mtu (pb s)) (input_avail (buf (pb s)))); [|done]. apply write_free; [done..|]. lia.
  - apply andb_true_iff in He as [[[d Hd]%bool_decide_eq_true H0]%andb_true_iff H1]. rewrite Hd in Hrx. symmetry in Hrx.
    destruct (in_run num _ _ q d len H Hrx) as (b & Hb & _ & Htb & E); [lia|]. unfold sys_step, call. rewrite Hd. simpl.
    rewrite E. match goal with |- context [performs ?x _] => set (s1 := x) end.
    exists (s1 <| rx := rx_of b |> <| tx := tx_of b |>). split.
    + eapply performs_app; [exact (perform_recv num s1 b _ true Hb (λ _, eq_refl) (λ H, False_ind _ (diff_true_false H)))|].
      apply (perform_send num _ b (q ++ [read_at d len (memory s)])); simpl; [exact Hb|..]; rewrite Htx.
      * intros ->%bool_decide_eq_true. split; [done|]. by eapply tx_empty.
      * intros Hq%bool_decide_eq_false. by rewrite Htb.
    + exists (q ++ [read_at d len (memory s)]). split_and!; try done. simpl. by rewrite Hio, app_assoc.
  - apply bool_decide_eq_true in He as [[d l] Ht]. rewrite Ht in Htx. symmetry in Htx.
    destruct q as [|p q]; [by rewrite (tx_empty _ _ _ H) in Htx|].
    destruct (tx_head _ _ _ _ _ H) as (Et & Hd & _). rewrite Et in Htx. injection Htx as <- <-.
    destruct (out_run num _ _ p q H) as (b & Hb & _ & _ & Hrb & E). unfold sys_step, call. rewrite Ht. simpl.
    unfold memory. rewrite Hd, E. match goal with |- context [performs ?x _] => set (s1 := x) end.
    exists (s1 <| rx := rx_of b |> <| tx := tx_of b |>). split.
    + eapply performs_app; [apply (perform_recv num s1 b q); [exact Hb|..]|].
      * intros Hn%bool_decide_eq_true. simpl. by rewrite Hrx.
      * intros Hn%bool_decide_eq_false. simpl. by rewrite Hrx, Hrb.
      * set (s2 := s1 <| rx := rx_of b |>). destruct (bool_decide_reflect (q = [])) as [->|Hq].
        -- apply (perform_send num s2 b [] false Hb); [done|]. intros _. by rewrite (tx_empty _ _ _ Hb).
        -- by apply (perform_send num s2 b q true Hb).
    + exists q. split_and!; try done. simpl. by rewrite Hio, <- app_assoc.
Qed.

(** What the steps change. *)
Lemma performs_keep l s s' : performs s l = Some s' → pb s' = pb s ∧ ins s' = ins s ∧ outs s' = outs s ∧ out_mtu s' = out_mtu s.
Proof.
  revert s. induction l as [|a l IH]; simpl; intros s; [by intros [= ->]|].
  destruct (perform s a) as [s1|] eqn:E; [|done]. simpl. intros H. destruct (IH _ H) as (-> & -> & -> & ->).
  unfold perform in E. repeat case_match; simplify_eq/=; done.
Qed.
Lemma in_keeps num s s' d len : sys_inv num s → rx s = Some d → 0 ≤ len ≤ input_mtu (pb s) → sys_step s (EIn len) = Some s' →
  ins s' = ins s ++ [read_at d len (memory s)] ∧ input_mtu (pb s') = input_mtu (pb s).
Proof.
  intros (q & H & _ & Hrx & _) Hd Hlen E. unfold sys_step, call in E. rewrite Hd in *. simpl in E. symmetry in Hrx.
  destruct (in_run num _ _ q d len H Hrx Hlen) as (b & _ & Em & _ & Er). rewrite Er in E.
  by apply performs_keep in E as (-> & -> & _).
Qed.
Lemma out_keeps num s s' : sys_inv num s → sys_step s EOut = Some s' →
  memory s' = memory s ∧ input_mtu (pb s') = input_mtu (pb s) ∧ ins s' = ins s ∧ (rx s ≠ None → rx s' = rx s).
Proof.
  intros Hi E. pose proof Hi as (q & H & _ & Hrx & Htx). assert (enabled s EOut = true) as He.
  { unfold sys_step in E. simpl. by destruct (tx s). }
  destruct (sys_step_ok num s EOut Hi He) as (s1 & E' & (q1 & _ & _ & Hrx' & _)). rewrite E' in E. injection E as ->.
  unfold sys_step, call in E'. destruct (tx s) as [[d l]|] eqn:Et; [|done]. simpl in E'.
  destruct q as [|p q]; [by rewrite (tx_empty _ _ _ H) in Htx|].
  destruct (out_run num _ _ p q H) as (b & _ & Eb & Em & Hr & Er). rewrite Er in E'.
  apply performs_keep in E' as (Ep & Ei & _). unfold memory. rewrite Hrx', Ep, Hrx. simpl. by split_and!.
Qed.
Lemma rx_bounds num s d : sys_inv num s → rx s = Some d → 0 ≤ d ∧ d + input_mtu (pb s) ≤ zlen (memory s).
Proof.
  intros (q & [(Hs & Hi & _) _ _ _ _] & _ & Hrx & _) Hd. rewrite Hd in Hrx. unfold rx_of in Hrx.
  destruct (Z.leb_spec (input_mtu (pb s)) (input_avail (buf (pb s)))); [|done].
  pose proof (shaped_end _ _ Hs) as (He & Hf & _). destruct Hs as [Hm ? ? ? ? ? ? _]. unfold in_ok, in_at in Hi.
  destruct (Z.ltb_spec 0 (free_blocks (buf (pb s)))); destruct Hi as [Ei Ea]; rewrite Ei in Hrx; [|done].
  injection Hrx as ->. unfold memory. lia.
Qed.
(** The input may write anywhere in the place it was given. *)
Lemma write_inv num s d a w : sys_inv num s → rx s = Some d → d ≤ a → a + zlen w ≤ d + input_mtu (pb s) →
  sys_inv num (s <| pb := pb s <| buf := buf (pb s) <| buffer := write_at a w (memory s) |> |> |>).
Proof.
  intros H Hd Ha Hw. destruct (rx_bounds num s d H Hd) as [H0 H1]. pose proof (zlen_nonneg w).
  assert (zlen (read_at d (a - d) (memory s)) = a - d) as Hl by (apply zlen_read_at; lia).
  destruct (sys_step_ok num s (EWrite (read_at d (a - d) (memory s) ++ w)) H) as (s' & E & Hs').
  { simpl. rewrite Hd, zlen_app, Hl. simpl. lia. }
  simpl in E. rewrite Hd in E. injection E as <-. rewrite <- write_at_app, Hl in Hs' by (rewrite ?Hl; lia).
  replace (d + (a - d)) with a in Hs' by lia.
  by rewrite write_read_at in Hs' by lia.
Qed.

Lemma boot_ok in_mtu omtu num mem : 0 ≤ in_mtu ≤ omtu → 0 < num → mem_ok mem →
  4 * calc_blocks in_mtu num ≤ INT_MAX →
  boot in_mtu omtu num mem = Some None ∨
  ∃ s, boot in_mtu omtu num mem = Some (Some s) ∧ sys_inv num s ∧ ins s = [] ∧ outs s = [].
Proof.
  intros Hm Hn Hmem Hi. unfold boot, PacketBuffer.Init.
  rewrite (proj2 (Z.leb_le in_mtu omtu)), (proj2 (Z.ltb_lt 0 num)) by lia. simpl.
  pose proof (blocks_nonneg in_mtu (proj1 Hm)).
  destruct (calc_blocks_spec in_mtu num) as [E|E]; [lia|lia|rewrite E; by left|]. rewrite E in *.
  destruct (Z.ltb_spec ((1 + blocks in_mtu) * (num + 1)) 0); [nia|].
  destruct (mem _) as [m|] eqn:Em; [|by left]. apply Hmem in Em as [_ Em]. unfold sizeof_block in Em.
  destruct (ring_Init_ok m in_mtu num) as (c & -> & Hr & Ez & Emt); [lia..|]. right. simpl.
  assert (holds num omtu (PacketBuffer.mk_t c in_mtu) []) as Hh by (split; simpl; done).
  pose proof (room c [] num Hr) as Hroom. pose proof (proj1 (blocks_le in_mtu _ (proj1 Hm)) (Z.le_refl _)).
  assert (in_mtu <=? input_avail c = true) as Ha.
  { rewrite Emt, Ez in Hroom. apply Z.leb_le. etrans; [|apply Hroom]; [lia|constructor|done|]. unfold zlen. simpl. lia. }
  destruct (rx_some _ _ _ _ Hh Ha) as [d Ed]. simpl in Ed. rewrite Ed. simpl. eexists. split; [done|].
  split; [|done]. exists []. split_and!; try done; simpl; [unfold rx_of; simpl; by rewrite Ha, Ed|].
  by rewrite (tx_empty _ _ _ Hh).
Qed.

Lemma sys_reach_inv num s s' : sys_inv num s → rtc sys_moves s s' → sys_inv num s'.
Proof.
  intros H Hr. induction Hr as [|s s1 s2 (e & He & E) _ IH]; [done|]. apply IH.
  destruct (sys_step_ok num s e H He) as (s1' & E' & H1). by rewrite E' in E; injection E as <-.
Qed.

(** The packet being sent, and the room for another one. *)
Lemma sys_inv_tx num s : sys_inv num s →
  match tx s with
  | Some (d, l) => ins s !! length (outs s) = Some (read_at d l (memory s))
  | None => ins s = outs s
  end.
Proof.
  intros (q & Hh & -> & Hrx & ->). destruct q as [|p q]; [by rewrite (tx_empty _ _ _ Hh), app_nil_r|].
  destruct (tx_head _ _ _ _ _ Hh) as (-> & Hd & _). by rewrite list_lookup_middle, <- Hd at 1.
Qed.
Lemma sys_inv_room num s : sys_inv num s → zlen (ins s) - zlen (outs s) < num → is_Some (rx s).
Proof.
  intros (q & Hh & -> & Hrx & _). rewrite zlen_app. intros Hq. rewrite Hrx. unfold rx_of. pose proof (rx_some _ _ _ _ Hh) as Hs.
  destruct Hh as [Hr' Hp Hmt Hz Ho].
  assert (4 * mtu (buf (pb s)) ≤ input_avail (buf (pb s))).
  { eapply (room _ q num); [done| |by rewrite Hmt|lia]. eapply list.Forall_impl; [exact Hp|]. intros p Hlp. simpl in Hlp.
    unfold nblocks. rewrite Hmt. enough (blocks (zlen p) ≤ blocks (input_mtu (pb s))) by lia.
    apply blocks_le; [apply zlen_nonneg|]. etrans; [exact Hlp|]. apply blocks_le; [apply Ho|done]. }
  pose proof (proj1 (blocks_le (input_mtu (pb s)) _ (proj1 Ho)) (Z.le_refl _)).
  rewrite (proj2 (Z.leb_le (input_mtu (pb s)) (input_avail (buf (pb s))))) in * by lia. by apply Hs.
Qed.

(** C33: The packet buffer is a FIFO queue.  For every interleaving of the input
    writing into the place it was given, the input finishing packets and the output
    finishing sends, on the one circular memory: no assertion of the buffer or of
    the interfaces fails; the packets go out in the order and with the contents they
    came in; the packet being sent is the oldest one not yet sent and its bytes are
    in place for as long as it is being sent, whatever is written meanwhile; the
    output is busy whenever a packet is waiting; and the input is enabled whenever
    fewer than [num_packets] packets are waiting.  Initialisation fails only by its
    return value.  (Assumes that the buffer has at most [INT_MAX] bytes: the count
    of available bytes is an [int].) *)
Theorem packet_buffer_fifo in_mtu omtu num mem :
  0 ≤ in_mtu ≤ omtu → 0 < num → mem_ok mem → 4 * calc_blocks in_mtu num ≤ INT_MAX →
  boot in_mtu omtu num mem = Some None ∨
  ∃ s0, boot in_mtu omtu num mem = Some (Some s0) ∧ ∀ s, rtc sys_moves s0 s →
    (∀ e, enabled s e = true → is_Some (sys_step s e)) ∧
    (∃ q, ins s = outs s ++ q) ∧
    match tx s with
    | Some (d, l) => ins s !! length (outs s) = Some (read_at d l (memory s))
    | None => ins s = outs s
    end ∧
    (zlen (ins s) - zlen (outs s) < num → is_Some (rx s)).
Proof.
  intros Hm Hn Hmem Hi. destruct (boot_ok in_mtu omtu num mem Hm Hn Hmem Hi) as [?|(s0 & E & H0 & _ & _)]; [by left|].
  right. exists s0. split; [done|]. intros s Hr. pose proof (sys_reach_inv num s0 s H0 Hr) as H. split.
  { intros e He. destruct (sys_step_ok num s e H He) as (s' & -> & _). eauto. }
  split_and!; [|by eapply sys_inv_tx|by eapply sys_inv_room]. destruct H as (q & _ & -> & _). eauto.
Qed.

(** *** Example: packets of up to 6 bytes, room for two of them *)
Fixpoint drive (es : list ev) (s : sys) : option sys :=
  match es with
  | [] => Some s
  | e :: es => if enabled s e then s ← sys_step s e; drive es s else None
  end.
Lemma drive_reaches es s s' : drive es s = Some s' → rtc sys_moves s s'.
Proof.
  revert s. induction es as [|e es IH]; simpl; intros s; [by intros [= ->]; constructor|].
  destruct (enabled s e) eqn:He; [|done]. destruct (sys_step s e) as [s1|] eqn:E; [|done]. simpl. intros H.
  eapply rtc_l; [by exists e|]. by apply IH.
Qed.
Definition ex_events : list ev :=
  [EWrite [1; 2; 3; 4; 5; 6]; EIn 6; EWrite [7; 8]; EWrite [9]; EIn 2; EOut; EWrite [10; 11; 12; 13; 14]; EIn 5;
   EOut; EWrite [15]; EIn 1; EWrite [16; 17; 18]].
Definition drive_from (r : option (option sys)) : option sys :=
  match r with Some (Some s) => drive ex_events s | _ => None end.
Definition ex_final : option sys := drive_from (boot 6 8 2 alloc_zero).

Lemma ex_final_ok : (λ s, (ins s, outs s)) <$> ex_final =
  Some ([[1; 2; 3; 4; 5; 6]; [9; 8]; [10; 11; 12; 13; 14]; [15]], [[1; 2; 3; 4; 5; 6]; [9; 8]]).
Proof. vm_compute. reflexivity. Qed.
Lemma ex_boots : bool_decide (is_Some (boot 6 8 2 alloc_zero ≫= id)) = true.
Proof. vm_compute. reflexivity. Qed.
Lemma drive_from_reaches r s0 s : r = Some (Some s0) → drive_from r = Some s → rtc sys_moves s0 s.
Proof. intros -> H. exact (drive_reaches ex_events s0 s H). Qed.
Lemma ex_reached s0 s : boot 6 8 2 alloc_zero = Some (Some s0) → ex_final = Some s → rtc sys_moves s0 s.
Proof. unfold ex_final. apply drive_from_reaches. Qed.

Lemma packet_buffer_fifo_witness :
  match ex_final with
  | Some s =>
      ins s = [[1; 2; 3; 4; 5; 6]; [9; 8]; [10; 11; 12; 13; 14]; [15]] ∧ outs s = [[1; 2; 3; 4; 5; 6]; [9; 8]] ∧
      match tx s with
      | Some (d, l) => ins s !! length (outs s) = Some (read_at d l (memory s))
      | None => ins s = outs s
      end
  | None => False
  end.
Proof.
  assert (Hm : mem_ok alloc_zero) by exact alloc_zero_ok.
  destruct (packet_buffer_fifo 6 8 2 alloc_zero ltac:(lia) ltac:(lia) Hm ltac:(vm_compute; discriminate)) as [E|(s0 & E & H)].
  { exfalso. pose proof ex_boots as Hb. rewrite E in Hb. discriminate Hb. }
  pose proof ex_final_ok as Hf. destruct ex_final as [s|] eqn:Es; [|discriminate Hf]. injection Hf as Hi Ho.
  split; [exact Hi|]. split; [exact Ho|]. apply (H s (ex_reached s0 s E Es)).
Defined.

End System.





