(* ===== verification/PacketProto.v ===== *)
(** * PacketProto framing: flow/PacketProtoEncoder.c, flow/PacketProtoDecoder.c
      and protocol/packetproto.h

    The encoder puts a 16-bit little-endian length in front of a packet; the
    decoder recovers the packets from a byte stream that arrives in pieces. *)
From stdpp Require Import base list numbers relations.
From Stdlib Require Import ZArith Lia.
From S2P Require Import Prelude ByteOrder.
#[local] Open Scope Z_scope.

Definition SIZEOF_packetproto_header : Z := 2.
Definition PACKETPROTO_ENCLEN (len : Z) : Z := SIZEOF_packetproto_header + len.
Definition PACKETPROTO_MAXPAYLOAD : Z := UINT16_MAX.

(** ** The encoder *)
Module PacketProtoEncoder.

(** [output_packet]: the packet buffer obtained from the receiver, or NULL. *)
Record t := mk { output_packet : option bytes }.
#[global] Instance eta : Eta t := λ r, mk (output_packet r).

Inductive act :=
| InputRecv (off : Z)          (** [PacketRecvInterface_Receiver_Recv(input, output_packet + off)] *)
| OutputDone (pkt : bytes).    (** [PacketRecvInterface_Done(&output, len)], with the packet written *)

Definition Init : t := mk None.

Definition output_handler_recv (data : bytes) : M t act () :=
  s ← get;
  ASSERT (negb (bool_decide (is_Some (output_packet s))));;
  modify (λ s, s <| output_packet := Some data |>);;
  emit (InputRecv SIZEOF_packetproto_header).

(** The input has written [in_len] bytes behind the header of [output_packet]. *)
Definition input_handler_done (in_len : Z) : M t act () :=
  s ← get;
  match output_packet s with
  | None => ASSERT false
  | Some data =>
      let data := write_at 0 (store16 (htol16 in_len)) data in
      modify (λ s, s <| output_packet := None |>);;
      emit (OutputDone (take (Z.to_nat (PACKETPROTO_ENCLEN in_len)) data))
  end.

(** The environment's side of a receive: the payload lands behind the header. *)
Definition payload_arrives (payload : bytes) : M t act () :=
  modify (λ s, s <| output_packet ::= fmap (write_at SIZEOF_packetproto_header payload) |>).

End PacketProtoEncoder.

(** ** The decoder *)
Module PacketProtoDecoder.

Record t := mk {
  output_mtu : Z; buf_size : Z; buf_start : Z; buf_used : Z; buf : bytes
}.
#[global] Instance eta : Eta t := λ r,
  mk (output_mtu r) (buf_size r) (buf_start r) (buf_used r) (buf r).

Inductive act :=
| Send (off : Z) (data : bytes)  (** [PacketPassInterface_Sender_Send(output, buf + off, data_len)]; [data] is there *)
| Recv (off avail : Z)         (** [StreamRecvInterface_Receiver_Recv(input, buf + off, avail)] *)
| HandlerError.                (** [handler_error(user)] *)

(** The part of [process_data] after its block: no packet was submitted. *)
Definition request_input (was_error : bool) : M t act () :=
  (if was_error
   then modify (λ s, s <| buf_start := 0 |> <| buf_used := 0 |>)
   else
     s ← get;
     when (buf_start s + buf_used s =? buf_size s)
       (modify (λ s, s <| buf := write_at 0 (read_at (buf_start s) (buf_used s) (buf s)) (buf s) |>
                       <| buf_start := 0 |>)));;
  s ← get;
  emit (Recv (buf_start s + buf_used s) (buf_size s - (buf_start s + buf_used s)));;
  when was_error (emit HandlerError).

Definition process_data : M t act () :=
  s ← get;
  let data := buf_start s in
  let left := buf_used s in
  let was_error :=
    if left <? SIZEOF_packetproto_header then Some false
    else
      let data_len := ltoh16 (load16 (buf s) data) in
      if output_mtu s <? data_len then Some true
      else if left - SIZEOF_packetproto_header <? data_len then Some false
      else None in
  match was_error with
  | None =>
      let data_len := ltoh16 (load16 (buf s) data) in
      modify (λ s, s <| buf_start := buf_start s + (SIZEOF_packetproto_header + data_len) |>
                     <| buf_used := buf_used s - (SIZEOF_packetproto_header + data_len) |>);;
      emit (Send (data + SIZEOF_packetproto_header) (read_at (data + SIZEOF_packetproto_header) data_len (buf s)))
  | Some was_error => request_input was_error
  end.

Definition input_handler_done (data_len : Z) : M t act () :=
  s ← get;
  ASSERT (0 <? data_len);;
  ASSERT (data_len <=? buf_size s - (buf_start s + buf_used s));;
  modify (λ s, s <| buf_used := buf_used s + data_len |>);;
  process_data.

Definition output_handler_done : M t act () := process_data.

(** [mtu] is the MTU of the output interface and [mem] the allocated buffer;
    [None] models a failed [malloc]. *)
Definition Init (mtu : Z) (mem : Z → option bytes) : option (t * list act) :=
  let output_mtu := Z.min mtu PACKETPROTO_MAXPAYLOAD in
  let buf_size := PACKETPROTO_ENCLEN output_mtu in
  match mem buf_size with
  | None => None
  | Some b =>
      Some (mk output_mtu buf_size 0 0 b, [Recv 0 buf_size])
  end.

Definition Reset : M t act () :=
  modify (λ s, s <| buf_start := buf_start s + buf_used s |> <| buf_used := 0 |>).

End PacketProtoDecoder.

(** ** Specification: framing of a list of packets *)

Definition frame (p : bytes) : bytes := store16 (htol16 (zlen p)) ++ p.
Definition frames (ps : list bytes) : bytes := mjoin (frame <$> ps).

(** What is at the head of a byte stream, for packets of at most [mtu] bytes. *)
Inductive stream_head :=
| Incomplete
| TooLarge
| Packet (p rest : bytes).

Definition decode_head (mtu : Z) (l : bytes) : stream_head :=
  if zlen l <? 2 then Incomplete
  else
    let n := load16 l 0 in
    if mtu <? n then TooLarge
    else if zlen l - 2 <? n then Incomplete
    else Packet (read_at 2 n l) (drop (Z.to_nat (2 + n)) l).

Lemma frame_length p : zlen (frame p) = 2 + zlen p.
Proof. unfold frame. by rewrite zlen_app. Qed.

Lemma frames_app ps qs : frames (ps ++ qs) = frames ps ++ frames qs.
Proof. unfold frames. by rewrite fmap_app, join_app. Qed.

Lemma frames_snoc ps p : frames (ps ++ [p]) = frames ps ++ frame p.
Proof. rewrite frames_app. unfold frames at 2. simpl. by rewrite app_nil_r. Qed.

Lemma frame_load p rest : zlen p ≤ PACKETPROTO_MAXPAYLOAD →
  load16 (frame p ++ rest) 0 = zlen p.
Proof.
  intros H. pose proof (zlen_nonneg p). unfold PACKETPROTO_MAXPAYLOAD, UINT16_MAX in H.
  unfold frame. rewrite <- app_assoc, load16_app_l by (unfold zlen; simpl; lia).
  unfold htol16. rewrite u16_id by (unfold is_u16; lia).
  apply load16_store16. unfold is_u16; lia.
Qed.

(** A frame at the head is recognised... *)
Lemma decode_head_frame mtu p rest :
  zlen p ≤ mtu → mtu ≤ PACKETPROTO_MAXPAYLOAD →
  decode_head mtu (frame p ++ rest) = Packet p rest.
Proof.
  intros Hp Hm. pose proof (zlen_nonneg p). pose proof (zlen_nonneg rest). unfold decode_head.
  rewrite frame_load by lia. rewrite zlen_app, frame_length.
  destruct (Z.ltb_spec (2 + zlen p + zlen rest) 2); [lia|].
  destruct (Z.ltb_spec mtu (zlen p)); [lia|].
  destruct (Z.ltb_spec (2 + zlen p + zlen rest - 2) (zlen p)); [lia|].
  f_equal.
  - unfold read_at, frame. rewrite <- app_assoc.
    rewrite drop_app_length' by reflexivity. rewrite take_app_length'; [done|].
    unfold zlen. lia.
  - rewrite drop_app_length'; [done|]. pose proof (frame_length p). unfold zlen in *. lia.
Qed.

(** ... and what is recognised is a frame. *)
Lemma decode_head_Packet mtu l p rest : bytes_ok l →
  decode_head mtu l = Packet p rest → l = frame p ++ rest ∧ zlen p ≤ mtu.
Proof.
  intros Hl. unfold decode_head.
  destruct (Z.ltb_spec (zlen l) 2); [done|].
  pose proof (load16_range l 0 Hl) as Hr. unfold is_u16 in Hr.
  destruct (Z.ltb_spec mtu (load16 l 0)); [done|].
  destruct (Z.ltb_spec (zlen l - 2) (load16 l 0)); [done|].
  intros [= <- <-]. rewrite zlen_read_at by lia. split; [|lia].
  unfold frame. rewrite zlen_read_at by lia. unfold htol16. rewrite u16_id by done.
  destruct l as [|a [|b l]]; [by unfold zlen in *; simpl in *; lia..|].
  rewrite (store16_load16 _ _ a b) by done.
  unfold read_at. rewrite Z2Nat.inj_add by lia. simpl. by rewrite take_drop.
Qed.

Lemma frames_decode_nil mtu ps : mtu ≤ PACKETPROTO_MAXPAYLOAD →
  Forall (λ p, zlen p ≤ mtu) ps → decode_head mtu (frames ps) = Incomplete → ps = [].
Proof.
  intros Hm. destruct 1 as [|p ps Hp _]; [done|].
  change (frames (p :: ps)) with (frame p ++ frames ps).
  by rewrite decode_head_frame by lia.
Qed.

(** Framing is uniquely decodable. *)
Lemma frames_prefix mtu ps qs rest : mtu ≤ PACKETPROTO_MAXPAYLOAD →
  Forall (λ p, zlen p ≤ mtu) ps → Forall (λ p, zlen p ≤ mtu) qs →
  frames qs = frames ps ++ rest → ∃ qs', qs = ps ++ qs' ∧ frames qs' = rest.
Proof.
  intros Hm Hps. revert qs. induction Hps as [|p ps Hp Hps IH]; intros qs Hqs E.
  { exists qs. done. }
  change (frames (p :: ps)) with (frame p ++ frames ps) in E. rewrite <- app_assoc in E.
  destruct Hqs as [|q qs Hq Hqs].
  { apply (f_equal zlen) in E. rewrite zlen_app, frame_length in E.
    pose proof (zlen_nonneg p). pose proof (zlen_nonneg (frames ps ++ rest)).
    change (zlen (frames [])) with 0 in E. lia. }
  change (frames (q :: qs)) with (frame q ++ frames qs) in E.
  pose proof (f_equal (decode_head mtu) E) as D. rewrite !decode_head_frame in D by lia.
  injection D as -> E'. destruct (IH qs Hqs E') as (qs' & -> & Hr). by exists qs'.
Qed.

(** ** The encoder meets the specification *)

Lemma encoder_frame payload rest :
  zlen payload ≤ PACKETPROTO_MAXPAYLOAD → zlen payload + 2 ≤ zlen rest →
  wp (PacketProtoEncoder.output_handler_recv rest;;
      PacketProtoEncoder.payload_arrives payload;;
      PacketProtoEncoder.input_handler_done (zlen payload)) PacketProtoEncoder.Init
    (λ _ s' acts, s' = PacketProtoEncoder.Init ∧
       acts = [PacketProtoEncoder.InputRecv 2; PacketProtoEncoder.OutputDone (frame payload)]).
Proof.
  intros Hp Hr. pose proof (zlen_nonneg payload).
  unfold wp. cbn. split; [done|]. do 2 f_equal. f_equal.
  unfold PACKETPROTO_ENCLEN, SIZEOF_packetproto_header, write_at.
  unfold zlen in *. destruct rest as [|a [|b rest]]; [by simpl in *; lia..|].
  cbn -[htol16 take drop]. change (Z.to_nat 2) with 2%nat. simpl (take 2 _). simpl.
  rewrite Z2Nat.inj_add by lia. simpl. rewrite Nat2Z.id, drop_0, take_app_length. done.
Qed.

(** ** The decoder against the specification *)

Section Decoder.
Import PacketProtoDecoder.

(** The bytes received and not yet decoded. *)
Definition pending (s : t) : bytes := read_at (buf_start s) (buf_used s) (buf s).

Record dec_ok (s : t) : Prop := {
  dok_mtu : 0 ≤ output_mtu s ≤ PACKETPROTO_MAXPAYLOAD;
  dok_size : buf_size s = 2 + output_mtu s;
  dok_buf : zlen (buf s) = buf_size s;
  dok_bytes : bytes_ok (buf s);
  dok_start : 0 ≤ buf_start s;
  dok_used : 0 ≤ buf_used s;
  dok_end : buf_start s + buf_used s ≤ buf_size s
}.

Lemma pending_len s : dec_ok s → zlen (pending s) = buf_used s.
Proof. intros []. unfold pending. apply zlen_read_at; lia. Qed.

Lemma pending_load s : dec_ok s → 2 ≤ buf_used s →
  load16 (buf s) (buf_start s) = load16 (pending s) 0.
Proof. intros [] ?. unfold pending. rewrite load16_read_at by lia. f_equal. lia. Qed.

(** More input is requested behind the pending bytes, which may be moved to
    the front of the buffer first. *)
Lemma request_input_spec s : dec_ok s → buf_used s < buf_size s →
  wp (request_input false) s (λ _ s' acts, dec_ok s' ∧ output_mtu s' = output_mtu s ∧
    ∃ off avail, acts = [Recv off avail] ∧ pending s' = pending s ∧
      off = buf_start s' + buf_used s' ∧ avail = buf_size s' - off ∧ 0 < avail).
Proof.
  intros Hok Hlt. pose proof (pending_len s Hok) as Hlen.
  destruct Hok as [Hm Hsz Hb Hby Hst Hus He]. unfold request_input.
  repeat (wp_step || simpl); simpl in *; bool_prop.
  - split_and!; [split; simpl; auto; try lia|done|].
    + rewrite zlen_write_at; [done|lia|]. rewrite zlen_read_at by lia. lia.
    + unfold write_at. simpl. apply bytes_ok_app; auto with badvpn.
    + do 2 eexists. split_and!; [done| |done..|lia].
      unfold pending. simpl. rewrite <- Hlen at 1.
      apply read_at_write_at; [lia|]. fold (pending s). rewrite Hlen. lia.
  - split_and!; [by split|done|]. do 2 eexists. split_and!; [done..|lia].
Qed.

(** [process_data] acts on the head of the pending bytes: it passes on a
    complete packet, reports a length above the MTU, or asks for more input,
    always with room for at least one byte. *)
Lemma process_data_spec s : dec_ok s →
  wp process_data s (λ _ s' acts, dec_ok s' ∧ output_mtu s' = output_mtu s ∧
    match decode_head (output_mtu s) (pending s) with
    | Packet p rest => ∃ off, acts = [Send off p] ∧ pending s' = rest ∧ read_at off (zlen p) (buf s') = p
    | Incomplete => ∃ off avail, acts = [Recv off avail] ∧ pending s' = pending s ∧
        off = buf_start s' + buf_used s' ∧ avail = buf_size s' - off ∧ 0 < avail
    | TooLarge => acts = [Recv 0 (buf_size s'); HandlerError] ∧ pending s' = []
    end).
Proof.
  intros Hok. pose proof (pending_len s Hok) as Hlen. pose proof (pending_load s Hok) as Hload.
  assert (0 ≤ load16 (pending s) 0 < 2 ^ 16) as Hr.
  { apply load16_range. apply bytes_ok_read_at, Hok. }
  unfold process_data, decode_head, SIZEOF_packetproto_header, ltoh16, htol16.
  rewrite Hlen. wp_step. wp_step.
  destruct (Z.ltb_spec (buf_used s) 2) as [Hs|Hs].
  { apply request_input_spec; [done|]. destruct Hok. lia. }
  rewrite Hload, u16_id by (done || lia).
  set (n := load16 (pending s) 0) in *.
  destruct (Z.ltb_spec (output_mtu s) n).
  { destruct Hok. unfold request_input. repeat (wp_step || simpl).
    split_and!; [split; simpl; auto; lia|done|do 2 f_equal; lia|done]. }
  destruct (Z.ltb_spec (buf_used s - 2) n).
  { apply request_input_spec; [done|]. destruct Hok. lia. }
  destruct Hok as [Hm Hsz Hb Hby Hst Hus He].
  repeat (wp_step || simpl). split_and!; [split; simpl; auto; lia|done|].
  eexists. split_and!.
  - do 2 f_equal. unfold pending. by rewrite read_at_read_at by lia.
  - unfold pending. simpl. rewrite drop_read_at by lia. f_equal; lia.
  - unfold pending. rewrite read_at_read_at, zlen_read_at by lia. done.
Qed.

(** *** Runs of the decoder *)

(** What the decoder waits for: input written at [off], the output to finish
    with a packet, or nothing more after it reported an error. *)
Inductive wait := WaitRecv (off avail : Z) | WaitSend | Failed.

Definition after (acts : list act) (w : wait) : wait :=
  foldl (λ w a, match a with
    | Send _ _ => WaitSend | Recv off avail => WaitRecv off avail | HandlerError => Failed
    end) w acts.
Definition sends (acts : list act) : list bytes :=
  omap (λ a, match a with Send _ p => Some p | _ => None end) acts.

(** A decoder with the bytes its input delivered and the packets it passed on. *)
Record run := mk_run { dec : t; waiting : wait; delivered : bytes; passed : list bytes }.

(** The environment answers an outstanding request: the stream writes a
    nonempty piece of at most the requested size at the requested place, or
    the output finishes with a packet. *)
Inductive run_step : run → run → Prop :=
| step_deliver d off avail data del pas d' acts :
    bytes_ok data → 0 < zlen data ≤ avail →
    input_handler_done (zlen data) (d <| buf := write_at off data (buf d) |>) = Some ((), d', acts) →
    run_step (mk_run d (WaitRecv off avail) del pas)
             (mk_run d' (after acts (WaitRecv off avail)) (del ++ data) (pas ++ sends acts))
| step_sent d del pas d' acts :
    output_handler_done d = Some ((), d', acts) →
    run_step (mk_run d WaitSend del pas) (mk_run d' (after acts WaitSend) del (pas ++ sends acts)).

Definition run_ok (mtu : Z) (r : run) : Prop :=
  dec_ok (dec r) ∧ output_mtu (dec r) = mtu ∧ Forall (λ p, zlen p ≤ mtu) (passed r) ∧
  match waiting r with
  | WaitRecv off avail =>
      off = buf_start (dec r) + buf_used (dec r) ∧ avail = buf_size (dec r) - off ∧ 0 < avail ∧
      delivered r = frames (passed r) ++ pending (dec r) ∧
      decode_head mtu (pending (dec r)) = Incomplete
  | WaitSend => delivered r = frames (passed r) ++ pending (dec r)
  | Failed => ∃ bad, delivered r = frames (passed r) ++ bad ∧ decode_head mtu bad = TooLarge
  end.

(** Writing behind the pending bytes appends to them. *)
Lemma pending_deliver d off data :
  dec_ok d → bytes_ok data → off = buf_start d + buf_used d → zlen data ≤ buf_size d - off →
  let d' := d <| buf := write_at off data (buf d) |> <| buf_used := buf_used d + zlen data |> in
  dec_ok d' ∧ pending d' = pending d ++ data.
Proof.
  intros [Hm Hsz Hb Hby Hst Hus He] Hd -> Hl. pose proof (zlen_nonneg data). split.
  - split; simpl; auto; try lia.
    + rewrite zlen_write_at; lia.
    + unfold write_at. auto with badvpn.
  - unfold pending. simpl. rewrite read_at_app by lia.
    rewrite read_at_write_at_before by lia. by rewrite read_at_write_at by lia.
Qed.

Lemma run_ok_process mtu d d' w del pas acts :
  dec_ok d → output_mtu d = mtu → Forall (λ p, zlen p ≤ mtu) pas →
  del = frames pas ++ pending d → process_data d = Some ((), d', acts) →
  run_ok mtu (mk_run d' (after acts w) del (pas ++ sends acts)).
Proof.
  intros Hok Hm Hps -> E. pose proof (process_data_spec d Hok) as Hw.
  unfold wp in Hw. rewrite E in Hw. rewrite Hm in Hw. destruct Hw as (Hok' & Hm' & Hw).
  unfold run_ok. simpl. split_and!; [done|congruence| |].
  - apply Forall_app. split; [done|].
    destruct (decode_head mtu (pending d)) eqn:Ed.
    + by destruct Hw as (off & avail & -> & _).
    + by destruct Hw as [-> _].
    + destruct Hw as (off & -> & _). constructor; [|constructor].
      eapply decode_head_Packet; [|exact Ed]. apply bytes_ok_read_at, Hok.
  - destruct (decode_head mtu (pending d)) eqn:Ed.
    + destruct Hw as (off & avail & -> & Hp & -> & -> & ?). simpl.
      rewrite app_nil_r, Hp. done.
    + destruct Hw as [-> _]. simpl. rewrite app_nil_r. by exists (pending d).
    + destruct Hw as (off & -> & <- & _). simpl. rewrite frames_snoc, <- app_assoc. f_equal.
      apply (decode_head_Packet mtu); [|done]. apply bytes_ok_read_at, Hok.
Qed.

Lemma dec_step_ok mtu r r' : run_ok mtu r → run_step r r' → run_ok mtu r'.
Proof.
  intros Hr Hs. destruct Hs as [d off avail data del pas d' acts Hd Hl E|d del pas d' acts E];
    destruct Hr as (Hok & Hm & Hps & Hw); simpl in *.
  - destruct Hw as (-> & -> & Hav & Hdel & _).
    destruct (pending_deliver d _ data Hok Hd eq_refl ltac:(lia)) as [Hok' Hp].
    unfold input_handler_done, mbind, M_bind, get, ASSERT, modify in E. simpl in E.
    destruct (0 <? zlen data) eqn:E1; [|discriminate E].
    destruct (zlen data <=? _) eqn:E2 in E; [|discriminate E]. simpl in E.
    destruct (process_data _) as [[[[] d2] acts2]|] eqn:E3 in E; [|discriminate E].
    simpl in E. injection E as <- <-.
    eapply run_ok_process; [exact Hok'|done|done| |exact E3].
    rewrite Hp, Hdel. by rewrite app_assoc.
  - by eapply run_ok_process.
Qed.

(** A stream request can always be answered: no assertion of the decoder fails. *)
Lemma run_progress mtu r : run_ok mtu r →
  match waiting r with
  | WaitRecv off avail => ∀ data, bytes_ok data → 0 < zlen data ≤ avail → ∃ r', run_step r r'
  | WaitSend => ∃ r', run_step r r'
  | Failed => True
  end.
Proof.
  destruct r as [d w del pas]. intros (Hok & Hm & Hps & Hw). simpl in *.
  destruct w as [off avail| |]; [|..|done].
  - destruct Hw as (-> & -> & Hav & Hdel & _). intros data Hd Hl.
    destruct (pending_deliver d _ data Hok Hd eq_refl ltac:(lia)) as [Hok' Hp].
    apply process_data_spec, wp_some in Hok' as ([] & d' & acts & E & _).
    eexists. eapply step_deliver; [done|done|].
    unfold input_handler_done, mbind, M_bind, get, ASSERT, modify. simpl.
    destruct (Z.ltb_spec 0 (zlen data)); [|lia].
    destruct (Z.leb_spec (zlen data) (buf_size d - (buf_start d + buf_used d))); [|lia].
    simpl. simpl in E. rewrite E. reflexivity.
  - apply process_data_spec, wp_some in Hok as ([] & d' & acts & E & _).
    eexists. by eapply step_sent.
Qed.

(** The run that [Init] starts: the decoder has asked for its first input. *)
Definition started (d : t) (acts : list act) : run := mk_run d (after acts Failed) [] [].

Lemma Init_ok mtu mem d acts : 0 ≤ mtu →
  mem_ok mem →
  Init mtu mem = Some (d, acts) → run_ok (Z.min mtu PACKETPROTO_MAXPAYLOAD) (started d acts).
Proof.
  intros Hm Hmem. unfold Init, PACKETPROTO_ENCLEN, PACKETPROTO_MAXPAYLOAD, UINT16_MAX,
    SIZEOF_packetproto_header.
  destruct (mem _) as [b|] eqn:E; [|done]. apply Hmem in E as [Hb Hl]. intros [= <- <-].
  unfold run_ok, started. simpl. split_and!; try done; try lia.
  split; simpl; unfold PACKETPROTO_MAXPAYLOAD, UINT16_MAX; auto; lia.
Qed.

Lemma dec_runs_ok mtu r r' : run_ok mtu r → rtc run_step r r' → run_ok mtu r'.
Proof. intros H Hs. induction Hs; eauto using dec_step_ok. Qed.
End Decoder.

(** ** Properties *)

(** A decoder of MTU [m], started by [Init] and fed the framing of the
    packets [ps] (each of at most [m] bytes) in any pieces, has passed on
    exactly [ps], in order and unchanged, once all bytes are delivered and it
    waits for input again. *)
Theorem decoder_stream mtu mem d acts ps r :
  0 ≤ mtu → mem_ok mem →
  PacketProtoDecoder.Init mtu mem = Some (d, acts) →
  Forall (λ p, zlen p ≤ Z.min mtu PACKETPROTO_MAXPAYLOAD) ps →
  rtc run_step (started d acts) r → delivered r = frames ps →
  (∃ off avail, waiting r = WaitRecv off avail) →
  passed r = ps.
Proof.
  intros Hm Hmem HI Hps Hr Hdel (off & avail & Hw).
  pose proof (dec_runs_ok _ _ _ (Init_ok _ _ _ _ Hm Hmem HI) Hr) as (Hok & Hmtu & Hpas & H).
  rewrite Hw in H. destruct H as (_ & _ & _ & E & Hinc). rewrite Hdel in E.
  destruct (frames_prefix _ _ _ _ (Z.le_min_r _ _) Hpas Hps E) as (qs & -> & Eq).
  rewrite <- Eq in Hinc. apply Forall_app in Hps as [_ Hqs].
  apply frames_decode_nil in Hinc as ->; [by rewrite app_nil_r|apply Z.le_min_r|done].
Qed.

(** At every point of a run, whatever the stream contains and however it is
    cut, the packets passed on are a decoding of a prefix of the delivered
    bytes, no packet exceeds the MTU, a stream request is always for a
    nonempty region inside the buffer, and an error is reported only when the
    next length field exceeds the MTU. *)
Theorem decoder_invariant mtu mem d acts r :
  0 ≤ mtu → mem_ok mem →
  PacketProtoDecoder.Init mtu mem = Some (d, acts) →
  rtc run_step (started d acts) r →
  Forall (λ p, zlen p ≤ mtu) (passed r) ∧
  (∃ rest, delivered r = frames (passed r) ++ rest ∧
     (waiting r = Failed → decode_head (Z.min mtu PACKETPROTO_MAXPAYLOAD) rest = TooLarge)) ∧
  (∀ off avail, waiting r = WaitRecv off avail →
     0 ≤ off ∧ 0 < avail ∧ off + avail ≤ zlen (PacketProtoDecoder.buf (dec r))).
Proof.
  intros Hm Hmem HI Hr.
  pose proof (dec_runs_ok _ _ _ (Init_ok _ _ _ _ Hm Hmem HI) Hr) as (Hok & Hmtu & Hpas & H).
  split_and!.
  - eapply Forall_impl; [exact Hpas|]. simpl. lia.
  - destruct (waiting r) as [off avail| |] eqn:Ew.
    + destruct H as (_ & _ & _ & E & _). by eexists.
    + by eexists.
    + destruct H as (bad & E & Eb). by eexists.
  - intros off avail Ew. rewrite Ew in H. destruct H as (-> & -> & Hav & _).
    destruct Hok. lia.
Qed.

(** The decoder cannot get stuck: whenever it waits, every answer of its
    environment (any nonempty piece that fits the request, or the completion
    of the output) is processed without violating an assertion. *)
Theorem decoder_progress mtu mem d acts r :
  0 ≤ mtu → mem_ok mem →
  PacketProtoDecoder.Init mtu mem = Some (d, acts) →
  rtc run_step (started d acts) r →
  match waiting r with
  | WaitRecv off avail => ∀ data, bytes_ok data → 0 < zlen data ≤ avail → ∃ r', run_step r r'
  | WaitSend => ∃ r', run_step r r'
  | Failed => True
  end.
Proof.
  intros Hm Hmem HI Hr. eapply run_progress, dec_runs_ok; [|exact Hr]. by eapply Init_ok.
Qed.

(** The encoder turns a packet buffer and a payload of at most
    [PACKETPROTO_MAXPAYLOAD] bytes into exactly the frame the decoder
    recognises: decoding its output gives the payload back. *)
Theorem encoder_decoder_roundtrip payload mem rest :
  zlen payload ≤ PACKETPROTO_MAXPAYLOAD → zlen payload + 2 ≤ zlen mem →
  wp (PacketProtoEncoder.output_handler_recv mem;;
      PacketProtoEncoder.payload_arrives payload;;
      PacketProtoEncoder.input_handler_done (zlen payload)) PacketProtoEncoder.Init
    (λ _ s' acts, ∃ pkt, s' = PacketProtoEncoder.Init ∧
       acts = [PacketProtoEncoder.InputRecv 2; PacketProtoEncoder.OutputDone pkt] ∧
       zlen pkt = PACKETPROTO_ENCLEN (zlen payload) ∧
       decode_head PACKETPROTO_MAXPAYLOAD (pkt ++ rest) = Packet payload rest).
Proof.
  intros Hp Hm. eapply wp_mono; [by apply encoder_frame|].
  intros _ s' acts [-> ->]. exists (frame payload). split_and!; [done..| |].
  - apply frame_length.
  - apply decode_head_frame; [done|reflexivity].
Qed.

(** *** Witnesses *)

(** An executable environment: it delivers the given pieces and completes
    every send. *)
Fixpoint drive (fuel : nat) (r : run) (pieces : list bytes) : option run :=
  match fuel with
  | O => None
  | S fuel =>
      match waiting r, pieces with
      | WaitSend, _ =>
          match PacketProtoDecoder.output_handler_done (dec r) with
          | Some ((), d', acts) =>
              drive fuel (mk_run d' (after acts WaitSend) (delivered r) (passed r ++ sends acts)) pieces
          | None => None
          end
      | WaitRecv off avail, data :: pieces =>
          if bool_decide (bytes_ok data) && (0 <? zlen data) && (zlen data <=? avail) then
            match PacketProtoDecoder.input_handler_done (zlen data)
                    (dec r <| PacketProtoDecoder.buf := write_at off data (PacketProtoDecoder.buf (dec r)) |>) with
            | Some ((), d', acts) =>
                drive fuel (mk_run d' (after acts (WaitRecv off avail))
                              (delivered r ++ data) (passed r ++ sends acts)) pieces
            | None => None
            end
          else None
      | _, _ => Some r
      end
  end.

Lemma dec_drive_rtc fuel r pieces r' : drive fuel r pieces = Some r' → rtc run_step r r'.
Proof.
  revert r pieces. induction fuel as [|fuel IH]; intros [d w del pas] pieces H; [done|].
  simpl in H. destruct w as [off avail| |]; [|..|by injection H as <-].
  - destruct pieces as [|data pieces]; [by injection H as <-|].
    destruct (_ && _) eqn:E; [|done]. bool_prop. apply bool_decide_eq_true in H0.
    destruct (PacketProtoDecoder.input_handler_done _ _) as [[[[] d'] acts]|] eqn:E; [|done].
    eapply rtc_l; [|by eapply IH]. by apply step_deliver.
  - destruct (PacketProtoDecoder.output_handler_done d) as [[[[] d'] acts]|] eqn:E; [|done].
    eapply rtc_l; [|by eapply IH]. by apply step_sent.
Qed.

(** Two packets (one empty) that arrive in three pieces at a decoder of MTU 3. *)
Definition ex_dec : PacketProtoDecoder.t := PacketProtoDecoder.mk 3 5 0 0 [0;0;0;0;0].
Definition ex_run : run :=
  default (started ex_dec [])
    (drive 20 (started ex_dec [PacketProtoDecoder.Recv 0 5]) [[2;0;7]; [8;0]; [0]]).

Lemma dec_ex_run_reached : rtc run_step (started ex_dec [PacketProtoDecoder.Recv 0 5]) ex_run.
Proof. apply (dec_drive_rtc 20 _ [[2;0;7]; [8;0]; [0]]). vm_compute. reflexivity. Qed.

Lemma decoder_stream_witness : passed ex_run = [[7;8]; []].
Proof.
  apply (decoder_stream 3 alloc_zero ex_dec [PacketProtoDecoder.Recv 0 5] [[7;8]; []] ex_run).
  - lia.
  - apply alloc_zero_ok.
  - reflexivity.
  - apply (bool_decide_unpack _). vm_compute. exact I.
  - apply dec_ex_run_reached.
  - vm_compute. reflexivity.
  - exists 2, 3. vm_compute. reflexivity.
Defined.

Lemma decoder_invariant_witness :
  Forall (λ p, zlen p ≤ 3) (passed ex_run).
Proof.
  apply (decoder_invariant 3 alloc_zero ex_dec [PacketProtoDecoder.Recv 0 5] ex_run).
  - lia.
  - apply alloc_zero_ok.
  - reflexivity.
  - apply dec_ex_run_reached.
Defined.

Lemma decoder_progress_witness : ∃ r', run_step ex_run r'.
Proof.
  pose proof (decoder_progress 3 alloc_zero ex_dec [PacketProtoDecoder.Recv 0 5] ex_run
    ltac:(lia) alloc_zero_ok eq_refl dec_ex_run_reached) as H.
  assert (waiting ex_run = WaitRecv 2 3) as E by (vm_compute; reflexivity).
  rewrite E in H. apply (H [1]); [repeat constructor; unfold is_u8; lia|unfold zlen; simpl; lia].
Defined.

Lemma encoder_decoder_roundtrip_witness :
  zlen [4;5] = 2 ∧
  wp (PacketProtoEncoder.output_handler_recv [0;0;0;0];;
      PacketProtoEncoder.payload_arrives [4;5];;
      PacketProtoEncoder.input_handler_done 2) PacketProtoEncoder.Init
    (λ _ s' acts, ∃ pkt, s' = PacketProtoEncoder.Init ∧
       acts = [PacketProtoEncoder.InputRecv 2; PacketProtoEncoder.OutputDone pkt] ∧
       zlen pkt = 4 ∧ decode_head PACKETPROTO_MAXPAYLOAD (pkt ++ [9]) = Packet [4;5] [9]).
Proof.
  split; [reflexivity|].
  apply (encoder_decoder_roundtrip [4;5] [0;0;0;0] [9]); vm_compute; discriminate.
Defined.
