(* ===== verification/SendPath.v ===== *)
(** * The sending path of the udpgw client: flowextra/PacketPassInactivityMonitor.c,
      flow/PacketPassConnector.c and flow/PacketStreamSender.c

    Packets go through a monitor, which notices when nothing is sent, and a
    connector, whose output comes and goes with the connection to the server; on a
    connection, a stream sender writes the packet to the stream in the pieces the
    stream accepts.  The components are joined by the interfaces of Interfaces.v.
    The memory the pointers refer to is that of the packet being sent. *)
From stdpp Require Import base list numbers option relations.
From Stdlib Require Import ZArith Lia.
From S2P Require Import Prelude Interfaces.
#[local] Open Scope Z_scope.

(** ** The connector *)
Module PacketPassConnector.

(** [output] is whether there is an output. *)
Record t := mk_t { input_mtu : Z; in_len : Z; in_ : Z; output : bool }.
#[global] Instance eta : Eta t := λ o, mk_t (input_mtu o) (in_len o) (in_ o) (output o).

Inductive act :=
| InputDone                     (** [PacketPassInterface_Done(&o->input)] *)
| OutputInit                    (** [PacketPassInterface_Sender_Init(o->output, ...)] *)
| OutputSend (data len : Z).    (** [PacketPassInterface_Sender_Send(o->output, data, len)] *)

Definition input_handler_send (data data_len : Z) : M t act () :=
  o ← get;
  ASSERT (0 <=? data_len);; ASSERT (data_len <=? input_mtu o);; ASSERT (in_len o =? -1);;
  modify (λ o, o <| in_len := data_len |> <| in_ := data |>);;
  when (output o) (emit (OutputSend data data_len)).

Definition output_handler_done : M t act () :=
  o ← get;
  ASSERT (0 <=? in_len o);; ASSERT (output o);;
  modify (λ o, o <| in_len := -1 |>);;
  emit InputDone.

(** The connector with its input interface.  The fields that are not initialised
    keep what was in memory. *)
Definition Init (mtu : Z) (junk : t) (input : PacketPassInterface.t) : option (t * PacketPassInterface.t) :=
  if 0 <=? mtu then
    input ← PacketPassInterface.Init mtu input;
    Some (junk <| input_mtu := mtu |> <| in_len := -1 |> <| output := false |>, input)
  else None.
Definition Free (input : PacketPassInterface.t) : option PacketPassInterface.t :=
  exec PacketPassInterface.Free input.

(** [out_mtu] is [PacketPassInterface_GetMTU(output)]. *)
Definition ConnectOutput (out_mtu : Z) : M t act () :=
  o ← get;
  ASSERT (negb (output o));; ASSERT (input_mtu o <=? out_mtu);;
  modify (λ o, o <| output := true |>);;
  emit OutputInit;;
  when (0 <=? in_len o) (emit (OutputSend (in_ o) (in_len o))).

Definition DisconnectOutput : M t act () :=
  o ← get; ASSERT (output o);; modify (λ o, o <| output := false |>).

End PacketPassConnector.

(** ** The stream sender *)
Module PacketStreamSender.

Record t := mk_t { in_len : Z; in_ : Z; in_used : Z }.
#[global] Instance eta : Eta t := λ s, mk_t (in_len s) (in_ s) (in_used s).

Inductive act :=
| InputDone                     (** [PacketPassInterface_Done(&s->input)] *)
| OutputSend (data len : Z).    (** [StreamPassInterface_Sender_Send(s->output, data, len)] *)

Definition send_data : M t act () :=
  s ← get;
  ASSERT (0 <=? in_len s);;
  if in_used s <? in_len s
  then emit (OutputSend (in_ s + in_used s) (in_len s - in_used s))
  else modify (λ s, s <| in_len := -1 |>);; emit InputDone.

Definition input_handler_send (data data_len : Z) : M t act () :=
  s ← get;
  ASSERT (in_len s =? -1);; ASSERT (0 <=? data_len);;
  modify (λ s, s <| in_len := data_len |> <| in_ := data |> <| in_used := 0 |>);;
  send_data.

Definition output_handler_done (data_len : Z) : M t act () :=
  s ← get;
  ASSERT (0 <=? in_len s);; ASSERT (0 <? data_len);; ASSERT (data_len <=? in_len s - in_used s);;
  modify (λ s, s <| in_used := in_used s + data_len |>);;
  send_data.

(** The sender with its input interface and the stream it uses. *)
Definition Init (mtu : Z) (junk : t) (input : PacketPassInterface.t) (output : StreamPassInterface.t) :
    option (t * PacketPassInterface.t * StreamPassInterface.t) :=
  if 0 <=? mtu then
    input ← PacketPassInterface.Init mtu input;
    output ← exec StreamPassInterface.Sender_Init output;
    Some (junk <| in_len := -1 |>, input, output)
  else None.
Definition Free (input : PacketPassInterface.t) : option PacketPassInterface.t :=
  exec PacketPassInterface.Free input.

End PacketStreamSender.

(** ** The monitor *)
Module PacketPassInactivityMonitor.

(** [timer] is the time the running timer was set for; [handler] is whether there is one. *)
Record t := mk_t { interval : Z; timer : option Z; handler : bool }.
#[global] Instance eta : Eta t := λ o, mk_t (interval o) (timer o) (handler o).

Inductive act :=
| OutputSend (data len : Z)     (** [PacketPassInterface_Sender_Send(o->output, data, len)] *)
| OutputRequestCancel           (** [PacketPassInterface_Sender_RequestCancel(o->output)] *)
| InputDone                     (** [PacketPassInterface_Done(&o->input)] *)
| Handler.                      (** [o->handler(o->user)] *)

(** [BReactor_SetTimer(o->reactor, &o->timer)] and [BReactor_RemoveTimer]. *)
Definition SetTimer : M t act () := modify (λ o, o <| timer := Some (interval o) |>).
Definition RemoveTimer : M t act () := modify (λ o, o <| timer := None |>).

Definition input_handler_send (data data_len : Z) : M t act () := emit (OutputSend data data_len);; RemoveTimer.
Definition input_handler_requestcancel : M t act () := emit OutputRequestCancel.
Definition output_handler_done : M t act () := SetTimer;; emit InputDone.
(** The reactor has stopped the timer that expired. *)
Definition timer_handler : M t act () := SetTimer;; o ← get; when (handler o) (emit Handler).

(** The monitor with its input interface and the output it uses; the input allows
    cancelling when the output does. *)
Definition Init (output : PacketPassInterface.t) (interval : Z) (handler : bool) (input : PacketPassInterface.t) :
    option (t * PacketPassInterface.t * PacketPassInterface.t) :=
  input ← PacketPassInterface.Init (PacketPassInterface.mtu output) input;
  input ← exec (when (PacketPassInterface.handler_requestcancel output) PacketPassInterface.EnableCancel) input;
  output ← exec PacketPassInterface.Sender_Init output;
  Some (mk_t interval (Some interval) handler, input, output).
Definition Free (o : t) (input : PacketPassInterface.t) : option (t * PacketPassInterface.t) :=
  o ← exec RemoveTimer o; input ← exec PacketPassInterface.Free input; Some (o, input).
Definition SetHandler (h : bool) : M t act () := modify (λ o, o <| handler := h |>).
Definition Force : M t act () := modify (λ o, o <| timer := Some 0 |>).

End PacketPassInactivityMonitor.

(** ** The whole path *)
Module SendPath.
Abbreviation ppi := PacketPassInterface.t.
Abbreviation spi := StreamPassInterface.t.

(** A connection to the server: the input of the stream sender, the sender, and the
    stream. *)
Record link := mk_link { cin : ppi; snd_ : PacketStreamSender.t; dout : spi }.
#[global] Instance eta_link : Eta link := λ l, mk_link (cin l) (snd_ l) (dout l).

(** [ain] and [bin] are the inputs of the monitor and the connector.  The rest of the fields
    are for the specification: [pkt] is the memory of the packet, [asked] are all
    packets given to the path, [finished] counts those reported as sent, [wire] is
    what the stream of the present connection has taken, [past] what those of
    earlier connections have taken, and [forced] is whether the timer was forced
    since a packet last entered or left. *)
Record t := mk_t {
  ain : ppi; mon : PacketPassInactivityMonitor.t; bin : ppi; con : PacketPassConnector.t; up : option link;
  pkt : bytes; asked : list bytes; finished : nat; wire : bytes; past : list bytes; forced : bool
}.
#[global] Instance eta : Eta t := λ s, mk_t (ain s) (mon s) (bin s) (con s) (up s) (pkt s) (asked s) (finished s)
  (wire s) (past s) (forced s).

(** The calls of the components on their interfaces. *)
Definition mon_act (s : t) (a : PacketPassInactivityMonitor.act) : option t :=
  match a with
  | PacketPassInactivityMonitor.OutputSend d l =>
      b ← exec (PacketPassInterface.Sender_Send d l) (bin s); Some (s <| bin := b |>)
  | PacketPassInactivityMonitor.OutputRequestCancel =>
      b ← exec PacketPassInterface.Sender_RequestCancel (bin s); Some (s <| bin := b |>)
  | PacketPassInactivityMonitor.InputDone =>
      a ← exec PacketPassInterface.Done (ain s); Some (s <| ain := a |>)
  | PacketPassInactivityMonitor.Handler => Some s
  end.
Definition con_act (s : t) (a : PacketPassConnector.act) : option t :=
  match a with
  | PacketPassConnector.InputDone =>
      b ← exec PacketPassInterface.Done (bin s); Some (s <| bin := b |>)
  | PacketPassConnector.OutputInit =>
      l ← up s; c ← exec PacketPassInterface.Sender_Init (cin l); Some (s <| up := Some (l <| cin := c |>) |>)
  | PacketPassConnector.OutputSend d n =>
      l ← up s; c ← exec (PacketPassInterface.Sender_Send d n) (cin l); Some (s <| up := Some (l <| cin := c |>) |>)
  end.
Definition snd_act (s : t) (a : PacketStreamSender.act) : option t :=
  match a with
  | PacketStreamSender.InputDone =>
      l ← up s; c ← exec PacketPassInterface.Done (cin l); Some (s <| up := Some (l <| cin := c |>) |>)
  | PacketStreamSender.OutputSend d n =>
      l ← up s; o ← exec (StreamPassInterface.Sender_Send d n) (dout l); Some (s <| up := Some (l <| dout := o |>) |>)
  end.
Fixpoint all {A} (f : t → A → option t) (l : list A) (s : t) : option t :=
  match l with [] => Some s | a :: l => s ← f s a; all f l s end.

Definition on_mon (m : M PacketPassInactivityMonitor.t PacketPassInactivityMonitor.act ()) (s : t) : option t :=
  '(o, acts) ← fire m (mon s); all mon_act acts (s <| mon := o |>).
Definition on_con (m : M PacketPassConnector.t PacketPassConnector.act ()) (s : t) : option t :=
  '(o, acts) ← fire m (con s); all con_act acts (s <| con := o |>).
Definition on_snd (m : M PacketStreamSender.t PacketStreamSender.act ()) (s : t) : option t :=
  l ← up s; '(o, acts) ← fire m (snd_ l); all snd_act acts (s <| up := Some (l <| snd_ := o |>) |>).

(** The handlers that the jobs of the interfaces call. *)
Definition ain_call (s : t) (c : icall) : option t :=
  match c with
  | CallOperation d l =>
      s ← on_mon (PacketPassInactivityMonitor.input_handler_send d l) s; Some (s <| forced := false |>)
  | CallRequestCancel => on_mon PacketPassInactivityMonitor.input_handler_requestcancel s
  | CallSent => Some (s <| finished := S (finished s) |>)
  | _ => None
  end.
Definition bin_call (s : t) (c : icall) : option t :=
  match c with
  | CallOperation d l => on_con (PacketPassConnector.input_handler_send d l) s
  | CallSent => s ← on_mon PacketPassInactivityMonitor.output_handler_done s; Some (s <| forced := false |>)
  | _ => None
  end.
Definition cin_call (s : t) (c : icall) : option t :=
  match c with
  | CallOperation d l => on_snd (PacketStreamSender.input_handler_send d l) s
  | CallSent => on_con PacketPassConnector.output_handler_done s
  | _ => None
  end.
Definition dout_call (s : t) (c : icall) : option t :=
  match c with
  | CallOperation _ _ => Some s
  | CallDone n => on_snd (PacketStreamSender.output_handler_done n) s
  | _ => None
  end.

(** What happens: the user sends a packet, the jobs run, the stream takes some
    bytes, the connection comes and goes, the timer expires or is forced. *)
Inductive job := AOperation | ARequestCancel | ADone | BOperation | BRequestCancel | BDone | COperation | CRequestCancel | CDone | DOperation | DDone.
Inductive ev :=
| ESend (p : bytes) | EJob (j : job) | EStream (n : Z)
| EConnect (junk : PacketStreamSender.t) (ic : ppi) (id : spi) | EDisconnect | ETimer | EForce.

Definition run_job (s : t) (j : job) : option t :=
  match j with
  | AOperation => '(a, cs) ← fire PacketPassInterface.run_job_operation (ain s); all ain_call cs (s <| ain := a |>)
  | ARequestCancel => '(a, cs) ← fire PacketPassInterface.run_job_requestcancel (ain s); all ain_call cs (s <| ain := a |>)
  | ADone => '(a, cs) ← fire PacketPassInterface.run_job_done (ain s); all ain_call cs (s <| ain := a |>)
  | BOperation => '(b, cs) ← fire PacketPassInterface.run_job_operation (bin s); all bin_call cs (s <| bin := b |>)
  | BRequestCancel => '(b, cs) ← fire PacketPassInterface.run_job_requestcancel (bin s); all bin_call cs (s <| bin := b |>)
  | BDone => '(b, cs) ← fire PacketPassInterface.run_job_done (bin s); all bin_call cs (s <| bin := b |>)
  | COperation => l ← up s; '(c, cs) ← fire PacketPassInterface.run_job_operation (cin l);
      all cin_call cs (s <| up := Some (l <| cin := c |>) |>)
  | CRequestCancel => l ← up s; '(c, cs) ← fire PacketPassInterface.run_job_requestcancel (cin l);
      all cin_call cs (s <| up := Some (l <| cin := c |>) |>)
  | CDone => l ← up s; '(c, cs) ← fire PacketPassInterface.run_job_done (cin l);
      all cin_call cs (s <| up := Some (l <| cin := c |>) |>)
  | DOperation => l ← up s; '(o, cs) ← fire StreamPassInterface.run_job_operation (dout l);
      all dout_call cs (s <| up := Some (l <| dout := o |>) |>)
  | DDone => l ← up s; '(o, cs) ← fire StreamPassInterface.run_job_done (dout l);
      all dout_call cs (s <| up := Some (l <| dout := o |>) |>)
  end.
Definition job_set (s : t) (j : job) : bool :=
  let on_link f := match up s with Some l => f l | None => false end in
  match j with
  | AOperation => PacketPassInterface.job_operation (ain s)
  | ARequestCancel => PacketPassInterface.job_requestcancel (ain s)
  | ADone => PacketPassInterface.job_done (ain s)
  | BOperation => PacketPassInterface.job_operation (bin s)
  | BRequestCancel => PacketPassInterface.job_requestcancel (bin s)
  | BDone => PacketPassInterface.job_done (bin s)
  | COperation => on_link (λ l, PacketPassInterface.job_operation (cin l))
  | CRequestCancel => on_link (λ l, PacketPassInterface.job_requestcancel (cin l))
  | CDone => on_link (λ l, PacketPassInterface.job_done (cin l))
  | DOperation => on_link (λ l, StreamPassInterface.job_operation (dout l))
  | DDone => on_link (λ l, StreamPassInterface.job_done (dout l))
  end.

(** The stream takes [n] bytes of what it was given. *)
Definition stream_takes (s : t) (n : Z) : option t :=
  l ← up s;
  o ← exec (StreamPassInterface.Done n) (dout l);
  Some (s <| wire := wire s ++ read_at (StreamPassInterface.job_operation_data (dout l)) n (pkt s) |>
          <| up := Some (l <| dout := o |>) |>).
(** The part of [UdpGwClient_ConnectServer] and [free_server] that concerns sending;
    the stream interface of a new connection has no user yet. *)
Definition connect (mtu : Z) (junk : PacketStreamSender.t) (ic : ppi) (id : spi) (s : t) : option t :=
  '(x, c, o) ← PacketStreamSender.Init mtu junk ic (StreamPassInterface.Init id);
  on_con (PacketPassConnector.ConnectOutput (PacketPassInterface.mtu c)) (s <| up := Some (mk_link c x o) |>).
Definition disconnect (s : t) : option t :=
  s ← on_con PacketPassConnector.DisconnectOutput s;
  l ← up s;
  _ ← PacketStreamSender.Free (cin l);
  Some (s <| up := None |> <| past := past s ++ [wire s] |> <| wire := [] |>).

Definition enabled (s : t) (e : ev) : bool :=
  match e with
  | ESend p => in_state (PacketPassInterface.state (ain s)) STATE_NONE && (zlen p <=? PacketPassInterface.mtu (ain s))
  | EJob j => job_set s j
  | EStream n =>
      match up s with
      | Some l => in_state (StreamPassInterface.state (dout l)) STATE_BUSY && (0 <? n) &&
          (n <=? StreamPassInterface.job_operation_len (dout l))
      | None => false
      end
  | EConnect _ _ _ => negb (bool_decide (is_Some (up s)))
  | EDisconnect => bool_decide (is_Some (up s))
  | ETimer => bool_decide (is_Some (PacketPassInactivityMonitor.timer (mon s)))
  | EForce => true
  end.
Definition step (s : t) (e : ev) : option t :=
  match e with
  | ESend p =>
      a ← exec (PacketPassInterface.Sender_Send 0 (zlen p)) (ain s);
      Some (s <| ain := a |> <| pkt := p |> <| asked := asked s ++ [p] |>)
  | EJob j => run_job s j
  | EStream n => stream_takes s n
  | EConnect junk ic id => connect (PacketPassConnector.input_mtu (con s)) junk ic id s
  | EDisconnect => disconnect s
  | ETimer => on_mon PacketPassInactivityMonitor.timer_handler
      (s <| mon := mon s <| PacketPassInactivityMonitor.timer := None |> |>)
  | EForce => s ← on_mon PacketPassInactivityMonitor.Force s; Some (s <| forced := true |>)
  end.
Definition moves (s s' : t) : Prop := ∃ e, enabled s e = true ∧ step s e = Some s'.
(** The steps that serve a packet: jobs, and the stream taking bytes. *)
Definition works (s s' : t) : Prop :=
  ∃ e, match e with EJob _ | EStream _ => enabled s e = true ∧ step s e = Some s' | _ => False end.

(** The start of [UdpGwClient_Init], and the queue as the user of the monitor. *)
Definition boot (mtu interval : Z) (jc : PacketPassConnector.t) (ja jb : ppi) : option t :=
  '(o, b) ← PacketPassConnector.Init mtu jc jb;
  '(m, a, b) ← PacketPassInactivityMonitor.Init b interval true ja;
  a ← exec PacketPassInterface.Sender_Init a;
  Some (mk_t a m b o None [] [] 0 [] [] false).

(** The packets [ps] were sent over connections that took [ws], and [left] are still to be sent: every connection
    took whole packets, each once and in order, and at its end at most the beginning of a packet
    that the next connection then takes from its start. *)
Fixpoint carried (ps ws left : list bytes) : Prop :=
  match ws with
  | [] => left = ps
  | w :: ws => ∃ qs rest r, ps = qs ++ rest ∧ w = mjoin qs ++ r ∧ r `prefix_of` default [] (head rest) ∧
      carried rest ws left
  end.

Lemma carried_more ps ws left p : carried ps ws left → carried (ps ++ [p]) ws (left ++ [p]).
Proof.
  revert ps. induction ws as [|w ws IH]; simpl; intros ps; [by intros ->|].
  intros (qs & rest & r & -> & -> & Hr & H). exists qs, (rest ++ [p]), r. rewrite app_assoc. split_and!; [done..| |auto].
  destruct rest; [|done]. simpl in *. apply prefix_nil_inv in Hr as ->. apply prefix_nil.
Qed.
Lemma carried_end ps ws left qs rest r : carried ps ws left → left = qs ++ rest →
  r `prefix_of` default [] (head rest) → carried ps (ws ++ [mjoin qs ++ r]) rest.
Proof.
  intros H -> Hr. revert ps H. induction ws as [|w ws IH]; simpl; intros ps.
  - intros <-. by exists qs, rest, r.
  - intros (qs' & rest' & r' & -> & -> & Hr' & H). exists qs', rest', r'. auto.
Qed.

(** *** Where a packet is *)

(** On its way to the monitor, to the connector, held without a connection, on its
    way to the sender, in the sender with [k] bytes sent (with the state of the
    stream and its answer), and on the way back. *)
Inductive stage :=
| SIdle | SAsked | SMonitor | SHeld | SCOp | SStream (k : Z) (d : istate) (n : Z) | SCDone | SBDone | SADone.
Definition stA (st : stage) : istate :=
  match st with
  | SIdle => STATE_NONE | SAsked => STATE_OPERATION_PENDING | SADone => STATE_DONE_PENDING | _ => STATE_BUSY
  end.
Definition stB (st : stage) : istate :=
  match st with
  | SIdle | SAsked | SADone => STATE_NONE | SMonitor => STATE_OPERATION_PENDING | SBDone => STATE_DONE_PENDING
  | _ => STATE_BUSY
  end.
Definition stC (st : stage) : istate :=
  match st with
  | SCOp => STATE_OPERATION_PENDING | SStream _ _ _ => STATE_BUSY | SCDone => STATE_DONE_PENDING | _ => STATE_NONE
  end.
Definition on_link (st : stage) : bool := negb (in_state (stC st) STATE_NONE).
(** The packet may still have to be sent (again). *)
Definition todo (st : stage) : bool := match st with SIdle | SBDone | SADone => false | _ => true end.
(** What the stream has of it. *)
Definition part (st : stage) (p : bytes) : bytes :=
  match st with
  | SStream k STATE_DONE_PENDING n => take (Z.to_nat (k + n)) p
  | SStream k _ _ => take (Z.to_nat k) p
  | SCDone => p
  | _ => []
  end.
(** The number of steps until the packet is reported, at most. *)
Definition steps_left (len : Z) (st : stage) : Z :=
  match st with
  | SIdle => 0 | SADone => 1 | SBDone => 2 | SCDone => 3
  | SStream k d _ => 3 + 3 * (len - k) - match d with STATE_BUSY => 1 | STATE_DONE_PENDING => 2 | _ => 0 end
  | SCOp => 4 + 3 * len | SHeld => 5 + 3 * len | SMonitor => 6 + 3 * len | SAsked => 7 + 3 * len
  end.

(** The sender and its interfaces at a stage of a packet of [len] bytes. *)
Definition link_is (m len : Z) (st : stage) (l : link) : Prop :=
  ppi_is (cin l) m (stC st) 0 len ∧
  match st with
  | SStream k d n => snd_ l = PacketStreamSender.mk_t len 0 k ∧ 0 ≤ k < len ∧ d ≠ STATE_NONE ∧
      spi_is (dout l) d k (len - k) n ∧ (d = STATE_DONE_PENDING → 0 < n ≤ len - k)
  | _ => PacketStreamSender.in_len (snd_ l) = -1 ∧ spi_is (dout l) STATE_NONE 0 0 0
  end.

(** The connection [u], if there is one, and what its stream took. *)
Definition up_is (m len : Z) (st : stage) (u : option link) (w : bytes) : Prop :=
  match u with
  | None => on_link st = false ∧ w = []
  | Some l => st ≠ SHeld ∧ link_is m len st l
  end.

Record inv (m : Z) (s : t) (st : stage) : Prop := mk_inv {
  i_len : zlen (pkt s) ≤ m;
  i_a : ppi_is (ain s) m (stA st) 0 (zlen (pkt s));
  i_b : ppi_is (bin s) m (stB st) 0 (zlen (pkt s));
  i_con : ∃ x, con s = PacketPassConnector.mk_t m (if in_state (stB st) STATE_BUSY then zlen (pkt s) else -1) x
      (bool_decide (is_Some (up s))) ∧ (stB st = STATE_BUSY → x = 0);
  i_up : up_is m (zlen (pkt s)) st (up s) (wire s);
  i_timer : (stA st ≠ STATE_BUSY → is_Some (PacketPassInactivityMonitor.timer (mon s))) ∧
    (stA st = STATE_BUSY → forced s = false → PacketPassInactivityMonitor.timer (mon s) = None);
  i_count : length (asked s) = (finished s + match st with SIdle => 0 | _ => 1 end)%nat;
  i_carried : ∃ left qs, carried (asked s) (past s) left ∧ left = qs ++ (if todo st then [pkt s] else []) ∧
    wire s = mjoin qs ++ part st (pkt s) ∧ (up s = None → qs = [])
}.

Lemma stA_op st : in_state (stA st) STATE_OPERATION_PENDING = true → st = SAsked.
Proof. by destruct st. Qed.
Lemma stA_done st : in_state (stA st) STATE_DONE_PENDING = true → st = SADone.
Proof. by destruct st. Qed.
Lemma stB_op st : in_state (stB st) STATE_OPERATION_PENDING = true → st = SMonitor.
Proof. by destruct st. Qed.
Lemma stB_done st : in_state (stB st) STATE_DONE_PENDING = true → st = SBDone.
Proof. by destruct st. Qed.
Lemma stC_op st : in_state (stC st) STATE_OPERATION_PENDING = true → st = SCOp.
Proof. by destruct st. Qed.
Lemma stC_done st : in_state (stC st) STATE_DONE_PENDING = true → st = SCDone.
Proof. by destruct st. Qed.

(** An unchanged account of what was carried. *)
Ltac same_carried H := let l := fresh in let q := fresh in
  destruct H as (l & q & ? & ? & ? & ?); exists l, q; simpl in *; by split_and!.

(** *** What the handlers do *)
#[local] Arguments exec : simpl never.
#[local] Arguments fire : simpl never.
#[local] Arguments PacketPassInterface.Init : simpl never.
#[local] Arguments StreamPassInterface.Init : simpl never.
Lemma all_one {A} (f : t → A → option t) a s : all f [a] s = f s a.
Proof. simpl. by destruct (f s a). Qed.

Lemma on_mon_one f s o a : fire f (mon s) = Some (o, [a]) → on_mon f s = mon_act (s <| mon := o |>) a.
Proof. intros H. unfold on_mon. rewrite H. apply all_one. Qed.
Lemma on_con_one f s o a : fire f (con s) = Some (o, [a]) → on_con f s = con_act (s <| con := o |>) a.
Proof. intros H. unfold on_con. rewrite H. apply all_one. Qed.
Lemma on_snd_one f s l o a : up s = Some l → fire f (snd_ l) = Some (o, [a]) →
  on_snd f s = snd_act (s <| up := Some (l <| snd_ := o |>) |>) a.
Proof. intros Hu H. unfold on_snd. rewrite Hu. simpl. rewrite H. apply all_one. Qed.

Lemma fire_con_send m x out d l : 0 ≤ l ≤ m →
  fire (PacketPassConnector.input_handler_send d l) (PacketPassConnector.mk_t m (-1) x out) =
  Some (PacketPassConnector.mk_t m l d out, if out then [PacketPassConnector.OutputSend d l] else []).
Proof. intros H. unfold PacketPassConnector.input_handler_send. run_fire. by destruct out. Qed.
Lemma fire_con_done m x l : 0 ≤ l →
  fire PacketPassConnector.output_handler_done (PacketPassConnector.mk_t m l x true) =
  Some (PacketPassConnector.mk_t m (-1) x true, [PacketPassConnector.InputDone]).
Proof. intros H. unfold PacketPassConnector.output_handler_done. by run_fire. Qed.
Lemma fire_con_connect m x l mo : m ≤ mo →
  fire (PacketPassConnector.ConnectOutput mo) (PacketPassConnector.mk_t m l x false) =
  Some (PacketPassConnector.mk_t m l x true,
    PacketPassConnector.OutputInit :: if 0 <=? l then [PacketPassConnector.OutputSend x l] else []).
Proof. intros H. unfold PacketPassConnector.ConnectOutput. run_fire. by destruct (0 <=? l). Qed.
Lemma fire_mon_timer o : fire PacketPassInactivityMonitor.timer_handler o =
  Some (o <| PacketPassInactivityMonitor.timer := Some (PacketPassInactivityMonitor.interval o) |>,
    if PacketPassInactivityMonitor.handler o then [PacketPassInactivityMonitor.Handler] else []).
Proof. destruct o as [? ? []]; reflexivity. Qed.
Lemma fire_snd_send o d l : PacketStreamSender.in_len o = -1 → 0 ≤ l →
  fire (PacketStreamSender.input_handler_send d l) o =
  Some (if 0 <? l then (PacketStreamSender.mk_t l d 0, [PacketStreamSender.OutputSend d l])
        else (PacketStreamSender.mk_t (-1) d 0, [PacketStreamSender.InputDone])).
Proof.
  intros H Hl. unfold PacketStreamSender.input_handler_send, PacketStreamSender.send_data. run_fire. rewrite H. run_fire.
  destruct (0 <? l); cbn; [|done]. do 4 f_equal; lia.
Qed.
Lemma fire_snd_done len d k n : 0 ≤ len → 0 < n ≤ len - k →
  fire (PacketStreamSender.output_handler_done n) (PacketStreamSender.mk_t len d k) =
  Some (if k + n <? len
        then (PacketStreamSender.mk_t len d (k + n), [PacketStreamSender.OutputSend (d + (k + n)) (len - (k + n))])
        else (PacketStreamSender.mk_t (-1) d (k + n), [PacketStreamSender.InputDone])).
Proof.
  intros Hl Hn. unfold PacketStreamSender.output_handler_done, PacketStreamSender.send_data. run_fire.
  by destruct (k + n <? len).
Qed.

(** A packet that is not with the sender leaves it as it is. *)
Lemma link_moves m len len' st st' l : link_is m len st l → stC st = STATE_NONE → stC st' = STATE_NONE → link_is m len' st' l.
Proof.
  intros [Hc Hs] E E'. split; [rewrite E in Hc; rewrite E'; by eapply ppi_any|]. by destruct st, st'.
Qed.
Lemma up_moves m len len' st st' u w : up_is m len st u w → stC st = STATE_NONE → stC st' = STATE_NONE → st' ≠ SHeld →
  up_is m len' st' u w.
Proof.
  destruct u as [l|]; simpl; [|intros [_ ->] _ E; unfold on_link; by rewrite E].
  intros [_ H] E E' Hn. split; [done|]. by eapply link_moves.
Qed.

(** *** The jobs *)
Section Jobs.
Context (m : Z).
(** What a step that serves the packet has to do. *)
Definition serves (s : t) (st : stage) (r : option t) : Prop :=
  ∃ s' st', r = Some s' ∧ inv m s' st' ∧ pkt s' = pkt s ∧
    steps_left (zlen (pkt s)) st' < steps_left (zlen (pkt s)) st.
Ltac serve st := eexists _, st; (split; [reflexivity|]); (split; [|simpl; split; [done|lia]]); split; simpl; try done;
  try match goal with H : ∃ x : Z, con _ = _ ∧ _ |- ∃ x : Z, _ => destruct H as (x & ? & ?); exists x; by split end;
  try match goal with H : up_is _ _ _ _ _ |- _ => by eapply up_moves; [exact H|..] end;
  try match goal with H : ∃ l q : list bytes, _ |- _ => same_carried H end.

Lemma job_AOperation s : inv m s SAsked → serves s SAsked (run_job s AOperation).
Proof.
  intros [Hlen Ha Hb Hc Hu Ht Hn Hw]. pose proof (zlen_nonneg (pkt s)).
  destruct (ppi_operation _ _ _ _ Ha) as (a & Ea & Ha').
  destruct (ppi_send _ _ _ _ 0 (zlen (pkt s)) Hb) as (b & Eb & Hb'); [lia|].
  unfold run_job. rewrite Ea. cbn [mbind option_bind]. rewrite all_one. cbn [ain_call].
  erewrite on_mon_one by reflexivity. cbn [mon_act]. simpl. rewrite Eb. cbn. serve SMonitor.
Qed.
Lemma job_ADone s : inv m s SADone → serves s SADone (run_job s ADone).
Proof.
  intros [Hlen Ha Hb Hc Hu Ht Hn Hw]. destruct (ppi_sent _ _ _ _ Ha) as (a & Ea & Ha').
  unfold run_job. rewrite Ea. cbn. serve SIdle; [|lia].
  split; [intros _; by apply Ht|done].
Qed.
Lemma job_BOperation s : inv m s SMonitor → serves s SMonitor (run_job s BOperation).
Proof.
  intros [Hlen Ha Hb (x & Hc & _) Hu Ht Hn Hw]. pose proof (zlen_nonneg (pkt s)).
  destruct (ppi_operation _ _ _ _ Hb) as (b & Eb & Hb').
  unfold run_job. rewrite Eb. cbn [mbind option_bind]. rewrite all_one. cbn [bin_call]. cbn in Hc.
  destruct (up s) as [l|] eqn:Eu; cbn in Hc.
  - destruct Hu as (_ & Hl & Hs & Hd). destruct (ppi_send _ _ _ _ 0 (zlen (pkt s)) Hl) as (c & Ec & Hc'); [lia|].
    pose proof (fire_con_send m x true 0 (zlen (pkt s)) ltac:(lia)) as Hf.
    erewrite on_con_one; [|simpl; rewrite Hc; exact Hf]. cbn [con_act]. simpl. rewrite Eu. simpl. rewrite Ec. cbn.
    serve SCOp; by eexists.
  - unfold on_con. simpl. rewrite Hc, fire_con_send by lia. cbn. serve SHeld.
    + rewrite Eu. by eexists.
    + by rewrite Eu.
    + rewrite Eu. same_carried Hw.
Qed.
Lemma job_BDone s : inv m s SBDone → serves s SBDone (run_job s BDone).
Proof.
  intros [Hlen Ha Hb Hc Hu Ht Hn Hw]. destruct (ppi_sent _ _ _ _ Hb) as (b & Eb & Hb').
  destruct (ppi_done _ _ _ _ Ha) as (a & Ea & Ha').
  unfold run_job. rewrite Eb. cbn [mbind option_bind]. rewrite all_one. cbn [bin_call].
  erewrite on_mon_one by reflexivity. cbn [mon_act]. simpl. rewrite Ea. cbn. serve SADone.
Qed.
Lemma job_COperation s : inv m s SCOp → serves s SCOp (run_job s COperation).
Proof.
  intros [Hlen Ha Hb Hc Hu Ht Hn Hw]. pose proof (zlen_nonneg (pkt s)).
  destruct (up s) as [l|] eqn:Eu; [|by destruct Hu]. destruct Hu as (_ & Hl & Hs & Hd).
  destruct (ppi_operation _ _ _ _ Hl) as (c & Ec & Hc').
  unfold run_job. rewrite Eu. simpl. rewrite Ec. cbn [mbind option_bind]. rewrite all_one. cbn [cin_call].
  pose proof (fire_snd_send (snd_ l) 0 (zlen (pkt s)) Hs ltac:(lia)) as Hf. destruct (Z.ltb_spec 0 (zlen (pkt s))) as [Hp|Hp].
  - destruct (spi_send _ _ _ _ 0 (zlen (pkt s)) Hd) as (o & Eo & Ho); [lia|].
    erewrite on_snd_one; [|reflexivity|exact Hf]. cbn [snd_act]. simpl. rewrite Eo. cbn. serve (SStream 0 STATE_OPERATION_PENDING 0).
    split; [done|]. split; [done|]. split; [done|]. split; [lia|]. split; [done|]. split; [by rewrite Z.sub_0_r|done].
  - destruct (ppi_done _ _ _ _ Hc') as (c' & Ec' & Hc'').
    erewrite on_snd_one; [|reflexivity|exact Hf]. cbn [snd_act]. simpl. rewrite Ec'. cbn. serve SCDone.
    assert (pkt s = []) as E0 by (apply zlen_0_nil; lia). rewrite E0 in *. same_carried Hw.
Qed.
Lemma job_CDone s : inv m s SCDone → serves s SCDone (run_job s CDone).
Proof.
  intros [Hlen Ha Hb (x & Hc & Hx) Hu Ht Hn Hw]. pose proof (zlen_nonneg (pkt s)).
  destruct (up s) as [l|] eqn:Eu; [|by destruct Hu]. destruct Hu as (_ & Hl & Hs & Hd).
  destruct (ppi_sent _ _ _ _ Hl) as (c & Ec & Hc'). destruct (ppi_done _ _ _ _ Hb) as (b & Eb & Hb').
  unfold run_job. rewrite Eu. simpl. rewrite Ec. cbn [mbind option_bind]. rewrite all_one. cbn [cin_call].
  pose proof (fire_con_done m x (zlen (pkt s)) ltac:(lia)) as Hf.
  erewrite on_con_one; [|simpl; rewrite Hc; exact Hf]. cbn [con_act]. simpl. rewrite Eb. cbn. serve SBDone; [by eexists|].
  destruct Hw as (left & qs & Hl' & -> & -> & _). exists (qs ++ [pkt s]), (qs ++ [pkt s]). simpl.
  rewrite join_app, !app_nil_r. simpl. by rewrite app_nil_r.
Qed.
Lemma job_DOperation s k n : inv m s (SStream k STATE_OPERATION_PENDING n) →
  serves s (SStream k STATE_OPERATION_PENDING n) (run_job s DOperation).
Proof.
  intros [Hlen Ha Hb Hc Hu Ht Hn Hw]. destruct (up s) as [l|] eqn:Eu; [|by destruct Hu].
  destruct Hu as (_ & Hl & Hs & Hk & _ & Hd & _). destruct (spi_operation _ _ _ _ Hd) as (o & Eo & Ho).
  unfold run_job. rewrite Eu. simpl. rewrite Eo. cbn. serve (SStream k STATE_BUSY n).
Qed.
Lemma stream_step s k n0 n : inv m s (SStream k STATE_BUSY n0) → 0 < n ≤ zlen (pkt s) - k →
  serves s (SStream k STATE_BUSY n0) (stream_takes s n).
Proof.
  intros [Hlen Ha Hb Hc Hu Ht Hn Hw] Hn0. destruct (up s) as [l|] eqn:Eu; [|by destruct Hu].
  destruct Hu as (_ & Hl & Hs & Hk & _ & Hd & _). destruct (spi_done _ _ _ _ n Hd Hn0) as (o & Eo & Ho).
  destruct (spi_jobs _ _ _ _ _ Hd) as (_ & _ & _ & Hdd). destruct (Hdd eq_refl) as [Ed _].
  unfold stream_takes. rewrite Eu. simpl. rewrite Eo. cbn. serve (SStream k STATE_DONE_PENDING n).
  destruct Hw as (left & qs & Hl' & El & -> & _). exists left, qs. split_and!; try done. rewrite Ed, <- app_assoc. f_equal.
  simpl. unfold read_at. rewrite Z2Nat.inj_add by lia. by rewrite take_take_drop.
Qed.
Lemma job_DDone s k n : inv m s (SStream k STATE_DONE_PENDING n) →
  serves s (SStream k STATE_DONE_PENDING n) (run_job s DDone).
Proof.
  intros [Hlen Ha Hb Hc Hu Ht Hn Hw]. destruct (up s) as [l|] eqn:Eu; [|by destruct Hu].
  destruct Hu as (_ & Hl & Hs & Hk & _ & Hd & Hn0). specialize (Hn0 eq_refl).
  destruct (spi_finished _ _ _ _ Hd) as (o & Eo & Ho).
  unfold run_job. rewrite Eu. simpl. rewrite Eo. cbn [mbind option_bind]. rewrite all_one. cbn [dout_call].
  pose proof (fire_snd_done (zlen (pkt s)) 0 k n ltac:(lia) Hn0) as Hf. rewrite <- Hs in Hf.
  destruct (Z.ltb_spec (k + n) (zlen (pkt s))) as [Hm|Hm].
  - destruct (spi_send _ _ _ _ (k + n) (zlen (pkt s) - (k + n)) Ho) as (o' & Eo' & Ho'); [lia|].
    erewrite on_snd_one; [|reflexivity|exact Hf]. cbn [snd_act]. simpl. rewrite Eo'. cbn.
    serve (SStream (k + n) STATE_OPERATION_PENDING n).
    split; [done|]. split; [done|]. split; [done|]. split; [lia|]. by split_and!.
  - destruct (ppi_done _ _ _ _ Hl) as (c' & Ec' & Hc').
    erewrite on_snd_one; [|reflexivity|exact Hf]. cbn [snd_act]. simpl. rewrite Ec'. cbn. serve SCDone.
    + split; [done|]. split; [done|]. split; [done|]. by eapply spi_any.
    + destruct Hw as (left & qs & Hl' & El & Ew & _). exists left, qs. split_and!; try done. rewrite Ew. simpl.
      by rewrite take_ge by (unfold zlen in *; lia).
Qed.

Lemma link_stream len st l : link_is m len st l → ∃ d,
  (StreamPassInterface.job_operation (dout l) = in_state d STATE_OPERATION_PENDING ∧
   StreamPassInterface.job_done (dout l) = in_state d STATE_DONE_PENDING ∧ StreamPassInterface.state (dout l) = d) ∧
  (d ≠ STATE_NONE → ∃ k n, st = SStream k d n ∧
     (active d = true → StreamPassInterface.job_operation_len (dout l) = len - k)).
Proof.
  intros [_ H]. destruct st as [| | | | |k d n| | |]; try (exists STATE_NONE; destruct H as [_ (Do & Dd & Ds & _)%spi_jobs]; by split_and!).
  exists d. destruct H as (_ & _ & _ & (Do & Dd & Ds & Dl)%spi_jobs & _). split; [by split_and!|]. intros _. exists k, n.
  split; [done|]. intros E. by apply Dl.
Qed.
Lemma job_serves s st j : inv m s st → job_set s j = true → serves s st (run_job s j).
Proof.
  intros H Hj. pose proof H as [Hlen Ha Hb Hc Hu Ht Hn Hw].
  destruct (ppi_jobs _ _ _ _ _ Ha) as (Ao & Ac & Ad & _), (ppi_jobs _ _ _ _ _ Hb) as (Bo & Bc & Bd & _).
  assert (∀ f, (match up s with Some l => f l | None => false end) = true → ∃ l, up s = Some l ∧ f l = true ∧ link_is m (zlen (pkt s)) st l) as Hup.
  { intros f. unfold up_is in Hu. destruct (up s) as [l|]; [|done]. destruct Hu. eauto. }
  unfold job_set in Hj. destruct j.
  - rewrite Ao in Hj. apply stA_op in Hj as ->. by apply job_AOperation.
  - congruence.
  - rewrite Ad in Hj. apply stA_done in Hj as ->. by apply job_ADone.
  - rewrite Bo in Hj. apply stB_op in Hj as ->. by apply job_BOperation.
  - congruence.
  - rewrite Bd in Hj. apply stB_done in Hj as ->. by apply job_BDone.
  - apply Hup in Hj as (l & _ & Hj & Hl & _). destruct (ppi_jobs _ _ _ _ _ Hl) as (Co & _). rewrite Co in Hj.
    apply stC_op in Hj as ->. by apply job_COperation.
  - apply Hup in Hj as (l & _ & Hj & Hl & _). destruct (ppi_jobs _ _ _ _ _ Hl) as (_ & Cc & _). congruence.
  - apply Hup in Hj as (l & _ & Hj & Hl & _). destruct (ppi_jobs _ _ _ _ _ Hl) as (_ & _ & Cd & _). rewrite Cd in Hj.
    apply stC_done in Hj as ->. by apply job_CDone.
  - apply Hup in Hj as (l & _ & Hj & Hl). apply link_stream in Hl as (d & (Do & _) & Hs). rewrite Do in Hj.
    apply bool_decide_eq_true in Hj as ->. destruct Hs as (k & n & -> & _); [done|]. by apply job_DOperation.
  - apply Hup in Hj as (l & _ & Hj & Hl). apply link_stream in Hl as (d & (_ & Do & _) & Hs). rewrite Do in Hj.
    apply bool_decide_eq_true in Hj as ->. destruct Hs as (k & n & -> & _); [done|]. by apply job_DDone.
Qed.
Lemma stream_serves s st n : inv m s st → enabled s (EStream n) = true → serves s st (stream_takes s n).
Proof.
  intros H He. simpl in He. pose proof (i_up _ _ _ H) as Hu. unfold up_is in Hu. destruct (up s) as [l|]; [|done].
  destruct Hu as (_ & Hl). apply andb_true_iff in He as [[Hs%bool_decide_eq_true H0%Z.ltb_lt]%andb_true_iff H1%Z.leb_le].
  apply link_stream in Hl as (d & (_ & _ & Ds) & Hd). rewrite Ds in Hs. subst d. destruct Hd as (k & n0 & -> & El); [done|].
  apply stream_step; [done|]. rewrite <- El by done. lia.
Qed.

(** *** The other steps *)
Lemma send_step s p : inv m s SIdle → zlen p ≤ m → ∃ s', step s (ESend p) = Some s' ∧ inv m s' SAsked.
Proof.
  intros [Hlen Ha Hb Hc Hu Ht Hn Hw] Hp. pose proof (zlen_nonneg p).
  destruct (ppi_send _ _ _ _ 0 (zlen p) Ha) as (a & Ea & Ha'); [lia|]. simpl. rewrite Ea. simpl. eexists. split; [done|].
  split; simpl; try done.
  - by eapply ppi_any.
  - by eapply up_moves.
  - split; [intros _; by apply Ht|done].
  - rewrite length_app. simpl. lia.
  - destruct Hw as (left & qs & Hl & -> & -> & Hq). rewrite app_nil_r in Hl. exists (qs ++ [p]), qs.
    split_and!; try done. by apply carried_more.
Qed.
Lemma path_connect_step s st junk ic id : inv m s st → up s = None → 0 ≤ m →
  ∃ s' st', step s (EConnect junk ic id) = Some s' ∧ inv m s' st'.
Proof.
  intros [Hlen Ha Hb (x & Hc & Hx) Hu Ht Hn Hw] Eu Hm. rewrite Eu in *. pose proof (zlen_nonneg (pkt s)).
  destruct (ppi_init m ic 0 (zlen (pkt s)) Hm) as (c & Ec & _ & Em & c' & Ec' & Hc').
  destruct (spi_init id 0 0 0) as (o & [= <-] & Ho). destruct Hu as [Hol Hw0].
  simpl. unfold connect, PacketStreamSender.Init. rewrite Hc. simpl. rewrite (proj2 (Z.leb_le 0 m)) by lia. rewrite Ec. simpl.
  unfold on_con. simpl. rewrite Hc, Em. pose proof (fire_con_connect m x (if in_state (stB st) STATE_BUSY then zlen (pkt s) else -1) m ltac:(lia)) as Hf.
  change (bool_decide (is_Some (@None link))) with false. rewrite Hf. cbn [mbind option_bind]. cbn [all con_act]. simpl. rewrite Ec'. simpl.
  destruct (in_state (stB st) STATE_BUSY) eqn:Es.
  - apply bool_decide_eq_true in Es. assert (st = SHeld) as -> by (by destruct st).
    rewrite (proj2 (Z.leb_le 0 _)), (Hx eq_refl) by lia. simpl.
    destruct (ppi_send _ _ _ _ 0 (zlen (pkt s)) Hc') as (c'' & Ec'' & Hc''); [lia|]. rewrite Ec''. simpl. eexists _, SCOp. split; [reflexivity|].
    split; simpl; try done; [by eexists|same_carried Hw].
  - simpl. eexists _, st. split; [reflexivity|]. assert (stC st = STATE_NONE) as E by (by destruct st).
    split; simpl; try done.
    + eexists. rewrite Es. split; [done|]. intros E'. by rewrite E' in Es.
    + split; [by destruct st|]. split; [by rewrite E|]. by destruct st.
    + destruct Hw as (left & qs & Hl & El & Ew & Hq). exists left, qs. by split_and!.
Qed.
Lemma disconnect_step s st l : inv m s st → up s = Some l → ∃ s' st', step s EDisconnect = Some s' ∧ inv m s' st'.
Proof.
  intros [Hlen Ha Hb (x & Hc & Hx) Hu Ht Hn Hw] Eu. rewrite Eu in *. destruct Hu as [Hh [Hl _]].
  pose proof (eq_refl : fire PacketPassConnector.DisconnectOutput
    (PacketPassConnector.mk_t m (if in_state (stB st) STATE_BUSY then zlen (pkt s) else -1) x true) = Some (_, [])) as Hf.
  simpl. unfold disconnect, on_con. rewrite Hc. setoid_rewrite Hf. simpl. rewrite Eu. simpl.
  assert (∃ st', stA st' = stA st ∧ stB st' = stB st ∧ on_link st' = false ∧ todo st' = todo st ∧ part st' (pkt s) = [] ∧
    (st' = SIdle ↔ st = SIdle)) as (st' & EA & EB & EL & ET & EP & EI).
  { destruct (on_link st) eqn:E; [exists SHeld; by destruct st|]. exists st. split_and!; try done. by destruct st. }
  eexists _, st'. split; [reflexivity|]. split; simpl; rewrite ?EA, ?EB; try done.
  - by eexists.
  - by destruct st, st'; naive_solver.
  - destruct Hw as (left & qs & Hcl & -> & -> & _). rewrite ET. exists (if todo st then [pkt s] else []), []. rewrite EP. split_and!; try done.
    eapply carried_end; [exact Hcl|done|]. destruct st as [| | | | |k [] n| | |]; simpl;
      try apply prefix_nil; try (eexists; symmetry; apply take_drop). done.
Qed.
Lemma timer_step s st e : inv m s st → match e with ETimer | EForce => True | _ => False end → enabled s e = true →
  ∃ s', step s e = Some s' ∧ inv m s' st.
Proof.
  intros [Hlen Ha Hb Hc Hu Ht Hn Hw] He Hen. destruct e; try done; simpl.
  - apply bool_decide_eq_true in Hen. eexists. split.
    { unfold on_mon. rewrite fire_mon_timer. simpl. by destruct (PacketPassInactivityMonitor.handler (mon s)). }
    split; simpl; try done. split; [by eexists|]. intros HA Hf. destruct Ht as [_ Ht]. rewrite Ht in Hen by done. by destruct Hen.
  - eexists. split; [reflexivity|]. by split.
Qed.
(** Every enabled step succeeds, and leads to a stage. *)
Lemma step_ok s st e : 0 ≤ m → inv m s st → enabled s e = true → ∃ s' st', step s e = Some s' ∧ inv m s' st'.
Proof.
  intros Hm H He. destruct e as [p|j|n|junk ic id| | |].
  - apply andb_true_iff in He as [Hs%bool_decide_eq_true Hl%Z.leb_le].
    destruct (ppi_jobs _ _ _ _ _ (i_a _ _ _ H)) as (_ & _ & _ & Es & Em & _). rewrite Es in Hs. rewrite Em in Hl.
    assert (st = SIdle) as -> by (by destruct st). destruct (send_step s p H Hl) as (s' & ? & ?). eauto.
  - destruct (job_serves s st j H He) as (s' & st' & ? & ? & _). eauto.
  - destruct (stream_serves s st n H He) as (s' & st' & ? & ? & _). eauto.
  - simpl in He. apply (path_connect_step s st junk ic id H); [|done]. destruct (up s); [done|done].
  - apply bool_decide_eq_true in He as [l Hl]. by apply (disconnect_step s st l H).
  - destruct (timer_step s st ETimer H I He) as (s' & ? & ?). eauto.
  - destruct (timer_step s st EForce H I He) as (s' & ? & ?). eauto.
Qed.
Lemma moves_inv s s' st : 0 ≤ m → inv m s st → rtc moves s s' → ∃ st', inv m s' st'.
Proof.
  intros Hm H Hr. revert st H. induction Hr as [s|s s1 s2 (e & He & E) _ IH]; intros st H; [by exists st|].
  destruct (step_ok s st e Hm H He) as (s1' & st1 & E' & H1). rewrite E' in E. injection E as <-. by eapply IH.
Qed.
Lemma works_serves s st s' : inv m s st → works s s' → ∃ st', inv m s' st' ∧ pkt s' = pkt s ∧
  steps_left (zlen (pkt s)) st' < steps_left (zlen (pkt s)) st.
Proof.
  intros H (e & He). destruct e as [|j|n| | | |]; try done; destruct He as [He E]; simpl in E.
  - destruct (job_serves s st j H He) as (s1 & st' & E' & ? & ? & ?). rewrite E' in E. injection E as <-. eauto.
  - destruct (stream_serves s st n H He) as (s1 & st' & E' & ? & ? & ?). rewrite E' in E. injection E as <-. eauto.
Qed.
Lemma steps_left_range s st : inv m s st → 0 ≤ steps_left (zlen (pkt s)) st ≤ 3 * zlen (pkt s) + 7.
Proof.
  intros H. pose proof (zlen_nonneg (pkt s)). destruct st; simpl; try lia.
  pose proof (i_up _ _ _ H) as Hu. unfold up_is in Hu. destruct (up s); [|by destruct Hu]. destruct Hu as (_ & _ & _ & ? & _).
  destruct d; lia.
Qed.
Lemma works_bound n s st s' : inv m s st → nsteps works n s s' → Z.of_nat n ≤ 3 * zlen (pkt s) + 7.
Proof.
  intros H Hn. enough (Z.of_nat n ≤ steps_left (zlen (pkt s)) st) by (pose proof (steps_left_range s st H); lia).
  revert st H. induction Hn as [s|n s s1 s2 Hw _ IH]; intros st H; [by apply steps_left_range|].
  destruct (works_serves s st s1 H Hw) as (st1 & H1 & Ep & Hlt). specialize (IH st1 H1). rewrite Ep in IH. lia.
Qed.
(** With a connection, a packet always has a next step. *)
Lemma works_next s st l : inv m s st → up s = Some l → st ≠ SIdle → ∃ s', works s s'.
Proof.
  intros H Eu Hst. pose proof H as [Hlen Ha Hb Hc Hu Ht Hn Hw]. rewrite Eu in Hu. destruct Hu as [Hh Hl].
  assert (∀ j, job_set s j = true → ∃ s', works s s') as Hj.
  { intros j Hj. destruct (job_serves s st j H Hj) as (s' & _ & E & _). exists s', (EJob j). by split. }
  destruct (ppi_jobs _ _ _ _ _ Ha) as (Ao & _ & Ad & _), (ppi_jobs _ _ _ _ _ Hb) as (Bo & _ & Bd & _).
  destruct (ppi_jobs _ _ _ _ _ (proj1 Hl)) as (Co & _ & Cd & _).
  destruct st as [| | | | |k d n| | |]; try done.
  - by apply (Hj AOperation).
  - by apply (Hj BOperation).
  - apply (Hj COperation). simpl. by rewrite Eu.
  - destruct Hl as (_ & _ & Hk & Hd & (Do & Dd & Ds & Dl)%spi_jobs & _). destruct d; [done|..].
    + apply (Hj DOperation). simpl. by rewrite Eu.
    + assert (enabled s (EStream 1) = true) as He.
      { simpl. rewrite Eu, Ds. destruct (Dl eq_refl) as [_ ->]. simpl. lia. }
      destruct (stream_serves s _ 1 H He) as (s' & _ & E & _). exists s', (EStream 1). by split.
    + apply (Hj DDone). simpl. by rewrite Eu.
  - apply (Hj CDone). simpl. by rewrite Eu.
  - by apply (Hj BDone).
  - by apply (Hj ADone).
Qed.
Lemma path_boot_ok interval jc ja jb : 0 ≤ m → ∃ s, boot m interval jc ja jb = Some s ∧ inv m s SIdle.
Proof.
  intros Hm. destruct (ppi_init m jb 0 0 Hm) as (b & Eb & Hcb & Emb & b' & Eb' & Hb'), (ppi_init m ja 0 0 Hm) as (a & Ea & _ & _ & a' & Ea' & Ha').
  unfold boot, PacketPassConnector.Init, PacketPassInactivityMonitor.Init. rewrite (proj2 (Z.leb_le 0 m)) by lia. rewrite Eb. simpl.
  rewrite Emb, Ea, Hcb. simpl. rewrite Eb'. simpl. rewrite Ea'. simpl. eexists. split; [reflexivity|].
  split; simpl; try done; [by eexists|by exists [], []].
Qed.
End Jobs.

(** C31: The sending path.  In every interleaving of packets, jobs, the stream taking
    arbitrary pieces, connections coming and going at any moment and timers, no
    assertion of the three components or of their interfaces fails, and the bytes
    the streams took are the packets: on each connection whole packets in order,
    each once, and at the end of a connection at most the beginning of a packet, which
    the next connection takes again from its start; a packet is reported as sent
    only when a connection took all of it, and at most one is on its way.  The
    monitor's timer runs exactly while no packet is beyond it (unless it was
    forced).  While there is a connection, a packet always has a next step, and
    after at most three steps for each byte and seven more no step is left: it has been
    reported, or waits for a connection. *)
Theorem send_path m interval jc ja jb : 0 ≤ m →
  ∃ s0, boot m interval jc ja jb = Some s0 ∧ ∀ s, rtc moves s0 s →
    (∀ e, enabled s e = true → is_Some (step s e)) ∧
    (∃ left, carried (asked s) (past s ++ [wire s]) left ∧ (length left ≤ length (asked s) - finished s ≤ 1)%nat) ∧
    (PacketPassInterface.state (ain s) ≠ STATE_BUSY → is_Some (PacketPassInactivityMonitor.timer (mon s))) ∧
    (PacketPassInterface.state (ain s) = STATE_BUSY → forced s = false → PacketPassInactivityMonitor.timer (mon s) = None) ∧
    (is_Some (up s) → PacketPassInterface.state (ain s) ≠ STATE_NONE → ∃ s', works s s') ∧
    (∀ n s', nsteps works n s s' → Z.of_nat n ≤ 3 * zlen (pkt s) + 7).
Proof.
  intros Hm. destruct (path_boot_ok m interval jc ja jb Hm) as (s0 & E0 & H0). exists s0. split; [done|]. intros s Hr.
  destruct (moves_inv m s0 s SIdle Hm H0 Hr) as (st & H). pose proof H as [Hlen Ha Hb Hc Hu Ht Hn Hw].
  destruct (ppi_jobs _ _ _ _ _ Ha) as (_ & _ & _ & -> & _). split_and!; [|..|apply Ht|apply Ht| |].
  - intros e He. destruct (step_ok m s st e Hm H He) as (s' & _ & -> & _). eauto.
  - destruct Hw as (left & qs & Hl & El & -> & _). exists (if todo st then [pkt s] else []). split; [|by destruct st; simpl in *; lia].
    eapply carried_end; [exact Hl|exact El|]. destruct st as [| | | | |k [] n| | |]; simpl;
      try apply prefix_nil; try (eexists; symmetry; apply take_drop). done.
  - intros [l Hl] Hst. eapply works_next; [done..|]. by intros ->.
  - intros n s' Hs. by eapply works_bound.
Qed.

(** *** Example: the connection is lost after three of four bytes *)
Fixpoint drive (es : list ev) (s : t) : option t :=
  match es with [] => Some s | e :: es => if enabled s e then s ← step s e; drive es s else None end.
Lemma path_drive_reaches es s s' : drive es s = Some s' → rtc moves s s'.
Proof.
  revert s. induction es as [|e es IH]; cbn [drive]; intros s; [by intros [= ->]; constructor|].
  destruct (enabled s e) eqn:He; [|done]. destruct (step s e) as [s1|] eqn:E; [|done]. cbn [mbind option_bind]. intros H.
  eapply rtc_l; [by exists e|]. by apply IH.
Qed.
Definition j_ppi : ppi := PacketPassInterface.mk_t 1 true true true 2 3 true true STATE_BUSY true.
Definition j_spi : spi := StreamPassInterface.mk_t true true 4 5 true 6 STATE_BUSY.
Definition j_snd : PacketStreamSender.t := PacketStreamSender.mk_t 7 8 9.
Definition ex_events : list ev :=
  [ESend [1; 2; 3; 4]; EJob AOperation; EJob BOperation; EForce; EConnect j_snd j_ppi j_spi; EJob COperation; EJob DOperation;
   EStream 3; EJob DDone; EJob DOperation; EDisconnect; ETimer; EConnect j_snd j_ppi j_spi; EJob COperation; EJob DOperation;
   EStream 4; EJob DDone; EJob CDone; EJob BDone; EJob ADone; ESend []; EJob AOperation; EJob BOperation; EJob COperation].
Definition ex_boot : option t := boot 9 100 (PacketPassConnector.mk_t 1 2 3 true) j_ppi j_ppi.
Definition ex_final : option t := s ← ex_boot; drive ex_events s.
Lemma path_ex_ok : (λ s, (asked s, past s, wire s, finished s)) <$> ex_final =
  Some ([[1; 2; 3; 4]; []], [[1; 2; 3]], [1; 2; 3; 4], 1%nat).
Proof. vm_compute. reflexivity. Qed.

Lemma path_ex_reached s0 s : ex_boot = Some s0 → ex_final = Some s → rtc moves s0 s.
Proof. unfold ex_final. intros -> H. by eapply path_drive_reaches. Qed.

Lemma send_path_witness :
  match ex_final with
  | Some s => past s = [[1; 2; 3]] ∧ wire s = [1; 2; 3; 4] ∧
      ∃ left, carried (asked s) (past s ++ [wire s]) left ∧ (length left ≤ length (asked s) - finished s ≤ 1)%nat
  | None => False
  end.
Proof.
  destruct (send_path 9 100 (PacketPassConnector.mk_t 1 2 3 true) j_ppi j_ppi ltac:(lia)) as (s0 & E & H).
  pose proof path_ex_ok as Hf. destruct ex_final as [s|] eqn:Es; [|discriminate Hf]. injection Hf as Ha Hp Hw Hn.
  split; [exact Hp|]. split; [exact Hw|]. apply (H s (path_ex_reached s0 s E Es)).
Defined.

End SendPath.
