(* ===== verification/BufferFlow.v ===== *)
(** * Buffered flows: flow/SinglePacketBuffer.c, flow/BufferWriter.c and
      flow/PacketProtoFlow.c

    The single packet buffer carries packets from an input to an output through one
    block of memory; it reads the packets of the device.  The packet flow lets the
    udpgw client write packets at any time: a writer, the encoder of PacketProto.v
    and the packet buffer of PacketBuf.v, joined by the interfaces of Interfaces.v,
    write and frame a packet in place, in the memory of the packet buffer. *)
From stdpp Require Import base list numbers option relations.
From Stdlib Require Import ZArith Lia.
From S2P Require Import Prelude ByteOrder PacketBuf PacketProto Interfaces.
#[local] Open Scope Z_scope.

(** ** The single packet buffer *)
Module SinglePacketBuffer.

(** The buffer [buf] with the interfaces it uses; [ins] and [outs] are the packets
    that the input delivered and that the output finished. *)
Record t := mk_t {
  input : PacketRecvInterface.t; output : PacketPassInterface.t; buf : bytes; ins : list bytes; outs : list bytes
}.
#[global] Instance eta : Eta t := λ o, mk_t (input o) (output o) (buf o) (ins o) (outs o).

Definition input_handler_done (in_len : Z) (o : t) : option t :=
  i ← exec (PacketPassInterface.Sender_Send 0 in_len) (output o); Some (o <| output := i |>).
Definition output_handler_done (o : t) : option t :=
  i ← exec (PacketRecvInterface.Receiver_Recv 0) (input o); Some (o <| input := i |>).

(** [None] inside is a failed initialisation. *)
Definition Init (input : PacketRecvInterface.t) (output : PacketPassInterface.t) (mem : Z → option bytes) :
    option (option t) :=
  _ ← check (PacketRecvInterface.mtu input <=? PacketPassInterface.mtu output);
  input ← exec PacketRecvInterface.Receiver_Init input;
  output ← exec PacketPassInterface.Sender_Init output;
  match mem (PacketRecvInterface.mtu input) with
  | None => Some None
  | Some b =>
      input ← exec (PacketRecvInterface.Receiver_Recv 0) input;
      Some (Some (mk_t input output b [] []))
  end.

(** The provider of the input writes into the buffer and finishes a packet, the
    provider of the output finishes one, the jobs run. *)
Inductive ev := EFill (w : bytes) | EIn (len : Z) | EOut | IOperation | IDone | OOperation | ODone.
Definition enabled (o : t) (e : ev) : bool :=
  match e with
  | EFill w => in_state (PacketRecvInterface.state (input o)) STATE_BUSY && (zlen w <=? PacketRecvInterface.mtu (input o))
  | EIn len => in_state (PacketRecvInterface.state (input o)) STATE_BUSY && (0 <=? len) &&
      (len <=? PacketRecvInterface.mtu (input o))
  | EOut => in_state (PacketPassInterface.state (output o)) STATE_BUSY
  | IOperation => PacketRecvInterface.job_operation (input o)
  | IDone => PacketRecvInterface.job_done (input o)
  | OOperation => PacketPassInterface.job_operation (output o)
  | ODone => PacketPassInterface.job_done (output o)
  end.
Definition icall_run (o : t) (c : icall) : option t :=
  match c with
  | CallRecv _ | CallOperation _ _ => Some o
  | CallDone n => input_handler_done n o
  | CallSent => output_handler_done o
  | CallRequestCancel => None
  end.
Fixpoint icalls (cs : list icall) (o : t) : option t :=
  match cs with [] => Some o | c :: cs => o ← icall_run o c; icalls cs o end.
(** What the output is given: the bytes that are in the buffer. *)
Definition given (o : t) : bytes :=
  read_at (PacketPassInterface.job_operation_data (output o)) (PacketPassInterface.job_operation_len (output o)) (buf o).
Definition step (o : t) (e : ev) : option t :=
  match e with
  | EFill w => Some (o <| buf := write_at (PacketRecvInterface.job_operation_data (input o)) w (buf o) |>)
  | EIn len =>
      i ← exec (PacketRecvInterface.Done len) (input o);
      Some (o <| input := i |>
              <| ins := ins o ++ [read_at (PacketRecvInterface.job_operation_data (input o)) len (buf o)] |>)
  | EOut => i ← exec PacketPassInterface.Done (output o); Some (o <| output := i |> <| outs := outs o ++ [given o] |>)
  | IOperation => '(i, cs) ← fire PacketRecvInterface.run_job_operation (input o); icalls cs (o <| input := i |>)
  | IDone => '(i, cs) ← fire PacketRecvInterface.run_job_done (input o); icalls cs (o <| input := i |>)
  | OOperation => '(i, cs) ← fire PacketPassInterface.run_job_operation (output o); icalls cs (o <| output := i |>)
  | ODone => '(i, cs) ← fire PacketPassInterface.run_job_done (output o); icalls cs (o <| output := i |>)
  end.
Definition moves (o o' : t) : Prop := ∃ e, enabled o e = true ∧ step o e = Some o'.

(** A buffer between a new input and a new output. *)
Definition boot (imtu omtu : Z) (ji : PacketRecvInterface.t) (jo : PacketPassInterface.t) (mem : Z → option bytes) :
    option (option t) :=
  i ← PacketRecvInterface.Init imtu ji; o ← PacketPassInterface.Init omtu jo; Init i o mem.

(** *** Reception and sending take turns *)
#[local] Arguments exec : simpl never.
#[local] Arguments fire : simpl never.
Lemma icalls_one c o : icalls [c] o = icall_run o c.
Proof. simpl. by destruct (icall_run o c). Qed.

(** The input is in state [si] and the output in state [so]; one of them is idle. *)
Record inv (im om : Z) (o : t) (si so : istate) (n : Z) : Prop := mk_inv {
  s_in : pri_is (input o) im si 0 n;
  s_out : ppi_is (output o) om so 0 n;
  s_turn : (si = STATE_NONE ∧ so ≠ STATE_NONE) ∨ (si ≠ STATE_NONE ∧ so = STATE_NONE);
  s_len : 0 ≤ n ≤ im;
  s_mtu : im ≤ om;
  s_ins : ins o = outs o ++ if in_state si STATE_DONE_PENDING || active so then [read_at 0 n (buf o)] else []
}.

Lemma spb_step im om o si so n e : inv im om o si so n → enabled o e = true →
  ∃ o' si' so' n', step o e = Some o' ∧ inv im om o' si' so' n'.
Proof.
  intros [Hi Ho Ht Hn Hm Hs] He. destruct (pri_jobs _ _ _ _ _ Hi) as (Io & Id & Is & Im & Ia).
  destruct (ppi_jobs _ _ _ _ _ Ho) as (Oo & _ & Od & Os & Om & _).
  destruct e; simpl in He; rewrite ?Io, ?Id, ?Is, ?Im, ?Oo, ?Od, ?Os in He.
  - apply andb_true_iff in He as [->%bool_decide_eq_true Hw]. destruct Ht as [[? ?]|[_ ->]]; [done|].
    eexists _, STATE_BUSY, STATE_NONE, n. split; [reflexivity|]. split; try done; by right.
  - apply andb_true_iff in He as [[->%bool_decide_eq_true H0%Z.leb_le]%andb_true_iff H1%Z.leb_le].
    destruct Ht as [[? ?]|[_ ->]]; [done|]. destruct (pri_done _ _ _ _ len Hi ltac:(lia)) as (i & Ei & Hi').
    simpl. rewrite Ei. eexists _, STATE_DONE_PENDING, STATE_NONE, len. split; [reflexivity|].
    split; simpl; try done; [by eapply ppi_any|by right|]. rewrite Hs, app_nil_r. simpl. by rewrite Ia.
  - apply bool_decide_eq_true in He as ->. destruct Ht as [[-> _]|[_ ?]]; [|done]. destruct (ppi_done _ _ _ _ Ho) as (i & Ei & Ho').
    simpl. rewrite Ei. eexists _, STATE_NONE, STATE_DONE_PENDING, n. split; [reflexivity|]. split; simpl; try done; [by left|].
    rewrite Hs, app_nil_r. unfold given. destruct Ho as (d & l & c & -> & [-> ->]); [done|]. done.
  - apply bool_decide_eq_true in He as ->. destruct Ht as [[? ?]|[_ ->]]; [done|]. destruct (pri_operation _ _ _ _ Hi) as (i & Ei & Hi').
    simpl. rewrite Ei. eexists _, STATE_BUSY, STATE_NONE, n. split; [reflexivity|]. split; try done; by right.
  - apply bool_decide_eq_true in He as ->. destruct Ht as [[? ?]|[_ ->]]; [done|]. destruct (pri_finished _ _ _ _ Hi) as (i & Ei & Hi').
    destruct (ppi_send _ _ _ _ 0 n Ho ltac:(lia)) as (p & Ep & Ho').
    simpl. rewrite Ei. cbn [mbind option_bind]. rewrite icalls_one. cbn [icall_run]. unfold input_handler_done. simpl. rewrite Ep.
    eexists _, STATE_NONE, STATE_OPERATION_PENDING, n. split; [reflexivity|]. split; try done; by left.
  - apply bool_decide_eq_true in He as ->. destruct Ht as [[-> _]|[_ ?]]; [|done]. destruct (ppi_operation _ _ _ _ Ho) as (i & Ei & Ho').
    simpl. rewrite Ei. eexists _, STATE_NONE, STATE_BUSY, n. split; [reflexivity|]. split; try done; by left.
  - apply bool_decide_eq_true in He as ->. destruct Ht as [[-> _]|[_ ?]]; [|done]. destruct (ppi_sent _ _ _ _ Ho) as (i & Ei & Ho').
    destruct (pri_recv _ _ _ _ 0 Hi) as (p & Ep & Hi').
    simpl. rewrite Ei. cbn [mbind option_bind]. rewrite icalls_one. cbn [icall_run]. unfold output_handler_done. simpl. rewrite Ep.
    eexists _, STATE_OPERATION_PENDING, STATE_NONE, n. split; [reflexivity|]. split; try done; by right.
Qed.

Lemma spb_moves im om o o' si so n : inv im om o si so n → rtc moves o o' → ∃ si' so' n', inv im om o' si' so' n'.
Proof.
  intros H Hr. revert si so n H. induction Hr as [o|o o1 o2 (e & He & E) _ IH]; intros si so n H; [eauto|].
  destruct (spb_step im om o si so n e H He) as (o1' & si' & so' & n' & E' & H'). rewrite E' in E. injection E as <-. by eapply IH.
Qed.
Lemma spb_boot im om ji jo mem : 0 ≤ im ≤ om → boot im om ji jo mem = Some None ∨
  ∃ o, boot im om ji jo mem = Some (Some o) ∧ inv im om o STATE_OPERATION_PENDING STATE_NONE 0.
Proof.
  intros Hm. destruct (pri_init im ji 0 0 ltac:(lia)) as (i & Ei & Emi & i1 & Ei1 & Hi1).
  destruct (ppi_init om jo 0 0 ltac:(lia)) as (p & Ep & _ & Emp & p1 & Ep1 & Hp1).
  destruct (pri_recv _ _ _ _ 0 Hi1) as (i2 & Ei2 & Hi2).
  unfold boot, Init. rewrite Ei. cbn [mbind option_bind]. rewrite Ep. cbn [mbind option_bind]. rewrite Emi, Emp, (proj2 (Z.leb_le im om)) by lia.
  cbn [check mbind option_bind]. rewrite Ei1. cbn [mbind option_bind]. rewrite Ep1. cbn [mbind option_bind].
  destruct (mem _) as [b|]; [|by left]. right. rewrite Ei2. eexists. split; [reflexivity|]. split; simpl; try done; [by right|lia..].
Qed.

(** The single packet buffer.  In every interleaving of the input writing into the
    one block of memory, the input and the output finishing packets and the jobs,
    no assertion fails; every packet the input delivered is passed on once, in
    order, with the bytes that were in the buffer when it was delivered, and these
    stay in place while the output works on them; and the buffer never stalls: a job
    is set, or the input or the output is at work. *)
Theorem single_packet_buffer im om ji jo mem : 0 ≤ im ≤ om →
  boot im om ji jo mem = Some None ∨
  ∃ o0, boot im om ji jo mem = Some (Some o0) ∧ ∀ o, rtc moves o0 o →
    (∀ e, enabled o e = true → is_Some (step o e)) ∧
    (∃ q, ins o = outs o ++ q ∧ (length q ≤ 1)%nat) ∧
    (active (PacketPassInterface.state (output o)) = true → ins o = outs o ++ [given o]) ∧
    ∃ e, match e with EFill _ => False | _ => enabled o e = true end.
Proof.
  intros Hm. destruct (spb_boot im om ji jo mem Hm) as [?|(o0 & E & H0)]; [by left|]. right. exists o0. split; [done|].
  intros o Hr. destruct (spb_moves _ _ _ _ _ _ _ H0 Hr) as (si & so & n & H). pose proof H as [Hi Ho Ht Hn Hmm Hs].
  destruct (pri_jobs _ _ _ _ _ Hi) as (Io & Id & Is & Im & _), (ppi_jobs _ _ _ _ _ Ho) as (Oo & _ & Od & Os & _).
  split_and!.
  - intros e He. destruct (spb_step im om o si so n e H He) as (o' & ? & ? & ? & -> & _). eauto.
  - eexists. split; [exact Hs|]. destruct (_ || _); simpl; lia.
  - rewrite Os. intros Ha. rewrite Hs. rewrite Ha, orb_true_r. unfold given.
    destruct Ho as (d & l & c & -> & Hdl). by destruct (Hdl Ha) as [-> ->].
  - destruct Ht as [[-> Hso]|[Hsi ->]].
    + destruct so; [done|exists OOperation|exists EOut|exists ODone]; simpl; by rewrite ?Oo, ?Od, ?Os.
    + destruct si; [done|exists IOperation|exists (EIn 0)|exists IDone]; simpl; rewrite ?Io, ?Id, ?Is, ?Im; try done. simpl. lia.
Qed.

(** *** Example: two packets from the device *)
Fixpoint drive (es : list ev) (o : t) : option t :=
  match es with [] => Some o | e :: es => if enabled o e then o ← step o e; drive es o else None end.
Lemma spb_drive_reaches es o o' : drive es o = Some o' → rtc moves o o'.
Proof.
  revert o. induction es as [|e es IH]; cbn [drive]; intros o; [by intros [= ->]; constructor|].
  destruct (enabled o e) eqn:He; [|done]. destruct (step o e) as [o1|] eqn:E; [|done]. cbn [mbind option_bind]. intros H.
  eapply rtc_l; [by exists e|]. by apply IH.
Qed.
Definition j_in : PacketRecvInterface.t := PacketRecvInterface.mk_t 1 true true 2 true 3 STATE_BUSY.
Definition j_out : PacketPassInterface.t := PacketPassInterface.mk_t 1 true true true 2 3 true true STATE_BUSY true.
Definition ex_events : list ev :=
  [IOperation; EFill [1; 2; 3]; EIn 3; IDone; OOperation; EOut; ODone; IOperation; EFill [4; 5]; EFill [6]; EIn 2; IDone; OOperation].
Definition ex_boot : option (option t) := boot 8 9 j_in j_out alloc_zero.
Definition ex_final : option t := o ← ex_boot; o ← o; drive ex_events o.
Lemma spb_ex_ok : (λ o, (ins o, outs o)) <$> ex_final = Some ([[1; 2; 3]; [6; 5]], [[1; 2; 3]]).
Proof. vm_compute. reflexivity. Qed.
Lemma spb_ex_boots : bool_decide (is_Some (ex_boot ≫= id)) = true.
Proof. vm_compute. reflexivity. Qed.
Lemma spb_ex_reached o0 o : ex_boot = Some (Some o0) → ex_final = Some o → rtc moves o0 o.
Proof. unfold ex_final. intros -> H. by eapply spb_drive_reaches. Qed.

Lemma single_packet_buffer_witness :
  match ex_final with
  | Some o => ins o = [[1; 2; 3]; [6; 5]] ∧ outs o = [[1; 2; 3]] ∧ ∃ q, ins o = outs o ++ q ∧ (length q ≤ 1)%nat
  | None => False
  end.
Proof.
  destruct (single_packet_buffer 8 9 j_in j_out alloc_zero ltac:(lia)) as [E|(o0 & E & H)].
  { exfalso. pose proof spb_ex_boots as Hb. unfold ex_boot in Hb. rewrite E in Hb. discriminate Hb. }
  pose proof spb_ex_ok as Hf. destruct ex_final as [o|] eqn:Eo; [|discriminate Hf]. injection Hf as Hi Ho.
  split; [exact Hi|]. split; [exact Ho|]. apply (H o (spb_ex_reached o0 o E Eo)).
Defined.

End SinglePacketBuffer.

(** ** The writer *)
Module BufferWriter.

(** The two fields [d_mtu] and [d_writing] exist where assertions do. *)
Record t := mk_t { out_have : bool; out : Z; d_mtu : Z; d_writing : bool }.
#[global] Instance eta : Eta t := λ o, mk_t (out_have o) (out o) (d_mtu o) (d_writing o).

Inductive act := OutputDone (len : Z).   (** [PacketRecvInterface_Done(&o->recv_interface, len)] *)

Definition output_handler_recv (data : Z) : M t act () :=
  o ← get;
  ASSERT (negb (out_have o));;
  modify (λ o, o <| out_have := true |> <| out := data |>).

(** The writer with the interface it provides. *)
Definition Init (mtu : Z) (junk : t) (recv_interface : PacketRecvInterface.t) : option (t * PacketRecvInterface.t) :=
  if 0 <=? mtu then
    i ← PacketRecvInterface.Init mtu recv_interface;
    Some (junk <| out_have := false |> <| d_mtu := mtu |> <| d_writing := false |>, i)
  else None.
Definition Free (recv_interface : PacketRecvInterface.t) : option PacketRecvInterface.t :=
  exec PacketRecvInterface.Free recv_interface.

(** The place to write to, or [None] when there is none. *)
Definition StartPacket : M t act (option Z) :=
  o ← get;
  ASSERT (negb (d_writing o));;
  if negb (out_have o) then mret None
  else modify (λ o, o <| d_writing := true |>);; mret (Some (out o)).

Definition EndPacket (len : Z) : M t act () :=
  o ← get;
  ASSERT (0 <=? len);; ASSERT (len <=? d_mtu o);; ASSERT (out_have o);; ASSERT (d_writing o);;
  modify (λ o, o <| out_have := false |>);;
  emit (OutputDone len);;
  modify (λ o, o <| d_writing := false |>).

End BufferWriter.

(** ** The packet flow *)
Module PacketProtoFlow.

(** The writer, its interface, the encoder, its interface, and the packet buffer with
    its memory and output; [written] are the packets that were written. *)
Record t := mk_t {
  ainput : BufferWriter.t; wif : PacketRecvInterface.t; encoder : PacketProtoEncoder.t; eif : PacketRecvInterface.t;
  buffer : sys; written : list bytes
}.
#[global] Instance eta : Eta t := λ o, mk_t (ainput o) (wif o) (encoder o) (eif o) (buffer o) (written o).

(** The memory of the packet buffer, into which the writer and the encoder write. *)
Definition store (a : Z) (w : bytes) (o : t) : t :=
  o <| buffer := buffer o <| pb := pb (buffer o) <| PacketBuffer.buf := PacketBuffer.buf (pb (buffer o))
         <| ChunkBuffer2.buffer := write_at a w (memory (buffer o)) |> |> |> |>.
(** The block that the encoder was given. *)
Definition place (o : t) : Z := PacketRecvInterface.job_operation_data (eif o).
Definition block (o : t) : bytes := read_at (place o) (PacketRecvInterface.mtu (eif o)) (memory (buffer o)).

(** The requests of the packet buffer go to the interface of the encoder and to the output. *)
Definition buffer_act (o : t) (a : PacketBuffer.act) : option t :=
  s ← perform (buffer o) a;
  match a with
  | PacketBuffer.Recv (Some d) =>
      i ← exec (PacketRecvInterface.Receiver_Recv d) (eif o); Some (o <| buffer := s |> <| eif := i |>)
  | _ => Some (o <| buffer := s |>)
  end.
Fixpoint buffer_acts (l : list PacketBuffer.act) (o : t) : option t :=
  match l with [] => Some o | a :: l => o ← buffer_act o a; buffer_acts l o end.
Definition on_buffer (m : PacketBuffer.BM ()) (o : t) : option t :=
  match m (pb (buffer o)) with
  | Some (_, b, acts) => buffer_acts acts (o <| buffer := buffer o <| pb := b |> |>)
  | None => None
  end.

(** The encoder works on the block in the memory: it receives behind its header and writes
    the header in place. *)
Definition encoder_act (o : t) (a : PacketProtoEncoder.act) : option t :=
  match a with
  | PacketProtoEncoder.InputRecv off =>
      i ← exec (PacketRecvInterface.Receiver_Recv (place o + off)) (wif o); Some (o <| wif := i |>)
  | PacketProtoEncoder.OutputDone p =>
      i ← exec (PacketRecvInterface.Done (zlen p)) (eif o); Some (store (place o) p o <| eif := i |>)
  end.
Fixpoint encoder_acts (l : list PacketProtoEncoder.act) (o : t) : option t :=
  match l with [] => Some o | a :: l => o ← encoder_act o a; encoder_acts l o end.
Definition on_encoder (m : M PacketProtoEncoder.t PacketProtoEncoder.act ()) (o : t) : option t :=
  '(e, acts) ← fire m (encoder o <| PacketProtoEncoder.output_packet ::= fmap (λ _, block o) |>);
  encoder_acts acts (o <| encoder := e |>).

(** The jobs of the two interfaces. *)
Inductive ev := FPacket (p : bytes) | WOperation | WDone | EOperation | EDone | FOut.
Definition wif_call (o : t) (c : icall) : option t :=
  match c with
  | CallRecv d => w ← exec (BufferWriter.output_handler_recv d) (ainput o); Some (o <| ainput := w |>)
  | CallDone n => on_encoder (PacketProtoEncoder.input_handler_done n) o
  | _ => None
  end.
Definition eif_call (o : t) (c : icall) : option t :=
  match c with
  | CallRecv d => on_encoder (PacketProtoEncoder.output_handler_recv (block o)) o
  | CallDone n => d ← rx (buffer o);
      on_buffer (PacketBuffer.input_handler_done n)
        (o <| buffer := buffer o <| rx := None |> <| ins := ins (buffer o) ++ [read_at d n (memory (buffer o))] |> |>)
  | _ => None
  end.
Fixpoint calls (f : t → icall → option t) (cs : list icall) (o : t) : option t :=
  match cs with [] => Some o | c :: cs => o ← f o c; calls f cs o end.

(** What a user does to send [p]: get a place, write, submit.  Without a place the
    packet is dropped. *)
Definition write_packet (p : bytes) (o : t) : option t :=
  match BufferWriter.StartPacket (ainput o) with
  | Some (None, w, _) => Some (o <| ainput := w |>)
  | Some (Some a, w, _) =>
      let o := store a p o in
      '(w, acts) ← fire (BufferWriter.EndPacket (zlen p)) w;
      i ← foldl (λ i a, i ≫= exec (PacketRecvInterface.Done (match a with BufferWriter.OutputDone n => n end)))
            (Some (wif o)) acts;
      Some (o <| ainput := w |> <| wif := i |> <| written := written o ++ [p] |>)
  | None => None
  end.

(** The encoder with the interface it uses and the one it provides. *)
Definition encoder_Init (input output : PacketRecvInterface.t) :
    option (PacketProtoEncoder.t * PacketRecvInterface.t * PacketRecvInterface.t) :=
  _ ← check (PacketRecvInterface.mtu input <=? PACKETPROTO_MAXPAYLOAD);
  input ← exec PacketRecvInterface.Receiver_Init input;
  output ← PacketRecvInterface.Init (PACKETPROTO_ENCLEN (PacketRecvInterface.mtu input)) output;
  Some (PacketProtoEncoder.Init, input, output).
Definition encoder_Free (output : PacketRecvInterface.t) : option PacketRecvInterface.t :=
  exec PacketRecvInterface.Free output.

(** [out_mtu] is the MTU of the output; [jw], [ji], [je] are what was in memory.
    [None] inside is a failed initialisation, after which the encoder and the writer are freed. *)
Definition Init (input_mtu num_packets out_mtu : Z) (jw : BufferWriter.t) (ji je : PacketRecvInterface.t)
    (mem : Z → option bytes) : option (option t) :=
  _ ← check (0 <=? input_mtu);
  _ ← check (input_mtu <=? PACKETPROTO_MAXPAYLOAD);
  _ ← check (0 <? num_packets);
  _ ← check (PACKETPROTO_ENCLEN input_mtu <=? out_mtu);
  '(w, wi) ← BufferWriter.Init input_mtu jw ji;
  '(e, wi, ei) ← encoder_Init wi je;
  ei ← exec PacketRecvInterface.Receiver_Init ei;
  r ← PacketBuffer.Init (PacketRecvInterface.mtu ei) out_mtu num_packets mem;
  match r with
  | None => _ ← encoder_Free ei; _ ← BufferWriter.Free wi; Some None
  | Some (b, acts) =>
      o ← buffer_acts acts (mk_t w wi e ei (mk_sys b out_mtu None None [] []) []);
      Some (Some o)
  end.
(** The interfaces after [PacketProtoFlow_Free], which frees the memory of the buffer first. *)
Definition Free (o : t) : option (PacketRecvInterface.t * PacketRecvInterface.t) :=
  ei ← encoder_Free (eif o); wi ← BufferWriter.Free (wif o); Some (ei, wi).

Definition enabled (o : t) (e : ev) : bool :=
  match e with
  | FPacket p => zlen p <=? PacketRecvInterface.mtu (wif o)
  | WOperation => PacketRecvInterface.job_operation (wif o)
  | WDone => PacketRecvInterface.job_done (wif o)
  | EOperation => PacketRecvInterface.job_operation (eif o)
  | EDone => PacketRecvInterface.job_done (eif o)
  | FOut => bool_decide (is_Some (tx (buffer o)))
  end.
Definition step (o : t) (e : ev) : option t :=
  match e with
  | FPacket p => write_packet p o
  | WOperation => '(i, cs) ← fire PacketRecvInterface.run_job_operation (wif o); calls wif_call cs (o <| wif := i |>)
  | WDone => '(i, cs) ← fire PacketRecvInterface.run_job_done (wif o); calls wif_call cs (o <| wif := i |>)
  | EOperation => '(i, cs) ← fire PacketRecvInterface.run_job_operation (eif o); calls eif_call cs (o <| eif := i |>)
  | EDone => '(i, cs) ← fire PacketRecvInterface.run_job_done (eif o); calls eif_call cs (o <| eif := i |>)
  | FOut => '(d, l) ← tx (buffer o);
      on_buffer PacketBuffer.output_handler_done
        (o <| buffer := buffer o <| tx := None |> <| outs := outs (buffer o) ++ [read_at d l (memory (buffer o))] |> |>)
  end.
Definition moves (o o' : t) : Prop := ∃ e, enabled o e = true ∧ step o e = Some o'.
(** No job is set. *)
Definition quiet (o : t) : bool :=
  negb (PacketRecvInterface.job_operation (wif o) || PacketRecvInterface.job_done (wif o) ||
        PacketRecvInterface.job_operation (eif o) || PacketRecvInterface.job_done (eif o)).

(** *** The stages of a place *)
#[local] Arguments exec : simpl never.
#[local] Arguments fire : simpl never.
Import PacketBuffer(input_mtu).

(** There is none, it is on its way to the encoder or to the writer, it is ready for
    a packet, or it holds a packet that is on the way back. *)
Inductive stage := NoPlace | ToEncoder | ToWriter | Ready | FromWriter (p : bytes) | FromEncoder (p : bytes).
#[global] Instance stage_eq : EqDecision stage.
Proof. solve_decision. Defined.
Definition stE (st : stage) : istate :=
  match st with
  | NoPlace => STATE_NONE | ToEncoder => STATE_OPERATION_PENDING | FromEncoder _ => STATE_DONE_PENDING | _ => STATE_BUSY
  end.
Definition stW (st : stage) : istate :=
  match st with
  | ToWriter => STATE_OPERATION_PENDING | Ready => STATE_BUSY | FromWriter _ => STATE_DONE_PENDING | _ => STATE_NONE
  end.
Definition on_way (st : stage) : list bytes := match st with FromWriter p | FromEncoder p => [p] | _ => [] end.
(** The answers that are on the way. *)
Definition ansE (st : stage) : Z := match st with FromEncoder p => 2 + zlen p | _ => 0 end.
Definition ansW (st : stage) : Z := match st with FromWriter p => zlen p | _ => 0 end.

Record inv (num m d : Z) (o : t) (st : stage) : Prop := mk_inv {
  f_sys : sys_inv num (buffer o);
  f_mtu : input_mtu (pb (buffer o)) = 2 + m;
  f_m : 0 ≤ m ≤ PACKETPROTO_MAXPAYLOAD;
  f_w : pri_is (wif o) m (stW st) (d + 2) (ansW st);
  f_e : pri_is (eif o) (2 + m) (stE st) d (ansE st);
  f_rx : rx (buffer o) = match st with NoPlace => None | _ => Some d end;
  f_enc : bool_decide (is_Some (PacketProtoEncoder.output_packet (encoder o))) = in_state (stE st) STATE_BUSY;
  f_wr : ∃ x, ainput o = BufferWriter.mk_t (in_state (stW st) STATE_BUSY) x m false ∧ (st = Ready → x = d + 2);
  f_pkt : Forall (λ p, zlen p ≤ m) (on_way st);
  f_mem : match st with
    | FromWriter p => read_at (d + 2) (zlen p) (memory (buffer o)) = p
    | FromEncoder p => read_at d (2 + zlen p) (memory (buffer o)) = frame p
    | _ => True
    end;
  f_written : frame <$> written o = ins (buffer o) ++ (frame <$> on_way st)
}.

Lemma calls_one f c o : calls f [c] o = f o c.
Proof. simpl. by destruct (f o c). Qed.
Lemma encoder_acts_one a o : encoder_acts [a] o = encoder_act o a.
Proof. simpl. by destruct (encoder_act o a). Qed.

(** The requests of the packet buffer reach the interface of the encoder when it is idle. *)
Lemma buffer_acts_run m acts o s' : performs (buffer o) acts = Some s' →
  (rx (buffer o) = None → pri_is (eif o) m STATE_NONE 0 0) →
  ∃ i, buffer_acts acts o = Some (o <| buffer := s' |> <| eif := i |>) ∧
    match rx (buffer o), rx s' with
    | None, Some d => pri_is i m STATE_OPERATION_PENDING d 0
    | None, None => pri_is i m STATE_NONE 0 0
    | Some _, _ => i = eif o ∧ rx s' = rx (buffer o)
    end.
Proof.
  revert o. induction acts as [|a acts IH]; simpl; intros o E He.
  { injection E as <-. exists (eif o). split; [by destruct o|]. destruct (rx (buffer o)); [done|by apply He]. }
  unfold buffer_act. destruct (perform (buffer o) a) as [s1|] eqn:E1; [|done]. simpl in *.
  unfold perform in E1. destruct a as [dd|dd l].
  - destruct (rx (buffer o)) eqn:Er; [by destruct dd|]. destruct dd as [d|]; [|done]. injection E1 as <-.
    destruct (pri_recv _ _ _ _ d (He eq_refl)) as (i & Ei & Hi). rewrite Ei. simpl.
    edestruct (IH (o <| buffer := buffer o <| rx := Some d |> |> <| eif := i |>)) as (i' & E' & Hi'); [exact E|done|].
    rewrite E'. exists i'. split; [done|]. simpl in Hi'. destruct Hi' as [-> ->]. done.
  - destruct (tx (buffer o)); [done|]. destruct dd as [d|]; [|done]. destruct (_ && _); [|done]. injection E1 as <-. simpl.
    edestruct (IH (o <| buffer := buffer o <| tx := Some (d, l) |> |>)) as (i' & E' & Hi'); [exact E|done|].
    rewrite E'. by exists i'.
Qed.
(** A handler of the packet buffer, as PacketBuf.v runs it. *)
Lemma on_buffer_run m f o s' : call f (buffer o) = Some s' →
  (rx (buffer o) = None → pri_is (eif o) m STATE_NONE 0 0) →
  ∃ i, on_buffer f o = Some (o <| buffer := s' |> <| eif := i |>) ∧
    match rx (buffer o), rx s' with
    | None, Some d => pri_is i m STATE_OPERATION_PENDING d 0
    | None, None => pri_is i m STATE_NONE 0 0
    | Some _, _ => i = eif o ∧ rx s' = rx (buffer o)
    end.
Proof.
  unfold call, on_buffer. destruct (f (pb (buffer o))) as [[[[] b] acts]|]; [|done]. intros E He.
  edestruct (buffer_acts_run m acts (o <| buffer := buffer o <| pb := b |> |>)) as (i & Ei & Hi); [exact E|exact He|].
  rewrite Ei. by exists i.
Qed.

Lemma fire_EndPacket x m n : 0 ≤ n ≤ m →
  fire (BufferWriter.EndPacket n) (BufferWriter.mk_t true x m true) =
  Some (BufferWriter.mk_t false x m false, [BufferWriter.OutputDone n]).
Proof. intros H. unfold BufferWriter.EndPacket. by run_fire. Qed.

(** The encoder turns a block with a packet behind its header into the frame. *)
Lemma encode_block data p : zlen p ≤ PACKETPROTO_MAXPAYLOAD → 2 + zlen p ≤ zlen data → read_at 2 (zlen p) data = p →
  take (Z.to_nat (PACKETPROTO_ENCLEN (zlen p))) (write_at 0 (store16 (htol16 (zlen p))) data) = frame p.
Proof.
  intros Hp Hd Hr. pose proof (zlen_nonneg p). unfold PACKETPROTO_ENCLEN, SIZEOF_packetproto_header, frame.
  change (take (Z.to_nat (2 + zlen p)) ?l) with (read_at 0 (2 + zlen p) l).
  assert (zlen (store16 (htol16 (zlen p))) = 2) as H2 by reflexivity.
  pose proof (read_at_write_at 0 (store16 (htol16 (zlen p))) data ltac:(lia) ltac:(lia)) as Hh. rewrite H2 in Hh.
  rewrite read_at_app, Hh, read_at_write_at_after by lia. f_equal. exact Hr.
Qed.

Section Steps.
Context (num m : Z).

Lemma step_EOperation d o : inv num m d o ToEncoder → ∃ o', step o EOperation = Some o' ∧ inv num m d o' ToWriter.
Proof.
  intros [Hs Hmt Hm Hw He Hr Hc (x & Hx & _) Hp Hme Hwr]. destruct (pri_operation _ _ _ _ He) as (e & Ee & He').
  destruct (pri_recv _ _ _ _ (d + 2) Hw) as (w & Ew & Hw'). simpl. rewrite Ee. cbn [mbind option_bind]. rewrite calls_one.
  cbn [eif_call]. unfold on_encoder. destruct o as [ai wi [op] ei bu wr]. simpl in *. destruct op; [done|]. simpl.
  unfold fire, PacketProtoEncoder.output_handler_recv. cbn [mbind M_bind get ASSERT modify emit]. simpl.
  change SIZEOF_packetproto_header with 2. destruct (pri_jobs _ _ _ _ _ He') as (_ & _ & _ & _ & Hpl). unfold place at 1. simpl.
  rewrite (Hpl eq_refl), Ew. eexists. split; [reflexivity|]. split; simpl; try done. by exists x.
Qed.
Lemma step_WOperation d o : inv num m d o ToWriter → ∃ o', step o WOperation = Some o' ∧ inv num m d o' Ready.
Proof.
  intros [Hs Hmt Hm Hw He Hr Hc (x & Hx & _) Hp Hme Hwr]. destruct (pri_operation _ _ _ _ Hw) as (w & Ew & Hw').
  simpl. rewrite Ew. cbn [mbind option_bind]. rewrite calls_one. cbn [wif_call]. simpl. rewrite Hx.
  eexists. split; [reflexivity|]. split; simpl; try done. by exists (d + 2).
Qed.
Lemma step_FPacket d o st p : inv num m d o st → zlen p ≤ m → ∃ o' st', step o (FPacket p) = Some o' ∧ inv num m d o' st' ∧
  written o' = written o ++ (if BufferWriter.out_have (ainput o) then [p] else []).
Proof.
  intros H Hlen. pose proof H as [Hs Hmt Hm Hw He Hr Hc (x & Hx & Hx2) Hp Hme Hwr]. pose proof (zlen_nonneg p).
  simpl. unfold write_packet, BufferWriter.StartPacket. rewrite Hx. cbn [mbind M_bind get ASSERT modify emit]. simpl.
  destruct (in_state (stW st) STATE_BUSY) eqn:Est; simpl.
  - apply bool_decide_eq_true in Est. assert (st = Ready) as -> by (by destruct st). rewrite (Hx2 eq_refl) in *. clear x Hx2.
    destruct (pri_done _ _ _ _ (zlen p) Hw ltac:(lia)) as (w & Ew & Hw').
    setoid_rewrite (fire_EndPacket (d + 2) m (zlen p) ltac:(lia)). simpl. rewrite Ew. simpl.
    eexists _, (FromWriter p). split; [reflexivity|]. destruct (rx_bounds num _ d Hs Hr) as [Hd0 Hd1]. rewrite Hmt in Hd1.
    split; [|done]. split; simpl; try done.
    + eapply write_inv; [exact Hs|exact Hr|lia|rewrite Hmt; lia].
    + eexists. by split.
    + by repeat constructor.
    + change (read_at (d + 2) (zlen p) (write_at (d + 2) p (memory (buffer o))) = p). apply read_at_write_at; lia.
    + by rewrite fmap_app, Hwr, app_nil_r.
  - eexists _, st. split; [reflexivity|]. split; [|by rewrite app_nil_r]. split; try done. simpl. exists x. by rewrite Est.
Qed.
Lemma step_WDone d o p : inv num m d o (FromWriter p) → ∃ o', step o WDone = Some o' ∧ inv num m d o' (FromEncoder p).
Proof.
  intros [Hs Hmt Hm Hw He Hr Hc Hx Hp Hme Hwr]. pose proof (zlen_nonneg p). apply list.Forall_cons in Hp as [Hp _]. simpl in Hp.
  destruct (pri_finished _ _ _ _ Hw) as (w & Ew & Hw'). destruct (rx_bounds num _ d Hs Hr) as [H0 H1]. rewrite Hmt in H1.
  simpl. rewrite Ew. cbn [mbind option_bind]. rewrite calls_one. cbn [wif_call].
  destruct (pri_jobs _ _ _ _ _ He) as (_ & _ & _ & Em & Hpl). specialize (Hpl eq_refl).
  assert (zlen p ≤ PACKETPROTO_MAXPAYLOAD) as Hmax by lia.
  unfold on_encoder. destruct o as [ai wi [op] ei bu wr]. simpl in *. destruct op as [data|]; [|done]. simpl.
  set (blk := block _). assert (blk = read_at d (2 + m) (memory bu)) as Hb by (unfold blk, block, place; simpl; by rewrite Hpl, Em).
  rewrite (encode_block blk p); [|exact Hmax|rewrite Hb, zlen_read_at; lia|rewrite Hb, read_at_read_at by lia; exact Hme].
  rewrite frame_length. simpl. destruct (pri_done _ _ _ _ (2 + zlen p) He ltac:(lia)) as (e & Ee & He'). rewrite Ee. simpl.
  unfold place at 1. simpl. rewrite Hpl. eexists. split; [reflexivity|]. pose proof (frame_length p) as Hfl.
  split; simpl; try done.
  - eapply write_inv; [exact Hs|exact Hr|lia|rewrite Hmt; lia].
  - by eapply pri_any.
  - destruct Hx as (x & ? & _). by exists x.
  - by repeat constructor.
  - change (read_at d (2 + zlen p) (write_at d (frame p) (memory bu)) = frame p). rewrite <- Hfl. apply read_at_write_at; lia.
Qed.
Lemma step_EDone d o p : inv num m d o (FromEncoder p) → ∃ o' d' st', step o EDone = Some o' ∧ inv num m d' o' st'.
Proof.
  intros [Hs Hmt Hm Hw He Hr Hc Hx Hp Hme Hwr]. pose proof (zlen_nonneg p). apply list.Forall_cons in Hp as [Hp _]. simpl in Hp.
  destruct (pri_finished _ _ _ _ He) as (e & Ee & He').
  destruct (sys_step_ok num (buffer o) (PacketBuf.EIn (2 + zlen p)) Hs) as (s' & E & Hs').
  { simpl. rewrite Hr, Hmt. simpl. lia. }
  destruct (in_keeps num _ s' d (2 + zlen p) Hs Hr) as [Ei Em]; [lia|exact E|]. simpl in E. rewrite Hr in E. simpl in E.
  simpl. rewrite Ee. cbn [mbind option_bind]. rewrite calls_one. cbn [eif_call].
  simpl. rewrite Hr. simpl.
  edestruct (on_buffer_run (2 + m) (PacketBuffer.input_handler_done (2 + zlen p))
    (o <| eif := e |> <| buffer := buffer o <| rx := None |> <| ins := ins (buffer o) ++ [read_at d (2 + zlen p) (memory (buffer o))] |> |>))
    as (i & Eo & Hi); [exact E|intros _; by eapply pri_any|].
  rewrite Eo. simpl in Hi. destruct (rx s') as [d'|] eqn:Er.
  - eexists _, d', ToEncoder. split; [reflexivity|]. split; simpl; try done.
    + by rewrite Em.
    + by eapply pri_any.
    + destruct Hx as (x & ? & _). by exists x.
    + by rewrite Ei, Hme, app_nil_r.
  - eexists _, d, NoPlace. split; [reflexivity|]. split; simpl; try done.
    + by rewrite Em.
    + by eapply pri_any.
    + destruct Hx as (x & ? & _). by exists x.
    + by rewrite Ei, Hme, app_nil_r.
Qed.
Lemma step_FOut d o st : inv num m d o st → is_Some (tx (buffer o)) → ∃ o' d' st', step o FOut = Some o' ∧ inv num m d' o' st'.
Proof.
  intros [Hs Hmt Hm Hw He Hr Hc Hx Hp Hme Hwr] [[a l] Ht].
  destruct (sys_step_ok num (buffer o) PacketBuf.EOut Hs) as (s' & E & Hs'); [simpl; by rewrite Ht|].
  destruct (out_keeps num _ _ Hs E) as (Emm & Em & Ei & Erx). simpl in E. rewrite Ht in E. simpl in E.
  simpl. rewrite Ht. simpl.
  edestruct (on_buffer_run (2 + m) PacketBuffer.output_handler_done
    (o <| buffer := buffer o <| tx := None |> <| outs := outs (buffer o) ++ [read_at a l (memory (buffer o))] |> |>))
    as (i & Eo & Hi); [exact E| |].
  { simpl. rewrite Hr. destruct st; try done. intros _. by eapply pri_any. }
  rewrite Eo. simpl in Hi. destruct (decide (st = NoPlace)) as [->|Hst].
  - rewrite Hr in Hi. destruct (rx s') as [d'|] eqn:Er.
    + eexists _, d', ToEncoder. split; [reflexivity|]. split; simpl; try done; [by rewrite Em|by eapply pri_any|by destruct Hx as (x & ? & _); exists x|by rewrite Ei].
    + eexists _, d, NoPlace. split; [reflexivity|]. split; simpl; try done; [by rewrite Em|by eapply pri_any|by rewrite Ei].
  - assert (rx (buffer o) = Some d) as Hd by (rewrite Hr; by destruct st). rewrite Hd in Hi. destruct Hi as [-> Er].
    eexists _, d, st. split; [reflexivity|]. split; simpl; try done; [by rewrite Em|rewrite Er; by destruct st|by rewrite Emm|by rewrite Ei].
Qed.

Lemma step_any d o st e : inv num m d o st → enabled o e = true → ∃ o' d' st', step o e = Some o' ∧ inv num m d' o' st'.
Proof.
  intros H He. pose proof H as [_ _ _ Hw He' _ _ _ _ _ _].
  destruct (pri_jobs _ _ _ _ _ Hw) as (Wo & Wd & _ & Wm & _), (pri_jobs _ _ _ _ _ He') as (Eo & Ed & _).
  destruct e as [p| | | | |]; simpl in He; rewrite ?Wo, ?Wd, ?Wm, ?Eo, ?Ed in He.
  - apply Z.leb_le in He. destruct (step_FPacket d o st p H He) as (o' & st' & ? & ? & _). eauto.
  - assert (st = ToWriter) as -> by (by destruct st). destruct (step_WOperation d o H) as (o' & ? & ?). eauto.
  - assert (∃ p, st = FromWriter p) as [p ->] by (destruct st; try done; eauto). destruct (step_WDone d o p H) as (o' & ? & ?). eauto.
  - assert (st = ToEncoder) as -> by (by destruct st). destruct (step_EOperation d o H) as (o' & ? & ?). eauto.
  - assert (∃ p, st = FromEncoder p) as [p ->] by (destruct st; try done; eauto). by apply (step_EDone d o p).
  - apply bool_decide_eq_true in He. by apply (step_FOut d o st).
Qed.
Lemma flow_moves d o o' st : inv num m d o st → rtc moves o o' → ∃ d' st', inv num m d' o' st'.
Proof.
  intros H Hr. revert d st H. induction Hr as [o|o o1 o2 (e & He & E) _ IH]; intros d st H; [eauto|].
  destruct (step_any d o st e H He) as (o1' & d' & st' & E' & H'). rewrite E' in E. injection E as <-. by eapply IH.
Qed.
Lemma flow_quiet d o st : inv num m d o st → quiet o = true → st = NoPlace ∨ st = Ready.
Proof.
  intros [_ _ _ Hw He _ _ _ _ _ _]. destruct (pri_jobs _ _ _ _ _ Hw) as (Wo & Wd & _), (pri_jobs _ _ _ _ _ He) as (Eo & Ed & _).
  unfold quiet. rewrite Wo, Wd, Eo, Ed. destruct st; try done; auto.
Qed.
End Steps.

Lemma buffer_Init_mtu i o n mem b acts : PacketBuffer.Init i o n mem = Some (Some (b, acts)) → input_mtu b = i.
Proof.
  unfold PacketBuffer.Init. destruct (check (i <=? o)), (check (0 <? n)); simpl; try done. destruct (_ <? 0); [done|].
  destruct (mem _); [|done]. destruct (ChunkBuffer2.Init _ _ _); simpl; [|done]. by intros [= <- _].
Qed.
#[local] Arguments PacketRecvInterface.Init : simpl never.
#[local] Arguments PacketBuffer.Init : simpl never.
Lemma flow_Init num m omtu jw ji je mem : 0 ≤ m ≤ PACKETPROTO_MAXPAYLOAD → 2 + m ≤ omtu → 0 < num → mem_ok mem →
  4 * ChunkBuffer2.calc_blocks (2 + m) num ≤ INT_MAX →
  Init m num omtu jw ji je mem = Some None ∨
  ∃ o d st, Init m num omtu jw ji je mem = Some (Some o) ∧ inv num m d o st.
Proof.
  intros Hm Ho Hn Hmem Hi. unfold Init, BufferWriter.Init, encoder_Init, encoder_Free, BufferWriter.Free, PACKETPROTO_ENCLEN, SIZEOF_packetproto_header.
  rewrite (proj2 (Z.leb_le 0 m)), (proj2 (Z.leb_le m _)), (proj2 (Z.ltb_lt 0 num)), (proj2 (Z.leb_le (2 + m) omtu)) by lia.
  destruct (pri_init m ji 0 0 ltac:(lia)) as (w & Ew & Emw & w1 & Ew1 & Hw1). cbn [check mbind option_bind]. rewrite Ew. simpl.
  rewrite Emw, (proj2 (Z.leb_le m _)) by lia. simpl. rewrite Ew1. simpl. destruct (pri_jobs _ _ _ _ _ Hw1) as (_ & _ & _ & -> & _).
  destruct (pri_init (2 + m) je 0 0 ltac:(lia)) as (e & Ee & _ & e1 & Ee1 & He1). rewrite Ee. simpl. rewrite Ee1. simpl.
  destruct (pri_jobs _ _ _ _ _ He1) as (_ & _ & _ & -> & _).
  destruct (boot_ok (2 + m) omtu num mem) as [E|(s & E & Hs & Hins & Hout)]; [lia|done..| |];
    unfold boot in E; destruct (PacketBuffer.Init (2 + m) omtu num mem) as [[[b acts]|]|] eqn:Eb; try done; simpl in *.
  - by destruct (performs _ acts).
  - by left.
  - destruct (performs _ acts) as [s1|] eqn:Ep; [|done]. injection E as ->. right.
    edestruct (buffer_acts_run (2 + m) acts (mk_t (jw <| BufferWriter.out_have := false |> <| BufferWriter.d_mtu := m |>
      <| BufferWriter.d_writing := false |>) w1 PacketProtoEncoder.Init e1 (mk_sys b omtu None None [] []) [])) as (i & Ei & Hf);
      [exact Ep|done|]. rewrite Ei. simpl in Hf. apply performs_keep in Ep as (Epb & _). simpl in Epb.
    apply buffer_Init_mtu in Eb. destruct (rx s) as [d|] eqn:Er.
    + eexists _, d, ToEncoder. split; [reflexivity|]. split; simpl; try done; [by rewrite Epb|by eapply pri_any|by eexists|by rewrite Hins].
    + eexists _, 0, NoPlace. split; [reflexivity|]. split; simpl; try done; [by rewrite Epb|by eapply pri_any|by eexists|by rewrite Hins].
Qed.

(** C32: The packet flow.  In every interleaving of packets being written, jobs and
    sends finishing, no assertion of the writer, the encoder, the packet buffer or
    their interfaces fails, on the one memory they share; the frames of the packets
    that were written go out, in order and whole, each with its length in front and
    in place while it is being sent; a packet is taken exactly when the
    writer has a place for it and is dropped otherwise; and when the jobs have run,
    the writer has a place whenever fewer than [num_packets] packets wait.
    Initialisation fails only by its return value.  (Assumes that the buffer has at
    most [INT_MAX] bytes.) *)
Theorem packet_flow num m omtu jw ji je mem : 0 ≤ m ≤ PACKETPROTO_MAXPAYLOAD → 2 + m ≤ omtu → 0 < num → mem_ok mem →
  4 * ChunkBuffer2.calc_blocks (2 + m) num ≤ INT_MAX →
  Init m num omtu jw ji je mem = Some None ∨
  ∃ o0, Init m num omtu jw ji je mem = Some (Some o0) ∧ ∀ o, rtc moves o0 o →
    (∀ e, enabled o e = true → is_Some (step o e)) ∧
    (∃ q, frame <$> written o = outs (buffer o) ++ q) ∧
    match tx (buffer o) with
    | Some (d, l) => (frame <$> written o) !! length (outs (buffer o)) = Some (read_at d l (memory (buffer o)))
    | None => quiet o = true → frame <$> written o = outs (buffer o)
    end ∧
    (∀ p, zlen p ≤ m → ∃ o', step o (FPacket p) = Some o' ∧
       written o' = written o ++ if BufferWriter.out_have (ainput o) then [p] else []) ∧
    (quiet o = true → zlen (written o) - zlen (outs (buffer o)) < num → BufferWriter.out_have (ainput o) = true).
Proof.
  intros Hm Ho Hn Hmem Hi. destruct (flow_Init num m omtu jw ji je mem Hm Ho Hn Hmem Hi) as [?|(o0 & d0 & st0 & E0 & H0)]; [by left|].
  right. exists o0. split; [done|]. intros o Hr. destruct (flow_moves num m d0 o0 o st0 H0 Hr) as (d & st & H).
  pose proof H as [Hs _ _ _ _ Hrx _ (x & Hx & _) _ _ Hwr]. pose proof (sys_inv_tx _ _ Hs) as Htx. split_and!.
  - intros e He. destruct (step_any num m d o st e H He) as (o' & _ & _ & -> & _). eauto.
  - destruct Hs as (q & _ & Hq & _). rewrite Hwr, Hq, <- app_assoc. eauto.
  - destruct (tx (buffer o)) as [[a l]|]; rewrite Hwr.
    + apply lookup_lt_Some in Htx as Hlt. by rewrite lookup_app_l.
    + intros Hq. rewrite Htx. destruct (flow_quiet num m d o st H Hq) as [-> | ->]; apply app_nil_r.
  - intros p Hp. destruct (step_FPacket num m d o st p H Hp) as (o' & _ & ? & _ & ?). eauto.
  - intros Hq Hroom. destruct (flow_quiet num m d o st H Hq) as [-> | ->]; [|by rewrite Hx]. exfalso.
    destruct (sys_inv_room _ _ Hs) as [a Ha]; [|congruence]. rewrite app_nil_r in Hwr. apply (f_equal zlen) in Hwr.
    unfold zlen in *. rewrite length_fmap in Hwr. lia.
Qed.

(** *** Example: packets of up to 6 bytes, room for two frames *)
Fixpoint drive (es : list ev) (o : t) : option t :=
  match es with [] => Some o | e :: es => if enabled o e then o ← step o e; drive es o else None end.
Lemma flow_drive_reaches es o o' : drive es o = Some o' → rtc moves o o'.
Proof.
  revert o. induction es as [|e es IH]; cbn [drive]; intros o; [by intros [= ->]; constructor|].
  destruct (enabled o e) eqn:He; [|done]. destruct (step o e) as [o1|] eqn:E; [|done]. cbn [mbind option_bind]. intros H.
  eapply rtc_l; [by exists e|]. by apply IH.
Qed.
Definition j_w : BufferWriter.t := BufferWriter.mk_t true 1 2 true.
Definition j_if : PacketRecvInterface.t := PacketRecvInterface.mk_t 1 true true 2 true 3 STATE_BUSY.
Definition ready : list ev := [EOperation; WOperation].
Definition ex_events : list ev :=
  [FPacket [99]] ++ ready ++ [FPacket [1; 2; 3]; FPacket [98]; WDone; EDone] ++ ready ++ [FPacket [4; 5; 6; 7; 8; 9]; FOut; WDone; EDone] ++ ready.
Definition ex_boot : option (option t) := Init 6 2 10 j_w j_if j_if alloc_zero.
Definition ex_final : option t := o ← ex_boot; o ← o; drive ex_events o.
Lemma flow_ex_ok : (λ o, (written o, outs (buffer o))) <$> ex_final = Some ([[1; 2; 3]; [4; 5; 6; 7; 8; 9]], [[3; 0; 1; 2; 3]]).
Proof. vm_compute. reflexivity. Qed.
Lemma flow_ex_boots : bool_decide (is_Some (ex_boot ≫= id)) = true.
Proof. vm_compute. reflexivity. Qed.
Lemma flow_ex_reached o0 o : ex_boot = Some (Some o0) → ex_final = Some o → rtc moves o0 o.
Proof. unfold ex_final. intros -> H. by eapply flow_drive_reaches. Qed.

Lemma packet_flow_witness :
  match ex_final with
  | Some o => written o = [[1; 2; 3]; [4; 5; 6; 7; 8; 9]] ∧ outs (buffer o) = [[3; 0; 1; 2; 3]] ∧
      ∃ q, frame <$> written o = outs (buffer o) ++ q
  | None => False
  end.
Proof.
  assert (Hm : mem_ok alloc_zero) by exact alloc_zero_ok.
  destruct (packet_flow 2 6 10 j_w j_if j_if alloc_zero ltac:(vm_compute; split; discriminate) ltac:(lia) ltac:(lia) Hm
    ltac:(vm_compute; discriminate)) as [E|(o0 & E & H)].
  { exfalso. pose proof flow_ex_boots as Hb. unfold ex_boot in Hb. rewrite E in Hb. discriminate Hb. }
  pose proof flow_ex_ok as Hf. destruct ex_final as [o|] eqn:Eo; [|discriminate Hf]. injection Hf as Hi Ho.
  split; [exact Hi|]. split; [exact Ho|]. apply (H o (flow_ex_reached o0 o E Eo)).
Defined.

End PacketProtoFlow.
