(* ===== verification/RecvPath.v ===== *)
(** * Receiving path of the udpgw client: flow/PacketProtoDecoder.c between its interfaces

    The udpgw client receives the bytes of its server through the decoder: the stream
    of the connection writes them into the decoder's buffer, and complete packets are
    passed on from there, without a copy.  The decoder of PacketProto.v is joined here
    with the interfaces of Interfaces.v, on whose jobs every request and every answer
    travels; the bytes are written while an operation is at work, in any number of
    writes, and only the part that the stream then reports counts. *)
From stdpp Require Import base list numbers option relations.
From Stdlib Require Import ZArith Lia.
From S2P Require Import Prelude ByteOrder PacketProto Interfaces.
#[local] Open Scope Z_scope.

Module RecvPath.
Import PacketProtoDecoder.

(** The decoder with the interfaces it uses; [failed] is that [handler_error] was called, [ins] the bytes
    that the input has delivered and [outs] the packets that the output has finished. *)
Record path := mk_path {
  dec : t; input : StreamRecvInterface.t; output : PacketPassInterface.t;
  failed : bool; ins : bytes; outs : list bytes
}.
#[global] Instance eta_path : Eta path := λ o, mk_path (dec o) (input o) (output o) (failed o) (ins o) (outs o).

(** The calls of the decoder. *)
Definition call (o : path) (a : act) : option path :=
  match a with
  | Send off data => i ← exec (PacketPassInterface.Sender_Send off (zlen data)) (output o); Some (o <| output := i |>)
  | Recv off avail => i ← exec (StreamRecvInterface.Receiver_Recv off avail) (input o); Some (o <| input := i |>)
  | HandlerError => Some (o <| failed := true |>)
  end.
Fixpoint calls (l : list act) (o : path) : option path :=
  match l with [] => Some o | a :: l => o ← call o a; calls l o end.
Definition handler (m : M t act ()) (o : path) : option path :=
  match m (dec o) with Some (_, d, acts) => calls acts (o <| dec := d |>) | None => None end.

(** [PacketProtoDecoder_Init]; [None] inside is a failed initialisation. *)
Definition connect (input : StreamRecvInterface.t) (output : PacketPassInterface.t) (mem : Z → option bytes) :
    option (option path) :=
  input ← exec StreamRecvInterface.Receiver_Init input;
  output ← exec PacketPassInterface.Sender_Init output;
  match Init (PacketPassInterface.mtu output) mem with
  | None => Some None
  | Some (d, acts) => o ← calls acts (mk_path d input output false [] []); Some (Some o)
  end.
Definition boot (mtu : Z) (ji : StreamRecvInterface.t) (jo : PacketPassInterface.t) (mem : Z → option bytes) :
    option (option path) :=
  out ← PacketPassInterface.Init mtu jo; connect (StreamRecvInterface.Init ji) out mem.

(** The stream writes into the region it was given and finishes, the output finishes
    with a packet, the jobs run.  Nothing happens any more after an error: the owner
    frees the connection ([decoder_handler_error] of udpgw_client/UdpGwClient.c). *)
Inductive ev := EFill (w : bytes) | EIn (len : Z) | EOut | IOperation | IDone | OOperation | ODone.
Definition enabled (o : path) (e : ev) : bool :=
  negb (failed o) && match e with
  | EFill w => in_state (StreamRecvInterface.state (input o)) STATE_BUSY && bool_decide (bytes_ok w) &&
      (zlen w <=? StreamRecvInterface.job_operation_len (input o))
  | EIn len => in_state (StreamRecvInterface.state (input o)) STATE_BUSY && (0 <? len) &&
      (len <=? StreamRecvInterface.job_operation_len (input o))
  | EOut => in_state (PacketPassInterface.state (output o)) STATE_BUSY
  | IOperation => StreamRecvInterface.job_operation (input o)
  | IDone => StreamRecvInterface.job_done (input o)
  | OOperation => PacketPassInterface.job_operation (output o)
  | ODone => PacketPassInterface.job_done (output o)
  end.
Definition icall_run (o : path) (c : icall) : option path :=
  match c with
  | CallOperation _ _ => Some o
  | CallDone n => handler (input_handler_done n) o
  | CallSent => handler output_handler_done o
  | CallRecv _ | CallRequestCancel => None
  end.
Fixpoint icalls (cs : list icall) (o : path) : option path :=
  match cs with [] => Some o | c :: cs => o ← icall_run o c; icalls cs o end.
(** What the output is given: the bytes that are in the buffer. *)
Definition given (o : path) : bytes :=
  read_at (PacketPassInterface.job_operation_data (output o)) (PacketPassInterface.job_operation_len (output o))
    (buf (dec o)).
Definition step (o : path) (e : ev) : option path :=
  match e with
  | EFill w =>
      Some (o <| dec := dec o <| buf := write_at (StreamRecvInterface.job_operation_data (input o)) w (buf (dec o)) |> |>)
  | EIn len =>
      i ← exec (StreamRecvInterface.Done len) (input o);
      Some (o <| input := i |>
              <| ins := ins o ++ read_at (StreamRecvInterface.job_operation_data (input o)) len (buf (dec o)) |>)
  | EOut => i ← exec PacketPassInterface.Done (output o); Some (o <| output := i |> <| outs := outs o ++ [given o] |>)
  | IOperation => '(i, cs) ← fire StreamRecvInterface.run_job_operation (input o); icalls cs (o <| input := i |>)
  | IDone => '(i, cs) ← fire StreamRecvInterface.run_job_done (input o); icalls cs (o <| input := i |>)
  | OOperation => '(i, cs) ← fire PacketPassInterface.run_job_operation (output o); icalls cs (o <| output := i |>)
  | ODone => '(i, cs) ← fire PacketPassInterface.run_job_done (output o); icalls cs (o <| output := i |>)
  end.
Definition moves (o o' : path) : Prop := ∃ e, enabled o e = true ∧ step o e = Some o'.

(** ** The decoder waits for its input, for its output, or has failed *)
#[local] Arguments exec : simpl never.
#[local] Arguments fire : simpl never.
#[local] Arguments process_data : simpl never.
Lemma recv_icalls_one c o : icalls [c] o = icall_run o c.
Proof. simpl. by destruct (icall_run o c). Qed.

(** [mt] is the largest packet that is decoded. *)
Section Invariant.
Context (om : Z) (Hom : 0 ≤ om).
Abbreviation mt := (Z.min om PACKETPROTO_MAXPAYLOAD).

(** What holds whatever the decoder waits for: its packets [ps] and the bytes [rest] behind them are what
    was received. *)
Record good (o : path) (ps : list bytes) (rest : bytes) : Prop := mk_good {
  g_dec : dec_ok (dec o); g_mtu : output_mtu (dec o) = mt;
  g_small : Forall (λ p, zlen p ≤ mt) ps; g_ins : ins o = frames ps ++ rest
}.
(** The input works on the request for the free end of the buffer; [n] bytes are answered if it has finished. *)
Record receiving (o : path) (si : istate) (n : Z) : Prop := mk_receiving {
  r_live : failed o = false;
  r_in : sri_is (input o) si (buf_start (dec o) + buf_used (dec o)) (buf_size (dec o) - (buf_start (dec o) + buf_used (dec o))) n;
  r_busy : si ≠ STATE_NONE;
  r_out : ppi_is (output o) om STATE_NONE 0 0;
  r_room : 0 < n ≤ buf_size (dec o) - (buf_start (dec o) + buf_used (dec o));
  r_need : decode_head mt (pending (dec o)) = Incomplete;
  r_good : good o (outs o) (pending (dec o) ++
    if in_state si STATE_DONE_PENDING then read_at (buf_start (dec o) + buf_used (dec o)) n (buf (dec o)) else [])
}.
(** The output works on the packet of [l] bytes at [d]. *)
Record sending (o : path) (so : istate) (d l : Z) : Prop := mk_sending {
  s_live : failed o = false;
  s_in : sri_is (input o) STATE_NONE 0 0 0;
  s_out : ppi_is (output o) om so d l;
  s_busy : so ≠ STATE_NONE;
  s_good : good o (outs o ++ if active so then [read_at d l (buf (dec o))] else []) (pending (dec o))
}.
Inductive inv (o : path) : Prop :=
| inv_receiving si n : receiving o si n → inv o
| inv_sending so d l : sending o so d l → inv o
| inv_failed bad : failed o = true → good o (outs o) bad → decode_head mt bad = TooLarge → inv o.

(** [process_data] finds the next thing to wait for. *)
Lemma recv_process o : failed o = false → sri_is (input o) STATE_NONE 0 0 0 → ppi_is (output o) om STATE_NONE 0 0 →
  good o (outs o) (pending (dec o)) → ∃ o', handler process_data o = Some o' ∧ inv o'.
Proof.
  intros Hf Hi Ho [Hd Hm Hs Hins]. pose proof (process_data_spec (dec o) Hd) as Hw.
  pose proof (decode_head_Packet mt (pending (dec o))) as Hp.
  apply wp_some in Hw as ([] & d' & acts & E & Hd' & Hm' & Hw). unfold handler. rewrite E. rewrite Hm in Hw, Hm'.
  assert (bytes_ok (pending (dec o))) as Hb by apply bytes_ok_read_at, Hd.
  destruct (decode_head mt (pending (dec o))) as [| |p rest] eqn:Eh.
  - destruct Hw as (off & avail & -> & Ep & -> & -> & Hav). cbn [calls call].
    destruct (sri_recv _ _ _ _ (buf_start d' + buf_used d') (buf_size d' - (buf_start d' + buf_used d')) Hi Hav) as (i & Ei & Hi').
    simpl. rewrite Ei. eexists. split; [reflexivity|]. apply (inv_receiving _ STATE_OPERATION_PENDING 1).
    split; simpl; try done; [|lia|by rewrite Ep|].
    + destruct Hi' as (x & y & z & -> & H & _). by exists x, y, z.
    + by split; simpl; rewrite ?app_nil_r, ?Ep.
  - destruct Hw as [-> _]. cbn [calls call].
    destruct (sri_recv _ _ _ _ 0 (buf_size d') Hi) as (i & Ei & Hi'); [destruct Hd'; lia|].
    simpl. rewrite Ei. eexists. split; [reflexivity|]. by apply (inv_failed _ (pending (dec o))).
  - destruct Hw as (off & -> & Er & Eg). destruct (Hp p rest Hb eq_refl) as [Hl Ef]. cbn [calls call].
    destruct (ppi_send _ _ _ _ off (zlen p) Ho) as (i & Ei & Ho'); [pose proof (zlen_nonneg p); lia|].
    simpl. rewrite Ei. eexists. split; [reflexivity|]. apply (inv_sending _ STATE_OPERATION_PENDING off (zlen p)).
    split; simpl; try done. rewrite Eg. split; simpl; try done.
    + apply Forall_app. split; [done|by constructor].
    + rewrite Hins, frames_snoc, Er, <- app_assoc. by f_equal.
Qed.

(** The answer of the input is what is behind the pending bytes. *)
Lemma recv_answer o n : receiving o STATE_DONE_PENDING n → ∃ o',
  (i ← fire StreamRecvInterface.run_job_done (input o); icalls i.2 (o <| input := i.1 |>)) = Some o' ∧ inv o'.
Proof.
  intros [Hf Hi _ Ho Hn _ [Hd Hm Hs Hins]]. destruct (sri_finished _ _ _ _ Hi) as (i & Ei & Hi').
  rewrite Ei. cbn [mbind option_bind fst snd]. rewrite recv_icalls_one. cbn [icall_run].
  set (o1 := o <| input := i |> <| dec := dec o <| buf_used := buf_used (dec o) + n |> |>).
  assert (handler (input_handler_done n) (o <| input := i |>) = handler process_data o1) as ->.
  { unfold handler, input_handler_done, mbind, M_bind, get, ASSERT, modify. cbn -[Z.ltb Z.leb].
    rewrite (proj2 (Z.ltb_lt 0 n)), (proj2 (Z.leb_le n _)) by lia. cbn. by destruct (process_data _) as [[[[] ?] ?]|]. }
  apply recv_process; simpl; try done; [by eapply sri_any|]. destruct Hd as [H1 H2 H3 H4 H5 H6 H7].
  split; simpl; try done; [split; simpl; try done; lia|]. rewrite Hins. f_equal. unfold pending. simpl.
  rewrite read_at_app by lia. done.
Qed.

(** Writes of the input leave the pending bytes alone. *)
Lemma recv_fill o n w : receiving o STATE_BUSY n → bytes_ok w → zlen w ≤ buf_size (dec o) - (buf_start (dec o) + buf_used (dec o)) →
  receiving (o <| dec := dec o <| buf := write_at (buf_start (dec o) + buf_used (dec o)) w (buf (dec o)) |> |>) STATE_BUSY n.
Proof.
  intros [Hf Hi _ Ho Hn He [Hd Hm Hs Hins]] Hw Hl. destruct Hd as [H1 H2 H3 H4 H5 H6 H7].
  assert (pending (dec o <| buf := write_at (buf_start (dec o) + buf_used (dec o)) w (buf (dec o)) |>) = pending (dec o)) as E.
  { unfold pending. simpl. by rewrite read_at_write_at_before by lia. }
  split; simpl; try done; [by rewrite E|]. split; simpl; try done; [|by rewrite E].
  split; simpl; try done; [rewrite zlen_write_at; lia|]. unfold write_at. auto with badvpn.
Qed.

Lemma recv_step o e : inv o → enabled o e = true → ∃ o', step o e = Some o' ∧ inv o'.
Proof.
  intros [si n H|so d l H|bad Hf _ _] He; [..|by unfold enabled in He; rewrite Hf in He].
  - pose proof H as [Hf Hi Hb Ho Hn Hh Hg]. destruct (sri_jobs _ _ _ _ _ Hi) as (Io & Id & Is & Ia).
    destruct (ppi_jobs _ _ _ _ _ Ho) as (Oo & _ & Od & Os & _). unfold enabled in He. rewrite Hf in He.
    destruct e; simpl in He; rewrite ?Io, ?Id, ?Is, ?Oo, ?Od, ?Os in He; try done.
    + apply andb_true_iff in He as [[->%bool_decide_eq_true Hw%bool_decide_eq_true]%andb_true_iff Hl%Z.leb_le].
      destruct (Ia eq_refl) as [Ed El]. simpl. rewrite Ed. rewrite El in Hl.
      eexists. split; [reflexivity|]. eapply inv_receiving. by apply (recv_fill o n w).
    + apply andb_true_iff in He as [[->%bool_decide_eq_true H0%Z.ltb_lt]%andb_true_iff H1%Z.leb_le].
      destruct (Ia eq_refl) as [Ed El]. rewrite El in H1. destruct (sri_done _ _ _ _ len Hi ltac:(lia)) as (i & Ei & Hi').
      simpl. rewrite Ei, Ed. eexists. split; [reflexivity|]. apply (inv_receiving _ STATE_DONE_PENDING len).
      split; simpl; try done. destruct Hg as [? ? ? Hins]. split; simpl; try done.
      rewrite Hins. simpl. by rewrite app_nil_r, app_assoc.
    + apply bool_decide_eq_true in He as ->. destruct (sri_operation _ _ _ _ Hi) as (i & Ei & Hi').
      simpl. rewrite Ei. eexists. split; [reflexivity|]. apply (inv_receiving _ STATE_BUSY n). by destruct Hg; split.
    + apply bool_decide_eq_true in He as ->. destruct (recv_answer o n H) as (o' & E & H'). exists o'. split; [|done].
      rewrite <- E. simpl. by destruct (fire _ _) as [[? ?]|].
  - pose proof H as [Hf Hi Ho Hb Hg]. destruct (sri_jobs _ _ _ _ _ Hi) as (Io & Id & Is & _).
    destruct (ppi_jobs _ _ _ _ _ Ho) as (Oo & _ & Od & Os & _). unfold enabled in He. rewrite Hf in He.
    destruct e; simpl in He; rewrite ?Io, ?Id, ?Is, ?Oo, ?Od, ?Os in He; try done.
    + apply bool_decide_eq_true in He as ->. destruct (ppi_done _ _ _ _ Ho) as (i & Ei & Ho').
      simpl. rewrite Ei. eexists. split; [reflexivity|]. apply (inv_sending _ STATE_DONE_PENDING d l).
      split; simpl; try done. unfold given. destruct Ho as (x & y & c & -> & [-> ->]); [done|].
      simpl in Hg |- *. rewrite app_nil_r. destruct Hg. by split.
    + apply bool_decide_eq_true in He as ->. destruct (ppi_operation _ _ _ _ Ho) as (i & Ei & Ho').
      simpl. rewrite Ei. eexists. split; [reflexivity|]. apply (inv_sending _ STATE_BUSY d l). by destruct Hg; split.
    + apply bool_decide_eq_true in He as ->. destruct (ppi_sent _ _ _ _ Ho) as (i & Ei & Ho').
      simpl. rewrite Ei. cbn [mbind option_bind]. rewrite recv_icalls_one. cbn [icall_run]. unfold output_handler_done.
      simpl in Hg. rewrite app_nil_r in Hg. destruct Hg. by apply recv_process; [done|done|by eapply ppi_any|].
Qed.
Lemma recv_moves o o' : inv o → rtc moves o o' → inv o'.
Proof.
  intros H Hr. induction Hr as [|o o1 o2 (e & He & E) _ IH]; [done|]. apply IH.
  destruct (recv_step o e H He) as (o1' & E' & H'). rewrite E' in E. by injection E as <-.
Qed.
Lemma recv_boot ji jo mem : mem_ok mem → boot om ji jo mem = Some None ∨
  ∃ o, boot om ji jo mem = Some (Some o) ∧ inv o.
Proof.
  intros Hmem. destruct (sri_init ji 0 0 0) as (i & Ei & Hi). destruct (ppi_init om jo 0 0 Hom) as (p & Ep & _ & Emp & p1 & Ep1 & Hp1).
  unfold boot, connect. rewrite Ep. cbn [mbind option_bind]. rewrite Ei. cbn [mbind option_bind]. rewrite Ep1.
  cbn [mbind option_bind]. destruct (ppi_jobs _ _ _ _ _ Hp1) as (_ & _ & _ & _ & -> & _).
  destruct (Init om mem) as [[d acts]|] eqn:EI; [|by left]. right.
  pose proof (Init_ok om mem d acts Hom Hmem EI) as (Hd & Hm & _ & Hw).
  assert (acts = [Recv 0 (buf_size d)] ∧ buf_start d = 0 ∧ buf_used d = 0) as (-> & E0 & E1).
  { unfold Init in EI. destruct (mem _); [|done]. by injection EI as <- <-. }
  simpl in Hw. destruct Hw as (_ & _ & Hav & Hdel & Hinc). simpl in Hdel, Hinc, Hm, Hd.
  destruct (sri_recv _ _ _ _ 0 (buf_size d) Hi ltac:(destruct Hd; lia)) as (i' & Ei' & Hi'). cbn [calls call].
  simpl. rewrite Ei'. eexists. split; [reflexivity|]. apply (inv_receiving _ STATE_OPERATION_PENDING 1).
  split; simpl; try done; [rewrite E0, E1, Z.sub_0_r; destruct Hi' as (x & y & z & -> & H & _); by exists x, y, z|lia|].
  split; simpl; try done. by rewrite app_nil_r.
Qed.

(** Who is to act next. *)
Lemma recv_live o : inv o → failed o = false → ∃ e, match e with EFill _ => False | _ => enabled o e = true end.
Proof.
  intros [si n [Hf Hi Hb Ho Hn _ _]|so d l [Hf Hi Ho Hb _]|bad Hf _ _] Hl; [..|congruence].
  - destruct (sri_jobs _ _ _ _ _ Hi) as (Io & Id & Is & Ia).
    destruct si; [done|exists IOperation|exists (EIn n)|exists IDone]; unfold enabled; rewrite Hf; simpl; rewrite ?Io, ?Id, ?Is; try done.
    destruct (Ia eq_refl) as [_ ->]. rewrite (proj2 (Z.ltb_lt 0 n)), (proj2 (Z.leb_le n _)) by lia. done.
  - destruct (ppi_jobs _ _ _ _ _ Ho) as (Oo & _ & Od & Os & _).
    destruct so; [done|exists OOperation|exists EOut|exists ODone]; unfold enabled; rewrite Hf; simpl; by rewrite ?Oo, ?Od, ?Os.
Qed.

(** The request at work is a nonempty region inside the buffer. *)
Lemma recv_region o : inv o → failed o = false → StreamRecvInterface.state (input o) = STATE_BUSY →
  0 ≤ StreamRecvInterface.job_operation_data (input o) ∧ 0 < StreamRecvInterface.job_operation_len (input o) ∧
  StreamRecvInterface.job_operation_data (input o) + StreamRecvInterface.job_operation_len (input o) ≤ zlen (buf (dec o)).
Proof.
  intros [si n [Hf Hi Hb Ho Hn _ [[]]]|so d l [Hf Hi Ho Hb _]|bad Hf _ _] Hl Hs; [..|congruence].
  - destruct (sri_jobs _ _ _ _ _ Hi) as (_ & _ & Is & Ia). rewrite Is in Hs. subst si. destruct (Ia eq_refl) as [-> ->]. lia.
  - destruct (sri_jobs _ _ _ _ _ Hi) as (_ & _ & Is & _). congruence.
Qed.

(** What was received, in terms of the packets that were passed on. *)
Lemma recv_packets o : inv o → ∃ q rest, ins o = frames (outs o ++ q) ++ rest ∧ Forall (λ p, zlen p ≤ mt) (outs o ++ q) ∧
  (length q ≤ 1)%nat ∧ (failed o = false → active (PacketPassInterface.state (output o)) = true → q = [given o]) ∧
  (failed o = false → active (StreamRecvInterface.state (input o)) = true → q = [] ∧ decode_head mt rest = Incomplete) ∧
  (failed o = true → q = [] ∧ decode_head mt rest = TooLarge).
Proof.
  intros [si n [Hf Hi Hb Ho Hn Hinc []]|so d l [Hf Hi Ho Hb []]|bad Hf [] Hd].
  - exists [], (pending (dec o) ++ if in_state si STATE_DONE_PENDING then
      read_at (buf_start (dec o) + buf_used (dec o)) n (buf (dec o)) else []).
    rewrite app_nil_r. split_and!; [done|done|simpl; lia| | |congruence].
    + destruct (ppi_jobs _ _ _ _ _ Ho) as (_ & _ & _ & -> & _). done.
    + destruct (sri_jobs _ _ _ _ _ Hi) as (_ & _ & -> & _). intros _ Ha.
      replace (in_state si STATE_DONE_PENDING) with false by (by destruct si). by rewrite app_nil_r.
  - exists (if active so then [read_at d l (buf (dec o))] else []), (pending (dec o)).
    split_and!; [done|done|destruct (active so); simpl; lia| | |congruence].
    + destruct (ppi_jobs _ _ _ _ _ Ho) as (_ & _ & _ & -> & _). intros _ Ha. rewrite Ha. unfold given.
      destruct Ho as (x & y & c & -> & Hxy). by destruct (Hxy Ha) as [-> ->].
    + by destruct (sri_jobs _ _ _ _ _ Hi) as (_ & _ & -> & _).
  - exists [], bad. rewrite app_nil_r. split_and!; [done|done|simpl; lia|congruence|congruence|done].
Qed.

(** A stream of frames is never reported as an error, and is decoded to its end. *)
Lemma recv_frames o ps : inv o → Forall (λ p, zlen p ≤ mt) ps → ins o = frames ps →
  failed o = false ∧ (active (StreamRecvInterface.state (input o)) = true → outs o = ps).
Proof.
  intros H Hps E. destruct H as [si n [Hf Hi Hb Ho Hn Hinc [? ? Hsm Hins]]|so d l [Hf Hi Ho Hb _]|bad Hf [? ? Hsm Hins] Hd].
  - split; [done|]. destruct (sri_jobs _ _ _ _ _ Hi) as (_ & _ & -> & _). intros Ha.
    replace (in_state si STATE_DONE_PENDING) with false in Hins by (by destruct si). rewrite app_nil_r in Hins.
    rewrite E in Hins. destruct (frames_prefix _ _ _ _ (Z.le_min_r _ _) Hsm Hps Hins) as (qs & -> & Eq).
    apply Forall_app in Hps as [_ Hqs]. rewrite <- Eq in Hinc.
    apply frames_decode_nil in Hinc as ->; [by rewrite app_nil_r|apply Z.le_min_r|done].
  - split; [done|]. destruct (sri_jobs _ _ _ _ _ Hi) as (_ & _ & -> & _). done.
  - exfalso. rewrite E in Hins. destruct (frames_prefix _ _ _ _ (Z.le_min_r _ _) Hsm Hps Hins) as (qs & -> & <-).
    apply Forall_app in Hps as [_ Hqs]. destruct qs as [|p qs]; [by vm_compute in Hd|].
    apply list.Forall_cons in Hqs as [Hp _]. change (frames (p :: qs)) with (frame p ++ frames qs) in Hd.
    rewrite decode_head_frame in Hd; [done|lia..].
Qed.
End Invariant.

(** C39: The receiving path.  In every interleaving of the stream writing into the decoder's
    buffer, the stream and the output finishing and the jobs, no assertion fails and every
    request to the stream is a nonempty region inside the buffer.  The packets the
    output has finished, with the one it works on, which lies in the buffer unchanged, are the decoding of
    the beginning of what was received; an error is reported exactly when the length that follows them
    exceeds the MTU: while the decoder waits for input, what follows is an incomplete packet.  When what was received is the framing of [ps], there is no error, and once the
    decoder waits for input again the output has had exactly [ps].  Until an error the path
    never stalls: a job is set, or the stream or the output is at work. *)
Theorem recv_path om ji jo mem : 0 ≤ om → mem_ok mem →
  boot om ji jo mem = Some None ∨
  ∃ o0, boot om ji jo mem = Some (Some o0) ∧ ∀ o, rtc moves o0 o →
    (∀ e, enabled o e = true → is_Some (step o e)) ∧
    (∃ q rest, ins o = frames (outs o ++ q) ++ rest ∧ (length q ≤ 1)%nat ∧
      Forall (λ p, zlen p ≤ Z.min om PACKETPROTO_MAXPAYLOAD) (outs o ++ q) ∧
      (failed o = false → active (PacketPassInterface.state (output o)) = true → q = [given o]) ∧
      (failed o = false → active (StreamRecvInterface.state (input o)) = true →
        q = [] ∧ decode_head (Z.min om PACKETPROTO_MAXPAYLOAD) rest = Incomplete) ∧
      (failed o = true → q = [] ∧ decode_head (Z.min om PACKETPROTO_MAXPAYLOAD) rest = TooLarge)) ∧
    (∀ ps, Forall (λ p, zlen p ≤ Z.min om PACKETPROTO_MAXPAYLOAD) ps → ins o = frames ps →
      failed o = false ∧ (active (StreamRecvInterface.state (input o)) = true → outs o = ps)) ∧
    (failed o = false → StreamRecvInterface.state (input o) = STATE_BUSY →
      0 ≤ StreamRecvInterface.job_operation_data (input o) ∧ 0 < StreamRecvInterface.job_operation_len (input o) ∧
      StreamRecvInterface.job_operation_data (input o) + StreamRecvInterface.job_operation_len (input o) ≤ zlen (buf (dec o))) ∧
    (failed o = false → ∃ e, match e with EFill _ => False | _ => enabled o e = true end).
Proof.
  intros Hm Hmem. destruct (recv_boot om Hm ji jo mem Hmem) as [?|(o0 & E & H0)]; [by left|]. right. exists o0.
  split; [done|]. intros o Hr. pose proof (recv_moves om o0 o H0 Hr) as H. split_and!.
  - intros e He. destruct (recv_step om o e H He) as (o' & -> & _). eauto.
  - destruct (recv_packets om o H) as (q & rest & ? & ? & ? & ? & ? & ?). by exists q, rest.
  - intros ps. by apply (recv_frames om).
  - by apply (recv_region om).
  - by apply (recv_live om).
Qed.

(** *** Example: two packets in three pieces, the last one of stale bytes and the next length *)
Fixpoint drive (es : list ev) (o : path) : option path :=
  match es with [] => Some o | e :: es => if enabled o e then o ← step o e; drive es o else None end.
Lemma recv_drive_reaches es o o' : drive es o = Some o' → rtc moves o o'.
Proof.
  revert o. induction es as [|e es IH]; cbn [drive]; intros o; [by intros [= ->]; constructor|].
  destruct (enabled o e) eqn:He; [|done]. destruct (step o e) as [o1|] eqn:E; [|done]. cbn [mbind option_bind]. intros H.
  eapply rtc_l; [by exists e|]. by apply IH.
Qed.
Definition j_in : StreamRecvInterface.t := StreamRecvInterface.mk_t true true 2 3 true 4 STATE_BUSY.
Definition j_out : PacketPassInterface.t := PacketPassInterface.mk_t 1 true true true 2 3 true true STATE_BUSY true.
Definition ex_events : list ev :=
  [IOperation; EFill [2; 0; 9; 9]; EIn 2; IDone; IOperation; EFill [7]; EFill [7; 8; 0]; EIn 3; IDone; OOperation; EOut; ODone;
   IOperation; EFill [0; 5; 5]; EIn 1; IDone; OOperation; EOut; ODone].
Definition ex_boot : option (option path) := boot 3 j_in j_out alloc_zero.
Definition ex_final : option path := o ← ex_boot; o ← o; drive ex_events o.
Lemma recv_ex_ok : (λ o, (ins o, active (StreamRecvInterface.state (input o)))) <$> ex_final =
  Some (frames [[7; 8]; []], true).
Proof. vm_compute. reflexivity. Qed.
Lemma recv_ex_boots : bool_decide (is_Some (ex_boot ≫= id)) = true.
Proof. vm_compute. reflexivity. Qed.
Lemma recv_ex_reached o0 o : ex_boot = Some (Some o0) → ex_final = Some o → rtc moves o0 o.
Proof. unfold ex_final. intros -> H. by eapply recv_drive_reaches. Qed.

Lemma recv_path_witness :
  match ex_final with Some o => failed o = false ∧ outs o = [[7; 8]; []] | None => False end.
Proof.
  destruct (recv_path 3 j_in j_out alloc_zero ltac:(lia) alloc_zero_ok) as [E|(o0 & E & H)].
  { exfalso. pose proof recv_ex_boots as Hb. unfold ex_boot in Hb. rewrite E in Hb. discriminate Hb. }
  pose proof recv_ex_ok as Hf. destruct ex_final as [o|] eqn:Eo; [|discriminate Hf]. injection Hf as Hi Ha.
  destruct (H o (recv_ex_reached o0 o E Eo)) as (_ & _ & Hp & _).
  destruct (Hp [[7; 8]; []]) as [H1 H2]; [apply (bool_decide_unpack _); vm_compute; exact I|exact Hi|].
  split; [exact H1|exact (H2 Ha)].
Defined.

End RecvPath.
