(* ===== verification/SocksClient.v ===== *)
(** * The SOCKS5 client: socksclient/BSocksClient.c and misc/socks_proto.h

    The client connects to the proxy, negotiates an authentication method,
    optionally sends a user name and password, sends a CONNECT request and
    reads the reply; then the connection carries the proxied stream.  Memory
    that [BRealloc] returns is a parameter [mem] of the handlers that allocate:
    [None] is a failed allocation, and the contents are arbitrary. *)
From stdpp Require Import base list numbers relations sets.
From Stdlib Require Import ZArith Lia.
From S2P Require Import Prelude ByteOrder Addr.
#[local] Open Scope Z_scope.

Definition SOCKS_VERSION : Z := 5.
Definition SOCKS_METHOD_NO_AUTHENTICATION_REQUIRED : Z := 0.
Definition SOCKS_METHOD_USERNAME_PASSWORD : Z := 2.
Definition SOCKS_CMD_CONNECT : Z := 1.
Definition SOCKS_ATYP_IPV4 : Z := 1.
Definition SOCKS_ATYP_IPV6 : Z := 4.
Definition SOCKS_REP_SUCCEEDED : Z := 0.

Definition SIZEOF_socks_client_hello_header : Z := 2.
Definition SIZEOF_socks_client_hello_method : Z := 1.
Definition SIZEOF_socks_server_hello : Z := 2.
Definition SIZEOF_socks_request_header : Z := 4.
Definition SIZEOF_socks_reply_header : Z := 4.
Definition SIZEOF_socks_addr_ipv4 : Z := 6.
Definition SIZEOF_socks_addr_ipv6 : Z := 18.

Module BSocksClient.

(** [struct BSocksClient_auth_info]: the lengths are those of the strings. *)
Record auth_info_t := mk_auth { auth_type : Z; auth_username : bytes; auth_password_ : bytes }.

Definition auth_none : auth_info_t := mk_auth SOCKS_METHOD_NO_AUTHENTICATION_REQUIRED [] [].
Definition auth_password (username password : bytes) : auth_info_t :=
  mk_auth SOCKS_METHOD_USERNAME_PASSWORD username password.

Inductive state_t :=
| STATE_CONNECTING | STATE_SENDING_HELLO | STATE_SENT_HELLO | STATE_SENDING_REQUEST
| STATE_SENT_REQUEST | STATE_RECEIVED_REPLY_HEADER | STATE_UP
| STATE_SENDING_PASSWORD | STATE_SENT_PASSWORD.
#[export] Instance state_eq_dec : EqDecision state_t.
Proof. solve_decision. Defined.

(** Which I/O of the connection is initialised. *)
Inductive io_t := NoIO | ControlIO | UpIO.
#[export] Instance io_eq_dec : EqDecision io_t.
Proof. solve_decision. Defined.

(** [recv_dest] is an offset into [buffer]. *)
Record t := mk {
  auth_info : list auth_info_t; dest_addr : BAddr; state : state_t; buffer : option bytes;
  connector : bool; con : bool; io : io_t;
  recv_dest : Z; recv_len : Z; recv_total : Z
}.
#[global] Instance eta : Eta t := λ o,
  mk (auth_info o) (dest_addr o) (state o) (buffer o) (connector o) (con o) (io o)
     (recv_dest o) (recv_len o) (recv_total o).

Inductive event := EVENT_ERROR | EVENT_UP | EVENT_ERROR_CLOSED.

Inductive act :=
| Send (data : bytes)        (** [PacketPassInterface_Sender_Send(send_if, buffer, size)] *)
| Recv (off len : Z)         (** [StreamRecvInterface_Receiver_Recv(recv_if, buffer + off, len)] *)
| Handler (e : event).       (** [handler(user, event)] *)

Definition report_error (e : event) : M t act () := emit (Handler e).

Definition init_control_io : M t act () :=
  o ← get; ASSERT (bool_decide (io o = NoIO));; modify (λ o, o <| io := ControlIO |>).
Definition free_control_io : M t act () :=
  o ← get; ASSERT (bool_decide (io o = ControlIO));; modify (λ o, o <| io := NoIO |>).
Definition init_up_io : M t act () :=
  o ← get; ASSERT (bool_decide (io o = NoIO));; modify (λ o, o <| io := UpIO |>).
Definition free_up_io : M t act () :=
  o ← get; ASSERT (bool_decide (io o = UpIO));; modify (λ o, o <| io := NoIO |>).
Definition BConnection_Free : M t act () :=
  o ← get; ASSERT (con o && bool_decide (io o = NoIO));; modify (λ o, o <| con := false |>).

Definition reserve_buffer (mem : Z → option bytes) (size : bsize_t) : M t act bool :=
  if is_overflow size then mret false
  else match mem (bvalue size) with
  | None => mret false
  | Some b => modify (λ o, o <| buffer := Some b |>);; mret true
  end.

(** [memcpy(o->buffer + off, src, sizeof(src))] *)
Definition write_buffer (off : Z) (src : bytes) : M t act () :=
  o ← get;
  ASSERT (match buffer o with Some b => off + zlen src <=? zlen b | None => false end);;
  modify (λ o, o <| buffer ::= fmap (write_at off src) |>).

(** [PacketPassInterface_Sender_Send(o->control.send_if, o->buffer, size)] *)
Definition send_buffer (size : Z) : M t act () :=
  o ← get;
  ASSERT (match buffer o with Some b => size <=? zlen b | None => false end);;
  emit (Send (read_at 0 size (default [] (buffer o)))).

Definition do_receive : M t act () :=
  o ← get;
  ASSERT (recv_len o <? recv_total o);;
  emit (Recv (recv_dest o + recv_len o) (recv_total o - recv_len o)).

Definition start_receive (dest total : Z) : M t act () :=
  ASSERT (0 <? total);;
  modify (λ o, o <| recv_dest := dest |> <| recv_len := 0 |> <| recv_total := total |>);;
  do_receive.

Definition set_state (s : state_t) : M t act () := modify (λ o, o <| state := s |>).

(** [hello_size]: the argument of [reserve_buffer] in [connector_handler]. *)
Definition hello_size (n : Z) : bsize_t :=
  bsize_add (bsize_fromsize SIZEOF_socks_client_hello_header)
    (bsize_mul (bsize_fromsize n) (bsize_fromsize SIZEOF_socks_client_hello_method)).

(** [con_ok]: the result of [BConnection_Init]. *)
Definition connector_handler (is_error con_ok : bool) (mem : Z → option bytes) : M t act () :=
  o ← get;
  ASSERT (bool_decide (state o = STATE_CONNECTING));;
  if is_error then report_error EVENT_ERROR
  else if negb con_ok then report_error EVENT_ERROR
  else
    modify (λ o, o <| con := true |>);;
    init_control_io;;
    let num_auth_info := zlen (auth_info o) in
    if (num_auth_info =? 0) || (255 <? num_auth_info) then
      free_control_io;; BConnection_Free;; report_error EVENT_ERROR
    else
      let size := hello_size num_auth_info in
      r ← reserve_buffer mem size;
      if negb r then free_control_io;; BConnection_Free;; report_error EVENT_ERROR
      else
        write_buffer 0 [hton8 SOCKS_VERSION; hton8 num_auth_info];;
        write_buffer SIZEOF_socks_client_hello_header ((λ a, hton8 (auth_type a)) <$> auth_info o);;
        send_buffer (bvalue size);;
        set_state STATE_SENDING_HELLO.

Definition connection_handler (recv_closed : bool) : M t act () :=
  o ← get;
  ASSERT (negb (bool_decide (state o = STATE_CONNECTING)));;
  if bool_decide (state o = STATE_UP) && recv_closed
  then report_error EVENT_ERROR_CLOSED
  else report_error EVENT_ERROR.

(** The address part of a request: [struct socks_addr_ipv4] or [socks_addr_ipv6]. *)
Definition addr_bytes (a : BAddr) : bytes :=
  match a with
  | BADDR_IPV4 ip port => store32 ip ++ store16 port
  | BADDR_IPV6 ip port => ip ++ store16 port
  | _ => []
  end.

Definition auth_finished (mem : Z → option bytes) : M t act () :=
  o ← get;
  let size := bsize_fromsize SIZEOF_socks_request_header in
  let size :=
    match dest_addr o with
    | BADDR_IPV4 _ _ => bsize_add size (bsize_fromsize SIZEOF_socks_addr_ipv4)
    | BADDR_IPV6 _ _ => bsize_add size (bsize_fromsize SIZEOF_socks_addr_ipv6)
    | _ => size
    end in
  r ← reserve_buffer mem size;
  if negb r then report_error EVENT_ERROR
  else
    ASSERT (addr_is_ip (dest_addr o));;
    let atyp :=
      match dest_addr o with BADDR_IPV4 _ _ => SOCKS_ATYP_IPV4 | _ => SOCKS_ATYP_IPV6 end in
    write_buffer SIZEOF_socks_request_header (addr_bytes (dest_addr o));;
    write_buffer 0 [hton8 SOCKS_VERSION; hton8 SOCKS_CMD_CONNECT; hton8 0; hton8 atyp];;
    send_buffer (bvalue size);;
    set_state STATE_SENDING_REQUEST.

(** The first entry of [auth_info] with the method the server chose. *)
Definition find_auth (ais : list auth_info_t) (method : Z) : option auth_info_t :=
  snd <$> list_find (λ a, auth_type a = ntoh8 method) ais.

Definition password_packet (a : auth_info_t) : bytes :=
  [1; u8 (zlen (auth_username a))] ++ auth_username a ++
  [u8 (zlen (auth_password_ a))] ++ auth_password_ a.

(** [case STATE_SENT_HELLO] of [recv_handler_done]. *)
Definition received_hello (mem : Z → option bytes) : M t act () :=
  o ← get;
  let imsg := default [] (buffer o) in
  if negb (ntoh8 (byte_at imsg 0) =? SOCKS_VERSION) then report_error EVENT_ERROR
  else match find_auth (auth_info o) (byte_at imsg 1) with
  | None => report_error EVENT_ERROR
  | Some ai =>
      if auth_type ai =? SOCKS_METHOD_NO_AUTHENTICATION_REQUIRED then auth_finished mem
      else if auth_type ai =? SOCKS_METHOD_USERNAME_PASSWORD then
        let ulen := zlen (auth_username ai) in
        let plen := zlen (auth_password_ ai) in
        if (ulen =? 0) || (255 <? ulen) || (plen =? 0) || (255 <? plen) then report_error EVENT_ERROR
        else
          let size := bsize_fromsize (1 + 1 + ulen + 1 + plen) in
          r ← reserve_buffer mem size;
          if negb r then report_error EVENT_ERROR
          else
            write_buffer 0 (password_packet ai);;
            send_buffer (bvalue size);;
            set_state STATE_SENDING_PASSWORD
      else ASSERT false
  end.

(** [case STATE_SENT_REQUEST] *)
Definition received_reply_header : M t act () :=
  o ← get;
  let imsg := default [] (buffer o) in
  if negb (ntoh8 (byte_at imsg 0) =? SOCKS_VERSION) then report_error EVENT_ERROR
  else if negb (ntoh8 (byte_at imsg 1) =? SOCKS_REP_SUCCEEDED) then report_error EVENT_ERROR
  else
    let atyp := ntoh8 (byte_at imsg 3) in
    if atyp =? SOCKS_ATYP_IPV4 then
      start_receive SIZEOF_socks_reply_header SIZEOF_socks_addr_ipv4;;
      set_state STATE_RECEIVED_REPLY_HEADER
    else if atyp =? SOCKS_ATYP_IPV6 then
      start_receive SIZEOF_socks_reply_header SIZEOF_socks_addr_ipv6;;
      set_state STATE_RECEIVED_REPLY_HEADER
    else report_error EVENT_ERROR.

(** [case STATE_SENT_PASSWORD] *)
Definition received_password_reply (mem : Z → option bytes) : M t act () :=
  o ← get;
  let buffer := default [] (buffer o) in
  if negb (byte_at buffer 0 =? 1) then report_error EVENT_ERROR
  else if negb (byte_at buffer 1 =? 0) then report_error EVENT_ERROR
  else auth_finished mem.

(** [case STATE_RECEIVED_REPLY_HEADER] *)
Definition received_reply_rest : M t act () :=
  modify (λ o, o <| buffer := None |>);;
  free_control_io;;
  init_up_io;;
  set_state STATE_UP;;
  emit (Handler EVENT_UP).

Definition recv_handler_done (data_len : Z) (mem : Z → option bytes) : M t act () :=
  o ← get;
  ASSERT (0 <=? data_len);;
  ASSERT (data_len <=? recv_total o - recv_len o);;
  modify (λ o, o <| recv_len := recv_len o + data_len |>);;
  o ← get;
  if recv_len o <? recv_total o then do_receive
  else match state o with
  | STATE_SENT_HELLO => received_hello mem
  | STATE_SENT_REQUEST => received_reply_header
  | STATE_SENT_PASSWORD => received_password_reply mem
  | STATE_RECEIVED_REPLY_HEADER => received_reply_rest
  | _ => ASSERT false
  end.

Definition send_handler_done (mem : Z → option bytes) : M t act () :=
  o ← get;
  ASSERT (bool_decide (is_Some (buffer o)));;
  match state o with
  | STATE_SENDING_HELLO =>
      let size := bsize_fromsize SIZEOF_socks_server_hello in
      r ← reserve_buffer mem size;
      if negb r then report_error EVENT_ERROR
      else start_receive 0 (bvalue size);; set_state STATE_SENT_HELLO
  | STATE_SENDING_REQUEST =>
      let size := bsize_add (bsize_fromsize SIZEOF_socks_reply_header)
        (bsize_max (bsize_fromsize SIZEOF_socks_addr_ipv4) (bsize_fromsize SIZEOF_socks_addr_ipv6)) in
      r ← reserve_buffer mem size;
      if negb r then report_error EVENT_ERROR
      else start_receive 0 SIZEOF_socks_reply_header;; set_state STATE_SENT_REQUEST
  | STATE_SENDING_PASSWORD =>
      let size := bsize_fromsize 2 in
      r ← reserve_buffer mem size;
      if negb r then report_error EVENT_ERROR
      else start_receive 0 (bvalue size);; set_state STATE_SENT_PASSWORD
  | _ => ASSERT false
  end.

(** [connector_ok]: the result of [BConnector_Init]; [None] is a return of 0. *)
Definition Init (connector_ok : bool) (server_addr : BAddr) (auth_info : list auth_info_t)
    (dest_addr : BAddr) : option t :=
  if connector_ok
  then Some (mk auth_info dest_addr STATE_CONNECTING None true false NoIO 0 0 0)
  else None.

Definition Free : M t act () :=
  o ← get;
  when (negb (bool_decide (state o = STATE_CONNECTING)))
    ((if bool_decide (state o = STATE_UP) then free_up_io else free_control_io);;
     BConnection_Free);;
  o ← get;
  ASSERT (connector o && negb (con o));;
  modify (λ o, o <| connector := false |>);;
  modify (λ o, o <| buffer := None |>).

End BSocksClient.

(** ** The messages *)
Section Handshake.
Import BSocksClient.

Definition hello (ais : list auth_info_t) : bytes :=
  [hton8 SOCKS_VERSION; hton8 (zlen ais)] ++ ((λ a, hton8 (auth_type a)) <$> ais).

Definition request_header (dest : BAddr) : bytes :=
  [hton8 SOCKS_VERSION; hton8 SOCKS_CMD_CONNECT; hton8 0;
   hton8 (match dest with BADDR_IPV4 _ _ => SOCKS_ATYP_IPV4 | _ => SOCKS_ATYP_IPV6 end)].
Definition request (dest : BAddr) : bytes := request_header dest ++ addr_bytes dest.

(** Lengths that fit the password subnegotiation. *)
Definition password_ok (a : auth_info_t) : Prop :=
  0 < zlen (auth_username a) ≤ 255 ∧ 0 < zlen (auth_password_ a) ≤ 255.

(** What was sent and received when authentication is done (RFC 1928, 1929). *)
Inductive auth_exchange (ais : list auth_info_t) : bytes → bytes → Prop :=
| exchange_none a :
    find_auth ais 0 = Some a → auth_exchange ais (hello ais) [5; 0]
| exchange_password a :
    find_auth ais 2 = Some a → password_ok a →
    auth_exchange ais (hello ais ++ password_packet a) ([5; 2] ++ [1; 0]).

(** A positive reply, with a bound address of the announced type. *)
Definition reply_header_ok (h : bytes) (addr_len : Z) : Prop :=
  ∃ rsv atyp, h = [5; 0; rsv; atyp] ∧
    (atyp = SOCKS_ATYP_IPV4 ∧ addr_len = 6 ∨ atyp = SOCKS_ATYP_IPV6 ∧ addr_len = 18).

Definition request_exchange (ais : list auth_info_t) (dest : BAddr) (sent recvd : bytes) : Prop :=
  ∃ s, auth_exchange ais s recvd ∧ sent = s ++ request dest.

Definition handshake (ais : list auth_info_t) (dest : BAddr) (sent recvd : bytes) : Prop :=
  ∃ r h addr, request_exchange ais dest sent r ∧ reply_header_ok h (zlen addr) ∧
    recvd = r ++ h ++ addr.

(** The preconditions of [BSocksClient_Init]. *)
Definition auths_ok (ais : list auth_info_t) : Prop :=
  Forall (λ a, auth_type a = SOCKS_METHOD_NO_AUTHENTICATION_REQUIRED ∨
               auth_type a = SOCKS_METHOD_USERNAME_PASSWORD) ais.
Definition dest_ok (a : BAddr) : Prop := BAddr_ok a ∧ addr_is_ip a = true.

Lemma hton8_small x : 0 ≤ x < 256 → hton8 x = x.
Proof. intros. unfold hton8. apply u8_id. unfold is_u8. lia. Qed.

Lemma zlen_addr_bytes a : dest_ok a →
  zlen (addr_bytes a) = match a with BADDR_IPV4 _ _ => 6 | _ => 18 end.
Proof.
  intros [Ha Hi]. destruct a as [|ip p|ip p|]; try discriminate Hi; [reflexivity|].
  destruct Ha as (_ & Hl & _). unfold addr_bytes. rewrite zlen_app.
  unfold zlen at 1. rewrite Hl. reflexivity.
Qed.

Lemma zlen_hello ais : zlen (hello ais) = 2 + zlen ais.
Proof. unfold hello. rewrite zlen_app. unfold zlen. by rewrite length_fmap. Qed.
Lemma zlen_password_packet a :
  zlen (password_packet a) = 1 + 1 + zlen (auth_username a) + 1 + zlen (auth_password_ a).
Proof. unfold password_packet. rewrite !zlen_app. change (zlen [1; u8 (zlen (auth_username a))]) with 2.
  change (zlen [u8 (zlen (auth_password_ a))]) with 1. lia.
Qed.

Lemma find_auth_method ais m a : is_u8 m → find_auth ais m = Some a →
  a ∈ ais ∧ auth_type a = m.
Proof.
  intros Hm. unfold find_auth. destruct (list_find _ ais) as [[i a']|] eqn:E; [|done].
  intros [= <-]. apply list_find_Some in E as (Hi & Ht & _). unfold ntoh8 in Ht.
  rewrite hton8_small in Ht by (unfold is_u8 in Hm; lia).
  split; [by eapply list_elem_of_lookup_2|done].
Qed.

(** ** The handlers *)

(** An allocation failed. *)
Definition mem_fails (mem : Z → option bytes) : Prop := ∃ n, 0 ≤ n ∧ mem n = None.
Lemma alloc_zero_succeeds : ¬ mem_fails alloc_zero.
Proof.
  intros (n & Hn & H). unfold alloc_zero in H. destruct (Z.ltb_spec n 0); [lia|discriminate H].
Qed.

Lemma reserve_buffer_spec mem size o :
  mem_ok mem → is_overflow size = false → 0 ≤ bvalue size →
  wp (reserve_buffer mem size) o (λ r o' acts, acts = [] ∧
    (r = false ∧ o' = o ∧ mem_fails mem ∨
     r = true ∧ ∃ b, o' = o <| buffer := Some b |> ∧ bytes_ok b ∧ zlen b = bvalue size)).
Proof.
  intros Hm Ho Hz. unfold reserve_buffer. rewrite Ho.
  destruct (mem (bvalue size)) as [b|] eqn:E; repeat wp_step; split; try done.
  - right. apply Hm in E as [??]. eauto.
  - left. split_and!; [done..|]. by exists (bvalue size).
Qed.

Ltac buffer_step :=
  match goal with
  | |- wp (_ ≫= _) _ _ => wp_step
  | |- wp (write_buffer _ _) _ _ => unfold write_buffer; do 4 wp_step; [simpl; apply Z.leb_le|]
  | |- wp (send_buffer _) _ _ => unfold send_buffer; do 4 wp_step; [simpl; apply Z.leb_le|]
  | |- wp (set_state _) _ _ => unfold set_state
  | |- wp (report_error _) _ _ => unfold report_error
  | _ => wp_step
  end; simpl.

Lemma auth_finished_spec mem o : mem_ok mem → dest_ok (dest_addr o) →
  wp (auth_finished mem) o (λ _ o' acts,
    acts = [Handler EVENT_ERROR] ∧ o' = o ∧ mem_fails mem ∨
    acts = [Send (request (dest_addr o))] ∧
      o' = o <| buffer := Some (request (dest_addr o)) |> <| state := STATE_SENDING_REQUEST |>).
Proof.
  intros Hm Hd. pose proof (zlen_addr_bytes _ Hd) as Hz.
  unfold auth_finished. wp_step. wp_step. cbv zeta.
  set (size := match dest_addr o with BADDR_IPV4 _ _ => _ | _ => _ end).
  assert (is_overflow size = false ∧ bvalue size = 4 + zlen (addr_bytes (dest_addr o))) as [Ho Hs].
  { unfold size. rewrite Hz. destruct Hd as [_ Hi].
    destruct (dest_addr o); try discriminate Hi; done. }
  pose proof (zlen_nonneg (addr_bytes (dest_addr o))).
  wp_step. eapply wp_mono; [apply reserve_buffer_spec; [done..|lia]|].
  intros ? ? ? [-> [(-> & -> & Hf)|(-> & b & -> & Hb & Hl)]]; simpl.
  { by left. }
  destruct Hd as [_ Hi]. rewrite Hi. rewrite Hs in Hl. fold (request_header (dest_addr o)).
  assert (write_at 0 (request_header (dest_addr o))
    (write_at SIZEOF_socks_request_header (addr_bytes (dest_addr o)) b) = request (dest_addr o)) as E.
  { apply write_at_body_header. exact Hl. }
  repeat buffer_step.
  - done.
  - unfold SIZEOF_socks_request_header. lia.
  - change (zlen _) with 4 at 1. rewrite zlen_write_at; unfold SIZEOF_socks_request_header; lia.
  - fold (request_header (dest_addr o)). rewrite E. unfold request. rewrite zlen_app.
    change (zlen (request_header _)) with 4. lia.
  - right. split; [|unfold upd_field; simpl; by rewrite E]. rewrite E. do 2 f_equal. apply read_at_all. unfold request. rewrite zlen_app, Hs. done.
Qed.

Lemma hello_size_ok n : 0 ≤ n ≤ 255 → hello_size n = mk_bsize false (2 + n).
Proof.
  intros. unfold hello_size, bsize_fromsize, SIZEOF_socks_client_hello_method,
    SIZEOF_socks_client_hello_header.
  rewrite bsize_mul_ok, bsize_add_ok by (unfold SIZE_MAX; lia). f_equal. lia.
Qed.

Lemma connector_handler_spec is_error con_ok mem o :
  mem_ok mem → state o = STATE_CONNECTING → con o = false → io o = NoIO →
  wp (connector_handler is_error con_ok mem) o (λ _ o' acts,
    acts = [Handler EVENT_ERROR] ∧ o' = o ∧
      (is_error = true ∨ con_ok = false ∨ zlen (auth_info o) = 0 ∨ 255 < zlen (auth_info o) ∨
       mem_fails mem) ∨
    acts = [Send (hello (auth_info o))] ∧
      o' = o <| con := true |> <| io := ControlIO |> <| buffer := Some (hello (auth_info o)) |>
             <| state := STATE_SENDING_HELLO |>).
Proof.
  intros Hm Hs Hc Hi. unfold connector_handler, report_error, init_control_io,
    free_control_io, BConnection_Free.
  assert (o <| con := false |> <| io := NoIO |> = o) as Eo by (destruct o; simpl in *; by subst).
  wp_assert. wp_step; [wp_pure; left; auto|].
  wp_step; [wp_pure; left; bool_prop; auto|].
  wp_assert. cbv zeta. wp_step.
  { wp_assert. wp_assert. left. split_and!; [done..|].
    apply orb_true_iff in E1 as [?|?]; bool_prop; auto. }
  bool_prop. pose proof (zlen_nonneg (auth_info o)).
  pose proof (hello_size_ok (zlen (auth_info o)) ltac:(lia)) as Hsz.
  pose proof (f_equal bvalue Hsz) as Hv. simpl in Hv. rewrite Hsz.
  wp_pure. eapply wp_mono; [apply reserve_buffer_spec; simpl; [done..|lia]|].
  intros ? ? ? [-> [(-> & -> & Hf)|(-> & b & -> & Hb & Hl)]]; simpl.
  { wp_assert. wp_assert. left. auto 10. }
  assert (write_at SIZEOF_socks_client_hello_header ((λ a, hton8 (auth_type a)) <$> auth_info o)
    (write_at 0 [hton8 SOCKS_VERSION; hton8 (zlen (auth_info o))] b) = hello (auth_info o)) as Ew.
  { apply (write_at_header_body [hton8 SOCKS_VERSION; hton8 (zlen (auth_info o))]). rewrite Hl. simpl. unfold zlen. by rewrite length_fmap. }
  simpl in Hl. unfold write_buffer, send_buffer, set_state.
  wp_assert. { change (zlen [_; _]) with 2. apply Z.leb_le. lia. }
  wp_assert. { apply Z.leb_le. rewrite zlen_write_at by (change (zlen [_; _]) with 2; lia).
    rewrite Hl. unfold SIZEOF_socks_client_hello_header, zlen. rewrite length_fmap. lia. }
  wp_assert. { rewrite Ew, zlen_hello, Hv. apply Z.leb_le. lia. }
  right. rewrite Ew. split; [|unfold upd_field; simpl; by rewrite Ew].
  rewrite read_at_all by (rewrite zlen_hello, Hv; lia). done.
Qed.

Lemma received_hello_spec mem o v m :
  mem_ok mem → auths_ok (auth_info o) → dest_ok (dest_addr o) →
  buffer o = Some [v; m] → is_u8 v → is_u8 m →
  wp (received_hello mem) o (λ _ o' acts,
    acts = [Handler EVENT_ERROR] ∧ o' = o ∧
      (v ≠ 5 ∨ find_auth (auth_info o) m = None ∨ mem_fails mem ∨
       ∃ a, find_auth (auth_info o) 2 = Some a ∧ m = 2 ∧ ¬ password_ok a) ∨
    (v = 5 ∧ m = 0 ∧ (∃ a, find_auth (auth_info o) 0 = Some a) ∧
      acts = [Send (request (dest_addr o))] ∧
      o' = o <| buffer := Some (request (dest_addr o)) |> <| state := STATE_SENDING_REQUEST |>) ∨
    (v = 5 ∧ m = 2 ∧ ∃ a, find_auth (auth_info o) 2 = Some a ∧ password_ok a ∧
      acts = [Send (password_packet a)] ∧
      o' = o <| buffer := Some (password_packet a) |> <| state := STATE_SENDING_PASSWORD |>)).
Proof.
  intros Hm Ha Hd Hb Hv Hme. unfold received_hello, report_error. wp_pure. rewrite Hb. cbv zeta.
  change (byte_at (default [] (Some [v; m])) 0) with v.
  change (byte_at (default [] (Some [v; m])) 1) with m. unfold ntoh8 at 1.
  rewrite hton8_small by (unfold is_u8 in Hv; lia).
  wp_step; [wp_pure; bool_prop; by left; auto|]. bool_prop.
  destruct (find_auth (auth_info o) m) as [ai|] eqn:Ef; [|wp_pure; left; auto].
  pose proof (find_auth_method _ _ _ Hme Ef) as [Hin Ht].
  wp_step; bool_prop.
  { eapply wp_mono; [by apply auth_finished_spec|]. intros _ o' acts [(-> & -> & ?)|[-> ->]]; [by left; auto 10|].
    right; left. assert (m = 0) as -> by (rewrite <- Ht; exact E0).
    split_and!; [done|done|by exists ai|done..]. }
  wp_step; bool_prop.
  2:{ unfold auths_ok in Ha. rewrite Forall_forall in Ha. destruct (Ha ai Hin); congruence. }
  assert (m = 2) as -> by (rewrite <- Ht; exact E1).
  pose proof (zlen_nonneg (auth_username ai)). pose proof (zlen_nonneg (auth_password_ ai)).
  cbv zeta. wp_step.
  { wp_pure. left. split_and!; [done..|]. do 3 right. exists ai. split_and!; [done..|].
    unfold password_ok. rewrite !orb_true_iff in E2.
    intros [? ?]. destruct E2 as [[[?|?]|?]|?]; bool_prop; lia. }
  bool_prop.
  wp_pure. eapply wp_mono; [apply reserve_buffer_spec; simpl; [done..|lia]|].
  intros ? ? ? [-> [(-> & -> & Hmf)|(-> & b & -> & Hbb & Hl)]]; simpl; [wp_pure; left; auto 10|].
  simpl in Hl. rewrite <- zlen_password_packet in Hl.
  unfold write_buffer, send_buffer, set_state.
  wp_assert. { apply Z.leb_le. lia. }
  wp_assert. { apply Z.leb_le. rewrite write_at_all, zlen_password_packet by done. lia. }
  right; right. split_and!; [done..|]. exists ai. unfold password_ok.
  split_and!; [done|lia..| |].
  - rewrite write_at_all by done. rewrite read_at_all by (rewrite zlen_password_packet; lia). done.
  - unfold upd_field; simpl. by rewrite write_at_all.
Qed.

Lemma send_handler_done_spec mem o : mem_ok mem → is_Some (buffer o) →
  state o = STATE_SENDING_HELLO ∨ state o = STATE_SENDING_PASSWORD ∨ state o = STATE_SENDING_REQUEST →
  wp (send_handler_done mem) o (λ _ o' acts,
    acts = [Handler EVENT_ERROR] ∧ o' = o ∧ mem_fails mem ∨
    ∃ b total st, bytes_ok b ∧ acts = [Recv 0 total] ∧
      o' = o <| buffer := Some b |> <| recv_dest := 0 |> <| recv_len := 0 |>
             <| recv_total := total |> <| state := st |> ∧
      (state o = STATE_SENDING_HELLO ∧ st = STATE_SENT_HELLO ∧ total = 2 ∧ zlen b = 2 ∨
       state o = STATE_SENDING_PASSWORD ∧ st = STATE_SENT_PASSWORD ∧ total = 2 ∧ zlen b = 2 ∨
       state o = STATE_SENDING_REQUEST ∧ st = STATE_SENT_REQUEST ∧ total = 4 ∧ zlen b = 22)).
Proof.
  intros Hm Hb Hs. unfold send_handler_done, report_error, start_receive, do_receive, set_state.
  wp_assert.
  destruct Hs as [Hs|[Hs|Hs]]; rewrite Hs; wp_pure;
    (eapply wp_mono; [by apply reserve_buffer_spec|]);
    intros ? ? ? [-> [(-> & -> & Hmf)|(-> & b & -> & Hbb & Hl)]]; simpl; try (wp_pure; by left);
    repeat wp_assert; right; do 3 eexists; split_and!; eauto 10.
Qed.

Lemma received_reply_header_spec o b :
  buffer o = Some b → bytes_ok b → zlen b = 22 →
  wp received_reply_header o (λ _ o' acts,
    acts = [Handler EVENT_ERROR] ∧ o' = o ∧ (∀ n, ¬ reply_header_ok (take 4 b) n) ∨
    ∃ n, reply_header_ok (take 4 b) n ∧ acts = [Recv 4 n] ∧ 0 < n ≤ 18 ∧
      o' = o <| recv_dest := 4 |> <| recv_len := 0 |> <| recv_total := n |>
             <| state := STATE_RECEIVED_REPLY_HEADER |>).
Proof.
  intros Hb Hok Hl. unfold received_reply_header, report_error, start_receive, do_receive, set_state.
  destruct b as [|b0 [|b1 [|b2 [|b3 b]]]]; try (unfold zlen in Hl; simpl in Hl; lia).
  wp_pure. rewrite Hb. simpl.
  unfold byte_at. simpl. unfold ntoh8.
  do 4 (apply Forall_cons in Hok as [? Hok]). unfold is_u8 in *.
  rewrite !hton8_small by lia.
  assert (∀ n, reply_header_ok [b0; b1; b2; b3] n → b0 = 5 ∧ b1 = 0 ∧ (b3 = 1 ∨ b3 = 4)) as Hinv.
  { intros n (rsv & atyp & [= -> -> -> ->] & [[-> _]|[-> _]]); auto. }
  wp_step; [wp_pure; left; split_and!; [done..|]; bool_prop; intros n Hn%Hinv; tauto|].
  wp_step; [wp_pure; left; split_and!; [done..|]; bool_prop; intros n Hn%Hinv; tauto|]. bool_prop.
  wp_step; [|wp_step].
  3:{ wp_pure. left. split_and!; [done..|]. bool_prop. intros n Hn%Hinv.
      unfold SOCKS_ATYP_IPV4, SOCKS_ATYP_IPV6 in *. lia. }
  all: bool_prop; repeat wp_assert; right; eexists;
    (split_and!; [|done..]); exists b2, b3; (split; [by rewrite E, E0|auto]).
Qed.

Lemma received_reply_rest_spec o : io o = ControlIO →
  wp received_reply_rest o (λ _ o' acts, acts = [Handler EVENT_UP] ∧
    o' = o <| buffer := None |> <| io := UpIO |> <| state := STATE_UP |>).
Proof.
  intros Hi. unfold received_reply_rest, free_control_io, init_up_io, set_state.
  repeat wp_assert. done.
Qed.

(** ** Runs *)

(** What the client waits for. *)
Inductive wait := WConnect | WSend | WRecv (off len : Z) | WUp | WFailed.

Definition after (acts : list act) (w : wait) : wait :=
  foldl (λ w a, match a with
    | Send _ => WSend
    | Recv off len => WRecv off len
    | Handler EVENT_UP => WUp
    | Handler _ => WFailed
    end) w acts.
Definition sends (acts : list act) : bytes :=
  mjoin (omap (λ a, match a with Send p => Some p | _ => None end) acts).
Lemma sends_single p : sends [Send p] = p.
Proof. unfold sends. simpl. apply app_nil_r. Qed.
Definition events_of (acts : list act) : list event :=
  omap (λ a, match a with Handler e => Some e | _ => None end) acts.

(** The client with the bytes it handed to the connection, the bytes it took
    from it, and the events its user saw. *)
Record run := mk_run { cl : t; waiting : wait; sent : bytes; recvd : bytes; events : list event }.

Definition turn (r : run) (cl' : t) (acts : list act) (data : bytes) : run :=
  mk_run cl' (after acts (waiting r)) (sent r ++ sends acts) (recvd r ++ data)
    (events r ++ events_of acts).

(** The connector reports, a packet is sent, the stream delivers a nonempty
    piece of what was asked for, or the connection reports an event.  After an
    error event only [Free] may be called. *)
Inductive run_step : run → run → Prop :=
| step_connected r is_error con_ok mem cl' acts :
    mem_ok mem → waiting r = WConnect →
    connector_handler is_error con_ok mem (cl r) = Some ((), cl', acts) →
    run_step r (turn r cl' acts [])
| step_sent r mem cl' acts :
    mem_ok mem → waiting r = WSend →
    send_handler_done mem (cl r) = Some ((), cl', acts) →
    run_step r (turn r cl' acts [])
| step_deliver r off len data b mem cl' acts :
    mem_ok mem → waiting r = WRecv off len → bytes_ok data → 0 < zlen data ≤ len →
    buffer (cl r) = Some b →
    recv_handler_done (zlen data) mem (cl r <| buffer := Some (write_at off data b) |>)
      = Some ((), cl', acts) →
    run_step r (turn r cl' acts data)
| step_event r recv_closed cl' acts :
    waiting r ≠ WConnect → waiting r ≠ WFailed →
    connection_handler recv_closed (cl r) = Some ((), cl', acts) →
    run_step r (turn r cl' acts []).

Section Invariant.
Context (ais : list auth_info_t) (dest : BAddr).
Hypothesis (Hais : auths_ok ais) (Hdest : dest_ok dest).

(** Which of the client's parts are initialised in which state. *)
Definition resources_ok (o : t) : Prop :=
  connector o = true ∧
  match state o with
  | STATE_CONNECTING => con o = false ∧ io o = NoIO
  | STATE_UP => con o = true ∧ io o = UpIO
  | _ => con o = true ∧ io o = ControlIO
  end.

(** A reception of [total] bytes at [dst] of a buffer of [size] bytes is under
    way; [base] was received before the buffer was filled. *)
Definition receiving (r : run) (base : bytes) (dst total size : Z) : Prop :=
  ∃ b, buffer (cl r) = Some b ∧ bytes_ok b ∧ zlen b = size ∧
    recv_dest (cl r) = dst ∧ recv_total (cl r) = total ∧ 0 ≤ recv_len (cl r) < total ∧
    waiting r = WRecv (dst + recv_len (cl r)) (total - recv_len (cl r)) ∧
    recvd r = base ++ take (Z.to_nat (dst + recv_len (cl r))) b.

Definition sending (r : run) : Prop := waiting r = WSend ∧ is_Some (buffer (cl r)).

Definition phase (r : run) : Prop :=
  match state (cl r) with
  | STATE_CONNECTING => waiting r = WConnect ∧ sent r = [] ∧ recvd r = []
  | STATE_SENDING_HELLO => sending r ∧ sent r = hello ais ∧ recvd r = []
  | STATE_SENT_HELLO => sent r = hello ais ∧ receiving r [] 0 2 2
  | STATE_SENDING_PASSWORD => sending r ∧ recvd r = [5; 2] ∧
      ∃ a, find_auth ais 2 = Some a ∧ password_ok a ∧ sent r = hello ais ++ password_packet a
  | STATE_SENT_PASSWORD => receiving r [5; 2] 0 2 2 ∧
      ∃ a, find_auth ais 2 = Some a ∧ password_ok a ∧ sent r = hello ais ++ password_packet a
  | STATE_SENDING_REQUEST => sending r ∧ request_exchange ais dest (sent r) (recvd r)
  | STATE_SENT_REQUEST => ∃ base, receiving r base 0 4 22 ∧ request_exchange ais dest (sent r) base
  | STATE_RECEIVED_REPLY_HEADER => ∃ base n b, receiving r base 4 n 22 ∧ n ≤ 18 ∧
      buffer (cl r) = Some b ∧ reply_header_ok (take 4 b) n ∧ request_exchange ais dest (sent r) base
  | STATE_UP => waiting r = WUp ∧ handshake ais dest (sent r) (recvd r)
  end.

Record run_ok (r : run) : Prop := {
  rok_ais : auth_info (cl r) = ais;
  rok_dest : dest_addr (cl r) = dest;
  rok_res : resources_ok (cl r);
  rok_up : EVENT_UP ∈ events r ↔ state (cl r) = STATE_UP;
  rok_closed : EVENT_ERROR_CLOSED ∈ events r → state (cl r) = STATE_UP;
  rok_handshake : state (cl r) = STATE_UP → handshake ais dest (sent r) (recvd r);
  rok_phase : waiting r ≠ WFailed → phase r
}.

(** An error event leaves the parts of the client as they are. *)
Lemma fail_ok r cl' e data :
  run_ok r → auth_info cl' = auth_info (cl r) → dest_addr cl' = dest_addr (cl r) →
  resources_ok cl' → state cl' = state (cl r) → e ≠ EVENT_UP →
  (e = EVENT_ERROR_CLOSED → state (cl r) = STATE_UP) → (state (cl r) = STATE_UP → data = []) →
  run_ok (turn r cl' [Handler e] data).
Proof.
  intros [] Ha Hd Hr Hs He Hc Hdata. split; simpl; try congruence.
  - rewrite elem_of_app, Hs. set_solver.
  - rewrite elem_of_app, Hs. set_solver.
  - intros Hu. rewrite Hs in Hu. rewrite (Hdata Hu), !app_nil_r. auto.
  - by destruct e.
Qed.

Lemma advance_ok r cl' acts data :
  run_ok r → state (cl r) ≠ STATE_UP → state cl' ≠ STATE_UP →
  auth_info cl' = auth_info (cl r) → dest_addr cl' = dest_addr (cl r) →
  resources_ok cl' → events_of acts = [] → phase (turn r cl' acts data) →
  run_ok (turn r cl' acts data).
Proof.
  intros [] Hu Hu' Ha Hd Hr He Hp. split; simpl; try congruence.
  - rewrite He, app_nil_r. naive_solver.
  - rewrite He, app_nil_r. naive_solver.
Qed.

Lemma step_connected_ok r is_error con_ok mem cl' acts :
  run_ok r → mem_ok mem → waiting r = WConnect →
  connector_handler is_error con_ok mem (cl r) = Some ((), cl', acts) →
  run_ok (turn r cl' acts []).
Proof.
  intros Hr Hm Hw E. pose proof (rok_phase r Hr ltac:(congruence)) as Hp.
  pose proof (rok_res r Hr) as [Hc Hres]. unfold phase in Hp.
  assert (state (cl r) = STATE_CONNECTING) as Hs.
  { destruct (state (cl r)); unfold sending, receiving in Hp;
      decompose [and ex] Hp; first [done|congruence]. }
  rewrite Hs in Hp, Hres. destruct Hp as (_ & Hsent & Hrecv), Hres as [Hcon Hio].
  pose proof (connector_handler_spec is_error con_ok mem (cl r) Hm Hs Hcon Hio) as Hspec.
  unfold wp in Hspec. rewrite E in Hspec. destruct Hspec as [(-> & -> & _)|[-> ->]].
  - apply fail_ok; try done; by apply rok_res.
  - apply advance_ok; try done; [by rewrite Hs|].
    unfold phase; simpl. rewrite Hsent, Hrecv, (rok_ais r Hr), ?app_nil_r, sends_single.
    split_and!; try done.
Qed.

(** The state a client waits in for a packet to be sent, or for input. *)
Lemma waiting_state r : run_ok r →
  (waiting r = WSend → state (cl r) = STATE_SENDING_HELLO ∨
     state (cl r) = STATE_SENDING_PASSWORD ∨ state (cl r) = STATE_SENDING_REQUEST) ∧
  (∀ off len, waiting r = WRecv off len → state (cl r) = STATE_SENT_HELLO ∨
     state (cl r) = STATE_SENT_PASSWORD ∨ state (cl r) = STATE_SENT_REQUEST ∨
     state (cl r) = STATE_RECEIVED_REPLY_HEADER).
Proof.
  intros Hr. split; [intros Hw|intros off len Hw]; pose proof (rok_phase r Hr ltac:(congruence)) as Hp;
    unfold phase in Hp; destruct (state (cl r)); unfold sending, receiving in Hp;
    decompose [and ex] Hp; auto; congruence.
Qed.

Lemma step_sent_ok r mem cl' acts :
  run_ok r → mem_ok mem → waiting r = WSend →
  send_handler_done mem (cl r) = Some ((), cl', acts) →
  run_ok (turn r cl' acts []).
Proof.
  intros Hr Hm Hw E. pose proof (rok_phase r Hr ltac:(congruence)) as Hp.
  pose proof (rok_res r Hr) as [Hc Hres].
  pose proof (proj1 (waiting_state r Hr) Hw) as Hs.
  assert (is_Some (buffer (cl r))) as Hb.
  { unfold phase in Hp. destruct Hs as [Hs|[Hs|Hs]]; rewrite Hs in Hp; apply Hp. }
  pose proof (send_handler_done_spec mem (cl r) Hm Hb Hs) as Hspec.
  unfold wp in Hspec. rewrite E in Hspec.
  destruct Hspec as [(-> & -> & _)|(b & total & st & Hbb & -> & -> & Hcase)].
  { apply fail_ok; try done; by apply rok_res. }
  unfold phase in Hp.
  destruct Hcase as [(Hs' & -> & -> & Hl)|[(Hs' & -> & -> & Hl)|(Hs' & -> & -> & Hl)]];
    rewrite Hs' in Hp, Hres; (apply advance_ok; try done; [by rewrite Hs'|]);
    unfold phase; simpl; rewrite !app_nil_r.
  - destruct Hp as (_ & -> & Hrecv). split; [done|]. exists b. simpl.
    rewrite Hrecv. split_and!; done || lia.
  - destruct Hp as (_ & Hrecv & Hex). split; [|done]. exists b. simpl.
    rewrite Hrecv. split_and!; done || lia.
  - destruct Hp as (_ & Hex). exists (recvd r). split; [|done]. exists b. simpl.
    rewrite !app_nil_r. split_and!; done || lia.
Qed.

Lemma step_event_ok r recv_closed cl' acts :
  run_ok r → connection_handler recv_closed (cl r) = Some ((), cl', acts) →
  run_ok (turn r cl' acts []).
Proof.
  intros Hr E. unfold connection_handler, mbind, M_bind, get, ASSERT in E. simpl in E.
  case_bool_decide; [discriminate E|]. simpl in E.
  destruct (bool_decide (state (cl r) = STATE_UP) && recv_closed) eqn:Eu; injection E as <- <-;
    simpl; apply fail_ok; try done; try by apply rok_res.
  intros _. bool_prop. by apply bool_decide_eq_true in H0.
Qed.

(** *** Input *)

(** A delivery that completes the reception runs the handler of the state;
    another one asks for the rest. *)
Definition complete (mem : Z → option bytes) (st : state_t) : M t act () :=
  match st with
  | STATE_SENT_HELLO => received_hello mem
  | STATE_SENT_REQUEST => received_reply_header
  | STATE_SENT_PASSWORD => received_password_reply mem
  | STATE_RECEIVED_REPLY_HEADER => received_reply_rest
  | _ => ASSERT false
  end.

Lemma recv_handler_done_eq n mem o : 0 ≤ n ≤ recv_total o - recv_len o →
  recv_handler_done n mem o =
    let o1 := o <| recv_len := recv_len o + n |> in
    if recv_len o + n <? recv_total o
    then Some ((), o1, [Recv (recv_dest o + (recv_len o + n)) (recv_total o - (recv_len o + n))])
    else complete mem (state o) o1.
Proof.
  intros Hn. unfold recv_handler_done, do_receive, mbind, M_bind, get, ASSERT, modify, emit. simpl.
  destruct (Z.leb_spec 0 n); [|lia]. destruct (Z.leb_spec n (recv_total o - recv_len o)); [|lia]. simpl.
  destruct (recv_len o + n <? recv_total o) eqn:E.
  - simpl. rewrite E. done.
  - unfold complete. destruct (state o); simpl; try done;
      by match goal with |- _ = ?x => destruct x as [[[[]]]|] end.
Qed.

Lemma receiving_write r base dst total size data b :
  receiving r base dst total size → 0 ≤ dst → dst + total ≤ size → bytes_ok data →
  zlen data ≤ total - recv_len (cl r) → buffer (cl r) = Some b →
  let b' := write_at (dst + recv_len (cl r)) data b in
  bytes_ok b' ∧ zlen b' = size ∧
  recvd r ++ data = base ++ take (Z.to_nat (dst + (recv_len (cl r) + zlen data))) b'.
Proof.
  intros (b0 & Hb & Hok & Hl & Hd & Ht & Hlen & _ & Hrecv) Hdst Hsz Hdata Hn Hb'.
  rewrite Hb' in Hb. injection Hb as <-. cbv zeta. split_and!.
  - unfold write_at. auto with badvpn.
  - rewrite zlen_write_at; lia.
  - rewrite Z.add_assoc, take_write_at, app_assoc by lia. by rewrite Hrecv.
Qed.

Lemma receiving_partial r base dst total size data b :
  receiving r base dst total size → 0 ≤ dst → dst + total ≤ size → bytes_ok data →
  0 < zlen data → recv_len (cl r) + zlen data < total → buffer (cl r) = Some b →
  let o1 := cl r <| buffer := Some (write_at (dst + recv_len (cl r)) data b) |>
                 <| recv_len := recv_len (cl r) + zlen data |> in
  receiving (turn r o1 [Recv (dst + (recv_len (cl r) + zlen data)) (total - (recv_len (cl r) + zlen data))] data)
    base dst total size.
Proof.
  intros Hr Hdst Hsz Hdata Hpos Hn Hb.
  destruct (receiving_write r base dst total size data b) as (Hok & Hl & Hrec); [done..|lia|done|].
  destruct Hr as (b0 & Hb0 & _ & _ & Hd & Ht & Hlen & Hw & _). cbv zeta.
  eexists. split; [reflexivity|]. simpl. rewrite Hd, Ht. split_and!; try done; lia.
Qed.

(** [take n] of a buffer does not see what is written behind it. *)
Lemma take_write_at_before {A} n off (data b : list A) :
  Z.of_nat n ≤ off → off ≤ zlen b → take n (write_at off data b) = take n b.
Proof.
  intros Hn Ho. unfold write_at, zlen in *. rewrite take_app_le by (rewrite length_take; lia).
  rewrite take_take. f_equal. lia.
Qed.

Lemma list_len2 (b : bytes) : zlen b = 2 → ∃ v m, b = [v; m].
Proof. destruct b as [|v [|m [|]]]; unfold zlen; simpl; intros; try lia. eauto. Qed.

(** A delivery either keeps the phase, or fills the buffer and completes it. *)
Lemma deliver_ok r base dst total size off len data b mem cl' acts :
  run_ok r → state (cl r) ≠ STATE_UP → receiving r base dst total size →
  0 ≤ dst → dst + total ≤ size → waiting r = WRecv off len →
  bytes_ok data → 0 < zlen data ≤ len → buffer (cl r) = Some b →
  recv_handler_done (zlen data) mem (cl r <| buffer := Some (write_at off data b) |>)
    = Some ((), cl', acts) →
  (∀ r' b', state (cl r') = state (cl r) → sent r' = sent r → receiving r' base dst total size →
     buffer (cl r') = Some b' → take (Z.to_nat dst) b' = take (Z.to_nat dst) b → phase r') →
  (∀ b', bytes_ok b' → zlen b' = size → take (Z.to_nat dst) b' = take (Z.to_nat dst) b →
     recvd r ++ data = base ++ take (Z.to_nat (dst + total)) b' →
     complete mem (state (cl r)) (cl r <| buffer := Some b' |> <| recv_len := total |>)
       = Some ((), cl', acts) → run_ok (turn r cl' acts data)) →
  run_ok (turn r cl' acts data).
Proof.
  intros Hr Hup Hrec Hdst Hsz Hw Hdata Hlen Hb E Hpart Hfull.
  destruct (id Hrec) as (b0 & Hb0 & Hok & Hl & Hd & Ht & Hn & Hw' & Hrcv).
  rewrite Hw' in Hw. injection Hw as <- <-. rewrite Hb in Hb0. injection Hb0 as <-.
  assert (take (Z.to_nat dst) (write_at (dst + recv_len (cl r)) data b) = take (Z.to_nat dst) b) as Etk
    by (apply take_write_at_before; lia).
  rewrite recv_handler_done_eq in E by (simpl; lia). simpl in E. rewrite Hd, Ht in E.
  destruct (Z.ltb_spec (recv_len (cl r) + zlen data) total).
  - injection E as <- <-. apply advance_ok; try done; [exact (rok_res r Hr)|].
    eapply Hpart; [done|simpl; by rewrite app_nil_r|apply receiving_partial|done|]; done || lia.
  - destruct (receiving_write r base dst total size data b Hrec) as (Hok' & Hl' & Hrcv'); [done || lia..|].
    assert (recv_len (cl r) + zlen data = total) as E2 by lia. rewrite E2 in *. by eapply Hfull.
Qed.

(** The entry into the state after authentication. *)
Lemma authenticated_ok r cl0 s data :
  run_ok r → state (cl r) ≠ STATE_UP → resources_ok cl0 → con cl0 = true → io cl0 = ControlIO →
  auth_info cl0 = ais → dest_addr cl0 = dest →
  auth_exchange ais s (recvd r ++ data) → sent r = s →
  run_ok (turn r (cl0 <| buffer := Some (request dest) |> <| state := STATE_SENDING_REQUEST |>)
            [Send (request dest)] data).
Proof.
  intros Hr Hup [Hc _] Hcon Hio Ha Hd Hex <-.
  apply advance_ok; try done; simpl; [by rewrite (rok_ais r Hr)|by rewrite (rok_dest r Hr)|].
  unfold phase. simpl. rewrite sends_single. split; [by split|]. by exists (sent r).
Qed.

Lemma control_resources r : run_ok r → state (cl r) ≠ STATE_CONNECTING → state (cl r) ≠ STATE_UP →
  con (cl r) = true ∧ io (cl r) = ControlIO.
Proof. intros [_ _ [_ H] _ _ _ _]. by destruct (state (cl r)). Qed.

Lemma deliver_hello_ok r off len data b mem cl' acts :
  run_ok r → mem_ok mem → state (cl r) = STATE_SENT_HELLO → waiting r = WRecv off len →
  bytes_ok data → 0 < zlen data ≤ len → buffer (cl r) = Some b →
  recv_handler_done (zlen data) mem (cl r <| buffer := Some (write_at off data b) |>)
    = Some ((), cl', acts) →
  run_ok (turn r cl' acts data).
Proof.
  intros Hr Hm Hs Hw Hdata Hlen Hb E.
  pose proof (rok_phase r Hr ltac:(congruence)) as Hp. unfold phase in Hp. rewrite Hs in Hp.
  destruct Hp as [Hsent Hrec].
  destruct (control_resources r Hr ltac:(congruence) ltac:(congruence)) as [Hcon Hio].
  apply (deliver_ok r [] 0 2 2 off len data b mem); try done; [congruence| |].
  { intros r' b' Hs' Hsent' Hrec' _ _. unfold phase. rewrite Hs', Hs, Hsent'. done. }
  intros b' Hok Hl _ Hrcv E'. destruct (list_len2 _ Hl) as (v & m & ->).
  do 2 (apply Forall_cons in Hok as [? Hok]).
  set (o1 := cl r <| buffer := Some [v; m] |> <| recv_len := 2 |>) in *.
  pose proof (received_hello_spec mem o1 v m Hm) as Hspec. unfold wp in Hspec.
  rewrite Hs in E'. simpl in E'. rewrite E' in Hspec. simpl in Hrcv.
  assert (auth_info o1 = ais) as Ea by exact (rok_ais r Hr).
  assert (dest_addr o1 = dest) as Ed by exact (rok_dest r Hr).
  rewrite Ea, Ed in Hspec.
  destruct Hspec as [(-> & -> & _)|[(-> & -> & (a & Hf) & -> & ->)|(-> & -> & a & Hf & Hpw & -> & ->)]];
    try done.
  - apply fail_ok; try done; [exact (rok_res r Hr)|by rewrite Hs].
  - eapply authenticated_ok; try done; [congruence|exact (rok_res r Hr)|].
    rewrite Hrcv. by eapply exchange_none.
  - apply advance_ok; try done; [by rewrite Hs|split; [apply (rok_res r Hr)|done]|].
    unfold phase. simpl. rewrite Hsent, sends_single, Hrcv. split_and!; [done..|]. by exists a.
Qed.

Lemma deliver_password_ok r off len data b mem cl' acts :
  run_ok r → mem_ok mem → state (cl r) = STATE_SENT_PASSWORD → waiting r = WRecv off len →
  bytes_ok data → 0 < zlen data ≤ len → buffer (cl r) = Some b →
  recv_handler_done (zlen data) mem (cl r <| buffer := Some (write_at off data b) |>)
    = Some ((), cl', acts) →
  run_ok (turn r cl' acts data).
Proof.
  intros Hr Hm Hs Hw Hdata Hlen Hb E.
  pose proof (rok_phase r Hr ltac:(congruence)) as Hp. unfold phase in Hp. rewrite Hs in Hp.
  destruct Hp as [Hrec Hex].
  destruct (control_resources r Hr ltac:(congruence) ltac:(congruence)) as [Hcon Hio].
  apply (deliver_ok r [5; 2] 0 2 2 off len data b mem); try done; [congruence| |].
  { intros r' b' Hs' Hsent' Hrec' _ _. unfold phase. rewrite Hs', Hs, Hsent'. done. }
  intros b' Hok Hl _ Hrcv E'. destruct (list_len2 _ Hl) as (v & m & ->). simpl in Hrcv.
  set (o1 := cl r <| buffer := Some [v; m] |> <| recv_len := 2 |>) in *.
  rewrite Hs in E'. simpl in E'.
  assert (auth_info o1 = ais) as Ea by exact (rok_ais r Hr).
  assert (dest_addr o1 = dest) as Ed by exact (rok_dest r Hr).
  assert (wp (received_password_reply mem) o1 (λ _ o' acts,
    acts = [Handler EVENT_ERROR] ∧ o' = o1 ∨ v = 1 ∧ m = 0 ∧ acts = [Send (request dest)] ∧
    o' = o1 <| buffer := Some (request dest) |> <| state := STATE_SENDING_REQUEST |>)) as Hspec.
  { unfold received_password_reply, report_error. wp_pure. unfold byte_at. simpl.
    wp_step; [wp_pure; by left|]. wp_step; [wp_pure; by left|]. bool_prop.
    eapply wp_mono; [apply auth_finished_spec; [done|by rewrite Ed]|].
    rewrite Ed. intros _ o' acts' [(-> & -> & _)|[??]]; eauto 10. }
  unfold wp in Hspec. rewrite E' in Hspec. destruct Hspec as [[-> ->]|(-> & -> & -> & ->)].
  - apply fail_ok; try done; [exact (rok_res r Hr)|by rewrite Hs].
  - destruct Hex as (a & Hf & Hpw & Hsent).
    eapply authenticated_ok; try done; [congruence|exact (rok_res r Hr)|].
    rewrite Hrcv. by apply (exchange_password ais a).
Qed.

Lemma deliver_reply_header_ok r off len data b mem cl' acts :
  run_ok r → mem_ok mem → state (cl r) = STATE_SENT_REQUEST → waiting r = WRecv off len →
  bytes_ok data → 0 < zlen data ≤ len → buffer (cl r) = Some b →
  recv_handler_done (zlen data) mem (cl r <| buffer := Some (write_at off data b) |>)
    = Some ((), cl', acts) →
  run_ok (turn r cl' acts data).
Proof.
  intros Hr Hm Hs Hw Hdata Hlen Hb E.
  pose proof (rok_phase r Hr ltac:(congruence)) as Hp. unfold phase in Hp. rewrite Hs in Hp.
  destruct Hp as (base & Hrec & Hex).
  destruct (control_resources r Hr ltac:(congruence) ltac:(congruence)) as [Hcon Hio].
  apply (deliver_ok r base 0 4 22 off len data b mem); try done; [congruence| |].
  { intros r' b' Hs' Hsent' Hrec' _ _. unfold phase. rewrite Hs', Hs, Hsent'. by exists base. }
  intros b' Hok Hl _ Hrcv E'. rewrite Hs in E'. simpl in E'.
  set (o1 := cl r <| buffer := Some b' |> <| recv_len := 4 |>) in *.
  pose proof (received_reply_header_spec o1 b' eq_refl Hok Hl) as Hspec.
  unfold wp in Hspec. rewrite E' in Hspec. destruct Hspec as [(-> & -> & _)|(n & Hh & -> & Hn & ->)].
  - apply fail_ok; try done; [exact (rok_res r Hr)|by rewrite Hs].
  - apply advance_ok; try done; [by rewrite Hs|split; [apply (rok_res r Hr)|done]|].
    unfold phase. simpl. rewrite app_nil_r. exists base, n, b'. split_and!; try done; [|lia].
    exists b'. simpl. rewrite Z.sub_0_r. split_and!; try done; lia.
Qed.

Lemma deliver_reply_rest_ok r off len data b mem cl' acts :
  run_ok r → state (cl r) = STATE_RECEIVED_REPLY_HEADER → waiting r = WRecv off len →
  bytes_ok data → 0 < zlen data ≤ len → buffer (cl r) = Some b →
  recv_handler_done (zlen data) mem (cl r <| buffer := Some (write_at off data b) |>)
    = Some ((), cl', acts) →
  run_ok (turn r cl' acts data).
Proof.
  intros Hr Hs Hw Hdata Hlen Hb E.
  pose proof (rok_phase r Hr ltac:(congruence)) as Hp. unfold phase in Hp. rewrite Hs in Hp.
  destruct Hp as (base & n & b0 & Hrec & Hn & Hb0 & Hh & Hex).
  rewrite Hb in Hb0. injection Hb0 as <-.
  destruct (control_resources r Hr ltac:(congruence) ltac:(congruence)) as [Hcon Hio].
  apply (deliver_ok r base 4 n 22 off len data b mem); try done; [congruence|lia| |].
  { intros r' b' Hs' Hsent' Hrec' Hb' Ht. change (Z.to_nat 4) with 4%nat in Ht.
    unfold phase. rewrite Hs', Hs, Hsent'. exists base, n, b'. by rewrite Ht. }
  intros b' Hok Hl Ht Hrcv E'. rewrite Hs in E'. simpl in E'.
  set (o1 := cl r <| buffer := Some b' |> <| recv_len := n |>) in *.
  pose proof (received_reply_rest_spec o1 Hio) as Hspec.
  unfold wp in Hspec. rewrite E' in Hspec. destruct Hspec as [-> ->].
  assert (handshake ais dest (sent r) (recvd r ++ data)) as Hhs.
  { exists base, (take 4 b), (read_at 4 n b'). split; [done|].
    assert (0 < n) by (destruct Hh as (? & ? & _ & [[_ ->]|[_ ->]]); lia).
    rewrite zlen_read_at by lia. split; [done|]. rewrite Hrcv. f_equal.
    change (Z.to_nat 4) with 4%nat in Ht. rewrite <- Ht. unfold read_at.
    rewrite Z2Nat.inj_add by lia. change (Z.to_nat 4) with 4%nat.
    by rewrite <- (take_drop 4 (take (4 + Z.to_nat n) b')), take_take, skipn_firstn_comm,
      Nat.min_l, Nat.add_comm, Nat.add_sub by lia. }
  destruct (rok_res r Hr) as [Hc _].
  split; simpl; rewrite ?app_nil_r; try done; try apply Hr; [set_solver|].
  intros _. unfold phase. simpl. by rewrite app_nil_r.
Qed.

Lemma socks_step_ok r r' : run_ok r → run_step r r' → run_ok r'.
Proof.
  intros Hr. destruct 1 as [r ie co mem cl' acts Hm Hw E|r mem cl' acts Hm Hw E
    |r off len data b mem cl' acts Hm Hw Hd Hl Hb E|r rc cl' acts _ _ E].
  - by eapply step_connected_ok.
  - by eapply step_sent_ok.
  - destruct (proj2 (waiting_state r Hr) off len Hw) as [Hs|[Hs|[Hs|Hs]]].
    + by eapply deliver_hello_ok.
    + by eapply deliver_password_ok.
    + by eapply deliver_reply_header_ok.
    + by eapply deliver_reply_rest_ok.
  - by eapply step_event_ok.
Qed.
End Invariant.

(** The run that [Init] starts. *)
Definition started (o : t) : run := mk_run o WConnect [] [] [].

Lemma started_ok server ais dest o :
  Init true server ais dest = Some o → run_ok ais dest (started o).
Proof. intros [= <-]. split; simpl; try done; set_solver. Qed.

Lemma socks_runs_ok ais dest r r' : auths_ok ais → dest_ok dest →
  run_ok ais dest r → rtc run_step r r' → run_ok ais dest r'.
Proof. intros Ha Hd H Hs. induction Hs; eauto using socks_step_ok. Qed.

(** ** The environment *)

(** An executable environment, with the memory [mem]: the connector succeeds, a
    packet is sent, a piece of the requested input is delivered, the stream is
    closed. *)
Inductive move := Connected | Sent | Deliver (data : bytes) | Closed.
Definition do_move (mem : Z → option bytes) (r : run) (m : move) : option run :=
  match m, waiting r with
  | Connected, WConnect =>
      '(_, cl', acts) ← connector_handler false true mem (cl r); Some (turn r cl' acts [])
  | Sent, WSend =>
      '(_, cl', acts) ← send_handler_done mem (cl r); Some (turn r cl' acts [])
  | Deliver data, WRecv off len =>
      b ← buffer (cl r);
      if bool_decide (bytes_ok data ∧ 0 < zlen data ≤ len) then
        '(_, cl', acts) ← recv_handler_done (zlen data) mem
                            (cl r <| buffer := Some (write_at off data b) |>);
        Some (turn r cl' acts data)
      else None
  | Closed, WUp => '(_, cl', acts) ← connection_handler true (cl r); Some (turn r cl' acts [])
  | _, _ => None
  end.
Fixpoint drive (mem : Z → option bytes) (r : run) (ms : list move) : option run :=
  match ms with [] => Some r | m :: ms => r' ← do_move mem r m; drive mem r' ms end.

Lemma socks_drive_app mem ms1 ms2 r r' :
  drive mem r ms1 = Some r' → drive mem r (ms1 ++ ms2) = drive mem r' ms2.
Proof.
  revert r. induction ms1 as [|m ms1 IH]; intros r H; [by injection H as <-|].
  simpl in *. destruct (do_move mem r m) as [r1|]; [|done]. simpl in *. auto.
Qed.

Lemma do_move_step mem r m r' : mem_ok mem → do_move mem r m = Some r' → run_step r r'.
Proof.
  intros Hm H. unfold do_move in H.
  destruct m as [| |data|], (waiting r) as [| |off len| |] eqn:Hw; try discriminate H.
  - destruct (connector_handler _ _ _ _) as [[[[] cl'] acts]|] eqn:E; [|done].
    injection H as <-. by eapply step_connected.
  - destruct (send_handler_done _ _) as [[[[] cl'] acts]|] eqn:E; [|done].
    injection H as <-. by eapply step_sent.
  - destruct (buffer (cl r)) as [b|] eqn:Hb; [|done]. simpl in H.
    case_bool_decide as Hd; [|done].
    destruct (recv_handler_done _ _ _) as [[[[] cl'] acts]|] eqn:E; [|done].
    injection H as <-. destruct Hd. by eapply step_deliver.
  - destruct (connection_handler _ _) as [[[[] cl'] acts]|] eqn:E; [|done].
    injection H as <-. eapply step_event; [by rewrite Hw..|done].
Qed.

Lemma socks_drive_rtc mem r ms r' : mem_ok mem → drive mem r ms = Some r' → rtc run_step r r'.
Proof.
  intros Hm. revert r. induction ms as [|m ms IH]; intros r H; [by injection H as <-|].
  simpl in H. destruct (do_move mem r m) as [r1|] eqn:E; [|done].
  eapply rtc_l; [by eapply do_move_step|by apply IH].
Qed.

(** ** Completion *)

Lemma after_last acts w w' : acts ≠ [] → after acts w = after acts w'.
Proof.
  unfold after. destruct acts as [|a acts] using rev_ind; [done|]. intros _.
  rewrite !foldl_snoc. by destruct a as [| |[]].
Qed.

(** A message may arrive in any pieces: the outcome is that of its delivery at once. *)
Lemma deliver_chunks chunks r b mem cl' acts :
  buffer (cl r) = Some b →
  0 ≤ recv_dest (cl r) → 0 ≤ recv_len (cl r) → recv_dest (cl r) + recv_total (cl r) ≤ zlen b →
  waiting r = WRecv (recv_dest (cl r) + recv_len (cl r)) (recv_total (cl r) - recv_len (cl r)) →
  Forall (λ c, bytes_ok c ∧ 0 < zlen c) chunks → chunks ≠ [] →
  zlen (mjoin chunks) = recv_total (cl r) - recv_len (cl r) →
  complete mem (state (cl r))
    (cl r <| buffer := Some (write_at (recv_dest (cl r) + recv_len (cl r)) (mjoin chunks) b) |>
          <| recv_len := recv_total (cl r) |>) = Some ((), cl', acts) →
  acts ≠ [] →
  drive mem r (Deliver <$> chunks) = Some (turn r cl' acts (mjoin chunks)).
Proof.
  revert r b. induction chunks as [|c chunks IH]; intros r b Hb Hd Hn Hsz Hw Hok Hne Hl E Ha;
    [done|]. apply Forall_cons in Hok as [[Hc Hc'] Hok]. rewrite fmap_cons.
  change (mjoin (c :: chunks)) with (c ++ mjoin chunks) in *. rewrite zlen_app in Hl.
  pose proof (zlen_nonneg (mjoin chunks)).
  assert (do_move mem r (Deliver c) =
    '(_, cl', acts) ← recv_handler_done (zlen c) mem
        (cl r <| buffer := Some (write_at (recv_dest (cl r) + recv_len (cl r)) c b) |>);
    Some (turn r cl' acts c)) as Em.
  { unfold do_move. rewrite Hw, Hb. simpl. rewrite bool_decide_true by (split; [done|lia]). done. }
  cbn [drive]. rewrite Em, recv_handler_done_eq by (simpl; lia). cbn [recv_len recv_total]. simpl.
  destruct chunks as [|c2 chunks].
  - simpl in *. rewrite app_nil_r in *. change (zlen []) with 0 in Hl.
    destruct (Z.ltb_spec (recv_len (cl r) + zlen c) (recv_total (cl r))); [lia|].
    replace (recv_len (cl r) + zlen c) with (recv_total (cl r)) by lia.
    unfold upd_field in *. simpl in *. rewrite E. done.
  - assert (0 < zlen (mjoin (c2 :: chunks))).
    { apply Forall_cons in Hok as [[_ ?] _]. simpl. rewrite zlen_app. pose proof (zlen_nonneg (mjoin chunks)). lia. }
    set (o1 := cl r <| buffer := Some (write_at (recv_dest (cl r) + recv_len (cl r)) c b) |>
                    <| recv_len := recv_len (cl r) + zlen c |>).
    set (r1 := turn r o1 [Recv (recv_dest (cl r) + (recv_len (cl r) + zlen c))
                               (recv_total (cl r) - (recv_len (cl r) + zlen c))] c).
    destruct (Z.ltb_spec (recv_len (cl r) + zlen c) (recv_total (cl r))); [|lia].
    change (drive mem r1 (Deliver <$> c2 :: chunks) = Some (turn r cl' acts (c ++ mjoin (c2 :: chunks)))).
    replace (turn r cl' acts (c ++ mjoin (c2 :: chunks)))
      with (turn r1 cl' acts (mjoin (c2 :: chunks))).
    2:{ unfold turn, r1. simpl. rewrite !app_nil_r, !app_assoc. f_equal. by apply after_last. }
    eapply (IH r1); [reflexivity|..]; simpl; try done; try lia.
    + rewrite zlen_write_at; lia.
    + simpl in Hl. lia.
    + rewrite Z.add_assoc, write_at_app by (simpl in *; lia). exact E.
Qed.

(** ** No assertion fails *)

Lemma connecting_state ais dest r : run_ok ais dest r → waiting r = WConnect →
  state (cl r) = STATE_CONNECTING ∧ con (cl r) = false ∧ io (cl r) = NoIO.
Proof.
  intros Hr Hw. pose proof (rok_phase _ _ r Hr ltac:(congruence)) as Hp.
  pose proof (rok_res _ _ r Hr) as [_ Hres]. unfold phase, sending, receiving in Hp.
  destruct (state (cl r)); try done; decompose [and ex] Hp; congruence.
Qed.

Lemma receiving_state ais dest r off len : run_ok ais dest r → waiting r = WRecv off len →
  ∃ base dst total size, receiving r base dst total size ∧ 0 ≤ dst ∧ dst + total ≤ size ∧
    match state (cl r) with
    | STATE_SENT_HELLO | STATE_SENT_PASSWORD => size = 2
    | STATE_SENT_REQUEST | STATE_RECEIVED_REPLY_HEADER => size = 22
    | _ => False
    end.
Proof.
  intros Hr Hw. pose proof (rok_phase _ _ r Hr ltac:(congruence)) as Hp. unfold phase in Hp.
  destruct (proj2 (waiting_state _ _ r Hr) off len Hw) as [Hs|[Hs|[Hs|Hs]]]; rewrite Hs in Hp |- *.
  - destruct Hp as [_ Hrec]. by exists [], 0, 2, 2.
  - destruct Hp as [Hrec _]. by exists [5; 2], 0, 2, 2.
  - destruct Hp as (base & Hrec & _). by exists base, 0, 4, 22.
  - destruct Hp as (base & n & b & Hrec & Hn & _). exists base, 4, n, 22. split_and!; done || lia.
Qed.

(** The handler of a completed message ends, in every state that receives. *)
Lemma complete_total ais dest r b mem n :
  auths_ok ais → dest_ok dest → run_ok ais dest r → mem_ok mem → bytes_ok b →
  match state (cl r) with
  | STATE_SENT_HELLO | STATE_SENT_PASSWORD => zlen b = 2
  | STATE_SENT_REQUEST | STATE_RECEIVED_REPLY_HEADER => zlen b = 22
  | _ => False
  end →
  ∃ x, complete mem (state (cl r)) (cl r <| buffer := Some b |> <| recv_len := n |>) = Some x.
Proof.
  intros Ha Hd Hr Hm Hb Hl. set (o1 := cl r <| buffer := Some b |> <| recv_len := n |>).
  assert (auth_info o1 = ais) as Ea by exact (rok_ais _ _ r Hr).
  assert (dest_addr o1 = dest) as Ed by exact (rok_dest _ _ r Hr).
  assert (∀ m : M t act (), wp m o1 (λ _ _ _, True) → ∃ x, m o1 = Some x) as Hwp.
  { intros m H. apply wp_some in H as (? & ? & ? & ? & _). eauto. }
  destruct (state (cl r)) eqn:Hs; try done; simpl; apply Hwp.
  - destruct (list_len2 _ Hl) as (v & m & ->). do 2 (apply Forall_cons in Hb as [? Hb]).
    eapply wp_mono; [apply (received_hello_spec mem o1 v m); rewrite ?Ea, ?Ed; done|done].
  - eapply wp_mono; [by apply (received_reply_header_spec o1 b)|done].
  - eapply wp_mono; [apply received_reply_rest_spec|done].
    by apply (control_resources ais dest); rewrite ?Hs.
  - unfold received_password_reply, report_error. wp_pure.
    wp_step; [by wp_pure|]. wp_step; [by wp_pure|].
    eapply wp_mono; [apply auth_finished_spec; rewrite ?Ed; done|done].
Qed.

(** *** With memory available the client proceeds from each message to the next *)
Section Steps.
Context (ais : list auth_info_t) (dest : BAddr) (mem : Z → option bytes).
Hypothesis (Hais : auths_ok ais) (Hdest : dest_ok dest).
Hypothesis (Hmem : mem_ok mem) (Hfull : ¬ mem_fails mem).

Lemma connect_step r :
  run_ok ais dest r → state (cl r) = STATE_CONNECTING → waiting r = WConnect →
  0 < zlen ais ≤ 255 →
  ∃ cl', do_move mem r Connected = Some (turn r cl' [Send (hello ais)] []) ∧
    state cl' = STATE_SENDING_HELLO.
Proof.
  intros Hr Hs Hw Hn. pose proof (rok_res _ _ r Hr) as [_ Hres]. rewrite Hs in Hres.
  pose proof (connector_handler_spec false true mem (cl r) Hmem Hs
    (proj1 Hres) (proj2 Hres)) as H. apply wp_some in H as ([] & cl' & acts & E & H).
  rewrite (rok_ais _ _ r Hr) in H. destruct H as [(_ & _ & H)|[-> ->]].
  { exfalso. naive_solver lia. }
  eexists. unfold do_move. rewrite Hw, E. done.
Qed.

(** The client [r], waiting for the front of a message of [total] bytes. *)
Definition fresh (r : run) (st : state_t) (total size : Z) : Prop :=
  state (cl r) = st ∧ (∃ b, buffer (cl r) = Some b ∧ bytes_ok b ∧ zlen b = size) ∧
  recv_dest (cl r) = 0 ∧ recv_len (cl r) = 0 ∧ recv_total (cl r) = total ∧ waiting r = WRecv 0 total.

Lemma sent_step r :
  run_ok ais dest r → waiting r = WSend →
  ∃ r', do_move mem r Sent = Some r' ∧ run_ok ais dest r' ∧
    sent r' = sent r ∧ recvd r' = recvd r ∧ events r' = events r ∧
    match state (cl r) with
    | STATE_SENDING_HELLO => fresh r' STATE_SENT_HELLO 2 2
    | STATE_SENDING_PASSWORD => fresh r' STATE_SENT_PASSWORD 2 2
    | _ => fresh r' STATE_SENT_REQUEST 4 22
    end.
Proof.
  intros Hr Hw. pose proof (rok_phase _ _ r Hr ltac:(congruence)) as Hp.
  pose proof (proj1 (waiting_state _ _ r Hr) Hw) as Hs.
  assert (is_Some (buffer (cl r))) as Hb.
  { unfold phase in Hp. destruct Hs as [Hs|[Hs|Hs]]; rewrite Hs in Hp; apply Hp. }
  pose proof (send_handler_done_spec mem (cl r) Hmem Hb Hs) as H.
  apply wp_some in H as ([] & cl' & acts & E & H).
  destruct H as [(_ & _ & H)|(b & total & st & Hbb & -> & Ecl & Hcase)]; [done|].
  exists (turn r cl' [Recv 0 total] []).
  assert (do_move mem r Sent = Some (turn r cl' [Recv 0 total] [])) as Em
    by (unfold do_move; by rewrite Hw, E).
  split; [exact Em|]. split; [eapply socks_step_ok; [..|by eapply do_move_step]; done|].
  simpl. rewrite !app_nil_r. do 3 (split; [done|]). subst cl'.
  destruct Hcase as [(-> & -> & -> & ?)|[(-> & -> & -> & ?)|(-> & -> & -> & ?)]];
    (split; [done|]); (split; [by exists b|done]).
Qed.

(** [msg] arrives in the pieces [cs], of at least one byte each. *)
Definition pieces_of (msg : bytes) (cs : list bytes) : Prop :=
  mjoin cs = msg ∧ cs ≠ [] ∧ Forall (λ c, bytes_ok c ∧ 0 < zlen c) cs.

Lemma bytes_ok_pieces msg cs : pieces_of msg cs → bytes_ok msg.
Proof.
  intros (<- & _ & H). induction H as [|c cs [Hc _] _ IH]; [constructor|]. simpl. auto with badvpn.
Qed.

(** A complete message for a reception that starts at the front of the buffer. *)
Lemma message_step r b msg cs cl' acts :
  run_ok ais dest r →
  buffer (cl r) = Some b → recv_len (cl r) = 0 → 0 ≤ recv_dest (cl r) →
  recv_dest (cl r) + recv_total (cl r) ≤ zlen b → waiting r = WRecv (recv_dest (cl r)) (recv_total (cl r)) →
  pieces_of msg cs → zlen msg = recv_total (cl r) →
  complete mem (state (cl r))
    (cl r <| buffer := Some (write_at (recv_dest (cl r)) msg b) |> <| recv_len := recv_total (cl r) |>)
    = Some ((), cl', acts) →
  acts ≠ [] →
  drive mem r (Deliver <$> cs) = Some (turn r cl' acts msg) ∧ run_ok ais dest (turn r cl' acts msg).
Proof.
  intros Hr Hb H0 Hd Hsz Hw (<- & Hne & Hcs) Hl E Ha.
  assert (drive mem r (Deliver <$> cs) = Some (turn r cl' acts (mjoin cs))) as Ed.
  { eapply deliver_chunks; rewrite ?H0, ?Z.add_0_r, ?Z.sub_0_r; done. }
  split; [done|]. eapply socks_runs_ok; [..|by eapply socks_drive_rtc]; done.
Qed.

(** A message for a fresh reception, in any pieces, is what the state completes. *)
Lemma fresh_step r st total size msg cs (Q : t → list act → Prop) :
  run_ok ais dest r → fresh r st total size → total ≤ size →
  pieces_of msg cs → zlen msg = total →
  (∀ o1 b', auth_info o1 = ais → dest_addr o1 = dest → con o1 = con (cl r) → io o1 = io (cl r) →
     buffer o1 = Some b' → bytes_ok b' → zlen b' = size → take (Z.to_nat total) b' = msg →
     wp (complete mem st) o1 (λ _ o' acts, acts ≠ [] ∧ Q o' acts)) →
  ∃ cl' acts, drive mem r (Deliver <$> cs) = Some (turn r cl' acts msg) ∧
    run_ok ais dest (turn r cl' acts msg) ∧ Q cl' acts.
Proof.
  intros Hr (Hs & (b & Hb & Hbok & Hl) & Hrd & Hrl & Hrt & Hw) Hsz Hcs Hm HQ.
  pose proof (bytes_ok_pieces _ _ Hcs) as Hmok. pose proof (zlen_nonneg msg).
  set (o1 := cl r <| buffer := Some (write_at 0 msg b) |> <| recv_len := total |>).
  specialize (HQ o1 (write_at 0 msg b) (rok_ais _ _ r Hr) (rok_dest _ _ r Hr) eq_refl eq_refl eq_refl).
  specialize (HQ ltac:(unfold write_at; auto with badvpn) ltac:(rewrite zlen_write_at; lia)).
  assert (take (Z.to_nat total) (write_at 0 msg b) = msg) as Htk.
  { unfold write_at. simpl. rewrite take_app_length'; [done|unfold zlen in Hm; lia]. }
  apply wp_some in HQ as ([] & cl' & acts & E & Ha & HQ); [|done].
  destruct (message_step r b msg cs cl' acts) as [Ed Hok]; rewrite ?Hrd, ?Hrt, ?Hs; try done; [lia|].
  eauto 10.
Qed.

(** The method reply "no authentication" leads to the request. *)
Lemma hello_reply_step r cs a :
  run_ok ais dest r → fresh r STATE_SENT_HELLO 2 2 →
  find_auth ais 0 = Some a → pieces_of [5; 0] cs →
  ∃ cl', drive mem r (Deliver <$> cs) = Some (turn r cl' [Send (request dest)] [5; 0]) ∧
    run_ok ais dest (turn r cl' [Send (request dest)] [5; 0]) ∧ state cl' = STATE_SENDING_REQUEST.
Proof.
  intros Hr Hfr Hf Hcs.
  destruct (fresh_step r STATE_SENT_HELLO 2 2 [5; 0] cs
    (λ o' acts, acts = [Send (request dest)] ∧ state o' = STATE_SENDING_REQUEST) Hr Hfr)
    as (cl' & acts & Ed & Hok & -> & Hs); try done; [|eauto].
  intros o1 b' Ea Edd _ _ Hb' Hbok Hl Htk.
  assert (b' = [5; 0]) as -> by (destruct (list_len2 _ Hl) as (? & ? & ->); done).
  eapply wp_mono; [apply (received_hello_spec mem o1 5 0); rewrite ?Ea, ?Edd; done|].
  rewrite Ea, Edd. intros _ o' acts
    [(_ & _ & H)|[(_ & _ & _ & -> & ->)|(_ & H & _)]]; [exfalso|done|lia]. naive_solver.
Qed.

(** The method reply "user name and password" leads to the password packet. *)
Lemma hello_password_step r cs a :
  run_ok ais dest r → fresh r STATE_SENT_HELLO 2 2 →
  find_auth ais 2 = Some a → password_ok a → pieces_of [5; 2] cs →
  ∃ cl', drive mem r (Deliver <$> cs) = Some (turn r cl' [Send (password_packet a)] [5; 2]) ∧
    run_ok ais dest (turn r cl' [Send (password_packet a)] [5; 2]) ∧
    state cl' = STATE_SENDING_PASSWORD.
Proof.
  intros Hr Hfr Hf Hpw Hcs.
  destruct (fresh_step r STATE_SENT_HELLO 2 2 [5; 2] cs
    (λ o' acts, acts = [Send (password_packet a)] ∧ state o' = STATE_SENDING_PASSWORD) Hr Hfr)
    as (cl' & acts & Ed & Hok & -> & Hs); try done; [|eauto].
  intros o1 b' Ea Edd _ _ Hb' Hbok Hl Htk.
  assert (b' = [5; 2]) as -> by (destruct (list_len2 _ Hl) as (? & ? & ->); done).
  eapply wp_mono; [apply (received_hello_spec mem o1 5 2); rewrite ?Ea, ?Edd; done|].
  rewrite Ea, Edd. intros _ o' acts
    [(_ & _ & H)|[(_ & H & _)|(_ & _ & a' & Ha' & _ & -> & ->)]]; [exfalso; naive_solver|lia|].
  rewrite Hf in Ha'. by injection Ha' as <-.
Qed.

(** A positive password reply leads to the request. *)
Lemma password_reply_step r cs :
  run_ok ais dest r → fresh r STATE_SENT_PASSWORD 2 2 → pieces_of [1; 0] cs →
  ∃ cl', drive mem r (Deliver <$> cs) = Some (turn r cl' [Send (request dest)] [1; 0]) ∧
    run_ok ais dest (turn r cl' [Send (request dest)] [1; 0]) ∧ state cl' = STATE_SENDING_REQUEST.
Proof.
  intros Hr Hfr Hcs.
  destruct (fresh_step r STATE_SENT_PASSWORD 2 2 [1; 0] cs
    (λ o' acts, acts = [Send (request dest)] ∧ state o' = STATE_SENDING_REQUEST) Hr Hfr)
    as (cl' & acts & Ed & Hok & -> & Hs); try done; [|eauto].
  intros o1 b' Ea Edd _ _ Hb' Hbok Hl Htk.
  assert (b' = [1; 0]) as -> by (destruct (list_len2 _ Hl) as (? & ? & ->); done).
  simpl. unfold received_password_reply, report_error. wp_pure. rewrite Hb'. simpl.
  eapply wp_mono; [apply auth_finished_spec; [done|by rewrite Edd]|].
  rewrite Edd. intros _ o' acts [(_ & _ & ?)|[-> ->]]; done.
Qed.

(** A positive reply header leads to the reception of the bound address, and
    that to the UP state. *)
Lemma reply_step r c2 c3 h addr :
  run_ok ais dest r → fresh r STATE_SENT_REQUEST 4 22 →
  reply_header_ok h (zlen addr) → pieces_of h c2 → pieces_of addr c3 →
  ∃ cl', drive mem r ((Deliver <$> c2) ++ (Deliver <$> c3)) =
    Some (turn (turn r cl' [Recv 4 (zlen addr)] h)
       (cl' <| buffer := None |> <| io := UpIO |> <| state := STATE_UP |> <| recv_len := zlen addr |>)
       [Handler EVENT_UP] addr).
Proof.
  intros Hr Hfr Hh Hc2 Hc3. assert (zlen h = 4) as Hhl by (by destruct Hh as (? & ? & -> & _)).
  assert (0 < zlen addr ≤ 18) as Hn by (destruct Hh as (? & ? & _ & [[_ ->]|[_ ->]]); lia).
  destruct (fresh_step r STATE_SENT_REQUEST 4 22 h c2
    (λ o' acts, acts = [Recv 4 (zlen addr)] ∧ state o' = STATE_RECEIVED_REPLY_HEADER ∧
       recv_dest o' = 4 ∧ recv_len o' = 0 ∧ recv_total o' = zlen addr ∧
       ∃ b, buffer o' = Some b ∧ zlen b = 22) Hr Hfr)
    as (o5 & acts & E5 & Hok & -> & Hs & Hrd & Hrl & Hrt & b & Hb & Hl); try done.
  { intros o1 b' _ _ _ _ Hb' Hbok Hl Htk. change (Z.to_nat 4) with 4%nat in Htk.
    eapply wp_mono; [by apply (received_reply_header_spec o1 b')|]. rewrite Htk.
    intros _ o' acts [(_ & _ & H)|(n & Hn' & -> & _ & ->)]; [by apply H in Hh|].
    assert (n = zlen addr) as ->.
    { destruct Hh as (? & ? & -> & Hh), Hn' as (? & ? & [= <- <-] & Hn').
      unfold SOCKS_ATYP_IPV4, SOCKS_ATYP_IPV6 in *. lia. }
    split_and!; try done. by exists b'. }
  exists o5. rewrite (socks_drive_app _ _ _ _ _ E5).
  set (r5 := turn r o5 [Recv 4 (zlen addr)] h) in *.
  set (o6 := o5 <| buffer := Some (write_at 4 addr b) |> <| recv_len := zlen addr |>).
  assert (io o6 = ControlIO) as Hio.
  { apply (control_resources ais dest r5 Hok); simpl; by rewrite Hs. }
  pose proof (received_reply_rest_spec o6 Hio) as H. apply wp_some in H as ([] & o7 & acts & E & -> & ->).
  eapply (message_step r5 b addr c3); simpl; rewrite ?Hrd, ?Hrt, ?Hs; try done; lia.
Qed.
End Steps.

(** What the server sends until authentication is done, as deliveries in any
    pieces with the end of the client's packet between them, and the bytes the
    client has sent and received then (RFC 1928, RFC 1929). *)
Inductive auth_dialogue (ais : list auth_info_t) : list move → bytes → bytes → Prop :=
| dialogue_none a cs :
    find_auth ais 0 = Some a → pieces_of [5; 0] cs →
    auth_dialogue ais (Deliver <$> cs) (hello ais) [5; 0]
| dialogue_password a cs cs' :
    find_auth ais 2 = Some a → password_ok a → pieces_of [5; 2] cs → pieces_of [1; 0] cs' →
    auth_dialogue ais ((Deliver <$> cs) ++ Sent :: (Deliver <$> cs'))
      (hello ais ++ password_packet a) ([5; 2] ++ [1; 0]).

(** Authentication by either method leads to the request. *)
Lemma auth_dialogue_step ais dest mem r ms s v :
  auths_ok ais → dest_ok dest → mem_ok mem → ¬ mem_fails mem →
  run_ok ais dest r → fresh r STATE_SENT_HELLO 2 2 → auth_dialogue ais ms s v →
  sent r = hello ais → recvd r = [] →
  ∃ r', drive mem r ms = Some r' ∧ run_ok ais dest r' ∧ waiting r' = WSend ∧
    state (cl r') = STATE_SENDING_REQUEST ∧ events r' = events r ∧
    sent r' = s ++ request dest ∧ recvd r' = v.
Proof.
  intros Ha Hd Hm Hfull Hr Hfr Hdlg Hsent Hrcv.
  destruct Hdlg as [a cs Hf Hcs|a cs cs' Hf Hpw Hcs Hcs'].
  - destruct (hello_reply_step ais dest mem Ha Hd Hm Hfull r cs a) as (cl' & E & Hok & Hs); [done..|].
    eexists. split; [exact E|]. simpl. rewrite Hsent, Hrcv, sends_single, ?app_nil_r. done.
  - destruct (hello_password_step ais dest mem Ha Hd Hm Hfull r cs a) as (cl1 & E1 & Hok1 & Hs1); [done..|].
    rewrite (socks_drive_app _ _ _ _ _ E1).
    destruct (sent_step ais dest mem Ha Hd Hm Hfull _ Hok1 eq_refl)
      as (r2 & E2 & Hok2 & Hsent2 & Hrcv2 & Hev2 & Hfr2).
    simpl in Hfr2. rewrite Hs1 in Hfr2. cbn [drive]. rewrite E2. cbn [mbind option_bind].
    destruct (password_reply_step ais dest mem Ha Hd Hm Hfull r2 cs') as (cl3 & E3 & Hok3 & Hs3); [done..|].
    eexists. split; [exact E3|]. simpl in *.
    rewrite Hsent2, Hrcv2, Hev2, Hsent, Hrcv, !sends_single, ?app_nil_r. done.
Qed.

(** An event of the connection, in any state that has one. *)
Lemma connection_event ais dest r : run_ok ais dest r →
  waiting r ≠ WConnect → waiting r ≠ WFailed → ∀ c, ∃ e,
    connection_handler c (cl r) = Some ((), cl r, [Handler e]) ∧
    (e = EVENT_ERROR_CLOSED ∧ c = true ∧ EVENT_UP ∈ events r ∨
     e = EVENT_ERROR ∧ (c = false ∨ EVENT_UP ∉ events r)).
Proof.
  intros Hok Hw Hf c. pose proof (rok_phase _ _ r Hok Hf) as Hp.
  assert (state (cl r) ≠ STATE_CONNECTING) as Hs
    by (unfold phase in Hp; intros E; rewrite E in Hp; destruct Hp; congruence).
  unfold connection_handler, mbind, M_bind, get, ASSERT. simpl. rewrite bool_decide_false by done.
  pose proof (rok_up _ _ r Hok). case_bool_decide; destruct c; simpl; eexists; (split; [reflexivity|]);
    naive_solver.
Qed.
End Handshake.

(** ** Properties *)
Import BSocksClient.

(** C16: Exactness of the handshake.  Whenever the user has seen the UP event,
    whatever the server sent and however its bytes were cut into pieces, the
    client has sent exactly the hello, the password packet if that method was
    chosen, and the CONNECT request for the destination, and has consumed
    exactly a matching choice of method, a positive password reply, and a
    positive reply with its bound address: not one byte of the proxied stream. *)
Theorem socks_up_exact server ais dest o r :
  auths_ok ais → dest_ok dest → Init true server ais dest = Some o →
  rtc run_step (started o) r → EVENT_UP ∈ events r →
  handshake ais dest (sent r) (recvd r).
Proof.
  intros Ha Hd HI Hr Hup. pose proof (socks_runs_ok _ _ _ _ Ha Hd (started_ok _ _ _ _ HI) Hr) as [].
  tauto.
Qed.

(** C18: No assertion of the client can fail: at every reachable point the
    answer the client waits for (the connector's result, the end of a send, any
    piece of the requested input) is processed, and in every state with a
    connection, during the handshake as well as in the up state, an event of
    the connection is processed and reported to the user once: as a closed
    stream exactly when the stream ended after the UP event, as an error
    otherwise. *)
Theorem socks_progress server ais dest o r mem :
  auths_ok ais → dest_ok dest → Init true server ais dest = Some o →
  rtc run_step (started o) r → mem_ok mem →
  match waiting r with
  | WConnect => ∀ e c, ∃ r', connector_handler e c mem (cl r) = Some r'
  | WSend => ∃ r', send_handler_done mem (cl r) = Some r'
  | WRecv off len => ∃ b, buffer (cl r) = Some b ∧ 0 ≤ off ∧ 0 < len ∧ off + len ≤ zlen b ∧
      ∀ data, bytes_ok data → 0 < zlen data ≤ len →
        ∃ r', recv_handler_done (zlen data) mem (cl r <| buffer := Some (write_at off data b) |>) = Some r'
  | WUp => EVENT_UP ∈ events r
  | WFailed => True
  end ∧
  (waiting r ≠ WConnect → waiting r ≠ WFailed → ∀ c, ∃ e,
     connection_handler c (cl r) = Some ((), cl r, [Handler e]) ∧
     (e = EVENT_ERROR_CLOSED ∧ c = true ∧ EVENT_UP ∈ events r ∨
      e = EVENT_ERROR ∧ (c = false ∨ EVENT_UP ∉ events r))).
Proof.
  intros Ha Hd HI Hr Hm. pose proof (socks_runs_ok _ _ _ _ Ha Hd (started_ok _ _ _ _ HI) Hr) as Hok.
  split; [|by apply (connection_event ais dest)].
  destruct (waiting r) as [| |off len| |] eqn:Hw; [..|done].
  - destruct (connecting_state _ _ r Hok Hw) as (Hs & Hc & Hi). intros e c.
    pose proof (connector_handler_spec e c mem (cl r) Hm Hs Hc Hi) as H.
    apply wp_some in H as (? & ? & ? & ? & _). eauto.
  - pose proof (send_handler_done_spec mem (cl r) Hm) as H. rewrite wp_some in H.
    pose proof (rok_phase _ _ r Hok ltac:(congruence)) as Hp. unfold phase in Hp.
    destruct (proj1 (waiting_state _ _ r Hok) Hw) as [Hs|[Hs|Hs]]; rewrite Hs in Hp;
      destruct H as (? & ? & ? & ? & _); eauto; apply Hp.
  - destruct (receiving_state _ _ r off len Hok Hw) as (base & dst & total & size & Hrec & Hdst & Hsz & Hst).
    destruct (id Hrec) as (b & Hb & Hbok & Hl & Hrd & Hrt & Hn & Hw' & _).
    rewrite Hw' in Hw. injection Hw as <- <-. exists b. split_and!; [done|lia..|].
    intros data Hdata Hlen. rewrite recv_handler_done_eq by (simpl; lia). cbv zeta.
    destruct (_ <? _); [by eexists|].
    destruct (receiving_write r base dst total size data b) as (Hok' & Hl' & _); [done || lia..|].
    eapply complete_total; try done. by destruct (state (cl r)); subst.
  - pose proof (rok_phase _ _ r Hok ltac:(congruence)) as Hp. apply (rok_up _ _ r Hok).
    unfold phase, sending, receiving in Hp. destruct (state (cl r)); try done;
      decompose [and ex] Hp; congruence.
Qed.

(** C19: At every reachable point, errors included, [BSocksClient_Free] releases
    what is initialised and only that: the I/O of the current state, the
    connection, the connector and the buffer. *)
Theorem socks_free server ais dest o r :
  auths_ok ais → dest_ok dest → Init true server ais dest = Some o →
  rtc run_step (started o) r →
  wp Free (cl r) (λ _ o' acts, acts = [] ∧ connector o' = false ∧ con o' = false ∧
    io o' = NoIO ∧ buffer o' = None).
Proof.
  intros Ha Hd HI Hr.
  pose proof (rok_res _ _ _ (socks_runs_ok _ _ _ _ Ha Hd (started_ok _ _ _ _ HI) Hr)) as [Hc Hres].
  unfold Free, free_up_io, free_control_io, BConnection_Free. wp_pure.
  destruct (state (cl r)) eqn:Hs; destruct Hres as [Hcon Hio];
    wp_step; simpl; repeat wp_assert; try done; by rewrite ?Hc, ?Hcon, ?Hio.
Qed.

(** C17: Completion.  If memory is available and the server authenticates the
    client, without or with a user name and password, and sends a positive
    reply with any bound address, then the run in which its bytes arrive in the
    given pieces, whatever they are, reaches UP: no piece makes a handler fail,
    UP is the only event the user sees, and what was sent and received is
    exactly the exchange. *)
Theorem socks_completes server ais dest o mem ms s v h addr c2 c3 :
  auths_ok ais → dest_ok dest → Init true server ais dest = Some o →
  0 < zlen ais ≤ 255 → mem_ok mem → ¬ mem_fails mem →
  auth_dialogue ais ms s v → reply_header_ok h (zlen addr) → pieces_of h c2 → pieces_of addr c3 →
  ∃ r, drive mem (started o)
         (Connected :: Sent :: ms ++ Sent :: (Deliver <$> c2) ++ (Deliver <$> c3)) = Some r ∧
    waiting r = WUp ∧ state (cl r) = STATE_UP ∧ events r = [EVENT_UP] ∧
    sent r = s ++ request dest ∧ recvd r = v ++ h ++ addr.
Proof.
  intros Ha Hd HI Hn Hm Hfull Hdlg Hh H2 H3.
  pose proof (started_ok _ _ _ _ HI) as Hok. assert (Ho := HI). injection Ho as Ho.
  destruct (connect_step _ _ mem Hm Hfull _ Hok) as (o1 & E1 & S1); [by rewrite <- Ho|done|done|].
  pose proof (socks_step_ok _ _ Ha Hd _ _ Hok (do_move_step _ _ _ _ Hm E1)) as Hok1.
  destruct (sent_step _ _ mem Ha Hd Hm Hfull _ Hok1 eq_refl) as (r2 & E2 & Hok2 & Hs2 & Hr2 & Hv2 & F2).
  simpl in F2. rewrite S1 in F2. simpl in Hs2, Hr2, Hv2. rewrite sends_single in Hs2.
  destruct (auth_dialogue_step _ _ mem r2 ms s v Ha Hd Hm Hfull Hok2 F2 Hdlg Hs2 Hr2)
    as (r3 & E3 & Hok3 & W3 & S3 & V3 & Hs3 & Hr3).
  destruct (sent_step _ _ mem Ha Hd Hm Hfull _ Hok3 W3) as (r4 & E4 & Hok4 & Hs4 & Hr4 & Hv4 & F4).
  rewrite S3 in F4.
  destruct (reply_step _ _ mem Ha Hd Hm r4 c2 c3 h addr Hok4 F4 Hh H2 H3) as (o5 & E5).
  eexists. cbn [drive]. rewrite E1. cbn [mbind option_bind]. rewrite E2. cbn [mbind option_bind].
  rewrite (socks_drive_app _ _ _ _ _ E3). cbn [drive]. rewrite E4. cbn [mbind option_bind].
  split; [exact E5|]. simpl. rewrite Hs4, Hs3, Hr4, Hr3, Hv4, V3, Hv2, !app_nil_r, !app_assoc. done.
Qed.

(** *** Witnesses *)

(** Password authentication towards 1.2.3.4:80, with split replies. *)
Definition ex_auth : list auth_info_t := [auth_none; auth_password [117] [112; 119]].
Definition ex_dest : BAddr := BADDR_IPV4 67305985 20480.
Definition ex_client : t := mk ex_auth ex_dest STATE_CONNECTING None true false NoIO 0 0 0.
Definition ex_moves : list move :=
  [Connected; Sent; Deliver [5]; Deliver [2]; Sent; Deliver [1; 0]; Sent;
   Deliver [5; 0; 0; 1]; Deliver [9; 9; 9]; Deliver [9; 0; 80]; Closed].
Definition ex_run : run := default (started ex_client) (drive alloc_zero (started ex_client) ex_moves).

Lemma socks_ex_run_reached : rtc run_step (started ex_client) ex_run.
Proof. apply (socks_drive_rtc alloc_zero _ ex_moves); [apply alloc_zero_ok|]. vm_compute. reflexivity. Qed.
Lemma ex_auth_ok : auths_ok ex_auth.
Proof. apply Forall_cons; split; [by left|]. apply Forall_cons; split; [by right|constructor]. Qed.
Lemma ex_dest_ok : dest_ok ex_dest.
Proof. split; [|done]. apply (bool_decide_unpack _). vm_compute. exact I. Qed.

Lemma socks_up_exact_witness :
  EVENT_UP ∈ events ex_run ∧ handshake ex_auth ex_dest (sent ex_run) (recvd ex_run).
Proof.
  assert (EVENT_UP ∈ events ex_run) as H by (vm_compute; left).
  split; [exact H|].
  exact (socks_up_exact ex_dest ex_auth ex_dest ex_client ex_run ex_auth_ok ex_dest_ok eq_refl
    socks_ex_run_reached H).
Defined.

(** A run that stops after the hello: the connection may fail there. *)
Definition ex_hello : run := default (started ex_client) (drive alloc_zero (started ex_client) [Connected; Sent]).
Lemma socks_progress_witness : ∃ e, connection_handler true (cl ex_hello) = Some ((), cl ex_hello, [Handler e]) ∧
  (e = EVENT_ERROR_CLOSED ∧ true = true ∧ EVENT_UP ∈ events ex_hello ∨
   e = EVENT_ERROR ∧ (true = false ∨ EVENT_UP ∉ events ex_hello)).
Proof.
  apply (socks_progress ex_dest ex_auth ex_dest ex_client ex_hello alloc_zero ex_auth_ok ex_dest_ok eq_refl).
  - apply (socks_drive_rtc alloc_zero _ [Connected; Sent]); [apply alloc_zero_ok|]. vm_compute. reflexivity.
  - apply alloc_zero_ok.
  - vm_compute. discriminate.
  - vm_compute. discriminate.
Defined.

Lemma socks_free_witness :
  wp Free (cl ex_run) (λ _ o' acts, acts = [] ∧ connector o' = false ∧ con o' = false ∧
    io o' = NoIO ∧ buffer o' = None).
Proof.
  exact (socks_free ex_dest ex_auth ex_dest ex_client ex_run ex_auth_ok ex_dest_ok eq_refl socks_ex_run_reached).
Defined.

Lemma socks_completes_witness :
  ∃ r, drive alloc_zero (started ex_client)
         (Connected :: Sent :: ((Deliver <$> [[5]; [2]]) ++ Sent :: (Deliver <$> [[1; 0]])) ++
            Sent :: (Deliver <$> [[5; 0; 0]; [1]]) ++ (Deliver <$> [[9; 9]; [9; 9; 0]; [80]])) = Some r ∧
    waiting r = WUp ∧ state (cl r) = STATE_UP ∧ events r = [EVENT_UP] ∧
    sent r = (hello ex_auth ++ password_packet (auth_password [117] [112; 119])) ++ request ex_dest ∧
    recvd r = ([5; 2] ++ [1; 0]) ++ [5; 0; 0; 1] ++ [9; 9; 9; 9; 0; 80].
Proof.
  apply (socks_completes ex_dest ex_auth ex_dest ex_client alloc_zero _ _ _ [5; 0; 0; 1] [9; 9; 9; 9; 0; 80]
    _ _ ex_auth_ok ex_dest_ok eq_refl).
  - split; vm_compute; [reflexivity|discriminate].
  - apply alloc_zero_ok.
  - apply alloc_zero_succeeds.
  - apply dialogue_password; [reflexivity|split; vm_compute; split; (reflexivity || discriminate)|..];
      (split_and!; [reflexivity|discriminate|apply (bool_decide_unpack _); vm_compute; exact I]).
  - exists 0, 1. split; [reflexivity|left; split; reflexivity].
  - split_and!; [reflexivity|discriminate|apply (bool_decide_unpack _); vm_compute; exact I].
  - split_and!; [reflexivity|discriminate|apply (bool_decide_unpack _); vm_compute; exact I].
Defined.
