(* ===== verification/TunClient.v ===== *)
(** * TCP clients: listener_accept_func and the client_* functions of
      tun2socks/tun2socks.c

    A TCP connection accepted by lwIP is relayed through a SOCKS client.  The
    model has the client structure (or its absence: not allocated or freed),
    the state of the pcb and of the SOCKS object it refers to, and the global
    list and counter of clients.  Every access to the structure asserts that it
    is allocated, every call on the pcb that it is not released, and every
    operation on the SOCKS interfaces that the object exists and is not busy. *)
From stdpp Require Import base list numbers relations sets.
From Stdlib Require Import ZArith Lia.
From S2P Require Import Prelude Addr.
#[local] Open Scope Z_scope.

(** lwip/custom/lwipopts.h and lwip/src/include/lwip/opt.h *)
Definition TCP_MSS : Z := 1460.
Definition TCP_WND : Z := 4 * TCP_MSS.
Definition CLIENT_SOCKS_RECV_BUF_SIZE : Z := 8192.

Inductive err_t := ERR_OK | ERR_MEM | ERR_ABRT | ERR_OTHER.
#[export] Instance err_eq_dec : EqDecision err_t.
Proof. solve_decision. Defined.

Inductive socks_event := EVENT_ERROR | EVENT_UP | EVENT_ERROR_CLOSED.

Module TunClient.

(** [struct tcp_client]: [buf] holds the first [buf_used] bytes of the array
    [buf[TCP_WND]]; [socks_recv_buf] the bytes received last. *)
Record client := mk_client {
  client_closed : bool; buf : bytes; socks_up : bool; socks_closed : bool;
  socks_recv_buf : bytes; socks_recv_buf_used : Z; socks_recv_buf_sent : Z;
  socks_recv_waiting : bool; socks_recv_tcp_pending : Z
}.
#[global] Instance eta_client : Eta client := λ c,
  mk_client (client_closed c) (buf c) (socks_up c) (socks_closed c) (socks_recv_buf c)
    (socks_recv_buf_used c) (socks_recv_buf_sent c) (socks_recv_waiting c) (socks_recv_tcp_pending c).
Definition buf_used (c : client) : Z := zlen (buf c).

(** The pcb: whether it is still ours, and which callbacks are set. *)
Record pcb_t := mk_pcb { pcb_open : bool; cb_err : bool; cb_recv : bool; cb_sent : bool }.
#[global] Instance eta_pcb : Eta pcb_t := λ p, mk_pcb (pcb_open p) (cb_err p) (cb_recv p) (cb_sent p).

(** The SOCKS object: whether it is initialised, and which of its interfaces
    are busy with an operation of ours; [send_data] are the bytes that the sending
    interface was given last. *)
Record socks_t := mk_socks { socks_init : bool; send_busy : bool; recv_busy : bool; send_data : bytes }.
#[global] Instance eta_socks : Eta socks_t := λ k, mk_socks (socks_init k) (send_busy k) (recv_busy k) (send_data k).

(** [me] identifies the client in the global list; [dead_client] is the
    variable that [DEAD_ENTER] installs. *)
Record st := mk_st {
  me : nat; num_clients : Z; tcp_clients : list nat;
  the_client : option client; pcb : pcb_t; socks : socks_t; dead_client : bool
}.
#[global] Instance eta_st : Eta st := λ s,
  mk_st (me s) (num_clients s) (tcp_clients s) (the_client s) (pcb s) (socks s) (dead_client s).

(** What happens at the boundary: calls to lwIP, to the SOCKS client and to the
    allocator, and the inputs that the handlers take (from [InTcp] on), which are
    recorded so that the theorems can speak about the byte streams. *)
Inductive act :=
| TcpRecved (n : Z) | TcpWrite (data : bytes) (err : err_t) | TcpOutput
| TcpClose (err : err_t) | TcpAbort
| SocksSend (data : bytes) | SocksRecv (n : Z) | SocksFree
| PbufFree | ClientFree
| InTcp (data : bytes)       (** data of the connection copied to [buf] *)
| InFin                      (** the connection was closed by the application *)
| InErr                      (** lwIP reported an error *)
| InAck (n : Z)              (** lwIP reported data as acknowledged *)
| SocksSent (data : bytes)   (** the SOCKS connection has taken bytes that it was given *)
| InSocks (data : bytes)     (** data of the SOCKS connection received *)
| InEvent (e : socks_event) | InKill.

(** What lwIP answers during one callback: [tcp_sndbuf] and [tcp_write] in the
    i-th round of the loop of [client_socks_recv_send_out], [tcp_output], [tcp_close]. *)
Record lwip := mk_lwip {
  sndbuf : nat → Z; write_err : nat → err_t; output_err : err_t; close_err : err_t
}.

(** ** Access *)

Definition cget : M st act client := λ s,
  match the_client s with Some c => Some (c, s, []) | None => None end.
Definition cset (f : client → client) : M st act () := λ s,
  match the_client s with Some c => Some ((), s <| the_client := Some (f c) |>, []) | None => None end.
(** A call on the pcb. *)
Definition on_pcb (f : pcb_t → pcb_t) : M st act () :=
  s ← get; ASSERT (pcb_open (pcb s));; modify (λ s, s <| pcb ::= f |>).
Definition tcp_err (on : bool) : M st act () := on_pcb (λ p, p <| cb_err := on |>).
Definition tcp_recv (on : bool) : M st act () := on_pcb (λ p, p <| cb_recv := on |>).
Definition tcp_sent (on : bool) : M st act () := on_pcb (λ p, p <| cb_sent := on |>).
Definition tcp_abort : M st act () :=
  on_pcb (λ p, p <| pcb_open := false |>);; emit TcpAbort.
Definition tcp_close (err : err_t) : M st act err_t :=
  on_pcb (λ p, if bool_decide (err = ERR_OK) then p <| pcb_open := false |> else p);;
  emit (TcpClose err);; mret err.
Definition tcp_recved (n : Z) : M st act () := on_pcb id;; emit (TcpRecved n).
Definition tcp_write (data : bytes) (err : err_t) : M st act err_t :=
  on_pcb id;; emit (TcpWrite data err);; mret err.
Definition tcp_output (err : err_t) : M st act err_t := on_pcb id;; emit TcpOutput;; mret err.

Definition BSocksClient_Free : M st act () :=
  s ← get; ASSERT (socks_init (socks s));;
  modify (λ s, s <| socks := mk_socks false false false [] |>);; emit SocksFree.
Definition StreamPassInterface_Sender_Send (data : bytes) : M st act () :=
  s ← get; ASSERT (socks_init (socks s) && negb (send_busy (socks s)));;
  modify (λ s, s <| socks ::= λ k, k <| send_busy := true |> <| send_data := data |> |>);; emit (SocksSend data).
Definition StreamRecvInterface_Receiver_Recv (n : Z) : M st act () :=
  s ← get; ASSERT (socks_init (socks s) && negb (recv_busy (socks s)));;
  modify (λ s, s <| socks ::= λ k, k <| recv_busy := true |> |>);; emit (SocksRecv n).

(** ** Closing *)

Definition client_dealloc : M st act () :=
  c ← cget;
  ASSERT (client_closed c);; ASSERT (socks_closed c);;
  s ← get;
  ASSERT (0 <? num_clients s);;
  modify (λ s, s <| num_clients := num_clients s - 1 |>);;
  modify (λ s, s <| tcp_clients ::= filter (λ i, i ≠ me s) |>);;
  modify (λ s, s <| the_client := None |>);;
  emit ClientFree.

(** The next three functions call each other in a circle, which
    [client_handle_freed_client] closes: the other two take the call of it
    ([freed]) as an argument. *)
Definition client_free_client (freed : M st act ()) (lw : lwip) : M st act () :=
  c ← cget;
  ASSERT (negb (client_closed c));;
  tcp_err false;; tcp_recv false;; tcp_sent false;;
  err ← tcp_close (close_err lw);
  when (negb (bool_decide (err = ERR_OK))) tcp_abort;;
  freed.

Definition client_free_socks (freed : M st act ()) (lw : lwip) : M st act () :=
  c ← cget;
  ASSERT (negb (socks_closed c));;
  when (socks_up c) (when (negb (client_closed c)) (tcp_recv false));;
  BSocksClient_Free;;
  cset (λ c, c <| socks_closed := true |>);;
  c ← cget;
  if socks_up c && ((0 <=? socks_recv_buf_used c) || (0 <? socks_recv_tcp_pending c))
     && negb (client_closed c) then mret ()
  else if negb (client_closed c) then client_free_client freed lw
  else client_dealloc.

(** [FREE_FUEL] bounds the calls in one release (one is enough), and running out of it
    counts as a failed assertion. *)
Fixpoint client_handle_freed_client (fuel : nat) (lw : lwip) : M st act () :=
  match fuel with
  | O => ASSERT false
  | S fuel =>
      c ← cget;
      ASSERT (negb (client_closed c));;
      modify (λ s, s <| dead_client := true |>);;
      cset (λ c, c <| client_closed := true |>);;
      c ← cget;
      if (0 <? buf_used c) && negb (socks_closed c) then mret ()
      else if negb (socks_closed c) then client_free_socks (client_handle_freed_client fuel lw) lw
      else client_dealloc
  end.

Definition FREE_FUEL : nat := 1.

Definition client_abort_client (lw : lwip) : M st act () :=
  c ← cget;
  ASSERT (negb (client_closed c));;
  tcp_err false;; tcp_recv false;; tcp_sent false;;
  tcp_abort;;
  client_handle_freed_client FREE_FUEL lw.

Definition client_murder : M st act () :=
  emit InKill;;
  c ← cget;
  when (negb (client_closed c))
    (tcp_err false;; tcp_recv false;; tcp_sent false;;
     tcp_abort;;
     modify (λ s, s <| dead_client := true |>);;
     cset (λ c, c <| client_closed := true |>));;
  c ← cget;
  when (negb (socks_closed c))
    (BSocksClient_Free;;
     cset (λ c, c <| socks_closed := true |>));;
  client_dealloc.

(** lwIP has already released the pcb. *)
Definition client_err_func (lw : lwip) : M st act () :=
  c ← cget;
  ASSERT (negb (client_closed c));;
  emit InErr;;
  client_handle_freed_client FREE_FUEL lw.

(** ** From the SOCKS server to the client *)

Definition client_send_to_socks : M st act () :=
  c ← cget;
  ASSERT (negb (socks_closed c));; ASSERT (socks_up c);; ASSERT (0 <? buf_used c);;
  StreamPassInterface_Sender_Send (buf c).

Definition client_socks_recv_initiate : M st act () :=
  c ← cget;
  ASSERT (negb (client_closed c));; ASSERT (negb (socks_closed c));; ASSERT (socks_up c);;
  ASSERT (socks_recv_buf_used c =? -1);;
  StreamRecvInterface_Receiver_Recv CLIENT_SOCKS_RECV_BUF_SIZE.

(** The [do ... while] of [client_socks_recv_send_out]: [true] when the client
    was aborted.  Every round but the last writes at least one byte, so the
    number of bytes to write is enough fuel. *)
Fixpoint send_out_loop (fuel : nat) (i : nat) (lw : lwip) : M st act bool :=
  match fuel with
  | O => ASSERT false;; mret false
  | S fuel =>
      c ← cget;
      let to_write := Z.min (socks_recv_buf_used c - socks_recv_buf_sent c) (sndbuf lw i) in
      if to_write =? 0 then mret false
      else
        err ← tcp_write (read_at (socks_recv_buf_sent c) to_write (socks_recv_buf c)) (write_err lw i);
        if negb (bool_decide (err = ERR_OK)) then
          if bool_decide (err = ERR_MEM) then mret false
          else client_abort_client lw;; mret true
        else
          cset (λ c, c <| socks_recv_buf_sent := socks_recv_buf_sent c + to_write |>
                       <| socks_recv_tcp_pending := socks_recv_tcp_pending c + to_write |>);;
          c ← cget;
          if socks_recv_buf_sent c <? socks_recv_buf_used c
          then send_out_loop fuel (S i) lw
          else mret false
  end.

Definition client_socks_recv_send_out (lw : lwip) : M st act Z :=
  c ← cget;
  ASSERT (negb (client_closed c));; ASSERT (socks_up c);; ASSERT (0 <? socks_recv_buf_used c);;
  ASSERT (socks_recv_buf_sent c <? socks_recv_buf_used c);; ASSERT (negb (socks_recv_waiting c));;
  aborted ← send_out_loop (Z.to_nat (socks_recv_buf_used c - socks_recv_buf_sent c)) 0 lw;
  if (aborted : bool) then mret (-1)
  else
    err ← tcp_output (output_err lw);
    if negb (bool_decide (err = ERR_OK)) then client_abort_client lw;; mret (-1)
    else
      c ← cget;
      if socks_recv_buf_sent c <? socks_recv_buf_used c then
        if socks_recv_tcp_pending c =? 0 then client_abort_client lw;; mret (-1)
        else cset (λ c, c <| socks_recv_waiting := true |>);; mret 0
      else
        cset (λ c, c <| socks_recv_buf_used := -1 |>);; mret 0.

(** [data]: what the SOCKS connection put into [socks_recv_buf]. *)
Definition client_socks_recv_handler_done (data : bytes) (lw : lwip) : M st act () :=
  modify (λ s, s <| socks ::= λ k, k <| recv_busy := false |> |>);;
  c ← cget;
  let data_len := zlen data in
  ASSERT (0 <? data_len);; ASSERT (data_len <=? CLIENT_SOCKS_RECV_BUF_SIZE);;
  ASSERT (negb (socks_closed c));; ASSERT (socks_up c);; ASSERT (socks_recv_buf_used c =? -1);;
  if client_closed c then mret ()
  else
    emit (InSocks data);;
    cset (λ c, c <| socks_recv_buf := data |> <| socks_recv_buf_used := data_len |>
                 <| socks_recv_buf_sent := 0 |> <| socks_recv_waiting := false |>);;
    r ← client_socks_recv_send_out lw;
    if r <? 0 then mret ()
    else
      c ← cget;
      when (socks_recv_buf_used c =? -1) client_socks_recv_initiate.

(** ** From the client to the SOCKS server *)

Definition client_socks_send_handler_done (data_len : Z) (lw : lwip) : M st act () :=
  modify (λ s, s <| socks ::= λ k, k <| send_busy := false |> |>);;
  c ← cget;
  ASSERT (negb (socks_closed c));; ASSERT (socks_up c);; ASSERT (0 <? buf_used c);;
  ASSERT (0 <? data_len);; ASSERT (data_len <=? buf_used c);;
  cset (λ c, c <| buf := drop (Z.to_nat data_len) (buf c) |>);;
  c ← cget;
  when (negb (client_closed c)) (tcp_recved data_len);;
  c ← cget;
  if 0 <? buf_used c then StreamPassInterface_Sender_Send (buf c)
  else if client_closed c then client_free_socks (client_handle_freed_client FREE_FUEL lw) lw
  else mret ().

Definition client_socks_handler (event : socks_event) (lw : lwip) : M st act () :=
  c ← cget;
  ASSERT (negb (socks_closed c));;
  emit (InEvent event);;
  match event with
  | EVENT_ERROR => client_free_socks (client_handle_freed_client FREE_FUEL lw) lw
  | EVENT_UP =>
      ASSERT (negb (socks_up c));;
      cset (λ c, c <| socks_recv_buf_used := -1 |> <| socks_recv_tcp_pending := 0 |>);;
      when (negb (client_closed c)) (tcp_sent true);;
      cset (λ c, c <| socks_up := true |>);;
      c ← cget;
      when (0 <? buf_used c) client_send_to_socks;;
      c ← cget;
      when (negb (client_closed c)) client_socks_recv_initiate
  | EVENT_ERROR_CLOSED =>
      ASSERT (socks_up c);;
      client_free_socks (client_handle_freed_client FREE_FUEL lw) lw
  end.

(** ** Jobs that run at a synchronisation point *)

(** [SYNC_COMMIT] runs the jobs that are pending: completions of the operations
    on the SOCKS interfaces and events of the SOCKS client.  The list is chosen
    by the environment; a job that is not enabled does not exist and is skipped. *)
Inductive job :=
| JSendDone (n : Z) (lw : lwip)
| JRecvDone (data : bytes) (lw : lwip)
| JEvent (e : socks_event) (lw : lwip).

Definition job_enabled (s : st) (j : job) : bool :=
  match the_client s with
  | None => false
  | Some c =>
      socks_init (socks s) &&
      match j with
      | JSendDone n _ => send_busy (socks s) && (0 <? n) && (n <=? zlen (send_data (socks s)))
      | JRecvDone data _ => recv_busy (socks s) && (0 <? zlen data) &&
          (zlen data <=? CLIENT_SOCKS_RECV_BUF_SIZE) && bool_decide (bytes_ok data)
      | JEvent EVENT_UP _ => negb (socks_up c)
      | JEvent EVENT_ERROR_CLOSED _ => socks_up c
      | JEvent EVENT_ERROR _ => true
      end
  end.

(** A completed send is recorded with the bytes that were taken: the first [n] of those that
    [StreamPassInterface_Sender_Send] was given. *)
Definition run_job (j : job) : M st act () :=
  match j with
  | JSendDone n lw =>
      s ← get; emit (SocksSent (take (Z.to_nat n) (send_data (socks s))));;
      client_socks_send_handler_done n lw
  | JRecvDone data lw => client_socks_recv_handler_done data lw
  | JEvent e lw => client_socks_handler e lw
  end.

Fixpoint run_jobs (js : list job) : M st act () :=
  match js with
  | [] => mret ()
  | j :: js => s ← get; when (job_enabled s j) (run_job j);; run_jobs js
  end.

(** [DEAD_ENTER(client->dead_client) SYNC_COMMIT DEAD_LEAVE2(client->dead_client)]
    and the value of [DEAD_KILLED]. *)
Definition sync_commit (js : list job) : M st act bool :=
  modify (λ s, s <| dead_client := false |>);;
  run_jobs js;;
  gets dead_client.

(** ** Callbacks of lwIP *)

(** [p]: the contents of the pbuf chain, [None] for a closed connection. *)
Definition client_recv_func (p : option bytes) (js : list job) (lw : lwip) : M st act err_t :=
  c ← cget;
  ASSERT (negb (client_closed c));;
  match p with
  | None => emit InFin;; client_free_client (client_handle_freed_client FREE_FUEL lw) lw;; mret ERR_ABRT
  | Some p =>
      let tot_len := zlen p in
      ASSERT (0 <? tot_len);;
      if TCP_WND - buf_used c <? tot_len then mret ERR_MEM
      else
        emit (InTcp p);;
        cset (λ c, c <| buf := buf c ++ p |>);;
        c ← cget;
        if (buf_used c =? tot_len) && socks_up c then
          ASSERT (negb (socks_closed c));;
          client_send_to_socks;;
          killed ← sync_commit js;
          if (killed : bool) then mret ERR_ABRT
          else emit PbufFree;; mret ERR_OK
        else emit PbufFree;; mret ERR_OK
  end.

Definition client_sent_func (len : Z) (js : list job) (lw : lwip) : M st act err_t :=
  c ← cget;
  ASSERT (negb (client_closed c));; ASSERT (socks_up c);; ASSERT (0 <? len);;
  ASSERT (len <=? socks_recv_tcp_pending c);;
  emit (InAck len);;
  cset (λ c, c <| socks_recv_tcp_pending := socks_recv_tcp_pending c - len |>);;
  c ← cget;
  if 0 <? socks_recv_buf_used c then
    ASSERT (socks_recv_waiting c);;
    ASSERT (socks_recv_buf_sent c <? socks_recv_buf_used c);;
    cset (λ c, c <| socks_recv_waiting := false |>);;
    r ← client_socks_recv_send_out lw;
    if r <? 0 then mret ERR_ABRT
    else
      c ← cget;
      ASSERT (0 <? socks_recv_tcp_pending c);;
      if (socks_recv_buf_used c =? -1) && negb (socks_closed c) then
        client_socks_recv_initiate;;
        killed ← sync_commit js;
        if (killed : bool) then mret ERR_ABRT else mret ERR_OK
      else mret ERR_OK
  else if socks_closed c && (socks_recv_tcp_pending c =? 0) then
    client_free_client (client_handle_freed_client FREE_FUEL lw) lw;; mret ERR_ABRT
  else mret ERR_OK.

(** [malloc_ok], [username_ok], [socks_ok]: the results of [malloc],
    [concat_strings] (when the source address is appended to the user name) and
    [BSocksClient_Init]. *)
Definition listener_accept_func (malloc_ok username_ok socks_ok : bool) (js : list job)
    : M st act err_t :=
  s ← get;
  ASSERT (negb (bool_decide (is_Some (the_client s))));;
  if negb malloc_ok then mret ERR_MEM
  else if negb username_ok then mret ERR_MEM
  else if negb socks_ok then mret ERR_MEM
  else
    modify (λ s, s <| socks := mk_socks true false false [] |>);;
    modify (λ s, s <| tcp_clients ::= λ l, l ++ [me s] |>);;
    ASSERT (0 <=? num_clients s);;
    modify (λ s, s <| num_clients := num_clients s + 1 |>);;
    modify (λ s, s <| pcb := mk_pcb true true true false |>);;
    modify (λ s, s <| the_client := Some (mk_client false [] false false [] 0 0 false 0) |>);;
    killed ← sync_commit js;
    if (killed : bool) then mret ERR_ABRT else mret ERR_OK.

End TunClient.

(** ** The byte streams of a history *)
Section Relay.
Import TunClient.

Record hist := mk_hist {
  tcp_in : bytes; socks_out : bytes; socks_in : bytes; tcp_out : bytes;
  acked : Z; recved : Z; bad_up : bool; bad_down : bool
}.
#[local] Instance eta_hist : Eta hist := λ h,
  mk_hist (tcp_in h) (socks_out h) (socks_in h) (tcp_out h) (acked h) (recved h) (bad_up h) (bad_down h).

(** [bad_up]: the SOCKS connection ended, so data for it may be dropped;
    [bad_down]: the TCP connection ended, so data for it may be dropped. *)
Definition obs (h : hist) (a : act) : hist :=
  match a with
  | InTcp d => h <| tcp_in := tcp_in h ++ d |>
  | SocksSent d => h <| socks_out := socks_out h ++ d |>
  | InSocks d => h <| socks_in := socks_in h ++ d |>
  | TcpWrite d ERR_OK => h <| tcp_out := tcp_out h ++ d |>
  | InAck n => h <| acked := acked h + n |>
  | TcpRecved n => h <| recved := recved h + n |>
  | InEvent EVENT_ERROR | InEvent EVENT_ERROR_CLOSED => h <| bad_up := true |>
  | InKill => h <| bad_up := true |> <| bad_down := true |>
  | InFin | InErr | TcpAbort => h <| bad_down := true |>
  | _ => h
  end.
Definition observe (h : hist) (t : list act) : hist := foldl obs h t.
Definition h0 : hist := mk_hist [] [] [] [] 0 0 false false.

(** ** The invariant *)

(** The direction from the SOCKS server to the connection. *)
Record down_ok (h : hist) (c : client) (k : socks_t) : Prop := {
  d_pending : 0 ≤ socks_recv_tcp_pending c;
  d_acked : socks_recv_tcp_pending c = zlen (tcp_out h) - acked h;
  d_idle : socks_recv_buf_used c = -1 →
    recv_busy k = negb (socks_closed c) ∧ socks_in h = tcp_out h;
  d_queue : 0 < socks_recv_buf_used c →
    recv_busy k = false ∧ socks_recv_waiting c = true ∧
    0 ≤ socks_recv_buf_sent c < socks_recv_buf_used c ∧
    socks_recv_buf_used c = zlen (socks_recv_buf c) ∧ 0 < socks_recv_tcp_pending c ∧
    socks_in h = tcp_out h ++ drop (Z.to_nat (socks_recv_buf_sent c)) (socks_recv_buf c)
}.

Definition down_done (h : hist) : Prop := socks_in h = tcp_out h ∧ acked h = zlen (tcp_out h).
Definition nothing_down (h : hist) : Prop := socks_in h = [] ∧ tcp_out h = [] ∧ acked h = 0.

(** What holds of an allocated client, also while its input is passed on ... *)
Record base_ok (h : hist) (c : client) (k : socks_t) : Prop := {
  k_init : socks_init k = negb (socks_closed c);
  k_send : send_busy k = socks_up c && negb (socks_closed c) && (0 <? buf_used c);
  k_recv : recv_busy k = true → socks_up c = true ∧ socks_recv_buf_used c = -1;
  k_wnd : buf_used c ≤ TCP_WND;
  k_up : tcp_in h = socks_out h ++ buf c;
  k_used : socks_up c = true → socks_recv_buf_used c = -1 ∨ 0 < socks_recv_buf_used c;
  k_notup : socks_up c = false → nothing_down h;
  k_prefix : tcp_out h `prefix_of` socks_in h;
  k_given : send_busy k = true → send_data k `prefix_of` buf c;
  k_closed : socks_closed c = true → k = mk_socks false false false []
}.
(** ... and between the handlers, in the directions that are open. *)
Record core_ok (h : hist) (c : client) (k : socks_t) : Prop := {
  k_base : base_ok h c k;
  k_recved : client_closed c = false → recved h = zlen (socks_out h);
  k_down : client_closed c = false → socks_up c = true → down_ok h c k
}.

Record pcb_ok (c : client) (p : pcb_t) : Prop := {
  p_open : pcb_open p = negb (client_closed c);
  p_err : pcb_open p = true → cb_err p = true;
  p_sent : pcb_open p = true → cb_sent p = socks_up c;
  p_recv : pcb_open p = true → cb_recv p = negb (socks_closed c)
}.

Definition globals_ok (s : st) : Prop :=
  NoDup (tcp_clients s) ∧ num_clients s = zlen (tcp_clients s).

Definition alive_ok (h : hist) (s : st) (c : client) : Prop :=
  me s ∈ tcp_clients s ∧ dead_client s = client_closed c ∧
  core_ok h c (socks s) ∧ pcb_ok c (pcb s) ∧
  (client_closed c = true → socks_closed c = false ∧ 0 < buf_used c ∧ bad_down h = true) ∧
  (socks_closed c = true → bad_up h = true ∧ socks_up c = true ∧
     (0 < socks_recv_buf_used c ∨ 0 < socks_recv_tcp_pending c)).

(** At the end every stream has passed a prefix, and all of it unless the
    receiving side ended first. *)
Definition done_ok (h : hist) : Prop :=
  socks_out h `prefix_of` tcp_in h ∧ tcp_out h `prefix_of` socks_in h ∧
  (bad_up h = false → tcp_in h = socks_out h) ∧ (bad_down h = false → down_done h).

Definition gone_ok (h : hist) (s : st) : Prop :=
  me s ∉ tcp_clients s ∧ dead_client s = true ∧ socks s = mk_socks false false false [] ∧ pcb_open (pcb s) = false ∧
  done_ok h.

Definition inv (h : hist) (s : st) : Prop :=
  globals_ok s ∧
  match the_client s with Some c => alive_ok h s c | None => gone_ok h s end.

(** ** Closing *)

#[local] Opaque FREE_FUEL.

Lemma wp_cget c s Q : the_client s = Some c → Q c s [] → wp cget s Q.
Proof. unfold wp, cget. by intros ->. Qed.
Lemma wp_cset f c s Q : the_client s = Some c →
  Q () (s <| the_client := Some (f c) |>) [] → wp (cset f) s Q.
Proof. unfold wp, cset. by intros ->. Qed.

(** Steps that succeed by the hypotheses in the context. *)
Ltac cstep :=
  lazymatch goal with
  | |- wp cget _ _ => eapply wp_cget; [first [eassumption|reflexivity]|]
  | |- wp (cset _) _ _ => eapply wp_cset; [first [eassumption|reflexivity]|]
  | |- wp (_ ≫= _) _ _ => apply wp_bind
  | |- wp (mret _) _ _ => apply wp_ret
  | |- wp get _ _ => apply wp_get
  | |- wp (gets _) _ _ => apply wp_gets
  | |- wp (modify _) _ _ => apply wp_modify
  | |- wp (emit _) _ _ => apply wp_emit
  end; simpl.
Ltac cassert tac := repeat cstep; apply wp_ASSERT; [simpl; tac|simpl; repeat cstep].

Lemma zlen_filter_remove (i : nat) l : NoDup l → i ∈ l →
  zlen (filter (λ j, j ≠ i) l) = zlen l - 1 ∧ NoDup (filter (λ j, j ≠ i) l) ∧
  i ∉ filter (λ j, j ≠ i) l.
Proof.
  intros Hnd Hi. split_and!; [|by apply NoDup_filter|by intros [? _]%list_elem_of_filter].
  induction Hnd as [|j l Hj Hnd IH]; [by apply elem_of_nil in Hi|].
  rewrite filter_cons. destruct (decide (j ≠ i)) as [Hne|Heq].
  - apply elem_of_cons in Hi as [->|Hi]; [done|]. rewrite !zlen_cons, IH by done. lia.
  - apply dec_stable in Heq as ->. rewrite zlen_cons.
    assert (filter (λ j, j ≠ i) l = l) as ->; [|lia].
    clear IH Hnd Hi. induction l as [|k l IH]; [done|].
    rewrite filter_cons, decide_True by set_solver. f_equal. apply IH. set_solver.
Qed.

(** The invariant, with the connection released and the watcher told so. *)
Definition released (h : hist) (s : st) : Prop := inv h s ∧ dead_client s = true.

Lemma client_dealloc_spec h s c :
  globals_ok s → me s ∈ tcp_clients s → dead_client s = true → the_client s = Some c →
  client_closed c = true → socks_closed c = true → socks s = mk_socks false false false [] →
  pcb_open (pcb s) = false → done_ok h →
  wp client_dealloc s (λ _ s' t, released (observe h t) s').
Proof.
  intros [Hnd Hn] Hme Hdc Hc H1 H2 Hk Hp Hd. unfold client_dealloc.
  cassert ltac:(done). cassert ltac:(done).
  cassert ltac:(idtac).
  { apply Z.ltb_lt. rewrite Hn. destruct (tcp_clients s); [by apply elem_of_nil in Hme|].
    rewrite zlen_cons. pose proof (zlen_nonneg l). lia. }
  destruct (zlen_filter_remove (me s) (tcp_clients s)) as (E & Hnd' & Hni); [done..|].
  split; [|done]. split; simpl; [split; simpl; [done|lia]|]. split_and!; done.
Qed.

Lemma observe_app h t t' : observe h (t ++ t') = observe (observe h t) t'.
Proof. apply foldl_app. Qed.

(** The flags of a history do not matter to the open directions. *)
Lemma base_ok_flags h c k u d :
  base_ok h c k → base_ok (h <| bad_up := u |> <| bad_down := d |>) c k.
Proof. intros []. by split. Qed.

Lemma base_done h c k : base_ok h c k →
  (bad_up h = false → buf c = []) → (bad_down h = false → down_done h) → done_ok h.
Proof.
  intros Hk Hu Hd. split_and!; [|by apply (k_prefix _ _ _ Hk)| |done].
  - rewrite (k_up _ _ _ Hk). by apply prefix_app_r.
  - intros H. by rewrite (k_up _ _ _ Hk), (Hu H), app_nil_r.
Qed.

Lemma free_socks_last fuel lw h s c :
  globals_ok s → me s ∈ tcp_clients s → dead_client s = true → the_client s = Some c →
  client_closed c = true → socks_closed c = false → socks_init (socks s) = true →
  pcb_open (pcb s) = false → done_ok h →
  wp (client_free_socks (client_handle_freed_client fuel lw) lw) s (λ _ s' t, released (observe h t) s').
Proof.
  intros Hg Hme Hdc Hc H1 H2 Hi Hp Hd. unfold client_free_socks.
  cassert ltac:(by rewrite H2).
  apply wp_when; intros Hw; [apply wp_when; intros Hw'; [by rewrite H1 in Hw'|]|];
    (unfold BSocksClient_Free; simpl; cassert ltac:(done);
     rewrite H1; simpl; rewrite andb_false_r; repeat cstep;
     eapply wp_mono; [eapply (client_dealloc_spec h); simpl; try done; by rewrite H1|done]).
Qed.

(** The connection is gone; what remains depends on the SOCKS side. *)
Lemma handle_freed_spec fuel lw h s c :
  (1 ≤ fuel)%nat → globals_ok s → me s ∈ tcp_clients s → the_client s = Some c →
  client_closed c = false → pcb_open (pcb s) = false → base_ok h c (socks s) →
  bad_down h = true ∨ socks_closed c = true ∧ down_done h →
  (socks_closed c = true → bad_up h = true) →
  wp (client_handle_freed_client fuel lw) s (λ _ s' t, released (observe h t) s').
Proof.
  intros Hf Hg Hme Hc Hcl Hp Hk Hd Hu. destruct fuel as [|fuel]; [lia|]. simpl.
  cassert ltac:(by rewrite Hcl). unfold buf_used. simpl.
  destruct (socks_closed c) eqn:Hs; simpl; rewrite ?andb_false_r, ?andb_true_r.
  - eapply wp_mono; [eapply (client_dealloc_spec h); simpl; try done|done].
    + by apply (k_closed _ _ _ Hk).
    + eapply base_done; [done|by rewrite Hu|].
      intros. destruct Hd as [?|[_ ?]]; [congruence|done].
  - assert (bad_down h = true) as Hbd by (destruct Hd as [?|[? _]]; [done|congruence]).
    wp_step.
    + repeat cstep. split; [|done]. split; simpl; [done|]. bool_prop.
      split_and!; simpl; try done.
      * by split; simpl; [destruct Hk; split|..].
      * split; simpl; try done; rewrite Hp; done.
      * by rewrite Hs.
    + eapply wp_mono; [eapply (free_socks_last _ _ h); simpl; try done|done].
      * rewrite (k_init _ _ _ Hk), Hs. done.
      * eapply base_done; [done| |congruence]. intros _. bool_prop.
        apply zlen_0_nil. pose proof (zlen_nonneg (buf c)). lia.
Qed.

Lemma free_client_spec fuel lw h s c :
  (1 ≤ fuel)%nat → globals_ok s → me s ∈ tcp_clients s → the_client s = Some c →
  client_closed c = false → pcb_open (pcb s) = true → base_ok h c (socks s) →
  bad_down h = true ∨ socks_closed c = true ∧ down_done h →
  (socks_closed c = true → bad_up h = true) →
  wp (client_free_client (client_handle_freed_client fuel lw) lw) s (λ _ s' t, released (observe h t) s').
Proof.
  intros Hf Hg Hme Hc Hcl Hp Hk Hd Hu. unfold client_free_client.
  cassert ltac:(by rewrite Hcl). unfold tcp_err, tcp_recv, tcp_sent, tcp_close, tcp_abort, on_pcb.
  do 4 cassert ltac:(done). unfold when.
  case_bool_decide; simpl; repeat cstep.
  - eapply wp_mono; [eapply (handle_freed_spec _ _ h); simpl; try done; lia|done].
  - cassert ltac:(done).
    eapply wp_mono; [eapply (handle_freed_spec _ _ (h <| bad_down := true |>)); simpl; try done|done].
    + exact (base_ok_flags h c (socks s) (bad_up h) true Hk).
    + by left.
Qed.

(** The SOCKS connection is gone, or not needed any more. *)
Lemma free_socks_spec fuel lw h s c :
  (1 ≤ fuel)%nat → globals_ok s → me s ∈ tcp_clients s → dead_client s = client_closed c → the_client s = Some c → socks_closed c = false →
  core_ok h c (socks s) → pcb_ok c (pcb s) →
  (client_closed c = true → bad_down h = true) →
  bad_up h = true ∨ client_closed c = true ∧ buf c = [] →
  wp (client_free_socks (client_handle_freed_client fuel lw) lw) s (λ _ s' t, inv (observe h t) s').
Proof.
  intros Hf Hg Hme Hdc Hc Hs Hco Hp Hcd Hd. pose proof (k_base _ _ _ Hco) as Hk.
  assert (socks_init (socks s) = true) as Hi by (rewrite (k_init _ _ _ Hk), Hs; done).
  destruct (client_closed c) eqn:Hcl.
  { apply (wp_mono _ _ (λ _ s' t, released (observe h t) s')); [|by intros ? ? ? [? _]].
    eapply free_socks_last; try done; [by rewrite (p_open _ _ Hp), Hcl|].
    eapply base_done; [done| |by rewrite Hcd].
    destruct Hd as [->|[_ Eb]]; done. }
  assert (bad_up h = true) as Hbu by (destruct Hd as [?|[? _]]; [done|congruence]).
  assert (pcb_open (pcb s) = true) as Ho by (rewrite (p_open _ _ Hp), Hcl; done).
  unfold client_free_socks. cassert ltac:(by rewrite Hs). rewrite Hcl. simpl.
  unfold when. destruct (socks_up c) eqn:Hup; simpl; unfold tcp_recv, on_pcb, BSocksClient_Free.
  - cassert ltac:(done). cassert ltac:(done).
    pose proof (k_down _ _ _ Hco Hcl Hup) as Hdn. rewrite Hup, Hcl. simpl.
    set (c' := c <| socks_closed := true |>).
    assert (core_ok h c' (mk_socks false false false [])) as Hk'.
    { destruct Hco. split; simpl; [destruct Hk; split; simpl; try done; by rewrite Hup|done|].
      intros _ _. destruct Hdn. split; simpl; try done; naive_solver. }
    rewrite andb_true_r. wp_step.
    + repeat cstep. split; [done|]. simpl. split_and!; simpl; try done.
      * congruence.
      * destruct Hp. split; simpl; try done; congruence.
      * congruence.
      * intros _. split_and!; [done..|]. apply orb_true_iff in E as [E|E]; bool_prop; [|by right].
        destruct (k_used _ _ _ Hk Hup); [lia|by left].
    + bool_prop.
      eapply wp_mono; [eapply (free_client_spec _ _ h); simpl; try done; [apply Hk'|]|by intros ? ? ? [? _]].
      right. split; [done|].
      destruct (k_used _ _ _ Hk Hup) as [Hn|Hn]; [|lia].
      destruct Hdn as [Hp0 Ha Hidle _]. split; [by apply Hidle|lia].
  - cassert ltac:(done). rewrite Hup, Hcl. simpl. repeat cstep.
    eapply wp_mono; [eapply (free_client_spec _ _ h); simpl; try done|by intros ? ? ? [? _]].
    + destruct Hk. split; simpl; try done. by rewrite Hup.
    + right. split; [done|]. destruct (k_notup _ _ _ Hk Hup) as (E1 & E2 & E3).
      unfold down_done. rewrite E1, E2, E3. done.
Qed.

Lemma abort_client_spec lw h s c :
  globals_ok s → me s ∈ tcp_clients s → the_client s = Some c → client_closed c = false →
  pcb_open (pcb s) = true → base_ok h c (socks s) → (socks_closed c = true → bad_up h = true) →
  wp (client_abort_client lw) s (λ _ s' t, released (observe h t) s').
Proof.
  intros Hg Hme Hc Hcl Hp Hk Hu. unfold client_abort_client.
  cassert ltac:(by rewrite Hcl). unfold tcp_err, tcp_recv, tcp_sent, tcp_abort, on_pcb.
  do 4 cassert ltac:(done).
  eapply wp_mono; [eapply (handle_freed_spec _ _ (h <| bad_down := true |>)); simpl; try done|done].
  - exact (base_ok_flags h c (socks s) (bad_up h) true Hk).
  - by left.
Qed.

(** ** Passing input on *)

Definition lwip_ok (lw : lwip) : Prop := ∀ i, 0 ≤ sndbuf lw i.

(** Received data is being queued: [sent] of [used] bytes are with lwIP. *)
Record queueing (h : hist) (s : st) (c : client) : Prop := {
  q_globals : globals_ok s;
  q_me : me s ∈ tcp_clients s;
  q_client : the_client s = Some c;
  q_open : client_closed c = false;
  q_dead : dead_client s = false;
  q_up : socks_up c = true;
  q_pcb : pcb_ok c (pcb s);
  q_base : base_ok h c (socks s);
  q_recved : recved h = zlen (socks_out h);
  q_bad : socks_closed c = true → bad_up h = true;
  q_busy : recv_busy (socks s) = false;
  q_waiting : socks_recv_waiting c = false;
  q_sent : 0 ≤ socks_recv_buf_sent c ≤ socks_recv_buf_used c;
  q_used : 0 < socks_recv_buf_used c;
  q_len : socks_recv_buf_used c = zlen (socks_recv_buf c);
  q_in : socks_in h = tcp_out h ++ drop (Z.to_nat (socks_recv_buf_sent c)) (socks_recv_buf c);
  q_pending : 0 ≤ socks_recv_tcp_pending c;
  q_acked : socks_recv_tcp_pending c = zlen (tcp_out h) - acked h
}.

Lemma queueing_open h s c : queueing h s c → pcb_open (pcb s) = true.
Proof. intros []. rewrite (p_open _ _ q_pcb0), q_open0. done. Qed.

(** lwIP took [n] more bytes. *)
Lemma queueing_write h s c n :
  queueing h s c → 0 < n ≤ socks_recv_buf_used c - socks_recv_buf_sent c →
  queueing (h <| tcp_out := tcp_out h ++ read_at (socks_recv_buf_sent c) n (socks_recv_buf c) |>)
    (s <| the_client := Some (c <| socks_recv_buf_sent := socks_recv_buf_sent c + n |>
                                <| socks_recv_tcp_pending := socks_recv_tcp_pending c + n |>) |>)
    (c <| socks_recv_buf_sent := socks_recv_buf_sent c + n |>
       <| socks_recv_tcp_pending := socks_recv_tcp_pending c + n |>).
Proof.
  intros [] Hn. split; simpl; try done; try lia.
  - destruct q_pcb0. by split.
  - destruct q_base0. split; simpl; try done; [congruence|].
    rewrite q_in0. apply prefix_app, prefix_take.
  - rewrite q_in0, <- app_assoc. f_equal. unfold read_at.
    rewrite Z2Nat.inj_add, <- drop_drop by lia. by rewrite take_drop.
  - rewrite zlen_app, zlen_read_at by lia. lia.
Qed.

Lemma wp_tcp_write data err s Q : pcb_open (pcb s) = true →
  Q err s [TcpWrite data err] → wp (tcp_write data err) s Q.
Proof.
  intros Ho HQ. unfold tcp_write, on_pcb. cassert ltac:(done). by destruct s as [? ? ? ? []].
Qed.
Lemma wp_tcp_output err s Q : pcb_open (pcb s) = true → Q err s [TcpOutput] → wp (tcp_output err) s Q.
Proof.
  intros Ho HQ. unfold tcp_output, on_pcb. cassert ltac:(done). by destruct s as [? ? ? ? []].
Qed.

Lemma abort_queueing lw h s c : queueing h s c →
  wp (client_abort_client lw) s (λ _ s' t, released (observe h t) s').
Proof.
  intros Hq. pose proof (queueing_open _ _ _ Hq). destruct Hq. by eapply abort_client_spec.
Qed.

Lemma send_out_loop_spec fuel i lw h s c :
  lwip_ok lw → queueing h s c → socks_recv_buf_sent c < socks_recv_buf_used c →
  (Z.to_nat (socks_recv_buf_used c - socks_recv_buf_sent c) ≤ fuel)%nat →
  wp (send_out_loop fuel i lw) s (λ (aborted : bool) s' t,
    if aborted then released (observe h t) s'
    else ∃ c', queueing (observe h t) s' c' ∧ socks_closed c' = socks_closed c ∧
      socks_recv_buf_used c' = socks_recv_buf_used c ∧
      socks_recv_tcp_pending c' - socks_recv_buf_sent c' = socks_recv_tcp_pending c - socks_recv_buf_sent c ∧
      socks_recv_buf_sent c ≤ socks_recv_buf_sent c').
Proof.
  intros Hlw. revert i h s c. induction fuel as [|fuel IH]; intros i h s c Hq Hlt Hf; [lia|].
  pose proof (q_client _ _ _ Hq) as Hc. pose proof (queueing_open _ _ _ Hq) as Ho.
  pose proof (q_sent _ _ _ Hq). specialize (Hlw i). simpl. repeat cstep.
  set (n := Z.min (socks_recv_buf_used c - socks_recv_buf_sent c) (sndbuf lw i)).
  wp_step; bool_prop.
  { cstep. exists c. split_and!; done || lia. }
  assert (0 < n ≤ socks_recv_buf_used c - socks_recv_buf_sent c) as Hn by (unfold n in *; lia).
  clearbody n. cstep. apply wp_tcp_write; [done|]. simpl.
  destruct (write_err lw i) eqn:Ew; simpl.
  2:{ repeat cstep. exists c. split_and!; done || lia. }
  2-3: cstep; (eapply wp_mono; [by eapply (abort_queueing _ h)|]); intros [] s' t Hi; cstep; by rewrite app_nil_r.
  pose proof (queueing_write h s c n Hq Hn) as Hq'.
  repeat cstep.
  wp_step; bool_prop.
  - eapply wp_mono; [eapply (IH (S i) _ _ _ Hq'); simpl; lia|].
    intros [] s' t; simpl; [done|]. intros (c' & Hqc & E1 & Eu & E2 & E3). exists c'. split_and!; done || lia.
  - cstep. eexists. split; [exact Hq'|]. simpl. split_and!; done || lia.
Qed.

(** The result of [client_socks_recv_send_out]: the client was aborted, all was
    queued, or the rest waits for acknowledgements. *)
Lemma send_out_spec lw h s c :
  lwip_ok lw → queueing h s c → socks_recv_buf_sent c < socks_recv_buf_used c →
  wp (client_socks_recv_send_out lw) s (λ r s' t,
    r = -1 ∧ released (observe h t) s' ∨
    r = 0 ∧ ∃ c', socks_closed c' = socks_closed c ∧ the_client s' = Some c' ∧
      globals_ok s' ∧ me s' ∈ tcp_clients s' ∧ pcb_ok c' (pcb s') ∧
      base_ok (observe h t) c' (socks s') ∧ dead_client s' = false ∧ client_closed c' = false ∧ socks_up c' = true ∧
      recved (observe h t) = zlen (socks_out (observe h t)) ∧
      (socks_closed c' = true → bad_up (observe h t) = true) ∧
      0 < socks_recv_tcp_pending c' ∧
      socks_recv_tcp_pending c' = zlen (tcp_out (observe h t)) - acked (observe h t) ∧
      recv_busy (socks s') = false ∧
      (socks_recv_buf_used c' = -1 ∧ socks_in (observe h t) = tcp_out (observe h t) ∨
       0 < socks_recv_buf_used c' ∧ down_ok (observe h t) c' (socks s'))).
Proof.
  intros Hlw Hq Hlt. unfold client_socks_recv_send_out.
  pose proof (q_client _ _ _ Hq) as Hc. pose proof (q_used _ _ _ Hq).
  pose proof (q_pending _ _ _ Hq).
  cassert ltac:(by rewrite (q_open _ _ _ Hq)). cassert ltac:(by rewrite (q_up _ _ _ Hq)).
  cassert ltac:(by apply Z.ltb_lt). cassert ltac:(by apply Z.ltb_lt).
  cassert ltac:(by rewrite (q_waiting _ _ _ Hq)).
  eapply wp_mono; [by eapply (send_out_loop_spec _ _ _ h)|].
  intros [] s1 t1 H1.
  { cstep. left. rewrite app_nil_r. done. }
  destruct H1 as (c1 & Hq1 & Es & Eu & Ep & Ege). pose proof (q_client _ _ _ Hq1) as Hc1.
  cstep. apply wp_tcp_output; [by eapply queueing_open|]. simpl.
  assert (observe h (t1 ++ [TcpOutput]) = observe h t1) as Eo by (by rewrite observe_app).
  case_bool_decide; simpl.
  2:{ cstep. eapply wp_mono; [by eapply (abort_queueing _ (observe h t1))|].
      intros [] s' t Hi. cstep. left. split; [done|]. rewrite app_nil_r, observe_app. done. }
  repeat cstep. wp_step; bool_prop.
  - wp_step; bool_prop.
    { cstep. eapply wp_mono; [by eapply (abort_queueing _ (observe h t1))|].
      intros [] s' t Hi. cstep. left. split; [done|]. rewrite app_nil_r, observe_app. done. }
    repeat cstep. right. split; [done|]. rewrite Eo. destruct Hq1. exists (c1 <| socks_recv_waiting := true |>).
    split_and!; [done|reflexivity|simpl; try done..]; try lia.
    + destruct q_pcb0. by split.
    + destruct q_base0. split; simpl; try done.
    + right. split; [done|]. split; simpl; try done; try lia. intros _. split_and!; try done; lia.
  - repeat cstep. right. split; [done|]. rewrite Eo. destruct Hq1. exists (c1 <| socks_recv_buf_used := -1 |>).
    split_and!; [done|reflexivity|simpl; try done..]; try lia.
    + destruct q_pcb0. by split.
    + destruct q_base0. split; simpl; try done; by left.
    + left. split; [done|]. rewrite q_in0, drop_ge, app_nil_r; [done|].
      unfold zlen in *. lia.
Qed.

(** ** The handlers keep the invariant *)

Definition keeps (h : hist) (s : st) (m : M st act ()) : Prop :=
  wp m s (λ _ s' t, inv (observe h t) s').

Lemma inv_alive h s c : inv h s → the_client s = Some c → globals_ok s ∧ alive_ok h s c.
Proof. intros [Hg H] Hc. rewrite Hc in H. done. Qed.

Lemma buf_used_cases c : buf_used c = 0 ∧ buf c = [] ∨ 0 < buf_used c.
Proof.
  pose proof (zlen_nonneg (buf c)). unfold buf_used in *.
  destruct (decide (zlen (buf c) = 0)) as [E|E]; [left; split; [done|by apply zlen_0_nil]|right; lia].
Qed.

Lemma socks_event_error_keeps h s c lw : inv h s → the_client s = Some c → socks_init (socks s) = true →
  wp (client_free_socks (client_handle_freed_client FREE_FUEL lw) lw) s (λ _ s' t, inv (observe (h <| bad_up := true |>) t) s').
Proof.
  intros Hi Hc Hk. destruct (inv_alive _ _ _ Hi Hc) as (Hg & Hme & Hdc & Hco & Hp & Hcl & Hso).
  assert (socks_closed c = false) as Hs.
  { pose proof (k_init _ _ _ (k_base _ _ _ Hco)). destruct (socks_closed c); simpl in *; congruence. }
  eapply (free_socks_spec _ _ (h <| bad_up := true |>)); simpl; try done.
  - destruct Hco. split; simpl; try done.
    + exact (base_ok_flags h c (socks s) true (bad_down h) k_base0).
    + intros H1 H2. destruct (k_down0 H1 H2). by split.
  - intros H. by apply Hcl.
  - by left.
Qed.

Lemma socks_event_up_keeps h s c lw : inv h s → the_client s = Some c →
  socks_init (socks s) = true → socks_up c = false →
  keeps h s (client_socks_handler EVENT_UP lw).
Proof.
  intros Hi Hc Hk Hup. destruct (inv_alive _ _ _ Hi Hc) as (Hg & Hme & Hdc & Hco & Hp & Hcl & Hso).
  destruct (id Hco) as [Hb Hrec _]. destruct (id Hb) as [Ki Ks Kr Kw Ku _ Kn Kp Kc].
  assert (socks_closed c = false) as Hs.
  { rewrite Hk in Ki. destruct (socks_closed c); simpl in *; congruence. }
  assert (recv_busy (socks s) = false) as Krb.
  { destruct (recv_busy (socks s)); [|done]. destruct (Kr eq_refl). congruence. }
  destruct (Kn Hup) as (N1 & N2 & N3). rewrite Hup in Ks. simpl in Ks.
  unfold buf_used in *.
  unfold keeps, client_socks_handler, client_send_to_socks, client_socks_recv_initiate,
    StreamPassInterface_Sender_Send, StreamRecvInterface_Receiver_Recv.
  cassert ltac:(by rewrite Hs). cassert ltac:(by rewrite Hup).
  unfold when, tcp_sent, on_pcb.
  destruct (client_closed c) eqn:Ecl; simpl.
  - destruct (Hcl eq_refl) as (_ & Hbu & Hbd). repeat cstep. unfold buf_used. simpl.
    rewrite (proj2 (Z.ltb_lt _ _) Hbu). simpl.
    cassert ltac:(by rewrite Hs). cassert ltac:(done). cassert ltac:(by apply Z.ltb_lt).
    cassert ltac:(by rewrite Hk, Ks). rewrite Ecl. simpl. repeat cstep.
    split; [done|]. simpl. split_and!; simpl; try done.
    + congruence.
    + split; simpl; try congruence. split; simpl; try done; try congruence.
      * unfold buf_used. simpl. by rewrite (proj2 (Z.ltb_lt _ _) Hbu), Hs.
      * by left.
    + destruct Hp as [Po _ _ _]. rewrite Ecl in Po. simpl in Po. split; simpl; rewrite ?Po; try done. by rewrite Ecl.
    + congruence.
  - assert (pcb_open (pcb s) = true) as Ho by (rewrite (p_open _ _ Hp), Ecl; done).
    cassert ltac:(done). unfold buf_used. simpl.
    set (k' := mk_socks true (0 <? zlen (buf c)) true (if 0 <? zlen (buf c) then buf c else send_data (socks s))).
    set (c' := c <| socks_recv_buf_used := -1 |> <| socks_recv_tcp_pending := 0 |> <| socks_up := true |>).
    set (p' := pcb s <| cb_sent := true |>).
    assert (inv h (s <| pcb := p' |> <| the_client := Some c' |> <| socks := k' |>)) as Hfin.
    { split; [done|]. simpl. split_and!; simpl; try done; [congruence| | |congruence..].
      - split; simpl; [split; simpl; try done|auto|].
        + by rewrite Hs.
        + by rewrite Hs.
        + by left.
        + by intros ->.
        + congruence.
        + intros _ _. split; simpl; try done; [by rewrite N2, N3|].
          intros _. rewrite Hs, N1, N2. done.
      - destruct Hp. split; simpl; try done; congruence. }
    destruct (0 <? zlen (buf c)) eqn:Eb; simpl.
    + cassert ltac:(by rewrite Hs). cassert ltac:(done). cassert ltac:(done).
      cassert ltac:(by rewrite Hk, Ks).
      rewrite Ecl. simpl. cassert ltac:(by rewrite Ecl). cassert ltac:(by rewrite Hs).
      cassert ltac:(done). cassert ltac:(done). cassert ltac:(by rewrite Hk, Krb).
      unfold upd_field in *; simpl in *. rewrite Hk. exact Hfin.
    + repeat cstep. rewrite Ecl. simpl. cassert ltac:(by rewrite Ecl). cassert ltac:(by rewrite Hs).
      cassert ltac:(done). cassert ltac:(done). cassert ltac:(by rewrite Hk, Krb).
      unfold upd_field in *; simpl in *. rewrite Hk, Ks. exact Hfin.
Qed.

(** The SOCKS connection took [n] of the bytes that it was given, which are still the first of the buffer. *)
Definition resent (k : socks_t) (rest : bytes) : socks_t :=
  k <| send_busy := 0 <? zlen rest |> <| send_data := if 0 <? zlen rest then rest else send_data k |>.
Lemma given_taken h c k n : base_ok h c k → send_busy k = true → 0 ≤ n ≤ zlen (send_data k) →
  take (Z.to_nat n) (send_data k) = take (Z.to_nat n) (buf c) ∧ n ≤ buf_used c.
Proof.
  intros Hb Hsb Hn. destruct (k_given _ _ _ Hb Hsb) as [rest E]. unfold buf_used, zlen in *. rewrite E. split.
  - rewrite take_app_le by lia. done.
  - rewrite length_app. lia.
Qed.
Lemma base_ok_sent h c k n : base_ok h c k → socks_up c = true → socks_closed c = false → send_busy k = true →
  0 ≤ n ≤ zlen (send_data k) →
  base_ok (h <| socks_out := socks_out h ++ take (Z.to_nat n) (send_data k) |>)
    (c <| buf := drop (Z.to_nat n) (buf c) |>) (resent k (drop (Z.to_nat n) (buf c))).
Proof.
  intros Hb Hup Hs Hsb Hn. destruct (given_taken _ _ _ _ Hb Hsb Hn) as [Et Hl]. rewrite Et.
  destruct Hb as [Ki Ks Kr Kw Ku Kd Kn Kp Kg Kc]. unfold buf_used in *. split; simpl; try done.
  - unfold buf_used; simpl. by rewrite Hup, Hs.
  - unfold buf_used; simpl. rewrite zlen_drop. lia.
  - rewrite <- app_assoc, take_drop. done.
  - by intros ->.
  - congruence.
Qed.

Lemma send_done_keeps h s c n lw : inv h s → the_client s = Some c →
  socks_init (socks s) = true → send_busy (socks s) = true → 0 < n ≤ zlen (send_data (socks s)) →
  keeps h s (run_job (JSendDone n lw)).
Proof.
  intros Hi Hc Hk Hsb Hn. destruct (inv_alive _ _ _ Hi Hc) as (Hg & Hme & Hdc & Hco & Hp & Hcl & Hso).
  destruct (id Hco) as [Hb Hrec Hdn].
  assert (socks_up c = true ∧ socks_closed c = false) as [Hup Hs].
  { pose proof (k_send _ _ _ Hb) as E. rewrite Hsb in E. symmetry in E. bool_prop. done. }
  pose proof (base_ok_sent h c (socks s) n Hb Hup Hs Hsb ltac:(lia)) as Hb'.
  destruct (given_taken _ _ _ n Hb Hsb ltac:(lia)) as [Et Hl]. unfold resent in Hb'. simpl in Hb'.
  unfold buf_used in *.
  set (c' := c <| buf := drop (Z.to_nat n) (buf c) |>) in *.
  set (b' := 0 <? zlen (drop (Z.to_nat n) (buf c))) in *.
  set (h' := h <| socks_out := socks_out h ++ take (Z.to_nat n) (send_data (socks s)) |>) in *.
  assert (zlen (socks_out h ++ take (Z.to_nat n) (send_data (socks s))) = zlen (socks_out h) + n) as Ez.
  { rewrite zlen_app, zlen_take. lia. }
  unfold keeps, run_job, client_socks_send_handler_done, StreamPassInterface_Sender_Send, when, tcp_recved, on_pcb.
  cassert ltac:(by rewrite Hs). cassert ltac:(done).
  cassert ltac:(apply Z.ltb_lt; unfold buf_used; lia). cassert ltac:(apply Z.ltb_lt; lia).
  cassert ltac:(apply Z.leb_le; unfold buf_used; lia). fold c'. unfold buf_used. simpl. fold b'.
  assert (∀ hx, hx = h' <| recved := recved hx |> →
    (client_closed c = false → recved hx = recved h + n) →
    core_ok hx c' (socks s <| send_busy := b' |> <| send_data := if b' then drop (Z.to_nat n) (buf c) else send_data (socks s) |>)) as Hcore.
  { intros hx Ex Er. rewrite Ex. split; simpl.
    - destruct Hb'. by split.
    - intros H. rewrite Er, (Hrec H), Ez by done. done.
    - intros H1 H2. destruct (Hdn H1 H2). by split. }
  assert (pcb_ok c' (pcb s)) as Hp' by (destruct Hp; by split).
  destruct (client_closed c) eqn:Ecl; simpl.
  - repeat cstep. fold b'. destruct b' eqn:Eb.
    + cassert ltac:(by rewrite Hk). split; [done|]. simpl. split_and!; simpl; try done.
      * congruence.
      * apply (Hcore h'); [by destruct h|congruence].
      * intros _. split_and!; [done|by apply Z.ltb_lt|apply (Hcl eq_refl)].
    + repeat cstep. rewrite Ecl.
      eapply wp_mono; [eapply (free_socks_spec _ _ h' _ c'); simpl; try done|done].
      * congruence.
      * apply (Hcore h'); [by destruct h|congruence].
      * intros _. by apply Hcl.
      * right. split; [done|]. apply zlen_0_nil. unfold b' in Eb. bool_prop.
        pose proof (zlen_nonneg (drop (Z.to_nat n) (buf c))). lia.
  - assert (pcb_open (pcb s) = true) as Ho by (rewrite (p_open _ _ Hp), Ecl; done).
    cassert ltac:(done). fold b'.
    assert (inv (h' <| recved := recved h + n |>)
      (s <| socks := socks s <| send_busy := b' |> <| send_data := if b' then drop (Z.to_nat n) (buf c) else send_data (socks s) |> |> <| the_client := Some c' |> <| pcb := id (pcb s) |>)) as Hfin.
    { split; [done|]. simpl. split_and!; simpl; try done; [congruence| |congruence..].
      apply Hcore; [done|by intros]. }
    destruct b' eqn:Eb.
    + cassert ltac:(by rewrite Hk). exact Hfin.
    + repeat cstep. rewrite Ecl. repeat cstep. exact Hfin.
Qed.

Lemma recv_done_keeps h s c data lw : inv h s → lwip_ok lw → the_client s = Some c →
  recv_busy (socks s) = true → 0 < zlen data ≤ CLIENT_SOCKS_RECV_BUF_SIZE →
  keeps h s (client_socks_recv_handler_done data lw).
Proof.
  intros Hi Hlw Hc Hrb Hn. destruct (inv_alive _ _ _ Hi Hc) as (Hg & Hme & Hdc & Hco & Hp & Hcl & Hso).
  destruct (id Hco) as [Hb Hrec Hdn]. destruct (k_recv _ _ _ Hb Hrb) as [Hup Hun].
  assert (socks_closed c = false) as Hs.
  { destruct (socks_closed c) eqn:Hs; [|done]. pose proof (k_closed _ _ _ Hb Hs) as E.
    rewrite E in Hrb. done. }
  unfold keeps, client_socks_recv_handler_done.
  cassert ltac:(apply Z.ltb_lt; lia). cassert ltac:(apply Z.leb_le; lia).
  cassert ltac:(by rewrite Hs). cassert ltac:(done). cassert ltac:(by apply Z.eqb_eq).
  destruct (client_closed c) eqn:Ecl.
  { repeat cstep. split; [done|]. simpl. rewrite Hc. split_and!; simpl; try done.
    { congruence. } 2: { rewrite Ecl. exact Hcl. }
    split; simpl; try congruence. destruct Hb. split; simpl; try done. congruence. }
  repeat cstep.
  set (c1 := c <| socks_recv_buf := data |> <| socks_recv_buf_used := zlen data |>
               <| socks_recv_buf_sent := 0 |> <| socks_recv_waiting := false |>).
  set (h1 := h <| socks_in := socks_in h ++ data |>).
  destruct (Hdn eq_refl Hup) as [Dp Da Di _]. destruct (Di Hun) as [_ Ein].
  eapply wp_mono; [apply (send_out_spec lw h1 _ c1 Hlw)|].
  - split; simpl; try done; try lia.
    + destruct Hp. by split.
    + destruct Hb. split; simpl; try done; [right; lia|congruence|by apply prefix_app_r|congruence].
    + congruence.
    + by rewrite drop_0, Ein.
  - simpl. lia.
  - intros r s' t [[-> [Hi' _]]|[-> (c' & Es & Hc' & Hg' & Hme' & Hp' & Hb' & Hdc' & Hcl' & Hup' & Hr' & Hbad & Hpend & Hack & Hrb' & Hcase)]]; simpl.
    { cstep. by rewrite app_nil_r. }
    repeat cstep. simpl in Es. rewrite Hs in Es.
    unfold when. destruct Hcase as [[Hu Ein']|[Hu Hd']].
    + rewrite Hu. simpl. unfold client_socks_recv_initiate, StreamRecvInterface_Receiver_Recv.
      cassert ltac:(by rewrite Hcl'). cassert ltac:(by rewrite Es). cassert ltac:(done).
      cassert ltac:(by apply Z.eqb_eq).
      cassert ltac:(by rewrite (k_init _ _ _ Hb'), Es, Hrb').
      rewrite observe_app. change (observe (observe h1 t) [SocksRecv CLIENT_SOCKS_RECV_BUF_SIZE]) with (observe h1 t).
      split; [done|]. simpl. rewrite Hc'. split_and!; simpl; try done; [congruence| |congruence..].
      split; simpl; [|done|].
      * destruct Hb'. split; simpl; try done. congruence.
      * intros _ _. split; simpl; try done; [lia| |lia]. intros _. by rewrite Es.
    + rewrite (proj2 (Z.eqb_neq _ _)) by lia. simpl. cstep. rewrite app_nil_r.
      change (observe h (InSocks data :: t)) with (observe h1 t).
      split; [done|]. rewrite Hc'. split_and!; simpl; try done; congruence.
Qed.

Definition job_ok (j : job) : Prop :=
  match j with JSendDone _ lw | JRecvDone _ lw | JEvent _ lw => lwip_ok lw end.

Lemma run_job_keeps h s j : inv h s → job_ok j → job_enabled s j = true → keeps h s (run_job j).
Proof.
  intros Hi Hj He. unfold job_enabled in He.
  destruct (the_client s) as [c|] eqn:Hc; [|done]. apply andb_true_iff in He as [Hk He].
  destruct j as [n lw|data lw|[] lw]; simpl.
  - bool_prop. by eapply send_done_keeps.
  - bool_prop. by eapply recv_done_keeps.
  - unfold keeps, client_socks_handler.
    assert (socks_closed c = false) as Hs.
    { destruct (inv_alive _ _ _ Hi Hc) as (_ & _ & _ & Hco & _).
      pose proof (k_init _ _ _ (k_base _ _ _ Hco)) as E. rewrite Hk in E.
      destruct (socks_closed c); simpl in *; congruence. }
    cassert ltac:(by rewrite Hs).
    eapply wp_mono; [by eapply socks_event_error_keeps|done].
  - apply negb_true_iff in He. by eapply socks_event_up_keeps.
  - unfold keeps, client_socks_handler.
    assert (socks_closed c = false) as Hs.
    { destruct (inv_alive _ _ _ Hi Hc) as (_ & _ & _ & Hco & _).
      pose proof (k_init _ _ _ (k_base _ _ _ Hco)) as E. rewrite Hk in E.
      destruct (socks_closed c); simpl in *; congruence. }
    cassert ltac:(by rewrite Hs). cassert ltac:(done).
    eapply wp_mono; [by eapply socks_event_error_keeps|done].
Qed.

Lemma run_jobs_keeps h s js : inv h s → Forall job_ok js → keeps h s (run_jobs js).
Proof.
  intros Hi Hj. revert h s Hi. induction Hj as [|j js Hj Hjs IH]; intros h s Hi; unfold keeps; simpl.
  { by cstep. }
  repeat cstep. wp_step; simpl.
  - eapply wp_mono; [by apply (run_job_keeps h)|].
    intros [] s' t Hi'. eapply wp_mono; [by apply (IH (observe h t))|].
    intros [] s'' t' Hi''. by rewrite observe_app.
  - by apply IH.
Qed.

(** A synchronisation point reports whether the connection was released. *)
Lemma sync_commit_keeps h s c js : inv h s → the_client s = Some c → client_closed c = false →
  Forall job_ok js →
  wp (sync_commit js) s (λ killed s' t, inv (observe h t) s' ∧ killed = negb (pcb_open (pcb s'))).
Proof.
  intros Hi Hc Hcl Hj. unfold sync_commit. repeat cstep.
  eapply wp_mono; [apply (run_jobs_keeps h); [|done]|].
  - destruct Hi as [Hg H]. rewrite Hc in H. split; [done|]. simpl. rewrite Hc.
    destruct H as (Hme & _ & H). split; [done|]. split; [simpl; by rewrite Hcl|exact H].
  - intros [] s' t Hi'. cstep. rewrite app_nil_r. split; [done|].
    destruct Hi' as [_ H]. destruct (the_client s').
    + destruct H as (_ & -> & _ & Hp & _). by rewrite (p_open _ _ Hp), negb_involutive.
    + destruct H as (_ & -> & _ & -> & _). done.
Qed.

(** What lwIP is told: [ERR_ABRT] exactly when the pcb was released. *)
Definition told (r : err_t) (s : st) : Prop := pcb_open (pcb s) = true ↔ r ≠ ERR_ABRT.

Lemma fin_keeps h s c lw : inv h s → the_client s = Some c → client_closed c = false →
  wp (client_free_client (client_handle_freed_client FREE_FUEL lw) lw) s
    (λ _ s' t, released (observe (h <| bad_down := true |>) t) s').
Proof.
  intros Hi Hc Hcl. destruct (inv_alive _ _ _ Hi Hc) as (Hg & Hme & Hdc & Hco & Hp & _ & Hso).
  eapply (free_client_spec _ _ (h <| bad_down := true |>)); simpl; try done.
  - rewrite (p_open _ _ Hp), Hcl. done.
  - exact (base_ok_flags h c (socks s) (bad_up h) true (k_base _ _ _ Hco)).
  - by left.
  - intros H. by apply Hso.
Qed.

Lemma released_told h s : released h s → inv h s ∧ told ERR_ABRT s.
Proof.
  intros [Hi Hd]. split; [done|]. unfold told. destruct Hi as [_ H].
  assert (pcb_open (pcb s) = false) as ->; [|naive_solver].
  destruct (the_client s) as [c|].
  - destruct H as (_ & E & _ & Hp & _). by rewrite (p_open _ _ Hp), <- E, Hd.
  - by destruct H as (_ & _ & _ & -> & _).
Qed.

Lemma open_told h s c r : inv h s → the_client s = Some c → client_closed c = false → r ≠ ERR_ABRT →
  told r s.
Proof.
  intros [_ H] Hc Hcl Hr. rewrite Hc in H. destruct H as (_ & _ & _ & Hp & _).
  unfold told. rewrite (p_open _ _ Hp), Hcl. done.
Qed.

Lemma killed_told h s killed : inv h s → killed = negb (pcb_open (pcb s)) →
  told (if killed then ERR_ABRT else ERR_OK) s.
Proof. intros _ ->. unfold told. destruct (pcb_open (pcb s)); simpl; naive_solver. Qed.

Lemma recv_func_keeps h s c p js lw : inv h s → the_client s = Some c →
  pcb_open (pcb s) = true → cb_recv (pcb s) = true →
  Forall job_ok js → (∀ d, p = Some d → 0 < zlen d) →
  wp (client_recv_func p js lw) s (λ r s' t, inv (observe h t) s' ∧ told r s' ∧
    (r = ERR_MEM → ∃ d, p = Some d ∧ TCP_WND - buf_used c < zlen d)).
Proof.
  intros Hi Hc Ho Hcb Hj Hd. destruct (inv_alive _ _ _ Hi Hc) as (Hg & Hme & Hdc & Hco & Hp & Hcl & Hso).
  destruct (id Hco) as [Hb Hrec Hdn].
  assert (client_closed c = false) as Ecl.
  { pose proof (p_open _ _ Hp) as E. rewrite Ho in E. by destruct (client_closed c). }
  assert (socks_closed c = false) as Hs.
  { pose proof (p_recv _ _ Hp Ho) as E. rewrite Hcb in E. by destruct (socks_closed c). }
  unfold client_recv_func. cassert ltac:(by rewrite Ecl).
  destruct p as [d|].
  2:{ repeat cstep. eapply wp_mono; [by eapply fin_keeps|]. intros [] s' t Hr.
      cstep. rewrite app_nil_r. apply released_told in Hr as [??]. by split_and!. }
  specialize (Hd d eq_refl). cassert ltac:(by apply Z.ltb_lt).
  wp_step; bool_prop. { cstep. split_and!; [done|by eapply open_told|]. intros _. by exists d. }
  repeat cstep.
  set (c' := c <| buf := buf c ++ d |>). set (h' := h <| tcp_in := tcp_in h ++ d |>).
  assert (buf_used c' = buf_used c + zlen d) as Eu by apply zlen_app.
  assert (∀ k g, k = socks s <| send_busy := socks_up c |> <| send_data := g |> →
    (socks_up c = true → g `prefix_of` buf c ++ d) →
    inv h' (s <| the_client := Some c' |> <| socks := k |>)) as Hfin.
  { intros k g -> Hgv. split; [done|]. simpl. split_and!; simpl; try done; [|destruct Hp; by split|congruence..].
    split; simpl; [|done|].
    - destruct Hb. split; simpl; try done.
      + rewrite Hs, Eu. rewrite (proj2 (Z.ltb_lt 0 _)); [by rewrite !andb_true_r|].
        pose proof (zlen_nonneg (buf c)). unfold buf_used. lia.
      + rewrite Eu. lia.
      + by rewrite k_up0, app_assoc.
      + congruence.
    - intros _ Hup. destruct (Hdn Ecl Hup). by split. }
  destruct (socks_up c) eqn:Hup; [|rewrite andb_false_r].
  - rewrite andb_true_r. rewrite Eu. destruct (Z.eqb_spec (buf_used c + zlen d) (zlen d)) as [E0|E0].
    + cassert ltac:(by rewrite Hs). unfold client_send_to_socks, StreamPassInterface_Sender_Send.
      cassert ltac:(by rewrite Hs). cassert ltac:(done). cassert ltac:(apply Z.ltb_lt; rewrite Eu; lia).
      assert (buf_used c = 0) as Eb by lia.
      cassert ltac:(idtac).
      { rewrite (k_init _ _ _ Hb), (k_send _ _ _ Hb), Hs, Eb. by rewrite andb_false_r. }
      eapply wp_mono; [eapply (sync_commit_keeps h' _ c'); [|done|done|done]|].
      { by eapply Hfin. }
      intros killed s' t [Hi' Hkl]. pose proof (killed_told _ _ _ Hi' Hkl) as Ht.
      destruct killed; repeat cstep; rewrite ?app_nil_r; [by split_and!|].
      split_and!; [|done..]. change (observe h (InTcp d :: SocksSend (buf c ++ d) :: t ++ [PbufFree]))
        with (observe h' (t ++ [PbufFree])). by rewrite observe_app.
    + repeat cstep. assert (inv h' (s <| the_client := Some c' |>)) as Hi'.
      { assert (send_busy (socks s) = true) as Es.
        { rewrite (k_send _ _ _ Hb), Hup, Hs. simpl. apply Z.ltb_lt.
          pose proof (zlen_nonneg (buf c)). unfold buf_used in *. lia. }
        specialize (Hfin (socks s) (send_data (socks s))). destruct s as [? ? ? ? ? k ?]. apply Hfin.
        - destruct k; simpl in *; by subst.
        - intros _. by apply prefix_app_r, (k_given _ _ _ Hb). }
      split_and!; [done|by eapply open_told|done].
  - repeat cstep. assert (inv h' (s <| the_client := Some c' |>)) as Hi'.
    { pose proof (k_send _ _ _ Hb) as Es. rewrite Hup in Es.
      specialize (Hfin (socks s) (send_data (socks s))). destruct s as [? ? ? ? ? k ?]. apply Hfin; [|done].
      destruct k; simpl in *; by subst. }
    split_and!; [done|by eapply open_told|done].
Qed.

(** After [client_socks_recv_send_out] without an abort the client is between handlers. *)
Lemma sent_out_inv h s c k :
  the_client s = Some c → globals_ok s → me s ∈ tcp_clients s → pcb_ok c (pcb s) →
  base_ok h c (socks s) → dead_client s = false → client_closed c = false → socks_up c = true →
  recved h = zlen (socks_out h) → (socks_closed c = true → bad_up h = true) →
  0 < socks_recv_tcp_pending c → socks_recv_tcp_pending c = zlen (tcp_out h) - acked h →
  recv_busy (socks s) = false →
  (socks_recv_buf_used c = -1 ∧ socks_in h = tcp_out h ∧ k = socks s <| recv_busy := negb (socks_closed c) |> ∨
   0 < socks_recv_buf_used c ∧ down_ok h c (socks s) ∧ k = socks s) →
  inv h (s <| socks := k |>).
Proof.
  intros Hc Hg Hme Hp Hb Hdc Hcl Hup Hr Hbad Hpend Hack Hrb Hcase. split; [done|]. simpl. rewrite Hc.
  split_and!; simpl; try done; [congruence| |congruence|auto].
  split; simpl; [|done|].
  - destruct Hcase as [(Hu & Ein & ->)|(Hu & Hd & ->)]; [|done].
    destruct Hb. split; simpl; try done.
    intros H. rewrite (k_closed0 H), H. done.
  - intros _ _. destruct Hcase as [(Hu & Ein & ->)|(Hu & Hd & ->)]; [|done].
    split; simpl; try done; lia.
Qed.

Lemma sent_func_keeps h s c len js lw : inv h s → the_client s = Some c → lwip_ok lw →
  pcb_open (pcb s) = true → cb_sent (pcb s) = true →
  Forall job_ok js → 0 < len ≤ socks_recv_tcp_pending c →
  wp (client_sent_func len js lw) s (λ r s' t, inv (observe h t) s' ∧ told r s').
Proof.
  intros Hi Hc Hlw Ho Hcb Hj Hl. destruct (inv_alive _ _ _ Hi Hc) as (Hg & Hme & Hdc & Hco & Hp & Hcl & Hso).
  destruct (id Hco) as [Hb Hrec Hdn].
  assert (client_closed c = false) as Ecl.
  { pose proof (p_open _ _ Hp) as E. rewrite Ho in E. by destruct (client_closed c). }
  assert (socks_up c = true) as Hup by (by rewrite <- (p_sent _ _ Hp Ho)).
  destruct (Hdn Ecl Hup) as [Dp Da Di Dq].
  unfold client_sent_func. cassert ltac:(by rewrite Ecl). cassert ltac:(done).
  cassert ltac:(apply Z.ltb_lt; lia). cassert ltac:(apply Z.leb_le; lia).
  set (h' := h <| acked := acked h + len |>).
  set (n := socks_recv_tcp_pending c - len).
  wp_step; bool_prop.
  - destruct (Dq E) as (Qb & Qw & Qs & Ql & Qp & Qi).
    cassert ltac:(done). cassert ltac:(apply Z.ltb_lt; lia).
    set (c1 := c <| socks_recv_tcp_pending := n |> <| socks_recv_waiting := false |>).
    eapply wp_mono; [apply (send_out_spec lw h' _ c1 Hlw)|].
    + split; simpl; try done; try (unfold n; lia); try congruence.
      * destruct Hp. by split.
      * destruct Hb. split; simpl; try done. congruence.
      * by apply Hrec.
      * intros H. by apply Hso.
    + simpl. lia.
    + intros r s' t [[-> Hr']|[-> (c' & Es & Hc' & Hg' & Hme' & Hp' & Hb' & Hdc' & Hcl' & Hup' & Hr' & Hbad & Hpend & Hack & Hrb' & Hcase)]]; simpl.
      { cstep. rewrite app_nil_r. by apply released_told in Hr'. }
      cassert ltac:(by apply Z.ltb_lt). simpl in Es.
      change (observe h (InAck len :: ?x)) with (observe h' x).
      destruct Hcase as [[Hu Ein']|[Hu Hd']].
      * rewrite Hu. simpl. destruct (socks_closed c') eqn:Esc; simpl.
        { cstep. rewrite app_nil_r. assert (inv (observe h' t) s') as Hi'.
          { assert (s' <| socks := socks s' <| recv_busy := negb (socks_closed c') |> |> = s') as <-.
            { rewrite Esc. destruct s' as [? ? ? ? ? []]; simpl in *. by subst. }
            eapply sent_out_inv; try done; [by intros _; apply Hbad|by left].
 }
          split; [done|by eapply open_told]. }
        unfold client_socks_recv_initiate, StreamRecvInterface_Receiver_Recv.
        cassert ltac:(by rewrite Hcl'). cassert ltac:(by rewrite Esc). cassert ltac:(done).
        cassert ltac:(by apply Z.eqb_eq).
        cassert ltac:(by rewrite (k_init _ _ _ Hb'), Esc, Hrb').
        eapply wp_mono; [eapply (sync_commit_keeps (observe h' t) _ c'); [|done|done|done]|].
        { eapply sent_out_inv; try done; [congruence|]. left. by rewrite Esc. }
        intros killed s'' t' [Hi' Hkl]. pose proof (killed_told _ _ _ Hi' Hkl) as Ht.
        destruct killed; cstep; rewrite ?app_nil_r; split; try done;
          by rewrite observe_app.
      * rewrite (proj2 (Z.eqb_neq _ _)) by lia. simpl. cstep. rewrite app_nil_r.
        assert (inv (observe h' t) s') as Hi'.
        { assert (s' <| socks := socks s' |> = s') as <- by (by destruct s').
          eapply sent_out_inv; try done. by right. }
        split; [done|by eapply open_told].
  - assert (socks_recv_buf_used c = -1) as Hu by (destruct (k_used _ _ _ Hb Hup); lia).
    destruct (Di Hu) as [Drb Din].
    set (c1 := c <| socks_recv_tcp_pending := n |>).
    assert (base_ok h' c1 (socks s)) as Hb1 by (destruct Hb; split; simpl; try done; congruence).
    wp_step; bool_prop.
    + cstep. eapply wp_mono; [eapply (free_client_spec _ _ h' _ c1); simpl; try done|].
      * right. split; [done|]. split; [done|]. simpl. unfold n in *. lia.
      * intros _. by apply Hso.
      * intros [] s' t Hr. cstep. rewrite app_nil_r. by apply released_told in Hr.
    + cstep. assert (inv h' (s <| the_client := Some c1 |>)) as Hi'.
      { split; [done|]. simpl. split_and!; simpl; try done; [| |].
        - split; simpl; try done. intros _ _.
          split; simpl; try done; try (unfold n; lia).
        - destruct Hp. by split.
        - intros H. destruct (Hso H) as (? & ? & _). split_and!; try done. right.
          apply andb_false_iff in E0 as [E0|E0]; [congruence|]. bool_prop. unfold n in *. lia. }
      split; [done|by eapply open_told].
Qed.

Lemma err_func_keeps h s c lw : inv h s → the_client s = Some c → pcb_open (pcb s) = true →
  keeps h (s <| pcb ::= λ p, p <| pcb_open := false |> |>) (client_err_func lw).
Proof.
  intros Hi Hc Ho. destruct (inv_alive _ _ _ Hi Hc) as (Hg & Hme & Hdc & Hco & Hp & Hcl & Hso).
  assert (client_closed c = false) as Ecl.
  { pose proof (p_open _ _ Hp) as E. rewrite Ho in E. by destruct (client_closed c). }
  unfold keeps, client_err_func. cassert ltac:(by rewrite Ecl).
  eapply wp_mono; [eapply (handle_freed_spec _ _ (h <| bad_down := true |>) _ c); simpl; try done|].
  - exact (base_ok_flags h c (socks s) (bad_up h) true (k_base _ _ _ Hco)).
  - by left.
  - intros H. by apply Hso.
  - by intros [] s' t [? _].
Qed.

Lemma murder_keeps h s c : inv h s → the_client s = Some c → keeps h s client_murder.
Proof.
  intros Hi Hc. destruct (inv_alive _ _ _ Hi Hc) as (Hg & Hme & Hdc & Hco & Hp & Hcl & Hso).
  pose proof (k_base _ _ _ Hco) as Hb.
  unfold keeps, client_murder, tcp_err, tcp_recv, tcp_sent, tcp_abort, on_pcb, BSocksClient_Free.
  set (h' := h <| bad_up := true |> <| bad_down := true |>).
  assert (done_ok h') as Hd.
  { apply (base_done h' c (socks s)); [|done..]. by apply base_ok_flags. }
  repeat cstep. unfold when. destruct (client_closed c) eqn:Ecl; simpl.
  - destruct (Hcl eq_refl) as (Hs & _ & _). repeat cstep. rewrite Hs. simpl.
    cassert ltac:(by rewrite (k_init _ _ _ Hb), Hs).
    eapply wp_mono; [eapply (client_dealloc_spec h'); simpl; try done|by intros [] ? ? [? _]].
    by rewrite (p_open _ _ Hp), Ecl.
  - assert (pcb_open (pcb s) = true) as Ho by (rewrite (p_open _ _ Hp), Ecl; done).
    do 4 cassert ltac:(done). destruct (socks_closed c) eqn:Hs; simpl; repeat cstep.
    + eapply wp_mono; [eapply (client_dealloc_spec h'); simpl; try done|by intros [] ? ? [? _]].
      by apply (k_closed _ _ _ Hb).
    + cassert ltac:(by rewrite (k_init _ _ _ Hb), Hs).
      eapply wp_mono; [eapply (client_dealloc_spec h'); simpl; done|by intros [] ? ? [? _]].
Qed.

(** ** Runs *)

(** No client in the slot; the list and the counter agree. *)
Definition idle (s : st) : Prop := globals_ok s ∧ the_client s = None ∧ me s ∉ tcp_clients s.

Lemma accept_keeps s js : idle s → Forall job_ok js →
  wp (listener_accept_func true true true js) s (λ r s' t, inv (observe h0 t) s' ∧ told r s').
Proof.
  intros ([Hnd Hn] & Hc & Hme) Hj. unfold listener_accept_func.
  cassert ltac:(by rewrite Hc). cassert ltac:(idtac).
  { apply Z.leb_le. rewrite Hn. apply zlen_nonneg. }
  unfold sync_commit. repeat cstep.
  eapply wp_mono; [apply (run_jobs_keeps h0); [|done]|].
  - split; simpl.
    { split; simpl; [|rewrite zlen_app, Hn; done].
      apply NoDup_app. split_and!; [done| |apply NoDup_singleton].
      intros i Hi ->%list_elem_of_singleton. done. }
    split_and!; simpl; try done; set_solver.
  - intros [] s' t Hi'. repeat cstep.
    assert (dead_client s' = negb (pcb_open (pcb s'))) as Hk.
    { destruct Hi' as [_ H]. destruct (the_client s').
      - destruct H as (_ & -> & _ & Hp & _). by rewrite (p_open _ _ Hp), negb_involutive.
      - destruct H as (_ & -> & _ & -> & _). done. }
    pose proof (killed_told _ _ _ Hi' Hk) as Ht.
    rewrite app_nil_r. destruct (dead_client s'); cstep; by rewrite app_nil_r.
Qed.

Record run := mk_run { rs : st; trace : list act }.

Inductive run_step : run → run → Prop :=
| step_recv s T p js lw r s' t :
    is_Some (the_client s) → pcb_open (pcb s) = true → cb_recv (pcb s) = true →
    Forall job_ok js → (∀ d, p = Some d → 0 < zlen d) →
    client_recv_func p js lw s = Some (r, s', t) →
    run_step (mk_run s T) (mk_run s' (T ++ t))
| step_sent s c T len js lw r s' t :
    the_client s = Some c → pcb_open (pcb s) = true → cb_sent (pcb s) = true →
    Forall job_ok js → lwip_ok lw → 0 < len ≤ socks_recv_tcp_pending c →
    client_sent_func len js lw s = Some (r, s', t) →
    run_step (mk_run s T) (mk_run s' (T ++ t))
| step_err s T lw s' t :
    is_Some (the_client s) → pcb_open (pcb s) = true → cb_err (pcb s) = true →
    client_err_func lw (s <| pcb ::= λ p, p <| pcb_open := false |> |>) = Some ((), s', t) →
    run_step (mk_run s T) (mk_run s' (T ++ t))
| step_job s T j s' t :
    job_ok j → job_enabled s j = true → run_job j s = Some ((), s', t) →
    run_step (mk_run s T) (mk_run s' (T ++ t))
| step_murder s T s' t :
    is_Some (the_client s) → client_murder s = Some ((), s', t) →
    run_step (mk_run s T) (mk_run s' (T ++ t))
| step_others s T l :
    NoDup l → (me s ∈ l ↔ me s ∈ tcp_clients s) →
    run_step (mk_run s T) (mk_run (s <| tcp_clients := l |> <| num_clients := zlen l |>) T).

Definition run_inv (r : run) : Prop := inv (observe h0 (trace r)) (rs r).

Lemma relay_step_ok r r' : run_inv r → run_step r r' → run_inv r'.
Proof.
  unfold run_inv. intros Hi Hs. destruct Hs as [s T p js lw r s' t [c Hc] Ho Hcb Hj Hd E
    |s c T len js lw r s' t Hc Ho Hcb Hj Hlw Hl E|s T lw s' t [c Hc] Ho _ E|s T j s' t Hj He E
    |s T s' t [c Hc] E|s T l Hnd Hme]; simpl in *; rewrite ?observe_app.
  - eapply (recv_func_keeps _ _ _ p js lw) in Hi; try done. unfold wp in Hi. rewrite E in Hi. apply Hi.
  - eapply (sent_func_keeps _ _ _ len js lw) in Hi; try done. unfold wp in Hi. rewrite E in Hi. apply Hi.
  - eapply (err_func_keeps _ _ _ lw) in Hi; try done. unfold keeps, wp in Hi. rewrite E in Hi. apply Hi.
  - eapply (run_job_keeps _ _ j) in Hi; try done. unfold keeps, wp in Hi. rewrite E in Hi. apply Hi.
  - eapply murder_keeps in Hi; try done. unfold keeps, wp in Hi. rewrite E in Hi. apply Hi.
  - destruct Hi as [_ H]. split; [by split|]. simpl. destruct (the_client s) as [c|].
    + destruct H as (Hm & H). split; [|exact H]. simpl. by apply Hme.
    + destruct H as (Hm & H). split; [|exact H]. simpl. by rewrite Hme.
Qed.

(** A run starts when the listener accepts a connection. *)
Definition accepted (s0 : st) (js : list job) (r : run) : Prop :=
  idle s0 ∧ Forall job_ok js ∧
  ∃ e, listener_accept_func true true true js s0 = Some (e, rs r, trace r).

Lemma relay_runs_ok s0 js r r' : accepted s0 js r → rtc run_step r r' → run_inv r'.
Proof.
  intros (Hi & Hj & e & E) Hs. assert (run_inv r) as Hr.
  { pose proof (accept_keeps s0 js Hi Hj) as H. unfold wp in H. rewrite E in H. apply H. }
  clear E. induction Hs; eauto using relay_step_ok.
Qed.
End Relay.

(** ** Properties *)
Import TunClient.

(** C1: Integrity of both byte streams of a relayed connection.  In every run,
    whatever lwIP and the SOCKS connection do and in whatever order, what the SOCKS
    connection took, of the bytes that the client handed to its sending interface, is a
    prefix of what the application sent; what was
    given to lwIP is a prefix of what the SOCKS server sent; and as long as the
    client exists nothing of the application's data is missing: it was taken or
    is in the buffer.  While the SOCKS connection works on bytes it was given, they stay
    where they are, at the front of the buffer. *)
Theorem relay_streams s0 js r r' :
  accepted s0 js r → rtc run_step r r' →
  let h := observe h0 (trace r') in
  socks_out h `prefix_of` tcp_in h ∧ tcp_out h `prefix_of` socks_in h ∧
  (∀ c, the_client (rs r') = Some c → tcp_in h = socks_out h ++ buf c ∧
     (send_busy (socks (rs r')) = true → send_data (socks (rs r')) `prefix_of` buf c)).
Proof.
  intros Ha Hr h. pose proof (relay_runs_ok _ _ _ _ Ha Hr) as [_ H]. fold h in H.
  destruct (the_client (rs r')) as [c|].
  - destruct H as (_ & _ & Hco & _). pose proof (k_base _ _ _ Hco) as Hb. split_and!.
    + rewrite (k_up _ _ _ Hb). by apply prefix_app_r.
    + apply (k_prefix _ _ _ Hb).
    + intros c' [= <-]. split; [apply (k_up _ _ _ Hb)|apply (k_given _ _ _ Hb)].
  - destruct H as (_ & _ & _ & _ & Hd). split_and!; [apply Hd..|done].
Qed.

(** C2: No data is lost on an orderly close.  When the client has been freed,
    all data of the application was sent to the SOCKS server unless the SOCKS
    connection ended first (or the program was terminating), and all data of
    the SOCKS server was given to lwIP and acknowledged by the application
    unless the application closed, the connection failed or lwIP refused. *)
Theorem relay_no_loss s0 js r r' :
  accepted s0 js r → rtc run_step r r' → the_client (rs r') = None →
  let h := observe h0 (trace r') in
  (bad_up h = false → socks_out h = tcp_in h) ∧
  (bad_down h = false → tcp_out h = socks_in h ∧ acked h = zlen (socks_in h)).
Proof.
  intros Ha Hr Hn h. pose proof (relay_runs_ok _ _ _ _ Ha Hr) as [_ H]. fold h in H.
  rewrite Hn in H. destruct H as (_ & _ & _ & _ & _ & _ & Hu & Hd). split; intros Hb.
  - by rewrite Hu.
  - destruct (Hd Hb) as [-> ->]. done.
Qed.

(** C3: Nothing is used after it is freed and nothing is freed twice.  In every
    reachable state each callback that is registered with lwIP, each completion
    or event of the SOCKS client, and the termination of the program runs
    without violating an assertion: no access to a freed client, no call on a
    released pcb or a freed SOCKS object, no overlapping operation on an
    interface, no exhausted recursion bound. *)
Theorem relay_safe s0 js r r' :
  accepted s0 js r → rtc run_step r r' →
  let s := rs r' in
  (is_Some (the_client s) → pcb_open (pcb s) = true → cb_recv (pcb s) = true →
     ∀ p jobs lw, Forall job_ok jobs → (∀ d, p = Some d → 0 < zlen d) →
     is_Some (client_recv_func p jobs lw s)) ∧
  (∀ c len jobs lw, the_client s = Some c → pcb_open (pcb s) = true → cb_sent (pcb s) = true →
     Forall job_ok jobs → lwip_ok lw → 0 < len ≤ socks_recv_tcp_pending c →
     is_Some (client_sent_func len jobs lw s)) ∧
  (is_Some (the_client s) → pcb_open (pcb s) = true → cb_err (pcb s) = true → ∀ lw,
     is_Some (client_err_func lw (s <| pcb ::= λ p, p <| pcb_open := false |> |>))) ∧
  (∀ j, job_ok j → job_enabled s j = true → is_Some (run_job j s)) ∧
  (is_Some (the_client s) → is_Some (client_murder s)).
Proof.
  intros Ha Hr s. pose proof (relay_runs_ok _ _ _ _ Ha Hr) as Hi. unfold run_inv in Hi. fold s in Hi.
  assert (∀ A (m : M st act A) s Q, wp m s Q → is_Some (m s)) as Hw.
  { intros A m s1 Q H. apply wp_some in H as (? & ? & ? & -> & _). done. }
  split_and!.
  - intros [c Hc] Ho Hcb p jobs lw Hj Hd. eapply Hw. by eapply recv_func_keeps.
  - intros c len jobs lw Hc Ho Hcb Hj Hlw Hl. eapply Hw. by eapply sent_func_keeps.
  - intros [c Hc] Ho Hcb lw. eapply Hw. by eapply err_func_keeps.
  - intros j Hj He. eapply Hw. by eapply run_job_keeps.
  - intros [c Hc]. eapply Hw. by eapply murder_keeps.
Qed.


(** C5: Flow control.  The receive window that lwIP is given back is exactly
    what the SOCKS connection has taken, so data within the advertised window
    ([TCP_WND] minus what was received and not confirmed) always fits the
    buffer: the receive callback never refuses it with [ERR_MEM]. *)
Theorem relay_window s0 js r r' c d jobs lw e s' t :
  accepted s0 js r → rtc run_step r r' →
  the_client (rs r') = Some c → pcb_open (pcb (rs r')) = true → cb_recv (pcb (rs r')) = true →
  Forall job_ok jobs →
  let h := observe h0 (trace r') in
  0 < zlen d ≤ TCP_WND - (zlen (tcp_in h) - recved h) →
  client_recv_func (Some d) jobs lw (rs r') = Some (e, s', t) → e ≠ ERR_MEM.
Proof.
  intros Ha Hr Hc Ho Hcb Hj h Hd E. pose proof (relay_runs_ok _ _ _ _ Ha Hr) as Hi. unfold run_inv in Hi.
  fold h in Hi. destruct (inv_alive _ _ _ Hi Hc) as (_ & _ & _ & Hco & Hp & _ & _).
  assert (client_closed c = false) as Ecl.
  { pose proof (p_open _ _ Hp) as E'. rewrite Ho in E'. by destruct (client_closed c). }
  assert (zlen (tcp_in h) - recved h = buf_used c) as Eb.
  { rewrite (k_recved _ _ _ Hco Ecl), (k_up _ _ _ (k_base _ _ _ Hco)), zlen_app. unfold buf_used. lia. }
  intros ->. eapply (recv_func_keeps _ _ _ (Some d) jobs lw) in Hi; try done.
  - unfold wp in Hi. rewrite E in Hi. destruct Hi as (_ & _ & Hm).
    destruct (Hm eq_refl) as (d' & [= <-] & ?). lia.
  - intros d' [= <-]. apply Hd.
Qed.

(** *** Witnesses *)

(** An lwIP that accepts everything, and an executable environment. *)
Definition lw0 : lwip := mk_lwip (λ _, 1000) (λ _, ERR_OK) ERR_OK ERR_OK.
Lemma lw0_ok : lwip_ok lw0.
Proof. intros i. simpl. lia. Qed.

Inductive move := DRecv (p : option bytes) | DSent (len : Z) | DJob (j : job).
Definition do_move (s : st) (m : move) : option (st * list act) :=
  match the_client s with
  | None => None
  | Some c =>
      match m with
      | DRecv p =>
          if pcb_open (pcb s) && cb_recv (pcb s) &&
             match p with Some d => 0 <? zlen d | None => true end
          then '(_, s', t) ← client_recv_func p [] lw0 s; Some (s', t) else None
      | DSent len =>
          if pcb_open (pcb s) && cb_sent (pcb s) && (0 <? len) && (len <=? socks_recv_tcp_pending c)
          then '(_, s', t) ← client_sent_func len [] lw0 s; Some (s', t) else None
      | DJob j => if job_enabled s j then '(_, s', t) ← run_job j s; Some (s', t) else None
      end
  end.
Definition move_ok (m : move) : Prop := match m with DJob j => job_ok j | _ => True end.
Fixpoint drive (r : run) (ms : list move) : option run :=
  match ms with
  | [] => Some r
  | m :: ms => '(s', t) ← do_move (rs r) m; drive (mk_run s' (trace r ++ t)) ms
  end.

Lemma do_move_ok s T m s' t : move_ok m → do_move s m = Some (s', t) →
  run_step (mk_run s T) (mk_run s' (T ++ t)).
Proof.
  intros Hm H. unfold do_move in H. destruct (the_client s) as [c|] eqn:Hc; [|done].
  destruct m as [p|len|j].
  - destruct (_ && _) eqn:E; [|done]. bool_prop.
    destruct (client_recv_func _ _ _ _) as [[[e s1] t1]|] eqn:E'; [|done]. injection H as <- <-.
    eapply step_recv; try done. intros d ->. by apply Z.ltb_lt.
  - destruct (_ && _) eqn:E; [|done]. bool_prop.
    destruct (client_sent_func _ _ _ _) as [[[e s1] t1]|] eqn:E'; [|done]. injection H as <- <-.
    eapply step_sent; try done. apply lw0_ok.
  - destruct (job_enabled s j) eqn:E; [|done].
    destruct (run_job j s) as [[[[] s1] t1]|] eqn:E'; [|done]. injection H as <- <-.
    by eapply step_job.
Qed.

Lemma relay_drive_rtc r ms r' : Forall move_ok ms → drive r ms = Some r' → rtc run_step r r'.
Proof.
  intros Hm. revert r. induction Hm as [|m ms Hm Hms IH]; intros [s T] H; [by injection H as <-|].
  simpl in H. destruct (do_move s m) as [[s1 t1]|] eqn:E; [|done].
  eapply rtc_l; [by eapply do_move_ok|by apply IH].
Qed.

(** The application sends two bytes before SOCKS is up; the server answers one
    byte and closes; the application acknowledges. *)
Definition ex_idle : st :=
  mk_st 7 2 [3%nat; 5%nat] None (mk_pcb false false false false) (mk_socks false false false []) true.
Definition ex_accept : run :=
  match listener_accept_func true true true [] ex_idle with
  | Some (_, s, t) => mk_run s t
  | None => mk_run ex_idle []
  end.
Definition ex_moves1 : list move :=
  [DRecv (Some [1; 2]); DJob (JEvent EVENT_UP lw0); DJob (JSendDone 1 lw0)].
Definition ex_moves2 : list move :=
  ex_moves1 ++ [DJob (JSendDone 1 lw0); DJob (JRecvDone [9] lw0);
                DJob (JEvent EVENT_ERROR_CLOSED lw0); DSent 1].
Definition ex_mid : run := default ex_accept (drive ex_accept ex_moves1).
Definition ex_end : run := default ex_accept (drive ex_accept ex_moves2).

Lemma ex_accepted : accepted ex_idle [] ex_accept.
Proof.
  split_and!; [|constructor|by eexists]. split_and!; [|done|].
  - split; [|reflexivity]. apply (bool_decide_unpack _). vm_compute. exact I.
  - simpl. set_solver.
Qed.
Lemma relay_moves_ok : Forall move_ok ex_moves2.
Proof. repeat constructor; apply lw0_ok. Qed.
Lemma ex_mid_reached : rtc run_step ex_accept ex_mid.
Proof.
  apply (relay_drive_rtc _ ex_moves1); [|vm_compute; reflexivity].
  pose proof relay_moves_ok as H. apply Forall_app in H. apply H.
Qed.
Lemma ex_end_reached : rtc run_step ex_accept ex_end.
Proof. apply (relay_drive_rtc _ ex_moves2); [apply relay_moves_ok|vm_compute; reflexivity]. Qed.

Lemma relay_streams_witness :
  tcp_in (observe h0 (trace ex_mid)) = [1; 2] ∧
  socks_out (observe h0 (trace ex_mid)) `prefix_of` tcp_in (observe h0 (trace ex_mid)).
Proof.
  split; [vm_compute; reflexivity|].
  exact (proj1 (relay_streams ex_idle [] ex_accept ex_mid ex_accepted ex_mid_reached)).
Defined.

Lemma relay_no_loss_witness :
  the_client (rs ex_end) = None ∧
  tcp_out (observe h0 (trace ex_end)) = socks_in (observe h0 (trace ex_end)).
Proof.
  assert (the_client (rs ex_end) = None) as Hn by (vm_compute; reflexivity).
  split; [exact Hn|].
  apply (proj2 (relay_no_loss ex_idle [] ex_accept ex_end ex_accepted ex_end_reached Hn)).
  vm_compute. reflexivity.
Defined.

Lemma relay_safe_witness : is_Some (client_murder (rs ex_mid)).
Proof.
  apply (relay_safe ex_idle [] ex_accept ex_mid ex_accepted ex_mid_reached).
  vm_compute. eexists. reflexivity.
Defined.

Definition ex_mid_client : client := mk_client false [2] true false [] (-1) 0 false 0.


Lemma relay_window_witness :
  ∃ e s' t, client_recv_func (Some [3; 4]) [] lw0 (rs ex_mid) = Some (e, s', t) ∧ e ≠ ERR_MEM.
Proof.
  do 3 eexists. split; [vm_compute; reflexivity|].
  eapply (relay_window ex_idle [] ex_accept ex_mid ex_mid_client [3; 4] [] lw0 _ _ _ ex_accepted ex_mid_reached).
  - vm_compute. reflexivity.
  - vm_compute. reflexivity.
  - vm_compute. reflexivity.
  - constructor.
  - split; vm_compute; [reflexivity|discriminate].
  - vm_compute. reflexivity.
Defined.
