(* ===== verification/TunDevice.v ===== *)
(** * The device side: UDP packets, the network interface and the packets that
      come back (tun2socks/tun2socks.c)

    Packets read from the device are either UDP datagrams for the relay or go
    to lwIP; packets of lwIP and datagrams of the relay are written to the
    device through [device_write_buf]. *)
From stdpp Require Import base list numbers strings.
From Stdlib Require Import ZArith Lia.
From S2P Require Import Prelude ByteOrder Addr Inet Options.
#[local] Open Scope Z_scope.

Module TunDevice.

(** The globals these functions use.  [device_write_buf] has [device_mtu] bytes
    (the MTU of the device, [BTap_GetMTU]). *)
Record dev := mk_dev {
  dopts : options; udp_mtu : Z; device_mtu : Z; quitting : bool; device_write_buf : bytes
}.
#[global] Instance eta_dev : Eta dev := λ d,
  mk_dev (dopts d) (udp_mtu d) (device_mtu d) (quitting d) (device_write_buf d).

Inductive act :=
| ReadDone                              (** [PacketPassInterface_Done(&device_read_interface)] *)
| SubmitPacket (local_addr remote_addr : BAddr) (is_dns : bool) (data : bytes)
| TapSend (data : bytes)                (** [BTap_Send(&device, ...)] *)
| IpInput (p : list bytes) | Ip6Input (p : list bytes) | PbufFree.

Definition is_set {A} (o : option A) : bool := match o with Some _ => true | None => false end.

Definition baddr_from_lwip (is_ipv6 : bool) (ip4 : Z) (ip6 : bytes) (port_hostorder : Z) : BAddr :=
  if is_ipv6 then BADDR_IPV6 (take 16 ip6) (hton16 port_hostorder)
  else BADDR_IPV4 ip4 (hton16 port_hostorder).

(** ** UDP from the device *)

(** The part of [case 4] that fills the variables: addresses, DNS flag, payload. *)
Definition process_udp4 (d : dev) (data : bytes) : option (BAddr * BAddr * bool * bytes) :=
  if (zlen data <? SIZEOF_ipv4_header) || negb (byte_at data 9 =? IPV4_PROTOCOL_UDP) then None else
  match ipv4_check data with
  | None => None
  | Some (ipv4, data) =>
      match udp_check data with
      | None => None
      | Some (udp, data) =>
          let checksum_in_packet := udp_cksum udp in
          let udp := udp <| udp_cksum := 0 |> in
          let checksum_computed :=
            udp_checksum udp data (zlen data) (source_address ipv4) (destination_address ipv4) in
          if negb (checksum_in_packet =? checksum_computed) then None else
          Some (BADDR_IPV4 (source_address ipv4) (source_port udp),
                BADDR_IPV4 (destination_address ipv4) (dest_port udp),
                is_set (dnsgw (dopts d)) && (dest_port udp =? hton16 53), data)
      end
  end.

(** [case 6]. *)
Definition process_udp6 (d : dev) (data : bytes) : option (BAddr * BAddr * bool * bytes) :=
  if negb (is_set (netif_ip6addr (dopts d))) then None else
  if (zlen data <? SIZEOF_ipv6_header) || negb (byte_at data 6 =? IPV6_NEXT_UDP) then None else
  match ipv6_check data with
  | None => None
  | Some (ipv6, data) =>
      match udp_check data with
      | None => None
      | Some (udp, data) =>
          let checksum_in_packet := udp_cksum udp in
          let udp := udp <| udp_cksum := 0 |> in
          let checksum_computed :=
            udp_ip6_checksum udp data (zlen data) (source_address6 ipv6) (destination_address6 ipv6) in
          if negb (checksum_in_packet =? checksum_computed) then None else
          Some (BADDR_IPV6 (source_address6 ipv6) (source_port udp),
                BADDR_IPV6 (destination_address6 ipv6) (dest_port udp), false, data)
      end
  end.

(** [true] when the packet was passed to the relay. *)
Definition process_device_udp_packet (data : bytes) : M dev act bool :=
  d ← get;
  if negb (is_set (udpgw_remote_server_addr (dopts d))) then mret false else
  let ip_version := if 0 <? zlen data then Z.shiftr (byte_at data 0) 4 else 0 in
  let parsed :=
    if ip_version =? 4 then process_udp4 d data
    else if ip_version =? 6 then process_udp6 d data
    else None in
  match parsed with
  | None => mret false
  | Some (local_addr, remote_addr, is_dns, data) =>
      if udp_mtu d <? zlen data then mret false
      else emit (SubmitPacket local_addr remote_addr is_dns data);; mret true
  end.

(** ** The network interface *)

(** [p]: the chunks of the pbuf chain; [err]: what [ip_input] returns. *)
Definition netif_input_func (p : list bytes) (err : Z) : M dev act Z :=
  d ← get;
  let payload := default [] (head p) in
  let ip_version := if 0 <? zlen payload then Z.shiftr (byte_at payload 0) 4 else 0 in
  if ip_version =? 4 then emit (IpInput p);; mret err
  else if (ip_version =? 6) && is_set (netif_ip6addr (dopts d)) then emit (Ip6Input p);; mret err
  else emit PbufFree;; mret 0.

(** [pbuf]: the chunks that [pbuf_alloc] and [pbuf_take] give for the packet,
    [None] when the allocation fails. *)
Definition device_read_handler_send (data : bytes) (pbuf : option (list bytes)) (err : Z) : M dev act () :=
  d ← get;
  ASSERT (negb (quitting d));;
  emit ReadDone;;
  handled ← process_device_udp_packet data;
  if (handled : bool) then mret ()
  else if UINT16_MAX <? zlen data then mret ()
  else match pbuf with
  | None => mret ()
  | Some p =>
      r ← netif_input_func p err;
      when (negb (r =? 0)) (emit PbufFree)
  end.

(** [memcpy(device_write_buf + off, src, ...)] *)
Definition write_buf (off : Z) (src : bytes) : M dev act () :=
  d ← get;
  ASSERT (off + zlen src <=? zlen (device_write_buf d));;
  modify (λ d, d <| device_write_buf := write_at off src (device_write_buf d) |>).
Definition send_buf (len : Z) : M dev act () :=
  d ← get; emit (TapSend (read_at 0 len (device_write_buf d))).

(** The [do ... while] over the chunks: the length written, [None] for no space. *)
Fixpoint copy_chain (p : list bytes) (len : Z) : M dev act (option Z) :=
  match p with
  | [] => mret (Some len)
  | c :: p =>
      d ← get;
      if device_mtu d - len <? zlen c then mret None
      else write_buf len c;; copy_chain p (len + zlen c)
  end.

Definition common_netif_output (p : list bytes) : M dev act () :=
  d ← get;
  if quitting d then mret ()
  else match p with
  | [c] => if device_mtu d <? zlen c then mret () else emit (TapSend c)
  | _ =>
      len ← copy_chain p 0;
      match len with None => mret () | Some len => send_buf len end
  end.

(** ** UDP to the device *)

Definition build_ipv4 (src dst : Z) (data_len : Z) : ipv4_header :=
  let iph := mk_ipv4_header (IPV4_MAKE_VERSION_IHL SIZEOF_ipv4_header) (hton8 0)
    (hton16 (SIZEOF_ipv4_header + SIZEOF_udp_header + data_len)) (hton16 0) (hton16 0)
    (hton8 64) (hton8 IPV4_PROTOCOL_UDP) (hton16 0) src dst in
  iph <| ip_checksum := ipv4_checksum iph [] 0 |>.

Definition build_ipv6 (src dst : bytes) (data_len : Z) : ipv6_header :=
  mk_ipv6_header (hton8 (Z.shiftl 6 4)) (hton8 0) (hton16 0) (hton16 (SIZEOF_udp_header + data_len))
    (hton8 IPV6_NEXT_UDP) (hton8 64) (take 16 src) (take 16 dst).

Definition udpgw_client_handler_received (local_addr remote_addr : BAddr) (data : bytes) : M dev act () :=
  d ← get;
  ASSERT (is_set (udpgw_remote_server_addr (dopts d)));;
  ASSERT (addr_type local_addr =? addr_type remote_addr);;
  let data_len := zlen data in
  match local_addr, remote_addr with
  | BADDR_IPV4 lip lport, BADDR_IPV4 rip rport =>
      if (UINT16_MAX - (SIZEOF_ipv4_header + SIZEOF_udp_header) <? data_len) ||
         (device_mtu d - (SIZEOF_ipv4_header + SIZEOF_udp_header) <? data_len) then mret ()
      else
        let iph := build_ipv4 rip lip data_len in
        let udph := mk_udp_header rport lport (hton16 (SIZEOF_udp_header + data_len)) (hton16 0) in
        let udph := udph <| udp_cksum :=
          udp_checksum udph data data_len (source_address iph) (destination_address iph) |> in
        write_buf 0 (ipv4_header_bytes iph);;
        write_buf SIZEOF_ipv4_header (udp_header_bytes udph);;
        write_buf (SIZEOF_ipv4_header + SIZEOF_udp_header) data;;
        send_buf (SIZEOF_ipv4_header + SIZEOF_udp_header + data_len)
  | BADDR_IPV6 lip lport, BADDR_IPV6 rip rport =>
      if negb (is_set (netif_ip6addr (dopts d))) then mret ()
      else if (UINT16_MAX - SIZEOF_udp_header <? data_len) ||
              (device_mtu d - (SIZEOF_ipv6_header + SIZEOF_udp_header) <? data_len) then mret ()
      else
        let iph := build_ipv6 rip lip data_len in
        let udph := mk_udp_header rport lport (hton16 (SIZEOF_udp_header + data_len)) (hton16 0) in
        let udph := udph <| udp_cksum :=
          udp_ip6_checksum udph data data_len (source_address6 iph) (destination_address6 iph) |> in
        write_buf 0 (ipv6_header_bytes iph);;
        write_buf SIZEOF_ipv6_header (udp_header_bytes udph);;
        write_buf (SIZEOF_ipv6_header + SIZEOF_udp_header) data;;
        send_buf (SIZEOF_ipv6_header + SIZEOF_udp_header + data_len)
  | _, _ => ASSERT false
  end.

End TunDevice.

(** ** Writing a packet *)
Section Device.
Import TunDevice.

Definition dev_ok (d : dev) : Prop := zlen (device_write_buf d) = device_mtu d.

Lemma wp_write_buf off src d Q : off + zlen src ≤ zlen (device_write_buf d) →
  Q () (d <| device_write_buf := write_at off src (device_write_buf d) |>) [] →
  wp (write_buf off src) d Q.
Proof. intros H HQ. unfold write_buf. wp_pure. apply wp_ASSERT; [by apply Z.leb_le|]. by wp_pure. Qed.

(** Three parts written one after the other are read back as their concatenation. *)
Lemma write_three (a b c buf : bytes) : zlen a + zlen b + zlen c ≤ zlen buf →
  read_at 0 (zlen a + zlen b + zlen c)
    (write_at (zlen a + zlen b) c (write_at (zlen a) b (write_at 0 a buf))) = a ++ b ++ c.
Proof.
  intros H. pose proof (zlen_nonneg a). pose proof (zlen_nonneg b). pose proof (zlen_nonneg c).
  pose proof (write_at_app 0 a b buf ltac:(lia) ltac:(lia)) as E1. rewrite Z.add_0_l in E1. rewrite E1.
  pose proof (write_at_app 0 (a ++ b) c buf ltac:(lia)) as E2. rewrite Z.add_0_l, zlen_app in E2.
  rewrite E2 by lia. rewrite <- app_assoc.
  replace (zlen a + zlen b + zlen c) with (zlen (a ++ b ++ c)) by (rewrite !zlen_app; lia).
  apply read_at_write_at; rewrite ?zlen_app; lia.
Qed.

Lemma write_packet_spec a b c n1 n2 d :
  dev_ok d → zlen a = n1 → zlen b = n2 → n1 + n2 + zlen c ≤ device_mtu d →
  wp (write_buf 0 a;; write_buf n1 b;; write_buf (n1 + n2) c;; send_buf (n1 + n2 + zlen c)) d
    (λ _ d' acts, dev_ok d' ∧ acts = [TapSend (a ++ b ++ c)]).
Proof.
  intros Hd <- <- Hl. unfold dev_ok in *.
  pose proof (zlen_nonneg a). pose proof (zlen_nonneg b). pose proof (zlen_nonneg c).
  pose proof (zlen_write_at 0 a (device_write_buf d) ltac:(lia) ltac:(lia)) as E1.
  pose proof (zlen_write_at (zlen a) b (write_at 0 a (device_write_buf d)) ltac:(lia) ltac:(lia)) as E2.
  pose proof (zlen_write_at (zlen a + zlen b) c
    (write_at (zlen a) b (write_at 0 a (device_write_buf d))) ltac:(lia) ltac:(lia)) as E3.
  wp_pure. apply wp_write_buf; [lia|]. wp_pure. apply wp_write_buf; simpl; [lia|].
  wp_pure. apply wp_write_buf; simpl; [lia|].
  unfold send_buf. wp_pure. rewrite write_three by lia. split; [lia|done].
Qed.

(** ** Round trips *)

Lemma build_ipv4_built src dst n : is_u32 src → is_u32 dst →
  ipv4_header_built (build_ipv4 src dst n) (SIZEOF_udp_header + n).
Proof.
  intros Hs Hd. unfold ipv4_header_built, ipv4_header_ok, build_ipv4. simpl.
  rewrite Z.add_assoc. split_and!; try done; auto with badvpn; try apply hton16_range.
Qed.

Lemma udp_built_ok s d n c : is_u16 s → is_u16 d → is_u16 c →
  udp_header_ok (mk_udp_header s d (hton16 n) c).
Proof. intros. split_and!; simpl; try done. apply hton16_range. Qed.

Lemma process_built_udp4 d rip rport lip lport data :
  is_u32 rip → is_u32 lip → is_u16 rport → is_u16 lport → zlen data ≤ 65507 →
  let iph := build_ipv4 rip lip (zlen data) in
  let udph := mk_udp_header rport lport (hton16 (SIZEOF_udp_header + zlen data)) (hton16 0) in
  let udph := udph <| udp_cksum := udp_checksum udph data (zlen data) rip lip |> in
  process_udp4 d (ipv4_header_bytes iph ++ udp_header_bytes udph ++ data) =
    Some (BADDR_IPV4 rip rport, BADDR_IPV4 lip lport,
          is_set (dnsgw (dopts d)) && (lport =? hton16 53), data).
Proof.
  intros Hr Hl Hrp Hlp Hn iph udph0 udph. pose proof (zlen_nonneg data).
  assert (udp_header_ok udph) as Hu by (apply udp_built_ok; auto with badvpn).
  unfold process_udp4. rewrite !zlen_app, zlen_ipv4_header, zlen_udp_header.
  destruct (Z.ltb_spec (20 + (8 + zlen data)) SIZEOF_ipv4_header);
    [unfold SIZEOF_ipv4_header in *; lia|].
  change (byte_at (ipv4_header_bytes iph ++ udp_header_bytes udph ++ data) 9 =? IPV4_PROTOCOL_UDP) with true.
  cbn [orb negb].
  rewrite ipv4_check_built.
  2:{ rewrite zlen_app, zlen_udp_header. lia. }
  2:{ rewrite zlen_app, zlen_udp_header. by apply build_ipv4_built. }
  pose proof (udp_check_built udph data [] Hu ltac:(lia) eq_refl) as Ec. rewrite app_nil_r in Ec.
  rewrite Ec. cbv zeta.
  change (udph <| udp_cksum := 0 |>) with udph0.
  change (source_address iph) with rip. change (destination_address iph) with lip.
  change (udp_cksum udph) with (udp_checksum udph0 data (zlen data) rip lip).
  rewrite Z.eqb_refl. reflexivity.
Qed.

Lemma build_ipv6_ok src dst n : bytes_ok src → length src = 16%nat → bytes_ok dst → length dst = 16%nat →
  ipv6_header_ok (build_ipv6 src dst n).
Proof.
  intros Hs Hls Hd Hld. unfold ipv6_header_ok, build_ipv6. simpl.
  split_and!; auto with badvpn; try apply hton16_range; try (by rewrite length_take; lia);
    unfold is_u8, hton8; vm_compute; split; congruence || done.
Qed.

Lemma process_built_udp6 d rip rport lip lport data :
  is_set (netif_ip6addr (dopts d)) = true →
  bytes_ok rip → length rip = 16%nat → bytes_ok lip → length lip = 16%nat →
  is_u16 rport → is_u16 lport → zlen data ≤ 65527 →
  let iph := build_ipv6 rip lip (zlen data) in
  let udph := mk_udp_header rport lport (hton16 (SIZEOF_udp_header + zlen data)) (hton16 0) in
  let udph := udph <| udp_cksum := udp_ip6_checksum udph data (zlen data)
                        (source_address6 iph) (destination_address6 iph) |> in
  process_udp6 d (ipv6_header_bytes iph ++ udp_header_bytes udph ++ data) =
    Some (BADDR_IPV6 rip rport, BADDR_IPV6 lip lport, false, data).
Proof.
  intros H6 Hr Hrl Hl Hll Hrp Hlp Hn iph udph0 udph. pose proof (zlen_nonneg data).
  assert (udp_header_ok udph) as Hu by (apply udp_built_ok; auto with badvpn).
  assert (ipv6_header_ok iph) as Hi by (by apply build_ipv6_ok).
  unfold process_udp6. rewrite H6. cbn [negb].
  rewrite !zlen_app, (zlen_ipv6_header iph Hi), zlen_udp_header.
  destruct (Z.ltb_spec (40 + (8 + zlen data)) SIZEOF_ipv6_header);
    [unfold SIZEOF_ipv6_header in *; lia|].
  change (byte_at (ipv6_header_bytes iph ++ udp_header_bytes udph ++ data) 6 =? IPV6_NEXT_UDP) with true.
  cbn [orb negb].
  rewrite ipv6_check_built; [|done|by rewrite zlen_app, zlen_udp_header; lia|done|
    by rewrite zlen_app, zlen_udp_header].
  pose proof (udp_check_built udph data [] Hu ltac:(lia) eq_refl) as Ec. rewrite app_nil_r in Ec.
  rewrite Ec. cbv zeta.
  change (udph <| udp_cksum := 0 |>) with udph0.
  change (udp_cksum udph) with
    (udp_ip6_checksum udph0 data (zlen data) (source_address6 iph) (destination_address6 iph)).
  rewrite Z.eqb_refl. cbn [negb].
  change (source_address6 iph) with (take 16 rip). change (destination_address6 iph) with (take 16 lip).
  by rewrite !take_ge by lia.
Qed.

(** The packet that carries a datagram of the relay to the application. *)
Definition relayed (local_addr remote_addr : BAddr) (data pkt : bytes) (d : dev) : Prop :=
  match local_addr, remote_addr with
  | BADDR_IPV4 lip lport, BADDR_IPV4 rip rport =>
      process_udp4 d pkt = Some (remote_addr, local_addr,
        is_set (dnsgw (dopts d)) && (lport =? hton16 53), data)
  | _, _ => process_udp6 d pkt = Some (remote_addr, local_addr, false, data)
  end.

(** [fits]: the size limits of [udpgw_client_handler_received]. *)
Definition fits (a : BAddr) (d : dev) (data : bytes) : Prop :=
  match a with
  | BADDR_IPV4 _ _ => zlen data ≤ 65507 ∧ zlen data ≤ device_mtu d - 28
  | _ => zlen data ≤ 65527 ∧ zlen data ≤ device_mtu d - 48 ∧ is_set (netif_ip6addr (dopts d)) = true
  end.

(** ** What is submitted *)








(** ** The output of lwIP *)

Lemma copy_chain_spec p len d pre :
  dev_ok d → 0 ≤ len → len = zlen pre → read_at 0 len (device_write_buf d) = pre → len ≤ device_mtu d →
  wp (copy_chain p len) d (λ r d' acts, acts = [] ∧ dev_ok d' ∧ device_mtu d' = device_mtu d ∧
    match r with
    | Some n => n = zlen (pre ++ mjoin p) ∧ n ≤ device_mtu d ∧ read_at 0 n (device_write_buf d') = pre ++ mjoin p
    | None => device_mtu d < zlen (pre ++ mjoin p)
    end).
Proof.
  revert len d pre. induction p as [|c p IH]; intros len d pre Hd Hn Hl Hr Hm; simpl.
  { wp_pure. rewrite app_nil_r. by split_and!. }
  pose proof (zlen_nonneg c). pose proof (zlen_nonneg (mjoin p)).
  wp_pure. wp_step; bool_prop.
  { wp_pure. rewrite !zlen_app. split_and!; [done..|]. lia. }
  wp_pure. unfold dev_ok in *. apply wp_write_buf; [lia|]. simpl.
  eapply wp_mono; [apply (IH (len + zlen c) _ (pre ++ c))|].
  - unfold dev_ok. simpl. rewrite zlen_write_at; lia.
  - lia.
  - rewrite zlen_app. lia.
  - simpl. rewrite read_at_app by lia. rewrite read_at_write_at_before by lia. rewrite Hr. f_equal.
    rewrite Z.add_0_l. apply read_at_write_at; lia.
  - simpl. lia.
  - intros r d' acts (-> & Hd' & Em & H'). rewrite <- app_assoc in H'. by split_and!.
Qed.

End Device.

(** ** Properties *)
Import TunDevice.

(** C6: A datagram of the relay becomes a packet for the application and back.
    For every pair of addresses of one family and every payload that fits the
    device and the length fields, exactly one packet of at most the device's
    MTU is written; its headers and checksums are valid, and read as a packet
    from the device it is the same payload with the two addresses exchanged.
    Any other datagram is dropped, and the buffer is never overrun. *)
Theorem udp_relay_roundtrip local_addr remote_addr data d :
  dev_ok d → BAddr_ok local_addr → BAddr_ok remote_addr → addr_is_ip local_addr = true →
  addr_type local_addr = addr_type remote_addr →
  is_set (udpgw_remote_server_addr (dopts d)) = true →
  wp (udpgw_client_handler_received local_addr remote_addr data) d (λ _ d' acts, dev_ok d' ∧
    (fits local_addr d data → ∃ pkt, acts = [TapSend pkt] ∧ zlen pkt ≤ device_mtu d ∧
       relayed local_addr remote_addr data pkt d) ∧
    (¬ fits local_addr d data → acts = [])).
Proof.
  intros Hd Hl Hr Hip Ht Hu. unfold udpgw_client_handler_received. wp_pure.
  apply wp_ASSERT; [done|]. simpl. wp_pure. apply wp_ASSERT; [by apply Z.eqb_eq|]. cbv zeta.
  destruct local_addr as [|lip lport|lip lport|]; try discriminate Hip;
    destruct remote_addr as [|rip rport|rip rport|]; try discriminate Ht;
    unfold UINT16_MAX, SIZEOF_ipv4_header, SIZEOF_ipv6_header, SIZEOF_udp_header; simpl in *.
  - destruct Hl, Hr. wp_step; [wp_pure|].
    { apply orb_true_iff in E as [E|E]; bool_prop; split_and!; try done; lia. }
    bool_prop. eapply wp_mono; [apply (write_packet_spec _ _ _ 20 8); try done; lia|].
    intros [] d' acts [Hd' ->]. split_and!; [done| |lia].
    intros _. eexists. split_and!; [done| |].
    + rewrite !zlen_app, zlen_ipv4_header, zlen_udp_header. lia.
    + apply process_built_udp4; done || lia.
  - destruct Hl as (Hl1 & Hl2 & Hl3), Hr as (Hr1 & Hr2 & Hr3).
    wp_step; bool_prop; [wp_pure; split_and!; try done; intros (_ & _ & ?); congruence|].
    wp_step; [wp_pure|].
    { apply orb_true_iff in E0 as [E0|E0]; bool_prop; split_and!; try done; lia. }
    bool_prop.
    assert (ipv6_header_ok (build_ipv6 rip lip (zlen data))) as Hi by (by apply build_ipv6_ok).
    eapply wp_mono; [apply (write_packet_spec _ _ _ 40 8); try done; [by apply zlen_ipv6_header|lia]|].
    intros [] d' acts [Hd' ->]. split_and!; [done| |].
    + intros _. eexists. split_and!; [done| |].
      * rewrite !zlen_app, zlen_ipv6_header, zlen_udp_header by done. lia.
      * apply process_built_udp6; done || lia.
    + intros H'. exfalso. apply H'. split_and!; done || lia.
Qed.


(** C8: lwIP's packets reach the device whole: the chunks of a pbuf chain are
    written as one packet, the concatenation of the chunks, if it fits the
    device's MTU; a larger packet, or one after termination has begun, is
    dropped, and the write buffer is never overrun. *)
Theorem netif_output_correct p d :
  dev_ok d → p ≠ [] →
  wp (common_netif_output p) d (λ _ d' acts, dev_ok d' ∧
    acts = if quitting d then [] else
           if device_mtu d <? zlen (mjoin p) then [] else [TapSend (mjoin p)]).
Proof.
  intros Hd Hp. unfold common_netif_output. wp_pure.
  destruct (quitting d). { wp_pure. done. }
  assert (0 ≤ device_mtu d) as Hm by (rewrite <- Hd; apply zlen_nonneg).
  destruct p as [|c [|c2 p]]; [done|..].
  - simpl. rewrite app_nil_r. wp_step; wp_pure; done.
  - apply wp_bind. eapply wp_mono; [apply (copy_chain_spec _ 0 d []); try done; lia|].
    intros [n|] d' acts (-> & Hd' & Em & H').
    + destruct H' as (En & Hn & Er). simpl in En, Er. unfold send_buf. wp_pure.
      rewrite Er. split; [done|]. simpl. destruct (Z.ltb_spec (device_mtu d) (zlen (c ++ c2 ++ mjoin p))); [|done].
      lia.
    + wp_pure. split; [done|]. simpl in *.
      destruct (Z.ltb_spec (device_mtu d) (zlen (c ++ c2 ++ mjoin p))); [done|lia].
Qed.

(** *** Witnesses *)

Definition ex_opts : options :=
  default_options [] "tun2socks"%string <| udpgw_remote_server_addr := Some "0.0.0.0:0"%string |>
    <| dnsgw := Some "8.8.8.8:53"%string |>.
Definition ex_device : dev := mk_dev ex_opts 1472 60 false (replicate 60 0).
Definition ex_local : BAddr := BADDR_IPV4 33554442 13568.
Definition ex_remote : BAddr := BADDR_IPV4 134744072 20480.

Lemma udp_relay_roundtrip_witness :
  wp (udpgw_client_handler_received ex_local ex_remote [1;2;3]) ex_device (λ _ d' acts, dev_ok d' ∧
    (fits ex_local ex_device [1;2;3] → ∃ pkt, acts = [TapSend pkt] ∧ zlen pkt ≤ 60 ∧
       relayed ex_local ex_remote [1;2;3] pkt ex_device) ∧
    (¬ fits ex_local ex_device [1;2;3] → acts = [])).
Proof.
  apply (udp_relay_roundtrip ex_local ex_remote [1;2;3] ex_device);
    try reflexivity; apply (bool_decide_unpack _); vm_compute; exact I.
Defined.



Lemma netif_output_correct_witness :
  wp (common_netif_output [[1;2]; [3]]) ex_device (λ _ d' acts, dev_ok d' ∧ acts = [TapSend [1;2;3]]).
Proof. apply (netif_output_correct [[1;2]; [3]] ex_device); [reflexivity|discriminate]. Defined.
