(* ===== verification/LinkedLists.v ===== *)
(** * Linked lists: structure/SLinkedList_impl.h and structure/LinkedList1.h

    The nodes are fields of the listed objects and point at each other; the model
    keeps them in a store ([gmap] from object to node) and performs the pointer
    updates of the source one by one.  [None] as the result of an operation is the
    use of a null pointer or of an object that does not exist. *)
From stdpp Require Import base list sets gmap numbers.
From S2P Require Import Prelude.

(** A node with its two links; [None] is [NULL]. *)
Record lnode := mk_lnode { nprev : option nat; nnext : option nat }.
#[global] Instance eta_lnode : Eta lnode := λ n, mk_lnode (nprev n) (nnext n).
Abbreviation store := (gmap nat lnode).

Definition set_next (p : nat) (v : option nat) (st : store) : option store :=
  n ← st !! p; Some (<[p := n <| nnext := v |>]> st).
Definition set_prev (p : nat) (v : option nat) (st : store) : option store :=
  n ← st !! p; Some (<[p := n <| nprev := v |>]> st).

(** Without the feature [LAST]; the [prev] of the first entry is not used. *)
Module SLinkedList.
Record t := mk_t { first : option nat; nodes : store }.
#[global] Instance eta_t : Eta t := λ o, mk_t (first o) (nodes o).

(** [o] with its nodes updated by [f]. *)
Definition upd (f : store → option store) (o : t) : option t :=
  st ← f (nodes o); Some (o <| nodes := st |>).

Definition MarkRemoved (entry : nat) (o : t) : option t := upd (set_next entry (Some entry)) o.
Definition IsRemoved (entry : nat) (o : t) : option bool :=
  n ← nodes o !! entry; Some (bool_decide (nnext n = Some entry)).
Definition Init (o : t) : t := o <| first := None |>.
Definition Next (entry : nat) (o : t) : option (option nat) := n ← nodes o !! entry; Some (nnext n).
Definition Prev (entry : nat) (o : t) : option (option nat) :=
  if bool_decide (first o = Some entry) then Some None else n ← nodes o !! entry; Some (nprev n).
Definition Prepend (entry : nat) (o : t) : option t :=
  o ← upd (set_next entry (first o)) o;
  o ← (match first o with Some f => upd (set_prev f (Some entry)) o | None => Some o end);
  Some (o <| first := Some entry |>).
Definition InsertBefore (entry before_entry : nat) (o : t) : option t :=
  o ← upd (set_next entry (Some before_entry)) o;
  o ← (if bool_decide (first o = Some before_entry) then Some (o <| first := Some entry |>)
       else
         b ← nodes o !! before_entry;
         o ← upd (set_prev entry (nprev b)) o;
         prev ← nprev b;
         upd (set_next prev (Some entry)) o);
  upd (set_prev before_entry (Some entry)) o.
Definition InsertAfter (entry after_entry : nat) (o : t) : option t :=
  a ← nodes o !! after_entry;
  o ← upd (set_next entry (nnext a)) o;
  o ← upd (set_prev entry (Some after_entry)) o;
  o ← (match nnext a with Some q => upd (set_prev q (Some entry)) o | None => Some o end);
  upd (set_next after_entry (Some entry)) o.
Definition Remove (entry : nat) (o : t) : option t :=
  n ← nodes o !! entry;
  if bool_decide (first o = Some entry) then Some (o <| first := nnext n |>)
  else
    prev ← nprev n;
    o ← upd (set_next prev (nnext n)) o;
    match nnext n with Some q => upd (set_prev q (nprev n)) o | None => Some o end.
Definition RemoveFirst (o : t) : option t :=
  f ← first o; n ← nodes o !! f; Some (o <| first := nnext n |>).
Definition First (o : t) : option nat := first o.
Definition IsEmpty (o : t) : bool := bool_decide (first o = None).
End SLinkedList.

Module LinkedList1.
Record t := mk_t { first : option nat; last : option nat; nodes : store }.
#[global] Instance eta_t : Eta t := λ o, mk_t (first o) (last o) (nodes o).

Definition upd (f : store → option store) (o : t) : option t :=
  st ← f (nodes o); Some (o <| nodes := st |>).

Definition Init (o : t) : t := o <| first := None |> <| last := None |>.
Definition IsEmpty (o : t) : bool := bool_decide (first o = None).
Definition GetFirst (o : t) : option nat := first o.
Definition GetLast (o : t) : option nat := last o.
Definition Prepend (node : nat) (o : t) : option t :=
  o ← upd (set_prev node None) o;
  o ← upd (set_next node (first o)) o;
  o ← (match first o with Some f => upd (set_prev f (Some node)) o | None => Some (o <| last := Some node |>) end);
  Some (o <| first := Some node |>).
Definition Append (node : nat) (o : t) : option t :=
  o ← upd (set_prev node (last o)) o;
  o ← upd (set_next node None) o;
  o ← (match last o with Some l => upd (set_next l (Some node)) o | None => Some (o <| first := Some node |>) end);
  Some (o <| last := Some node |>).
Definition InsertBefore (node target : nat) (o : t) : option t :=
  g ← nodes o !! target;
  o ← upd (set_prev node (nprev g)) o;
  o ← upd (set_next node (Some target)) o;
  o ← (match nprev g with Some p => upd (set_next p (Some node)) o | None => Some (o <| first := Some node |>) end);
  upd (set_prev target (Some node)) o.
Definition InsertAfter (node target : nat) (o : t) : option t :=
  g ← nodes o !! target;
  o ← upd (set_prev node (Some target)) o;
  o ← upd (set_next node (nnext g)) o;
  o ← (match nnext g with Some q => upd (set_prev q (Some node)) o | None => Some (o <| last := Some node |>) end);
  upd (set_next target (Some node)) o.
Definition Remove (node : nat) (o : t) : option t :=
  n ← nodes o !! node;
  o ← (match nprev n with Some p => upd (set_next p (nnext n)) o | None => Some (o <| first := nnext n |>) end);
  n ← nodes o !! node;
  match nnext n with Some q => upd (set_prev q (nprev n)) o | None => Some (o <| last := nprev n |>) end.
(** [ins_first] and [ins_last] are the fields of [ins_list], whose nodes are in the same memory. *)
Definition InsertListAfter (ins_first ins_last target : option nat) (o : t) : option t :=
  match ins_first with
  | None => Some o
  | Some f =>
      t_next ← (match target with Some g => n ← nodes o !! g; Some (nnext n) | None => Some (first o) end);
      o ← upd (set_prev f target) o;
      l ← ins_last;
      o ← upd (set_next l t_next) o;
      o ← (match target with Some g => upd (set_next g (Some f)) o | None => Some (o <| first := Some f |>) end);
      match t_next with Some q => upd (set_prev q (Some l)) o | None => Some (o <| last := Some l |>) end
  end.
Definition Node_Next (node : nat) (o : t) : option (option nat) := n ← nodes o !! node; Some (nnext n).
Definition Node_Prev (node : nat) (o : t) : option (option nat) := n ← nodes o !! node; Some (nprev n).
End LinkedList1.

(** ** Chains of nodes *)
Section Chains.

(** The entries [l] are linked in order: the last points to [tl], and the first
    back to [pv] when that is given. *)
Fixpoint chain (st : store) (pv : option (option nat)) (l : list nat) (tl : option nat) : Prop :=
  match l with
  | [] => True
  | p :: l => ∃ n, st !! p = Some n ∧ nnext n = match l with [] => tl | q :: _ => Some q end ∧
      match pv with None => True | Some v => nprev n = v end ∧ chain st (Some (Some p)) l tl
  end.

Lemma chain_frame st st' pv l tl : (∀ p, p ∈ l → st' !! p = st !! p) → chain st pv l tl → chain st' pv l tl.
Proof.
  revert pv. induction l as [|p l IH]; intros pv He; [done|]. simpl. intros (n & Hn & Hx & Hp & Hc).
  exists n. split_and!; [by rewrite He by left|done|done|]. apply IH; [|done]. intros; apply He; by right.
Qed.
Lemma chain_unconstrained st pv l tl : chain st pv l tl → chain st None l tl.
Proof. destruct l as [|p l]; [done|]. simpl. intros (n & ? & ? & _ & ?). eauto. Qed.

(** What is before an entry: the last of the entries in front, or what is in
    front of them. *)
Definition back (pv : option (option nat)) (A : list nat) : option (option nat) :=
  match list.last A with Some a => Some (Some a) | None => pv end.

Lemma chain_app st pv A p B tl : chain st pv (A ++ p :: B) tl ↔
  chain st pv A (Some p) ∧ chain st (back pv A) (p :: B) tl.
Proof.
  unfold back. revert pv. induction A as [|a A IH]; intros pv; [simpl; naive_solver|].
  change ((a :: A) ++ p :: B) with (a :: (A ++ p :: B)). cbn [chain]. setoid_rewrite IH.
  replace (match A ++ p :: B with [] => tl | q :: _ => Some q end) with
    (match A with [] => Some p | q :: _ => Some q end) by (by destruct A).
  rewrite last_cons. destruct (list.last A); naive_solver.
Qed.

Lemma chain_lookup st pv l tl p : chain st pv l tl → p ∈ l → is_Some (st !! p).
Proof.
  revert pv. induction l as [|q l IH]; intros pv Hc Hp; [by apply elem_of_nil in Hp|].
  simpl in Hc. destruct Hc as (n & Hn & _ & _ & Hc). apply elem_of_cons in Hp as [->|Hp]; eauto.
Qed.

(** Redirecting the last entry. *)
Lemma chain_set_last st pv A a tl tl' st' : chain st pv (A ++ [a]) tl → a ∉ A →
  set_next a tl' st = Some st' → chain st' pv (A ++ [a]) tl'.
Proof.
  intros Hc Ha Hs. unfold set_next in Hs. destruct (st !! a) as [n|] eqn:En; [|done]. injection Hs as <-.
  apply chain_app in Hc as [HA (m & Hm & _ & Hp & _)]. apply chain_app. split.
  - eapply chain_frame; [|exact HA]. intros p Hp'. apply lookup_insert_ne. by intros ->.
  - simplify_eq. eexists. split_and!; [apply lookup_insert_eq|done|done|done].
Qed.
(** Redirecting the back link of the first entry. *)
Lemma chain_set_first st pv p l tl v st' : chain st pv (p :: l) tl → p ∉ l →
  set_prev p v st = Some st' → chain st' (Some v) (p :: l) tl.
Proof.
  intros (n & Hn & Hx & _ & Hc) Hp Hs. unfold set_prev in Hs. rewrite Hn in Hs. injection Hs as <-.
  eexists. split_and!; [apply lookup_insert_eq|done|done|].
  eapply chain_frame; [|exact Hc]. intros q Hq. apply lookup_insert_ne. by intros ->.
Qed.

Lemma set_next_some st p v : is_Some (st !! p) → ∃ st', set_next p v st = Some st' ∧
  (∀ q, q ≠ p → st' !! q = st !! q) ∧ ∀ q, is_Some (st' !! q) ↔ is_Some (st !! q).
Proof.
  intros [n Hn]. unfold set_next. rewrite Hn. eexists. split_and!; [done| |].
  - intros q Hq. by apply lookup_insert_ne.
  - intros q. destruct (decide (q = p)) as [->|]; [rewrite lookup_insert_eq, Hn|rewrite lookup_insert_ne by done]; naive_solver.
Qed.
Lemma set_prev_some st p v : is_Some (st !! p) → ∃ st', set_prev p v st = Some st' ∧
  (∀ q, q ≠ p → st' !! q = st !! q) ∧ ∀ q, is_Some (st' !! q) ↔ is_Some (st !! q).
Proof.
  intros [n Hn]. unfold set_prev. rewrite Hn. eexists. split_and!; [done| |].
  - intros q Hq. by apply lookup_insert_ne.
  - intros q. destruct (decide (q = p)) as [->|]; [rewrite lookup_insert_eq, Hn|rewrite lookup_insert_ne by done]; naive_solver.
Qed.

(** The same, for every node of the store. *)
Lemma set_next_all st p v : is_Some (st !! p) → ∃ st', set_next p v st = Some st' ∧
  ∀ q, st' !! q = (λ n, if decide (q = p) then n <| nnext := v |> else n) <$> st !! q.
Proof.
  intros [n Hn]. unfold set_next. rewrite Hn. eexists. split; [done|]. intros q.
  destruct (decide (q = p)) as [->|]; [by rewrite lookup_insert_eq, Hn|]. rewrite lookup_insert_ne by done. by destruct (st !! q).
Qed.
Lemma set_prev_all st p v : is_Some (st !! p) → ∃ st', set_prev p v st = Some st' ∧
  ∀ q, st' !! q = (λ n, if decide (q = p) then n <| nprev := v |> else n) <$> st !! q.
Proof.
  intros [n Hn]. unfold set_prev. rewrite Hn. eexists. split; [done|]. intros q.
  destruct (decide (q = p)) as [->|]; [by rewrite lookup_insert_eq, Hn|]. rewrite lookup_insert_ne by done. by destruct (st !! q).
Qed.

(** Cutting an entry out of a chain. *)
Lemma NoDup_cut (A : list nat) p B : NoDup (A ++ p :: B) → NoDup (A ++ B) ∧ p ∉ A ∧ p ∉ B ∧ NoDup A ∧ NoDup B.
Proof.
  intros H. rewrite <- Permutation_middle in H. apply list.NoDup_cons in H as [Hp H].
  pose proof H as H'. apply list.NoDup_app in H as (HA & _ & HB). set_solver.
Qed.

Lemma chain_cut st pv A a p B n st1 st2 : chain st pv ((A ++ [a]) ++ p :: B) None → NoDup ((A ++ [a]) ++ p :: B) →
  st !! p = Some n → set_next a (nnext n) st = Some st1 →
  (match nnext n with Some q => set_prev q (Some a) st1 | None => Some st1 end) = Some st2 →
  chain st2 pv ((A ++ [a]) ++ B) None.
Proof.
  intros Hc Hnd Hn H1 H2. pose proof (NoDup_cut _ _ _ Hnd) as (HndAB & HpA & HpB & HndA & HndB).
  apply chain_app in Hc as [HA (m & Hm & Hmx & _ & HB)]. simplify_eq.
  assert (a ∉ A) as Ha by (apply list.NoDup_app in HndA as (_ & ? & _); set_solver).
  assert (a ∉ B ∧ (∀ q, q ∈ B → q ∉ A ++ [a])) as [HaB Hdis] by (apply list.NoDup_app in HndAB as (_ & ? & _); set_solver).
  pose proof (chain_set_last st pv A a _ _ st1 HA Ha H1) as HA1.
  assert (chain st1 (Some (Some p)) B None) as HB1.
  { eapply chain_frame; [|exact HB]. intros q Hq. unfold set_next in H1. destruct (st !! a); [|done].
    injection H1 as <-. apply lookup_insert_ne. by intros ->. }
  destruct B as [|b B].
  - rewrite Hmx in HA1, H2. injection H2 as <-. by rewrite app_nil_r.
  - rewrite Hmx in HA1, H2. apply chain_app. split.
    + eapply chain_frame; [|exact HA1]. intros q Hq. unfold set_prev in H2. destruct (st1 !! b); [|done].
      injection H2 as <-. apply lookup_insert_ne. intros ->. eapply Hdis; [left|done].
    + unfold back. rewrite last_snoc. eapply chain_set_first; [exact HB1| |exact H2].
      by apply list.NoDup_cons in HndB as [? _].
Qed.

(** *** Splicing a chain into another *)

(** A chain whose ends are redirected. *)
Lemma chain_relink st st' pv pv' l tl tl' : NoDup l → chain st pv l tl →
  (∀ q n, q ∈ l → st !! q = Some n → ∃ n', st' !! q = Some n' ∧
    (nnext n' = if decide (list.last l = Some q) then tl' else nnext n) ∧
    (head l = Some q → match pv' with None => True | Some v => nprev n' = v end) ∧
    (head l ≠ Some q → nprev n' = nprev n)) →
  chain st' pv' l tl'.
Proof.
  revert pv pv'. induction l as [|p l IH]; intros pv pv' Hnd Hc Hq; [done|].
  destruct Hc as (n & Hn & Hx & _ & Hc). apply list.NoDup_cons in Hnd as [Hp Hnd].
  destruct (Hq p n) as (n' & Hn' & Hx' & Hh & _); [left|done|]. exists n'. split_and!; [done| |by apply Hh|].
  - rewrite Hx'. destruct l as [|q l]; simpl; [by rewrite decide_True|].
    rewrite decide_False; [done|]. intros E. apply Hp. apply (list_elem_of_lookup_2 _ (pred (length (q :: l)))).
    rewrite <- last_lookup. by rewrite <- E.
  - apply (IH (Some (Some p))); [done|done|]. intros q m Hql Hm. destruct (Hq q m) as (m' & Hm' & Hmx & _ & Hmp); [by right|done|].
    assert (head (p :: l) ≠ Some q) as Hne by (intros [= ->]; done).
    exists m'. split_and!; [done| | |].
    + rewrite Hmx. destruct l; [by apply elem_of_nil in Hql|]. by rewrite last_cons_cons.
    + intros E. rewrite Hmp by done. destruct l as [|q' l]; [done|]. simpl in E. simplify_eq.
      destruct Hc as (m0 & ? & _ & ? & _). by simplify_eq.
    + intros _. by apply Hmp.
Qed.

Lemma chain_split st pv A B tl : chain st pv (A ++ B) tl ↔
  chain st pv A (match B with [] => tl | b :: _ => Some b end) ∧ chain st (back pv A) B tl.
Proof. destruct B as [|b B]; [rewrite app_nil_r; simpl; naive_solver|]. apply chain_app. Qed.

(** The links of [q] after the chain [C] from [c] to [e] was put between [A] and [B]. *)
Definition relink (A B : list nat) (c e q : nat) (n : lnode) : lnode :=
  mk_lnode (if decide (q = c) then list.last A else if decide (head B = Some q) then Some e else nprev n)
           (if decide (q = e) then head B else if decide (list.last A = Some q) then Some c else nnext n).

Lemma last_elem (l : list nat) a : list.last l = Some a → a ∈ l.
Proof. rewrite last_lookup. apply list_elem_of_lookup_2. Qed.
Lemma head_elem (l : list nat) a : head l = Some a → a ∈ l.
Proof. destruct l; [done|]. intros [= ->]. left. Qed.

Lemma chain_last st pv l tl q n : chain st pv l tl → list.last l = Some q → st !! q = Some n → nnext n = tl.
Proof. intros Hc [l' ->]%last_Some Hn. apply chain_app in Hc as [_ (m & ? & ? & _)]. by simplify_eq. Qed.

Lemma chain_splice st st' pv pvC tlC A C B c e : head C = Some c → list.last C = Some e → NoDup (A ++ C ++ B) →
  (A = [] → pv = Some None) → chain st pv (A ++ B) None → chain st pvC C tlC →
  (∀ q, st' !! q = relink A B c e q <$> st !! q) → chain st' pv (A ++ C ++ B) None.
Proof.
  intros Hc He Hnd Hpv [HA HB]%chain_split HC Hst. apply list.NoDup_app in Hnd as (HndA & HA' & [HndC [HC' HndB]]%list.NoDup_app).
  pose proof (head_elem _ _ Hc). pose proof (last_elem _ _ He).
  rewrite !chain_split. split_and!.
  - eapply chain_relink; [exact HndA|exact HA|]. intros q n Hq Hn. rewrite Hst, Hn. eexists. split_and!; [done|..]; simpl.
    + rewrite decide_False by set_solver. destruct C; [done|]. injection Hc as ->. done.
    + intros Hh. destruct A as [|a A]; [done|]. injection Hh as ->. rewrite !decide_False;
        [|intros ?%head_elem; set_solver|set_solver]. destruct HA as (m & ? & _ & ? & _). by simplify_eq.
    + intros _. rewrite !decide_False; [done|intros ?%head_elem; set_solver|set_solver].
  - eapply chain_relink; [exact HndC|exact HC|]. intros q n Hq Hn. rewrite Hst, Hn. eexists. split_and!; [done|..]; simpl.
    + rewrite He. destruct (decide (q = e)) as [->|Hne].
      * rewrite decide_True by done. by destruct B.
      * rewrite !decide_False; [done|by intros [= ->]|intros ?%last_elem; set_solver].
    + rewrite Hc. intros [= ->]. rewrite decide_True by done. unfold back.
      destruct (list.last A) eqn:E; [done|]. apply last_None in E. by rewrite Hpv.
    + rewrite Hc. intros Hne. rewrite !decide_False; [done|intros ?%head_elem; set_solver|by intros ->].
  - eapply chain_relink; [exact HndB|exact HB|]. intros q n Hq Hn. rewrite Hst, Hn. eexists. split_and!; [done|..]; simpl.
    + rewrite (decide_False (P := q = e)) by set_solver.
      rewrite (decide_False (P := list.last A = Some q)) by (intros ?%last_elem; set_solver).
      case_decide; [by eapply chain_last|done].
    + intros Hh. unfold back. rewrite He. rewrite decide_False by set_solver. by rewrite decide_True.
    + intros Hh. by rewrite !decide_False by set_solver.
Qed.

(** Runs the assignments of an insertion and compares the links. *)
Ltac relinks := intros q;
  repeat match goal with H : ∀ q, _ !! q = _ |- _ => rewrite H; clear H end;
  rewrite <- ?option_fmap_compose; apply option_fmap_ext; intros [x y];
  unfold relink, compose; repeat match goal with H : list.last _ = _ |- _ => rewrite H end; simpl; repeat case_decide; simplify_eq/=; try done; congruence.
Ltac assign := match goal with
  | |- context [set_prev ?p ?v ?st] => let st' := fresh "st" in let E := fresh "E" in let H := fresh "H" in
      destruct (set_prev_all st p v) as (st' & E & H); [|rewrite E; simpl]
  | |- context [set_next ?p ?v ?st] => let st' := fresh "st" in let E := fresh "E" in let H := fresh "H" in
      destruct (set_next_all st p v) as (st' & E & H); [|rewrite E; simpl]
  end.

(** ** [SLinkedList] *)
Section Single.
Import SLinkedList.

(** The list at [o] is [l]. *)
Definition srep (o : t) (l : list nat) : Prop := first o = head l ∧ NoDup l ∧ chain (nodes o) None l None.
(** The same objects exist; those outside [l] are unchanged. *)
Definition only (l : list nat) (o o' : t) : Prop :=
  (∀ q, is_Some (nodes o' !! q) ↔ is_Some (nodes o !! q)) ∧ ∀ q, q ∉ l → nodes o' !! q = nodes o !! q.

Lemma srep_ext o o' l : srep o l → first o' = first o → (∀ p, p ∈ l → nodes o' !! p = nodes o !! p) → srep o' l.
Proof. intros (Hf & Hnd & Hc) Ef En. split_and!; [by rewrite Ef|done|by eapply chain_frame]. Qed.

Lemma srep_Prepend p o l : srep o l → p ∉ l → is_Some (nodes o !! p) →
  ∃ o', Prepend p o = Some o' ∧ srep o' (p :: l) ∧ only (p :: l) o o'.
Proof.
  intros (Hf & Hnd & Hc) Hp Hn. unfold Prepend, upd.
  destruct (set_next_some (nodes o) p (first o) Hn) as (st1 & E1 & Hk1 & Hd1). rewrite E1. simpl. rewrite Hf.
  assert (chain st1 None l None) as Hc1.
  { eapply chain_frame; [|exact Hc]. intros q Hq. apply Hk1. by intros ->. }
  assert (∃ n, st1 !! p = Some n ∧ nnext n = head l) as (n & En & Hx).
  { unfold set_next in E1. destruct Hn as [m Hm]. rewrite Hm in E1. injection E1 as <-. rewrite lookup_insert_eq. eauto. }
  destruct l as [|f l]; simpl.
  - eexists. split; [done|]. split; [split_and!; [done|by apply list.NoDup_singleton|]|].
    + simpl. eauto.
    + split; [done|]. intros q Hq. apply Hk1. set_solver.
  - destruct (set_prev_some st1 f (Some p)) as (st2 & E2 & Hk2 & Hd2).
    { eapply chain_lookup; [exact Hc1|left]. }
    rewrite E2. simpl. eexists. split; [done|]. split; [split_and!; [done|by constructor|]|].
    + simpl. exists n. split_and!; [rewrite Hk2 by set_solver; done|done|done|].
      eapply (chain_set_first st1 None f l None (Some p) st2); [exact Hc1| |done]. by apply list.NoDup_cons in Hnd as [? _].
    + split; [intros q; simpl; by rewrite Hd2, Hd1|]. intros q Hq. simpl. rewrite Hk2, Hk1 by set_solver. done.
Qed.

Lemma srep_Remove A p B o : srep o (A ++ p :: B) →
  ∃ o', Remove p o = Some o' ∧ srep o' (A ++ B) ∧ only (A ++ B) o o'.
Proof.
  intros (Hf & Hnd & Hc). pose proof (NoDup_cut _ _ _ Hnd) as (HndAB & HpA & HpB & _ & _).
  pose proof Hc as Hc'. apply chain_app in Hc' as [HA (n & Hn & Hx & Hp & HB)]. unfold Remove. rewrite Hn. simpl.
  destruct (decide (A = [])) as [->|HA0].
  - simpl in Hf. rewrite bool_decide_true by done. eexists. split; [done|]. split; [split_and!|].
    + simpl. by destruct B.
    + done.
    + simpl. by eapply chain_unconstrained.
    + done.
  - destruct (exists_last HA0) as (A' & a & ->). unfold back in Hp. rewrite last_snoc in Hp.
    rewrite bool_decide_false.
    2:{ rewrite Hf. destruct A' as [|a' A']; simpl; intros [= ->]; set_solver. }
    rewrite Hp. simpl. unfold upd.
    destruct (set_next_some (nodes o) a (nnext n)) as (st1 & E1 & Hk1 & Hd1).
    { eapply chain_lookup; [exact HA|set_solver]. }
    rewrite E1. simpl.
    assert (∃ st2, (match nnext n with Some q => set_prev q (Some a) st1 | None => Some st1 end) = Some st2 ∧
      (∀ q, is_Some (st2 !! q) ↔ is_Some (nodes o !! q)) ∧
      ∀ q, q ∉ (A' ++ [a]) ++ B → st2 !! q = nodes o !! q) as (st2 & E2 & Hd2 & Hk2).
    { rewrite Hx. destruct B as [|b B].
      - exists st1. split_and!; [done|done|]. intros q Hq. apply Hk1. set_solver.
      - destruct (set_prev_some st1 b (Some a)) as (st2 & E2 & Hk2 & Hd2).
        { apply Hd1. eapply chain_lookup; [exact HB|left]. }
        exists st2. split_and!; [done|intros q; by rewrite Hd2, Hd1|].
        intros q Hq. rewrite Hk2, Hk1 by set_solver. done. }
    exists (o <| nodes := st2 |>). split_and!.
    + destruct (nnext n); [by rewrite E2|]. by injection E2 as ->.
    + split_and!; [|done|by eapply chain_cut].
      simpl. rewrite Hf. by destruct A'.
    + done.
Qed.

Lemma srep_RemoveFirst p l o : srep o (p :: l) →
  ∃ o', RemoveFirst o = Some o' ∧ srep o' l ∧ nodes o' = nodes o.
Proof.
  intros (Hf & Hnd & (n & Hn & Hx & _ & Hc)). unfold RemoveFirst. rewrite Hf. simpl. rewrite Hn. simpl.
  eexists. split_and!; [done| |done]. split_and!.
  - simpl. by destruct l.
  - by apply list.NoDup_cons in Hnd as [_ ?].
  - by eapply chain_unconstrained.
Qed.

(** An entry of the list does not point to itself, so that self-reference can
    mark the objects that are in no list. *)
Lemma srep_IsRemoved p l o : srep o l → p ∈ l → IsRemoved p o = Some false.
Proof.
  intros (Hf & Hnd & Hc) Hp. apply list_elem_of_split in Hp as (A & B & ->).
  pose proof (NoDup_cut _ _ _ Hnd) as (_ & _ & HpB & _ & _).
  apply chain_app in Hc as [_ (n & Hn & Hx & _)]. unfold IsRemoved. rewrite Hn. simpl. f_equal.
  apply bool_decide_false. rewrite Hx. destruct B; [done|]. intros [= ->]. set_solver.
Qed.

Lemma srep_MarkRemoved p l o : srep o l → p ∉ l → is_Some (nodes o !! p) →
  ∃ o', MarkRemoved p o = Some o' ∧ srep o' l ∧ IsRemoved p o' = Some true ∧ only [p] o o'.
Proof.
  intros (Hf & Hnd & Hc) Hp Hn. unfold MarkRemoved, upd.
  destruct (set_next_some (nodes o) p (Some p) Hn) as (st1 & E1 & Hk1 & Hd1). rewrite E1. simpl.
  eexists. split_and!; [done| | |].
  - split_and!; [done|done|]. eapply chain_frame; [|exact Hc]. intros q Hq. apply Hk1. by intros ->.
  - unfold IsRemoved. simpl. unfold set_next in E1. destruct Hn as [m Hm]. rewrite Hm in E1. injection E1 as <-.
    rewrite lookup_insert_eq. simpl. by rewrite bool_decide_true.
  - split; [done|]. intros q Hq. apply Hk1. set_solver.
Qed.

(** The links of an entry; that of the first to its predecessor is not used. *)
Lemma srep_links A g B o : srep o (A ++ g :: B) →
  ∃ n, nodes o !! g = Some n ∧ nnext n = head B ∧ (A ≠ [] → nprev n = list.last A).
Proof.
  intros (_ & _ & Hc). apply chain_app in Hc as [_ (n & Hn & Hx & Hv & _)]. exists n. split_and!; [done|by rewrite Hx; destruct B|].
  intros HA. unfold back in Hv. destruct (list.last A) eqn:E; [done|]. by apply last_None in E.
Qed.
Lemma srep_neighbours A g B o : srep o (A ++ g :: B) → Next g o = Some (head B) ∧ Prev g o = Some (list.last A).
Proof.
  intros H. destruct (srep_links A g B o H) as (n & Hn & <- & Hv). unfold Next, Prev. rewrite Hn. split; [done|].
  destruct H as (-> & Hnd & _). destruct A as [|a A]; [by rewrite bool_decide_true|]. rewrite bool_decide_false.
  - simpl. by rewrite Hv.
  - intros [= ->]. apply NoDup_cut in Hnd as (_ & Hg & _). apply Hg. left.
Qed.

(** An entry [p] was put between [A] and [B]. *)
Lemma srep_inserted (op : t → option t) A B p o : srep o (A ++ B) → A ≠ [] → p ∉ A ++ B → is_Some (nodes o !! p) →
  (∃ o', op o = Some o' ∧ first o' = first o ∧ ∀ q, nodes o' !! q = relink A B p p q <$> nodes o !! q) →
  ∃ o', op o = Some o' ∧ srep o' (A ++ p :: B) ∧ ∀ q, is_Some (nodes o' !! q) ↔ is_Some (nodes o !! q).
Proof.
  intros (Hf & Hnd & Hc) HA Hp [n Hn] (o' & E & Ef & Eq).
  assert (NoDup (A ++ [p] ++ B)) as Hnd' by (simpl; rewrite <- Permutation_middle; by apply list.NoDup_cons).
  exists o'. split; [done|]. split; [split_and!; [by rewrite Ef, Hf; destruct A|done|]|].
  - eapply (chain_splice _ _ None None (nnext n) A [p] B p p); try done. by exists n.
  - intros q. rewrite Eq. by rewrite fmap_is_Some.
Qed.

Lemma srep_InsertAfter A g B p o : srep o (A ++ g :: B) → p ∉ A ++ g :: B → is_Some (nodes o !! p) →
  ∃ o', InsertAfter p g o = Some o' ∧ srep o' (A ++ g :: p :: B) ∧ ∀ q, is_Some (nodes o' !! q) ↔ is_Some (nodes o !! q).
Proof.
  intros H Hp Hn. destruct (srep_links A g B o H) as (n & Hg & Hx & _).
  pose proof H as (_ & Hnd & Hc). pose proof (NoDup_cut _ _ _ Hnd) as (_ & _ & HgB & _ & _).
  assert (∀ b, b ∈ B → is_Some (nodes o !! b)) as HB by (intros; eapply chain_lookup; [exact Hc|set_solver]).
  assert (p ≠ g) by set_solver. replace (A ++ g :: B) with ((A ++ [g]) ++ B) in H, Hp by (by rewrite <- app_assoc).
  replace (A ++ g :: p :: B) with ((A ++ [g]) ++ p :: B) by (by rewrite <- app_assoc).
  apply srep_inserted; try done; [by destruct A|]. unfold InsertAfter, upd. rewrite Hg. simpl. rewrite Hx.
  assert (list.last (A ++ [g]) = Some g) as Hla by apply last_snoc.
  assign; [done|]. assign; [by rewrite H1, fmap_is_Some|]. destruct B as [|b B]; simpl.
  - assign; [rewrite H2, H1, Hg; eauto|]. eexists. split_and!; [done..|]. relinks.
  - assert (b ≠ g ∧ b ≠ p) as [] by set_solver. assign; [rewrite H2, H1, !fmap_is_Some; apply HB; left|].
    assign; [rewrite H5, H2, H1, Hg; eauto|]. eexists. split_and!; [done..|]. relinks.
Qed.

(** Before the first entry, the insertion is [Prepend]. *)
Lemma srep_InsertBefore A g B p o : srep o (A ++ g :: B) → p ∉ A ++ g :: B → is_Some (nodes o !! p) →
  ∃ o', InsertBefore p g o = Some o' ∧ srep o' (A ++ p :: g :: B) ∧ ∀ q, is_Some (nodes o' !! q) ↔ is_Some (nodes o !! q).
Proof.
  intros H Hp Hn. pose proof H as (Hf & Hnd & Hc). destruct (decide (A = [])) as [->|HA].
  { destruct (srep_Prepend p o _ H Hp Hn) as (o' & E & H' & [Hd _]). exists o'. split; [|done]. rewrite <- E.
    unfold InsertBefore, Prepend, upd. rewrite Hf. simpl. destruct (set_next p (Some g) (nodes o)) as [st|]; simpl; [|done].
    rewrite Hf. simpl. rewrite bool_decide_true by done. simpl. by destruct (set_prev g (Some p) st). }
  destruct (srep_links A g B o H) as (n & Hg & _ & Hv). specialize (Hv HA).
  pose proof (NoDup_cut _ _ _ Hnd) as (_ & HgA & _ & _ & _).
  destruct (list.last A) as [a|] eqn:Ea; [|by apply last_None in Ea]. apply last_elem in Ea as HaA.
  assert (a ≠ g ∧ a ≠ p ∧ p ≠ g) as (? & ? & ?) by set_solver.
  assert (is_Some (nodes o !! a)) as Ha by (eapply chain_lookup; [exact Hc|set_solver]).
  apply srep_inserted; try done. unfold InsertBefore, upd. assign; [done|].
  rewrite bool_decide_false; [|rewrite Hf; destruct A; [done|]; intros [= ->]; apply HgA; left].
  rewrite H3, Hg. simpl. rewrite decide_False by done. rewrite Hv. simpl. assert (head (g :: B) = Some g) as Hhb by done.
  assign; [by rewrite H3, fmap_is_Some|]. assign; [by rewrite H4, H3, !fmap_is_Some|].
  assign; [rewrite H5, H4, H3, Hg; eauto|]. eexists. split_and!; [done..|]. relinks.
Qed.
End Single.

(** ** [LinkedList1] *)
Section Double.
Import LinkedList1.

Definition lrep (o : t) (l : list nat) : Prop :=
  first o = head l ∧ last o = list.last l ∧ NoDup l ∧ chain (nodes o) (Some None) l None.

Lemma lrep_Prepend p o l : lrep o l → p ∉ l → is_Some (nodes o !! p) →
  ∃ o', Prepend p o = Some o' ∧ lrep o' (p :: l) ∧ ∀ q, is_Some (nodes o' !! q) ↔ is_Some (nodes o !! q).
Proof.
  intros (Hf & Hl & Hnd & Hc) Hp Hn. unfold Prepend, upd.
  destruct (set_prev_some (nodes o) p None Hn) as (st0 & E0 & Hk0 & Hd0). rewrite E0. simpl.
  destruct (set_next_some st0 p (first o)) as (st1 & E1 & Hk1 & Hd1); [by apply Hd0|]. rewrite E1. simpl. rewrite Hf.
  assert (chain st1 (Some None) l None) as Hc1.
  { eapply chain_frame; [|exact Hc]. intros q Hq. rewrite Hk1, Hk0; [done|by intros ->..]. }
  assert (∃ n, st1 !! p = Some n ∧ nnext n = head l ∧ nprev n = None) as (n & En & Hx & Hv).
  { unfold set_prev in E0. destruct Hn as [m Hm]. rewrite Hm in E0. injection E0 as <-.
    unfold set_next in E1. rewrite lookup_insert_eq in E1. injection E1 as <-. rewrite lookup_insert_eq. eauto. }
  destruct l as [|f l]; simpl.
  - eexists. split_and!; [done|split_and!; [done|done|by apply list.NoDup_singleton|simpl; eauto]|].
    intros q. simpl. by rewrite Hd1, Hd0.
  - destruct (set_prev_some st1 f (Some p)) as (st2 & E2 & Hk2 & Hd2).
    { eapply chain_lookup; [exact Hc1|left]. }
    rewrite E2. simpl. eexists. split_and!; [done|split_and!; [done|simpl; by rewrite Hl|by constructor|]|].
    + simpl. exists n. split_and!; [rewrite Hk2 by set_solver; done|done|done|].
      eapply (chain_set_first st1 _ f l None (Some p) st2); [exact Hc1| |done]. by apply list.NoDup_cons in Hnd as [? _].
    + intros q. simpl. by rewrite Hd2, Hd1, Hd0.
Qed.

Lemma lrep_Append p o l : lrep o l → p ∉ l → is_Some (nodes o !! p) →
  ∃ o', Append p o = Some o' ∧ lrep o' (l ++ [p]) ∧ ∀ q, is_Some (nodes o' !! q) ↔ is_Some (nodes o !! q).
Proof.
  intros (Hf & Hl & Hnd & Hc) Hp Hn. unfold Append, upd.
  destruct (set_prev_some (nodes o) p (last o) Hn) as (st0 & E0 & Hk0 & Hd0). rewrite E0. simpl.
  destruct (set_next_some st0 p None) as (st1 & E1 & Hk1 & Hd1); [by apply Hd0|]. rewrite E1. simpl. rewrite Hl.
  assert (chain st1 (Some None) l None) as Hc1.
  { eapply chain_frame; [|exact Hc]. intros q Hq. rewrite Hk1, Hk0; [done|by intros ->..]. }
  assert (∃ n, st1 !! p = Some n ∧ nnext n = None ∧ nprev n = list.last l) as (n & En & Hx & Hv).
  { unfold set_prev in E0. destruct Hn as [m Hm]. rewrite Hm in E0. injection E0 as <-.
    unfold set_next in E1. rewrite lookup_insert_eq in E1. injection E1 as <-. rewrite lookup_insert_eq. eauto. }
  assert (NoDup (l ++ [p])) as Hnd'. { apply list.NoDup_app. split_and!; [done|set_solver|by apply list.NoDup_singleton]. }
  destruct (decide (l = [])) as [->|Hne].
  - simpl in *. eexists. split_and!; [done|split_and!; [done|done|done|simpl; eauto]|].
    intros q. simpl. by rewrite Hd1, Hd0.
  - destruct (exists_last Hne) as (l' & a & ->). rewrite last_snoc in *.
    destruct (set_next_some st1 a (Some p)) as (st2 & E2 & Hk2 & Hd2).
    { eapply chain_lookup; [exact Hc1|set_solver]. }
    rewrite E2. simpl. eexists. split_and!; [done|split_and!; [|by rewrite last_snoc|done|]|].
    + simpl. rewrite Hf. by destruct l'.
    + simpl. apply chain_app. split.
      * eapply chain_set_last; [exact Hc1| |exact E2]. apply list.NoDup_app in Hnd as (_ & ? & _). set_solver.
      * unfold back. rewrite last_snoc. simpl. exists n. split_and!; try done. rewrite Hk2; [done|set_solver].
    + intros q. simpl. by rewrite Hd2, Hd1, Hd0.
Qed.

Lemma lrep_Remove A p B o : lrep o (A ++ p :: B) →
  ∃ o', Remove p o = Some o' ∧ lrep o' (A ++ B) ∧ ∀ q, is_Some (nodes o' !! q) ↔ is_Some (nodes o !! q).
Proof.
  intros (Hf & Hl & Hnd & Hc). pose proof (NoDup_cut _ _ _ Hnd) as (HndAB & HpA & HpB & HndA & HndB).
  pose proof Hc as Hc'. apply chain_app in Hc' as [HA (n & Hn & Hx & Hp & HB)]. unfold Remove. rewrite Hn. simpl.
  destruct (decide (A = [])) as [->|HA0].
  - unfold back in Hp. simpl in Hp. rewrite Hp. simpl. rewrite Hn. simpl. rewrite Hx. destruct B as [|b B]; simpl.
    + eexists. split_and!; [done|split_and!; [done|done|done|done]|done].
    + unfold upd. destruct (set_prev_some (nodes o) b None) as (st1 & E1 & Hk1 & Hd1).
      { eapply chain_lookup; [exact HB|left]. }
      simpl. rewrite Hp, E1. simpl. eexists. split_and!; [done|split_and!; [done|simpl; rewrite Hl; done|done|]|done].
      eapply (chain_set_first (nodes o)); [exact HB| |exact E1]. by apply list.NoDup_cons in HndB as [? _].
  - destruct (exists_last HA0) as (A' & a & ->). unfold back in Hp. rewrite last_snoc in Hp. rewrite Hp. simpl. unfold upd.
    destruct (set_next_some (nodes o) a (nnext n)) as (st1 & E1 & Hk1 & Hd1).
    { eapply chain_lookup; [exact HA|set_solver]. }
    rewrite E1. simpl. rewrite Hk1, Hn by set_solver. simpl.
    assert (first o = head ((A' ++ [a]) ++ B)) as Hf' by (rewrite Hf; by destruct A').
    destruct B as [|b B].
    + rewrite Hx. eexists. split_and!; [done|split_and!; [done| |done|]|].
      * simpl. by rewrite app_nil_r, last_snoc.
      * simpl. rewrite Hx in E1. eapply chain_cut; [exact Hc|exact Hnd|exact Hn|by rewrite Hx|by rewrite Hx].
      * intros q. simpl. by rewrite Hd1.
    + rewrite Hx. destruct (set_prev_some st1 b (nprev n)) as (st2 & E2 & Hk2 & Hd2).
      { apply Hd1. eapply chain_lookup; [exact HB|left]. }
      rewrite E2. simpl. eexists. split_and!; [done|split_and!; [done| |done|]|].
      * simpl. rewrite Hl. by rewrite !last_app_cons.
      * simpl. eapply chain_cut; [exact Hc|exact Hnd|exact Hn|exact E1|]. rewrite Hx, <- Hp. exact E2.
      * intros q. simpl. by rewrite Hd2, Hd1.
Qed.

(** A list into which a chain was put, by any order of assignments. *)
Lemma lrep_spliced o o' pvC tlC A C B c e : head C = Some c → list.last C = Some e → lrep o (A ++ B) →
  chain (nodes o) pvC C tlC → NoDup (A ++ C ++ B) → first o' = (if decide (A = []) then Some c else first o) →
  last o' = (if decide (B = []) then Some e else last o) → (∀ q, nodes o' !! q = relink A B c e q <$> nodes o !! q) →
  lrep o' (A ++ C ++ B) ∧ ∀ q, is_Some (nodes o' !! q) ↔ is_Some (nodes o !! q).
Proof.
  intros Hc He (Hf & Hl & Hnd & Hch) HC HndC Ef El Hq. split.
  - split_and!.
    + rewrite Ef. destruct (decide (A = [])) as [->|]; [by destruct C|rewrite Hf; by destruct A].
    + rewrite El, !last_app. destruct (decide (B = [])) as [->|]; [by rewrite He|]. rewrite Hl, last_app.
      destruct (list.last B) eqn:E; [done|]. by apply last_None in E.
    + done.
    + by eapply chain_splice.
  - intros q. rewrite Hq. by destruct (nodes o !! q).
Qed.

(** The links of an entry that is in the list. *)
Lemma lrep_links A g B o : lrep o (A ++ g :: B) →
  ∃ n, nodes o !! g = Some n ∧ nnext n = head B ∧ nprev n = list.last A.
Proof.
  intros (_ & _ & _ & Hc). apply chain_app in Hc as [_ (n & Hn & Hx & Hv & _)]. exists n. split_and!; [done|by rewrite Hx; destruct B|].
  unfold back in Hv. by destruct (list.last A).
Qed.
Lemma lrep_exists o l q : lrep o l → q ∈ l → is_Some (nodes o !! q).
Proof. intros (_ & _ & _ & Hc). by eapply chain_lookup. Qed.

(** An entry [p] was put between [A] and [B]. *)
Lemma lrep_inserted (op : t → option t) A B p o : lrep o (A ++ B) → p ∉ A ++ B → is_Some (nodes o !! p) →
  (∃ o', op o = Some o' ∧ first o' = (if decide (A = []) then Some p else first o) ∧
    last o' = (if decide (B = []) then Some p else last o) ∧ ∀ q, nodes o' !! q = relink A B p p q <$> nodes o !! q) →
  ∃ o', op o = Some o' ∧ lrep o' (A ++ p :: B) ∧ ∀ q, is_Some (nodes o' !! q) ↔ is_Some (nodes o !! q).
Proof.
  intros H Hp [n Hn] (o' & E & Ef & El & Eq). exists o'. split; [done|].
  apply (lrep_spliced o o' None (nnext n) A [p] B p p); try done; [by exists n|].
  simpl. rewrite <- Permutation_middle. apply list.NoDup_cons. by destruct H as (_ & _ & ? & _).
Qed.

Lemma lrep_InsertAfter A g B p o : lrep o (A ++ g :: B) → p ∉ A ++ g :: B → is_Some (nodes o !! p) →
  ∃ o', InsertAfter p g o = Some o' ∧ lrep o' (A ++ g :: p :: B) ∧ ∀ q, is_Some (nodes o' !! q) ↔ is_Some (nodes o !! q).
Proof.
  intros H Hp Hn. destruct (lrep_links A g B o H) as (n & Hg & Hx & _).
  pose proof H as (_ & _ & Hnd & _). pose proof (NoDup_cut _ _ _ Hnd) as (_ & _ & HgB & _ & _).
  assert (∀ b, b ∈ B → is_Some (nodes o !! b)) as HB by (intros; eapply lrep_exists; [exact H|set_solver]).
  assert (p ≠ g) by set_solver. replace (A ++ g :: B) with ((A ++ [g]) ++ B) in H, Hp by (by rewrite <- app_assoc).
  replace (A ++ g :: p :: B) with ((A ++ [g]) ++ p :: B) by (by rewrite <- app_assoc).
  apply lrep_inserted; try done. unfold InsertAfter, upd. rewrite Hg. simpl. rewrite Hx.
  rewrite (decide_False (P := A ++ [g] = [])) by (by destruct A).
  assert (list.last (A ++ [g]) = Some g) as Hla by apply last_snoc.
  assign; [done|]. assign; [by rewrite H1, fmap_is_Some|]. destruct B as [|b B]; simpl.
  - assign; [rewrite H2, H1, Hg; eauto|]. eexists. split_and!; [done..|]. relinks.
  - assert (b ≠ g ∧ b ≠ p) as [] by set_solver. assign; [rewrite H2, H1, !fmap_is_Some; apply HB; left|].
    assign; [rewrite H5, H2, H1, Hg; eauto|]. eexists. split_and!; [done..|]. relinks.
Qed.

Lemma lrep_InsertBefore A g B p o : lrep o (A ++ g :: B) → p ∉ A ++ g :: B → is_Some (nodes o !! p) →
  ∃ o', InsertBefore p g o = Some o' ∧ lrep o' (A ++ p :: g :: B) ∧ ∀ q, is_Some (nodes o' !! q) ↔ is_Some (nodes o !! q).
Proof.
  intros H Hp Hn. destruct (lrep_links A g B o H) as (n & Hg & _ & Hv).
  pose proof H as (_ & _ & Hnd & _). pose proof (NoDup_cut _ _ _ Hnd) as (_ & HgA & _ & _ & _).
  assert (∀ a, a ∈ A → is_Some (nodes o !! a)) as HA by (intros; eapply lrep_exists; [exact H|set_solver]).
  assert (p ≠ g) by set_solver. apply lrep_inserted; try done. unfold InsertBefore, upd. rewrite Hg. simpl. rewrite Hv.
  assert (head (g :: B) = Some g) as Hhb by done.
  assign; [done|]. assign; [by rewrite H1, fmap_is_Some|]. destruct (list.last A) as [a|] eqn:Ea; simpl.
  - apply last_elem in Ea as HaA. assert (a ≠ g ∧ a ≠ p) as [] by set_solver.
    rewrite (decide_False (P := A = [])) by (by intros ->).
    assign; [rewrite H2, H1, !fmap_is_Some; by apply HA|]. assign; [rewrite H5, H2, H1, Hg; eauto|].
    eexists. split_and!; [done..|]. relinks.
  - apply last_None in Ea as ->. assign; [rewrite H2, H1, Hg; eauto|]. eexists. split_and!; [done..|]. relinks.
Qed.

Lemma lrep_InsertListAfter A C B o : lrep o (A ++ B) → chain (nodes o) (Some None) C None → NoDup (A ++ C ++ B) →
  ∃ o', InsertListAfter (head C) (list.last C) (list.last A) o = Some o' ∧ lrep o' (A ++ C ++ B) ∧
    ∀ q, is_Some (nodes o' !! q) ↔ is_Some (nodes o !! q).
Proof.
  intros H HC Hnd. destruct (list.last C) as [e|] eqn:He; [|apply last_None in He as ->; by exists o].
  destruct (head C) as [c|] eqn:Hc; [|by destruct C].
  assert (∀ q, q ∈ A ++ C ++ B → is_Some (nodes o !! q)) as Hex.
  { intros q [Hq|[Hq|Hq]%elem_of_app]%elem_of_app; [| by eapply chain_lookup|]; eapply lrep_exists; try exact H; set_solver. }
  enough (∃ o', InsertListAfter (Some c) (Some e) (list.last A) o = Some o' ∧
    first o' = (if decide (A = []) then Some c else first o) ∧ last o' = (if decide (B = []) then Some e else last o) ∧
    ∀ q, nodes o' !! q = relink A B c e q <$> nodes o !! q) as (o' & E & Ef & El & Eq).
  { exists o'. split; [done|]. by apply (lrep_spliced o o' (Some None) None A C B c e). }
  apply head_elem in Hc as Hc'. apply last_elem in He as He'. apply list.NoDup_app in Hnd as (_ & HdA & [_ [HdC _]]%list.NoDup_app).
  assert (match list.last A with Some g => n ← nodes o !! g; Some (nnext n) | None => Some (first o) end = Some (head B)) as Et.
  { destruct (list.last A) as [a|] eqn:Ea.
    - apply last_Some in Ea as [A' ->]. rewrite <- app_assoc in H. destruct (lrep_links A' a B o H) as (n & -> & <- & _). done.
    - apply last_None in Ea as ->. by destruct H as (-> & _). }
  unfold InsertListAfter, upd. rewrite Et. simpl. assign; [apply Hex; set_solver|]. assign; [rewrite H0, fmap_is_Some; apply Hex; set_solver|].
  destruct (list.last A) as [a|] eqn:Ea; simpl.
  - apply last_elem in Ea as HaA. rewrite (decide_False (P := A = [])) by (by intros ->).
    assert (a ≠ c ∧ a ≠ e) as [] by set_solver. assign; [rewrite H1, H0, !fmap_is_Some; apply Hex; set_solver|].
    destruct B as [|b B]; simpl; [eexists; split_and!; [done..|]; relinks|].
    assert (b ≠ c ∧ b ≠ e ∧ b ≠ a) as (? & ? & ?) by set_solver.
    assign; [rewrite H4, H1, H0, !fmap_is_Some; apply Hex; set_solver|]. eexists. split_and!; [done..|]. relinks.
  - apply last_None in Ea as ->. destruct B as [|b B]; simpl; [eexists; split_and!; [done..|]; relinks|].
    assert (b ≠ c ∧ b ≠ e) as (? & ?) by set_solver.
    assign; [rewrite H1, H0, !fmap_is_Some; apply Hex; set_solver|]. eexists. split_and!; [done..|]. relinks.
Qed.

(** From an entry of a list its neighbours are found. *)
Lemma lrep_neighbours A g B o : lrep o (A ++ g :: B) → Node_Next g o = Some (head B) ∧ Node_Prev g o = Some (list.last A).
Proof. intros H. destruct (lrep_links A g B o H) as (n & Hn & <- & <-). unfold Node_Next, Node_Prev. by rewrite Hn. Qed.
End Double.
End Chains.
