(* ===== verification/Index.v ===== *)
(** * Ordered indexes: what the clients of structure/BAVL.h rely on

    The program keeps its connections in intrusive search trees: the nodes are
    fields of the connection objects, and the comparator reads the keys from the
    objects.  [IndexLaws] is the contract of such a tree over pointers ([nat]),
    with the key of each pointer given by a function of the heap; the components
    that use a tree are proved against it, and the trees of BAvl.v and CAvl.v satisfy it.  The key of an object that is in the
    tree may change only so that the order of the objects stays the same
    ([ix_rekey]: the fair queue subtracts the same time from all of them);
    otherwise a client has to remove the object first, as [reuse_connection] does. *)
From Stdlib Require Import ZArith Lia Sorting.Sorted.
From stdpp Require Import base list sets numbers.
From S2P Require Import Prelude ByteOrder Addr.
#[local] Open Scope Z_scope.

(** ** The interface *)

Class IndexOps (K T : Type) := {
  ix_empty : T;
  (** [BAVL_LookupExact] of a value *)
  ix_lookup : (K → K → Z) → (nat → K) → K → T → option nat;
  (** [BAVL_Insert] of a node; [None] is the result 0 (an equal node exists) *)
  ix_insert : (K → K → Z) → (nat → K) → nat → T → option T;
  (** [BAVL_Remove] of a node *)
  ix_remove : nat → T → T;
  (** [BAVL_GetFirst] *)
  ix_first : T → option nat
}.

(** Keys of the listed pointers are valid and strictly increasing. *)
Definition ordered {K} (ok : K → Prop) (cmp : K → K → Z) (kf : nat → K) (l : list nat) : Prop :=
  Forall (λ p, ok (kf p)) l ∧ StronglySorted (λ p q, cmp (kf p) (kf q) = -1) l.

Class IndexLaws {K T} (ops : IndexOps K T) (ok : K → Prop) (cmp : K → K → Z) := {
  (** The nodes in key order, and the internal invariant of the tree. *)
  ix_elems : T → list nat;
  ix_wf : (nat → K) → T → Prop;
  ix_ordered kf t : ix_wf kf t → ordered ok cmp kf (ix_elems t);
  ix_wf_ext kf kf' t : (∀ p, p ∈ ix_elems t → kf p = kf' p) → ix_wf kf t → ix_wf kf' t;
  ix_rekey kf kf' t : ix_wf kf t → ordered ok cmp kf' (ix_elems t) → ix_wf kf' t;
  ix_empty_wf kf : ix_wf kf ix_empty;
  ix_empty_elems : ix_elems ix_empty = [];
  ix_lookup_spec kf k t : ix_wf kf t → ok k →
    match ix_lookup cmp kf k t with
    | Some p => p ∈ ix_elems t ∧ kf p = k
    | None => ∀ p, p ∈ ix_elems t → kf p ≠ k
    end;
  ix_insert_spec kf p t : ix_wf kf t → ok (kf p) → (∀ q, q ∈ ix_elems t → kf q ≠ kf p) →
    ∃ t', ix_insert cmp kf p t = Some t' ∧ ix_wf kf t' ∧ ix_elems t' ≡ₚ p :: ix_elems t;
  ix_remove_spec kf p t : ix_wf kf t → p ∈ ix_elems t →
    ix_wf kf (ix_remove p t) ∧ ix_elems t ≡ₚ p :: ix_elems (ix_remove p t);
  ix_first_spec kf t : ix_wf kf t → ix_first t = head (ix_elems t)
}.

(** ** Consequences *)
Section Consequences.
Context {K T : Type} {ops : IndexOps K T} {ok : K → Prop} {cmp : K → K → Z}.
Context `{!TotalCmp ok cmp} {laws : IndexLaws ops ok cmp}.

Lemma ordered_key_inj kf l p q : ordered ok cmp kf l → p ∈ l → q ∈ l → kf p = kf q → p = q.
Proof.
  intros [Hok Hs]. induction Hs as [|a l Hs IH Ha]; [by intros ?%elem_of_nil|].
  apply list.Forall_cons in Hok as [Hoka Hok]. rewrite list.Forall_forall in Ha, Hok.
  assert (∀ b, b ∈ l → kf a ≠ kf b) as Hne.
  { intros b Hb E. specialize (Ha _ Hb). rewrite E in Ha.
    rewrite (proj2 (cmp_eq (kf b) (kf b) (Hok _ Hb) (Hok _ Hb)) eq_refl) in Ha. done. }
  rewrite !elem_of_cons. intros [->|Hp] [->|Hq] E; [done| | |].
  - by edestruct Hne.
  - by edestruct (Hne p).
  - apply IH; [apply list.Forall_forall| | |]; auto.
Qed.

Lemma ordered_NoDup kf l : ordered ok cmp kf l → NoDup l.
Proof.
  intros [Hok Hs]. induction Hs as [|a l Hs IH Ha]; constructor.
  - intros Hin. rewrite list.Forall_forall in Ha. specialize (Ha _ Hin).
    apply list.Forall_cons in Hok as [Hoka _].
    rewrite (proj2 (cmp_eq (kf a) (kf a) Hoka Hoka) eq_refl) in Ha. done.
  - apply list.Forall_cons in Hok as [_ Hok]. auto.
Qed.

Lemma ix_NoDup kf t : ix_wf kf t → NoDup (ix_elems t).
Proof. intros. eapply ordered_NoDup, ix_ordered; done. Qed.
Lemma ix_key_inj kf t p q : ix_wf kf t → p ∈ ix_elems t → q ∈ ix_elems t → kf p = kf q → p = q.
Proof. intros. eapply ordered_key_inj; eauto. by apply ix_ordered. Qed.
Lemma ix_ok kf t p : ix_wf kf t → p ∈ ix_elems t → ok (kf p).
Proof. intros H%ix_ordered Hp. destruct H as [H _]. rewrite list.Forall_forall in H. auto. Qed.
End Consequences.

(** ** The reference implementation: a sorted list *)
Section ListIndex.
Context {K : Type}.

Fixpoint list_insert_sorted (cmp : K → K → Z) (kf : nat → K) (p : nat) (l : list nat) : option (list nat) :=
  match l with
  | [] => Some [p]
  | q :: l' =>
      if cmp (kf p) (kf q) =? 0 then None
      else if cmp (kf p) (kf q) =? -1 then Some (p :: l)
      else (q ::.) <$> list_insert_sorted cmp kf p l'
  end.

Definition list_index : IndexOps K (list nat) := {|
  ix_empty := [];
  ix_lookup cmp kf k l := snd <$> list_find (λ p, cmp k (kf p) = 0) l;
  ix_insert := list_insert_sorted;
  ix_remove p l := filter (λ q, q ≠ p) l;
  ix_first := head
|}.
End ListIndex.

Section ListIndexLaws.
Context {K : Type} (ok : K → Prop) (cmp : K → K → Z) `{!TotalCmp ok cmp}.

Lemma list_insert_sorted_spec kf p l : ordered ok cmp kf l → ok (kf p) → (∀ q, q ∈ l → kf q ≠ kf p) →
  ∃ l', list_insert_sorted cmp kf p l = Some l' ∧ ordered ok cmp kf l' ∧ l' ≡ₚ p :: l.
Proof.
  intros [Hok Hs] Hp. induction l as [|q l IH]; intros Hne; simpl.
  - eexists. split_and!; [done|split; repeat constructor; done|done].
  - apply list.Forall_cons in Hok as [Hq Hok]. apply StronglySorted_inv in Hs as [Hs Hlt].
    destruct (Z.eqb_spec (cmp (kf p) (kf q)) 0) as [E|E].
    { apply cmp_eq in E; [|done..]. destruct (Hne q); [left|done]. }
    destruct (Z.eqb_spec (cmp (kf p) (kf q)) (-1)) as [E'|E'].
    + eexists. split_and!; [done| |done]. split; [by repeat constructor|].
      constructor; [by constructor|]. constructor; [done|]. rewrite list.Forall_forall in Hok, Hlt |- *.
      intros r Hr. apply (cmp_trans _ (kf q)); auto.
    + destruct IH as (l' & -> & [Hok' Hs'] & Hperm); [done..|intros; apply Hne; by right|].
      exists (q :: l'). split_and!; [done| |rewrite Hperm; apply perm_swap].
      split; [by constructor|]. constructor; [done|]. rewrite Hperm. constructor; [|done].
      destruct (cmp_range (kf p) (kf q)) as [|[|]]; [done..|].
      rewrite (cmp_antisym (kf p) (kf q)) by done. lia.
Qed.

Lemma StronglySorted_filter {A} (R : A → A → Prop) (P : A → Prop) `{∀ x, Decision (P x)} l :
  StronglySorted R l → StronglySorted R (filter P l).
Proof.
  induction 1 as [|a l Hs IH Ha]; [constructor|]. rewrite filter_cons. case_decide; [|done].
  constructor; [done|]. rewrite list.Forall_forall in Ha |- *. intros x Hx%list_elem_of_filter. apply Ha, Hx.
Qed.

Lemma filter_neq_notin {A} `{EqDecision A} (p : A) (l : list A) : p ∉ l → filter (λ q, q ≠ p) l = l.
Proof.
  induction l as [|a l IH]; [done|]. rewrite not_elem_of_cons, filter_cons. intros [? ?].
  rewrite decide_True by done. by rewrite IH.
Qed.
Lemma remove_filter_perm (p : nat) (l : list nat) : NoDup l → p ∈ l → l ≡ₚ p :: filter (λ q, q ≠ p) l.
Proof.
  induction 1 as [|a l Ha Hl IH]; [by intros ?%elem_of_nil|]. rewrite elem_of_cons, filter_cons.
  intros [->|Hin].
  - rewrite decide_False by naive_solver. by rewrite filter_neq_notin.
  - rewrite decide_True by naive_solver. rewrite perm_swap. constructor. auto.
Qed.

#[export] Program Instance list_index_laws : IndexLaws (@list_index K) ok cmp := {|
  ix_elems := id; ix_wf := ordered ok cmp
|}.
Next Obligation. done. Qed.
Next Obligation.
  intros kf kf' t Heq [Hok Hs]. split.
  - rewrite list.Forall_forall in Hok |- *. intros p Hp. rewrite <- Heq by done. auto.
  - induction Hs as [|a l Hs IH Ha]; constructor.
    + apply IH; [intros; apply Heq; by right|]. by apply list.Forall_cons in Hok as [_ ?].
    + rewrite list.Forall_forall in Ha |- *. intros p Hp. rewrite <- (Heq a), <- (Heq p) by (simpl; set_solver). auto.
Qed.
Next Obligation. done. Qed.
Next Obligation. split; constructor. Qed.
Next Obligation. done. Qed.
Next Obligation.
  intros kf k t [Hok Hs] Hk. simpl. rewrite list.Forall_forall in Hok.
  destruct (list_find _ t) as [[i p]|] eqn:E; simpl.
  - apply list_find_Some in E as (Hi & Hp & _). apply list_elem_of_lookup_2 in Hi.
    split; [done|]. symmetry. apply cmp_eq in Hp; auto.
  - apply list_find_None in E. rewrite list.Forall_forall in E. intros p Hp Heq. apply (E p Hp).
    rewrite <- Heq. apply cmp_eq; auto.
Qed.
Next Obligation. intros. by apply list_insert_sorted_spec. Qed.
Next Obligation.
  intros kf p t [Hok Hs] Hp. simpl. split.
  - split; [|by apply StronglySorted_filter]. rewrite list.Forall_forall in Hok |- *.
    intros q [_ Hq]%list_elem_of_filter. auto.
  - apply remove_filter_perm; [|done]. by eapply ordered_NoDup.
Qed.
Next Obligation. done. Qed.
End ListIndexLaws.

(** ** A tree and a list over the same objects *)

(** The tree indexes exactly the objects of the list. *)
Section Indexed.
Context {K T : Type} {ops : IndexOps K T} {ok : K → Prop} {cmp : K → K → Z}.
Context `{!TotalCmp ok cmp} {laws : IndexLaws ops ok cmp}.

Definition indexed (kf : nat → K) (tr : T) (l : list nat) : Prop := ix_wf kf tr ∧ ix_elems tr ≡ₚ l.

Lemma indexed_NoDup kf tr l : indexed kf tr l → NoDup l.
Proof. intros [Hw Hp]. rewrite <- Hp. by eapply ix_NoDup. Qed.
Lemma indexed_ok kf tr l p : indexed kf tr l → p ∈ l → ok (kf p).
Proof. intros [Hw Hp]. rewrite <- Hp. by apply ix_ok. Qed.
Lemma indexed_inj kf tr l p q : indexed kf tr l → p ∈ l → q ∈ l → kf p = kf q → p = q.
Proof. intros [Hw Hp]. rewrite <- Hp. by apply ix_key_inj. Qed.
Lemma indexed_perm kf tr l l' : l' ≡ₚ l → indexed kf tr l → indexed kf tr l'.
Proof. intros E [Hw Hp]. split; [done|]. by rewrite Hp. Qed.
Lemma indexed_ext kf kf' tr l : (∀ p, p ∈ l → kf' p = kf p) → indexed kf tr l → indexed kf' tr l.
Proof.
  intros E [Hw Hp]. split; [|done]. apply (ix_wf_ext kf); [|done]. intros p. rewrite Hp.
  intros ?. symmetry. auto.
Qed.
Lemma indexed_empty kf : indexed kf ix_empty [].
Proof. split; [apply ix_empty_wf|by rewrite ix_empty_elems]. Qed.
Lemma indexed_lookup kf tr l k : indexed kf tr l → ok k →
  match ix_lookup cmp kf k tr with
  | Some p => p ∈ l ∧ kf p = k
  | None => ∀ p, p ∈ l → kf p ≠ k
  end.
Proof.
  intros [Hw Hp] Hk. pose proof (ix_lookup_spec kf k tr Hw Hk) as Hs.
  destruct (ix_lookup cmp kf k tr); [by rewrite <- Hp|]. intros p. rewrite <- Hp. apply Hs.
Qed.
Lemma indexed_insert kf tr l p : indexed kf tr l → ok (kf p) → (∀ q, q ∈ l → kf q ≠ kf p) →
  ∃ tr', ix_insert cmp kf p tr = Some tr' ∧ indexed kf tr' (p :: l).
Proof.
  intros [Hw Hp] Hk Hne. destruct (ix_insert_spec kf p tr Hw Hk) as (tr' & E & Hw' & Hp').
  { intros q. rewrite Hp. apply Hne. }
  exists tr'. split; [done|]. split; [done|]. by rewrite Hp', Hp.
Qed.
Lemma indexed_remove kf tr l p : indexed kf tr l → p ∈ l →
  indexed kf (ix_remove p tr) (filter (λ q, q ≠ p) l).
Proof.
  intros H Hin. pose proof (indexed_NoDup _ _ _ H) as Hnd. destruct H as [Hw Hp].
  destruct (ix_remove_spec kf p tr Hw) as [Hw' Hp']; [by rewrite Hp|]. split; [done|].
  apply (Permutation_cons_inv (a := p)). etrans; [symmetry; exact Hp'|]. rewrite Hp.
  by apply remove_filter_perm.
Qed.

(** Removing an object, changing its key and inserting it again. *)
Lemma indexed_rekey kf kf' tr l p : indexed kf tr l → p ∈ l → ok (kf' p) →
  (∀ q, q ≠ p → kf' q = kf q) → (∀ q, q ∈ l → q ≠ p → kf q ≠ kf' p) →
  ∃ tr', ix_insert cmp kf' p (ix_remove p tr) = Some tr' ∧ indexed kf' tr' l.
Proof.
  intros H Hin Hk He Hne. pose proof (indexed_NoDup _ _ _ H) as Hnd.
  destruct (indexed_insert kf' (ix_remove p tr) (filter (λ q, q ≠ p) l) p) as (tr' & E & H').
  - apply (indexed_ext kf); [|by apply indexed_remove]. intros q [? _]%list_elem_of_filter. auto.
  - done.
  - intros q [? ?]%list_elem_of_filter. rewrite He by done. auto.
  - exists tr'. split; [done|]. eapply indexed_perm; [|exact H']. by apply remove_filter_perm.
Qed.

(** The use of an object: it becomes the last of the list. *)
Definition move_last (p : nat) (l : list nat) : list nat := filter (λ q, q ≠ p) l ++ [p].

Lemma move_last_perm p l : NoDup l → p ∈ l → move_last p l ≡ₚ l.
Proof.
  intros. unfold move_last. rewrite (Permutation_app_comm _ [p]). symmetry. by apply remove_filter_perm.
Qed.
End Indexed.

(** The abstract table: a use moves a key to the end; a new one replaces the
    first, the least recently used, if the table is full. *)
Definition lru_touch {K} `{EqDecision K} (max : Z) (k : K) (l : list K) : list K :=
  if decide (k ∈ l) then filter (λ x, x ≠ k) l ++ [k]
  else if zlen l =? max then drop 1 l ++ [k] else l ++ [k].

Section Lru.
Context {K : Type} `{EqDecision K}.

Lemma fmap_filter_key (kf : nat → K) p (l : list nat) : (∀ q, q ∈ l → kf q = kf p → q = p) →
  kf <$> filter (λ q, q ≠ p) l = filter (λ x, x ≠ kf p) (kf <$> l).
Proof.
  induction l as [|q l IH]; intros Hinj; [done|].
  rewrite filter_cons, fmap_cons, filter_cons, <- IH by set_solver.
  case_decide as E1; case_decide as E2; [done| | |done].
  - destruct E1. apply Hinj; [left|done].
  - by subst.
Qed.

Lemma move_last_touch max (kf : nat → K) p l : p ∈ l → (∀ q, q ∈ l → kf q = kf p → q = p) →
  kf <$> move_last p l = lru_touch max (kf p) (kf <$> l).
Proof.
  intros Hp Hinj. unfold lru_touch, move_last. rewrite decide_True by (apply list_elem_of_fmap; eauto).
  rewrite fmap_app, fmap_filter_key by done. done.
Qed.

Lemma rekey_touch (kf kf' : nat → K) p l : NoDup l → head l = Some p → kf' p ∉ kf <$> l →
  (∀ q, q ≠ p → kf' q = kf q) →
  kf' <$> move_last p l = lru_touch (zlen l) (kf' p) (kf <$> l).
Proof.
  intros Hnd Hh Hnin He. unfold lru_touch, move_last. rewrite decide_False by done.
  unfold zlen. rewrite length_fmap, Z.eqb_refl.
  destruct l as [|q l]; simplify_eq/=. apply list.NoDup_cons in Hnd as [Hp _].
  rewrite filter_cons, decide_False by naive_solver.
  rewrite filter_neq_notin, fmap_app, drop_0 by done. simpl. f_equal.
  apply list_fmap_ext. intros i q Hq%list_elem_of_lookup_2. apply He. by intros ->.
Qed.

Lemma append_touch max (kf kf' : nat → K) p l : p ∉ l → kf' p ∉ kf <$> l → zlen l ≠ max →
  (∀ q, q ≠ p → kf' q = kf q) → kf' <$> (l ++ [p]) = lru_touch max (kf' p) (kf <$> l).
Proof.
  intros Hp Hnin Hm He. unfold lru_touch. rewrite decide_False by done.
  rewrite (proj2 (Z.eqb_neq _ _)) by (unfold zlen in *; rewrite length_fmap; done).
  rewrite fmap_app. f_equal. apply list_fmap_ext. intros i q Hq%list_elem_of_lookup_2. apply He. by intros ->.
Qed.
End Lru.
