(* ===== verification/Pending.v ===== *)
(** * Pending jobs: base/BPending.c, and BReactor_Synchronize of
      system/BReactor_badvpn.c

    A job that is set is put in front of the list of its group, so that the jobs
    of a group are a stack; whether a job is pending is read off its list node.
    The model runs on the linked list of LinkedLists.v. *)
From stdpp Require Import base list sets gmap numbers.
From Stdlib Require Import ZArith Lia.
From S2P Require Import Prelude LinkedLists Index.
#[local] Open Scope Z_scope.

Module BPending.

(** A group, its jobs and the reactor's [exiting]: [jobs] is the list with the
    nodes of all initialised jobs, [pending] their debugging flags,
    [pending_ctr] the number of initialised jobs. *)
Record t := mk_t { jobs : SLinkedList.t; pending : gmap nat bool; pending_ctr : Z; exiting : bool }.
#[global] Instance eta_t : Eta t := λ g, mk_t (jobs g) (pending g) (pending_ctr g) (exiting g).

Inductive act := Run (job : nat).
Abbreviation PM := (M t act).

(** An operation of the job list. *)
Definition on_jobs (f : SLinkedList.t → option SLinkedList.t) : PM () := λ g,
  match f (jobs g) with Some j => Some ((), g <| jobs := j |>, []) | None => None end.
Definition is_removed (p : nat) : PM bool := λ g,
  match SLinkedList.IsRemoved p (jobs g) with Some b => Some (b, g, []) | None => None end.
Definition get_pending (p : nat) : PM bool := λ g, b ← pending g !! p; Some (b, g, []).
Definition set_pending (p : nat) (b : bool) : PM () := modify (λ g, g <| pending := <[p := b]> (pending g) |>).

Definition BPendingGroup_Init : PM () :=
  modify (λ g, g <| jobs := SLinkedList.Init (jobs g) |> <| pending_ctr := 0 |>).
(** [DebugCounter_Free] asserts that the counter is zero. *)
Definition BPendingGroup_Free : PM () :=
  g ← get;
  ASSERT (pending_ctr g =? 0);;
  ASSERT (SLinkedList.IsEmpty (jobs g)).
Definition BPendingGroup_HasJobs : PM bool := gets (λ g, negb (SLinkedList.IsEmpty (jobs g))).
Definition BPendingGroup_PeekJob : PM (option nat) := gets (λ g, SLinkedList.First (jobs g)).

(** The job is taken off the list; the caller runs its handler. *)
Definition take_job : PM nat :=
  g ← get;
  ASSERT (negb (SLinkedList.IsEmpty (jobs g)));;
  match SLinkedList.First (jobs g) with
  | None => ASSERT false;; mret 0%nat
  | Some p =>
      removed ← is_removed p;
      ASSERT (negb removed);;
      b ← get_pending p;
      ASSERT b;;
      on_jobs SLinkedList.RemoveFirst;;
      on_jobs (SLinkedList.MarkRemoved p);;
      set_pending p false;;
      mret p
  end.

(** [handler p]: what the handler of the job [p] does to the group. *)
Definition call_handler (handler : nat → t → option t) (p : nat) : PM () := λ g,
  match handler p g with Some g' => Some ((), g', [Run p]) | None => None end.
Definition BPendingGroup_ExecuteJob (handler : nat → t → option t) : PM () :=
  p ← take_job; call_handler handler p.

(** The memory of the job becomes part of the model. *)
Definition BSmallPending_Init (p : nat) : PM () :=
  modify (λ g, g <| jobs := jobs g <| SLinkedList.nodes := <[p := mk_lnode None None]> (SLinkedList.nodes (jobs g)) |> |>);;
  on_jobs (SLinkedList.MarkRemoved p);;
  set_pending p false;;
  modify (λ g, g <| pending_ctr := pending_ctr g + 1 |>).

Definition check_pending (p : nat) : PM bool :=
  removed ← is_removed p;
  b ← get_pending p;
  ASSERT (bool_decide (b = negb removed));;
  mret removed.

(** The common beginning of [BSmallPending_Free] and [BSmallPending_Set]. *)
Definition remove_if_pending (p : nat) : PM () :=
  removed ← check_pending p;
  when (negb removed) (on_jobs (SLinkedList.Remove p)).

(** ... and is given back. *)
Definition BSmallPending_Free (p : nat) : PM () :=
  modify (λ g, g <| pending_ctr := pending_ctr g - 1 |>);;
  remove_if_pending p;;
  modify (λ g, g <| jobs := jobs g <| SLinkedList.nodes := delete p (SLinkedList.nodes (jobs g)) |> |>
                 <| pending := delete p (pending g) |>).

Definition BSmallPending_Set (p : nat) : PM () :=
  remove_if_pending p;;
  on_jobs (SLinkedList.Prepend p);;
  set_pending p true.

Definition BSmallPending_Unset (p : nat) : PM () :=
  removed ← check_pending p;
  when (negb removed)
    (on_jobs (SLinkedList.Remove p);; on_jobs (SLinkedList.MarkRemoved p);; set_pending p false).

Definition BSmallPending_IsSet (p : nat) : PM bool :=
  removed ← check_pending p; mret (negb removed).

(** The loop of [BReactor_Synchronize]; [fuel] bounds its iterations. *)
Fixpoint BReactor_Synchronize (handler : nat → t → option t) (fuel : nat) (ref : nat) : PM Z :=
  g ← get;
  if exiting g then mret 0
  else match fuel with
  | O => ASSERT false;; mret 0
  | S fuel =>
      has ← BPendingGroup_HasJobs;
      ASSERT has;;
      top ← BPendingGroup_PeekJob;
      if bool_decide (top = Some ref) then mret 1
      else BPendingGroup_ExecuteJob handler;; BReactor_Synchronize handler fuel ref
  end.

End BPending.

(** ** The stack *)
Section Stack.
Import BPending.

(** The pending jobs of [g] are [l], the last one set first; [k] of the jobs in
    memory are no longer counted. *)
Record pinv_at (k : Z) (g : t) (l : list nat) : Prop := mk_pinv {
  pinv_rep : srep (jobs g) l;
  pinv_live p : is_Some (SLinkedList.nodes (jobs g) !! p) ↔ is_Some (pending g !! p);
  pinv_pending p b : pending g !! p = Some b → b = bool_decide (p ∈ l);
  pinv_removed p : is_Some (pending g !! p) → SLinkedList.IsRemoved p (jobs g) = Some (bool_decide (p ∉ l));
  pinv_ctr : pending_ctr g + k = Z.of_nat (size (pending g))
}.
#[local] Arguments pinv_rep {k}.
#[local] Arguments pinv_live {k}.
#[local] Arguments pinv_pending {k}.
#[local] Arguments pinv_removed {k}.
#[local] Arguments pinv_ctr {k}.
Abbreviation pinv := (pinv_at 0).

Definition live (g : t) (p : nat) : Prop := is_Some (pending g !! p).

Lemma pinv_in_live k g l p : pinv_at k g l → p ∈ l → live g p.
Proof. intros H Hp. apply (pinv_live g l H). destruct (pinv_rep g l H) as (_ & _ & Hc). by eapply chain_lookup. Qed.

Lemma IsRemoved_ext p j j' : SLinkedList.nodes j' !! p = SLinkedList.nodes j !! p →
  SLinkedList.IsRemoved p j' = SLinkedList.IsRemoved p j.
Proof. intros E. unfold SLinkedList.IsRemoved. by rewrite E. Qed.

Lemma wp_check_pending {k} p g l Q : pinv_at k g l → live g p →
  Q (bool_decide (p ∉ l)) g [] → wp (check_pending p) g Q.
Proof.
  intros H Hl HQ. unfold check_pending. pose proof (pinv_removed g l H p Hl) as Hr. destruct Hl as [b Hb].
  unfold wp, is_removed, get_pending, mbind, M_bind. rewrite Hr, Hb. simpl.
  rewrite (pinv_pending g l H p b Hb). unfold ASSERT. rewrite bool_decide_true; [done|].
  destruct (decide (p ∈ l)) as [Hp|Hp].
  - rewrite bool_decide_true, bool_decide_false by (done || naive_solver). done.
  - rewrite bool_decide_false, bool_decide_true by done. done.
Qed.

Lemma wp_on_jobs f g j Q : f (jobs g) = Some j → Q () (g <| jobs := j |>) [] → wp (on_jobs f) g Q.
Proof. intros E HQ. unfold wp, on_jobs. by rewrite E. Qed.

(** The list after taking [p] out, as the pointer operation sees it. *)
Lemma filter_split (p : nat) A B : p ∉ A → p ∉ B → filter (λ q, q ≠ p) (A ++ p :: B) = A ++ B.
Proof.
  intros HA HB. rewrite list.filter_app, filter_cons, decide_False by naive_solver.
  by rewrite !filter_neq_notin.
Qed.

(** Taking a job out of the list if it is in it: the shared part of [Set] and [Free]. *)
Lemma take_out_run k p g l : pinv_at k g l → live g p →
  wp (remove_if_pending p) g (λ _ g' acts,
    acts = [] ∧ ∃ j, g' = g <| jobs := j |> ∧ srep j (filter (λ q, q ≠ p) l) ∧
      (∀ q, is_Some (SLinkedList.nodes j !! q) ↔ is_Some (SLinkedList.nodes (jobs g) !! q)) ∧
      ∀ q, q ≠ p → q ∉ l → SLinkedList.nodes j !! q = SLinkedList.nodes (jobs g) !! q).
Proof.
  intros H Hl. unfold remove_if_pending. apply wp_bind, (wp_check_pending p g l _ H Hl).
  destruct (decide (p ∈ l)) as [Hp|Hp].
  - rewrite bool_decide_false by naive_solver. simpl. unfold when.
    apply list_elem_of_split in Hp as (A & B & ->).
    destruct (srep_Remove A p B (jobs g)) as (j & Ej & Hr & Hd & Hk); [apply H|].
    apply (wp_on_jobs _ _ j); [done|]. split; [done|]. exists j. destruct (pinv_rep g _ H) as (_ & Hnd & _).
    pose proof (NoDup_cut _ _ _ Hnd) as (_ & HA & HB & _). rewrite filter_split by done.
    split_and!; try done. intros q Hqp Hq. apply Hk. set_solver.
  - rewrite bool_decide_true by done. simpl. unfold when. apply wp_ret. split; [done|]. exists (jobs g).
    rewrite filter_neq_notin by done. split_and!; try done; [by destruct g|apply H].
Qed.

Lemma elem_of_remove (p q : nat) (l : list nat) : q ∈ filter (λ x, x ≠ p) l ↔ q ≠ p ∧ q ∈ l.
Proof. by rewrite list_elem_of_filter. Qed.

Definition push (p : nat) (l : list nat) : list nat := p :: filter (λ q, q ≠ p) l.

(** Debugging flags and list nodes after an operation on [p]. *)
Lemma pinv_change g l p j b l' :
  pinv g l → live g p → srep j l' → (∀ q, q ≠ p → q ∈ l' ↔ q ∈ l) → b = bool_decide (p ∈ l') →
  (∀ q, is_Some (SLinkedList.nodes j !! q) ↔ is_Some (SLinkedList.nodes (jobs g) !! q)) →
  (∀ q, q ≠ p → q ∉ l → SLinkedList.nodes j !! q = SLinkedList.nodes (jobs g) !! q) →
  SLinkedList.IsRemoved p j = Some (negb b) →
  pinv (g <| jobs := j |> <| pending := <[p := b]> (pending g) |>) l'.
Proof.
  intros H [b0 Hb0] Hr Hmem Hb Hd Hk Hp. split; simpl.
  - done.
  - intros q. rewrite Hd, (pinv_live g l H q). destruct (decide (q = p)) as [->|].
    + rewrite lookup_insert_eq, Hb0. naive_solver.
    + by rewrite lookup_insert_ne.
  - intros q b'. destruct (decide (q = p)) as [->|Hq].
    + rewrite lookup_insert_eq. intros [= <-]. done.
    + rewrite lookup_insert_ne by done. intros Hb'%(pinv_pending g l H). subst b'. apply bool_decide_ext.
      by rewrite Hmem.
  - intros q. destruct (decide (q = p)) as [->|Hq].
    + intros _. rewrite Hp, Hb. f_equal. destruct (decide (p ∈ l')).
      * rewrite bool_decide_true, bool_decide_false by (done || naive_solver). done.
      * rewrite bool_decide_false, bool_decide_true by done. done.
    + rewrite lookup_insert_ne by done. intros Hl. destruct (decide (q ∈ l')) as [Hin|Hin].
      * rewrite (srep_IsRemoved q l' j Hr Hin), bool_decide_false by naive_solver. done.
      * rewrite (IsRemoved_ext q (jobs g)) by (apply Hk; [done|by rewrite <- Hmem]).
        rewrite (pinv_removed g l H q Hl). f_equal. apply bool_decide_ext. by rewrite Hmem.
  - rewrite (pinv_ctr g l H), map_size_insert_Some by eauto. done.
Qed.

(** ** The operations *)

Definition same_live (g g' : t) : Prop := exiting g' = exiting g ∧ ∀ p, live g' p ↔ live g p.

Lemma live_insert g p b q j : live g p →
  live (g <| jobs := j |> <| pending := <[p := b]> (pending g) |>) q ↔ live g q.
Proof.
  intros [b0 Hb]. unfold live. simpl. destruct (decide (q = p)) as [->|]; [|by rewrite lookup_insert_ne].
  rewrite lookup_insert_eq, Hb. naive_solver.
Qed.

Lemma Set_run p g l : pinv g l → live g p →
  wp (BSmallPending_Set p) g (λ _ g' acts, acts = [] ∧ pinv g' (push p l) ∧ same_live g g').
Proof.
  intros H Hl. unfold BSmallPending_Set. apply wp_bind. eapply wp_mono; [by apply (take_out_run 0)|].
  intros _ g1 acts (-> & j & -> & Hr & Hd & Hk).
  destruct (srep_Prepend p j (filter (λ q, q ≠ p) l) Hr) as (j' & Ej & Hr' & Hd' & Hk').
  { rewrite elem_of_remove. naive_solver. }
  { apply Hd, (pinv_live g l H), Hl. }
  apply wp_bind, (wp_on_jobs _ _ j'); [done|]. unfold set_pending. apply wp_modify.
  split; [done|]. split; [|split; [done|intros q; exact (live_insert g p true q j' Hl)]].
  change (pinv (g <| jobs := j' |> <| pending := <[p := true]> (pending g) |>) (push p l)).
  apply (pinv_change g l p j' true); try done.
  - intros q Hq. unfold push. rewrite elem_of_cons, elem_of_remove. naive_solver.
  - rewrite bool_decide_true; [done|]. by left.
  - intros q. by rewrite Hd', Hd.
  - intros q Hq Hql. rewrite Hk', Hk; [done|done|done|]. rewrite elem_of_cons, elem_of_remove. naive_solver.
  - apply (srep_IsRemoved p _ j' Hr'). by left.
Qed.

(** Out of the list and marked. *)
Lemma marked_inv g l p j j' : pinv g l → live g p → srep j (filter (λ q, q ≠ p) l) →
  (∀ q, is_Some (SLinkedList.nodes j !! q) ↔ is_Some (SLinkedList.nodes (jobs g) !! q)) →
  (∀ q, q ≠ p → q ∉ l → SLinkedList.nodes j !! q = SLinkedList.nodes (jobs g) !! q) →
  srep j' (filter (λ q, q ≠ p) l) → SLinkedList.IsRemoved p j' = Some true → only [p] j j' →
  pinv (g <| jobs := j' |> <| pending := <[p := false]> (pending g) |>) (filter (λ q, q ≠ p) l).
Proof.
  intros H Hl Hr Hd Hk Hr' Hm [Hd' Hk']. apply (pinv_change g l p j' false); try done.
  - intros q Hq. rewrite elem_of_remove. naive_solver.
  - rewrite bool_decide_false; [done|]. rewrite elem_of_remove. naive_solver.
  - intros q. by rewrite Hd', Hd.
  - intros q Hq Hql. rewrite Hk', Hk by set_solver. done.
Qed.

Lemma Unset_run p g l : pinv g l → live g p →
  wp (BSmallPending_Unset p) g (λ _ g' acts, acts = [] ∧ pinv g' (filter (λ q, q ≠ p) l) ∧ same_live g g').
Proof.
  intros H Hl. unfold BSmallPending_Unset. apply wp_bind, (wp_check_pending p g l _ H Hl).
  destruct (decide (p ∈ l)) as [Hp|Hp].
  - rewrite bool_decide_false by naive_solver. simpl. unfold when.
    pose proof Hp as Hp'. apply list_elem_of_split in Hp' as (A & B & ->).
    destruct (srep_Remove A p B (jobs g)) as (j & Ej & Hr & Hd & Hk); [apply H|].
    destruct (pinv_rep g _ H) as (_ & Hnd & _). pose proof (NoDup_cut _ _ _ Hnd) as (_ & HA & HB & _).
    rewrite <- (filter_split p A B HA HB) in Hr.
    apply wp_bind, (wp_on_jobs _ _ j); [done|].
    destruct (srep_MarkRemoved p _ j Hr) as (j' & Ej' & Hr' & Hm & Ho).
    { rewrite elem_of_remove. naive_solver. }
    { apply Hd, (pinv_live g _ H), Hl. }
    apply wp_bind, (wp_on_jobs _ _ j'); [done|]. unfold set_pending. apply wp_modify.
    split; [done|]. split; [|split; [done|intros q; exact (live_insert g p false q j' Hl)]].
    eapply (marked_inv g _ p j j'); try done. intros q Hq Hql. apply Hk. set_solver.
  - rewrite bool_decide_true by done. simpl. unfold when. apply wp_ret. rewrite filter_neq_notin by done. done.
Qed.

Lemma IsSet_run p g l : pinv g l → live g p →
  wp (BSmallPending_IsSet p) g (λ b g' acts, b = bool_decide (p ∈ l) ∧ g' = g ∧ acts = []).
Proof.
  intros H Hl. unfold BSmallPending_IsSet. apply wp_bind, (wp_check_pending p g l _ H Hl). apply wp_ret.
  split; [|done]. destruct (decide (p ∈ l)) as [Hp|Hp].
  - rewrite bool_decide_false, bool_decide_true by (done || naive_solver). done.
  - rewrite bool_decide_true, bool_decide_false by done. done.
Qed.

Lemma take_job_run p l g : pinv g (p :: l) →
  wp take_job g (λ r g' acts, r = p ∧ acts = [] ∧ pinv g' l ∧ same_live g g').
Proof.
  intros H. pose proof (pinv_rep g _ H) as Hr. assert (live g p) as Hl by (eapply pinv_in_live; [done|left]).
  destruct Hr as (Hf & Hnd & Hc). simpl in Hf. unfold take_job, SLinkedList.First, SLinkedList.IsEmpty. wp_pure.
  rewrite Hf. apply wp_ASSERT; [by rewrite bool_decide_false|]. wp_pure.
  pose proof (pinv_removed g _ H p Hl) as Hrm. rewrite bool_decide_false in Hrm by set_solver.
  apply (wp_mono _ _ (λ b g' acts, b = false ∧ g' = g ∧ acts = [])); [unfold wp, is_removed; by rewrite Hrm|].
  intros b g1 acts (-> & -> & ->). wp_assert.
  destruct Hl as [b Hb]. pose proof (pinv_pending g _ H p b Hb) as Eb. rewrite bool_decide_true in Eb by left. subst b.
  apply (wp_mono _ _ (λ b g' acts, b = true ∧ g' = g ∧ acts = [])); [unfold wp, get_pending; by rewrite Hb|].
  intros b g1 acts (-> & -> & ->). wp_assert.
  apply list.NoDup_cons in Hnd as [Hp Hnd]. destruct (srep_RemoveFirst p l (jobs g) (pinv_rep g _ H)) as (j & Ej & Hrj & Hnj).
  apply (wp_on_jobs _ _ j); [done|]. wp_pure.
  destruct (srep_MarkRemoved p l j Hrj Hp) as (j' & Ej' & Hr' & Hm & Ho).
  { rewrite Hnj. apply (pinv_live g _ H). eauto. }
  apply (wp_on_jobs _ _ j'); [done|]. unfold set_pending. wp_pure. split_and!; [done|done| |].
  - pose proof (marked_inv g (p :: l) p j j' H) as Hi. rewrite filter_cons, decide_False in Hi by naive_solver.
    rewrite filter_neq_notin in Hi by done. apply Hi; try done; [by eexists|intros q; by rewrite Hnj|intros q _ _; by rewrite Hnj].
  - split; [done|]. intros q. exact (live_insert g p false q j' ltac:(by eexists)).
Qed.

(** The memory of [p], which is not in the list, is given back. *)
Lemma forget_inv g l p j : pinv_at 1 g l → live g p → srep j (filter (λ q, q ≠ p) l) →
  (∀ q, is_Some (SLinkedList.nodes j !! q) ↔ is_Some (SLinkedList.nodes (jobs g) !! q)) →
  (∀ q, q ≠ p → q ∉ l → SLinkedList.nodes j !! q = SLinkedList.nodes (jobs g) !! q) →
  pinv (g <| jobs := j <| SLinkedList.nodes := delete p (SLinkedList.nodes j) |> |>
          <| pending := delete p (pending g) |>) (filter (λ q, q ≠ p) l).
Proof.
  intros H [b Hb] Hr Hd Hk. assert (∀ q, q ∈ filter (λ q, q ≠ p) l ↔ q ≠ p ∧ q ∈ l) as Hin by (intros; apply elem_of_remove).
  assert (srep (j <| SLinkedList.nodes := delete p (SLinkedList.nodes j) |>) (filter (λ q, q ≠ p) l)) as Hr'.
  { eapply srep_ext; [exact Hr|done|]. intros q Hq%Hin. simpl. rewrite lookup_delete_ne by naive_solver. done. }
  split; simpl.
  - done.
  - intros q. rewrite !lookup_delete_is_Some, Hd, (pinv_live g l H q). done.
  - intros q b' [Hq Hb']%lookup_delete_Some. rewrite (pinv_pending g l H q b' Hb'). apply bool_decide_ext.
    rewrite Hin. naive_solver.
  - intros q [Hq Hs]%lookup_delete_is_Some. destruct (decide (q ∈ l)) as [Hql|Hql].
    + rewrite (srep_IsRemoved q _ _ Hr') by (apply Hin; naive_solver).
      rewrite bool_decide_false; [done|]. rewrite Hin. naive_solver.
    + rewrite (IsRemoved_ext q (jobs g)) by (simpl; rewrite lookup_delete_ne by naive_solver; by apply Hk).
      rewrite (pinv_removed g l H q Hs). f_equal. apply bool_decide_ext. rewrite Hin. naive_solver.
  - rewrite map_size_delete_Some by eauto. pose proof (pinv_ctr g l H).
    assert (size (pending g) ≠ 0%nat) by (intros E%map_size_empty_inv; rewrite E in Hb; done). lia.
Qed.

Lemma Free_run p g l : pinv g l → live g p →
  wp (BSmallPending_Free p) g (λ _ g' acts, acts = [] ∧ pinv g' (filter (λ q, q ≠ p) l) ∧
    exiting g' = exiting g ∧ ∀ q, live g' q ↔ q ≠ p ∧ live g q).
Proof.
  intros H Hl. unfold BSmallPending_Free. apply wp_bind, wp_modify.
  assert (pinv_at 1 (g <| pending_ctr := pending_ctr g - 1 |>) l) as H1.
  { destruct H as [H1 H2 H3 H4 H5]. split; try done. simpl. lia. }
  apply wp_bind. eapply wp_mono; [by apply (take_out_run 1)|].
  intros _ g1 acts (-> & j & -> & Hr & Hd & Hk). apply wp_modify. split; [done|].
  split; [exact (forget_inv _ l p j H1 Hl Hr Hd Hk)|]. split; [done|].
  intros q. unfold live. simpl. rewrite lookup_delete_is_Some. naive_solver.
Qed.

Lemma pending_Init_run p g l : pinv g l → ¬ live g p →
  wp (BSmallPending_Init p) g (λ _ g' acts, acts = [] ∧ pinv g' l ∧
    exiting g' = exiting g ∧ ∀ q, live g' q ↔ q = p ∨ live g q).
Proof.
  intros H Hl. assert (p ∉ l) as Hp by (intros Hp; by eapply Hl, pinv_in_live).
  unfold BSmallPending_Init. apply wp_bind, wp_modify.
  set (j := jobs g <| SLinkedList.nodes := _ |>).
  assert (srep j l) as Hr.
  { eapply srep_ext; [apply H|done|]. intros q Hq. simpl. apply lookup_insert_ne. by intros ->. }
  destruct (srep_MarkRemoved p l j Hr Hp) as (j' & Ej' & Hr' & Hm & Hd & Hk).
  { simpl. rewrite lookup_insert_eq. eauto. }
  apply wp_bind, (wp_on_jobs _ _ j'); [done|]. unfold set_pending. apply wp_bind, wp_modify, wp_modify.
  split; [done|]. assert (pending g !! p = None) as Hn by (by apply eq_None_not_Some).
  assert (∀ q, q ≠ p → SLinkedList.nodes j' !! q = SLinkedList.nodes (jobs g) !! q) as Hk1.
  { intros q Hq. rewrite Hk by set_solver. simpl. by apply lookup_insert_ne. }
  split; [split; simpl|split; [done|]].
  - done.
  - intros q. rewrite Hd. simpl. rewrite !lookup_insert_is_Some, (pinv_live g l H q). done.
  - intros q b [[<- <-]|[Hq Hb]]%lookup_insert_Some; [by rewrite bool_decide_false|by apply H].
  - intros q [->|[Hq Hs]]%lookup_insert_is_Some; [by rewrite Hm, bool_decide_true|].
    rewrite (IsRemoved_ext q (jobs g)) by (by apply Hk1). by apply H.
  - rewrite map_size_insert_None by done. pose proof (pinv_ctr g l H). lia.
  - intros q. unfold live. simpl. rewrite lookup_insert_is_Some. destruct (decide (p = q)); naive_solver.
Qed.

(** ** The contract of a group: a stack of jobs *)

Inductive op := OInit (p : nat) | OFree (p : nat) | OSet (p : nat) | OUnset (p : nat) | OIsSet (p : nat) | OHasJobs | OTake.
Inductive result := RUnit | RBool (b : bool) | RJob (p : nat).

(** The code. [OTake] is what [BPendingGroup_ExecuteJob] does before it calls the
    handler; the handler's own calls are the operations that follow. *)
Definition code_step (o : op) : PM result :=
  match o with
  | OInit p => BSmallPending_Init p;; mret RUnit
  | OFree p => BSmallPending_Free p;; mret RUnit
  | OSet p => BSmallPending_Set p;; mret RUnit
  | OUnset p => BSmallPending_Unset p;; mret RUnit
  | OIsSet p => b ← BSmallPending_IsSet p; mret (RBool b)
  | OHasJobs => b ← BPendingGroup_HasJobs; mret (RBool b)
  | OTake => p ← take_job; mret (RJob p)
  end.
Fixpoint code_run (os : list op) : PM (list result) :=
  match os with
  | [] => mret []
  | o :: os => r ← code_step o; rs ← code_run os; mret (r :: rs)
  end.

(** The promise: the initialised jobs and the stack of those that are set. A job
    that is set again moves to the top; the top is taken. *)
Definition stack_step (o : op) (s : gset nat * list nat) : option (result * (gset nat * list nat)) :=
  let '(L, l) := s in
  match o with
  | OInit p => if decide (p ∈ L) then None else Some (RUnit, ({[p]} ∪ L, l))
  | OFree p => if decide (p ∈ L) then Some (RUnit, (L ∖ {[p]}, filter (λ q, q ≠ p) l)) else None
  | OSet p => if decide (p ∈ L) then Some (RUnit, (L, push p l)) else None
  | OUnset p => if decide (p ∈ L) then Some (RUnit, (L, filter (λ q, q ≠ p) l)) else None
  | OIsSet p => if decide (p ∈ L) then Some (RBool (bool_decide (p ∈ l)), s) else None
  | OHasJobs => Some (RBool (bool_decide (l ≠ [])), s)
  | OTake => match l with [] => None | p :: l => Some (RJob p, (L, l)) end
  end.
Fixpoint stack_run (os : list op) (s : gset nat * list nat) : option (list result * (gset nat * list nat)) :=
  match os with
  | [] => Some ([], s)
  | o :: os => '(r, s1) ← stack_step o s; '(rs, s2) ← stack_run os s1; Some (r :: rs, s2)
  end.

Definition abstracts (g : t) (s : gset nat * list nat) : Prop :=
  pinv g s.2 ∧ ∀ p, live g p ↔ p ∈ s.1.

Lemma HasJobs_run g l : pinv g l →
  wp BPendingGroup_HasJobs g (λ b g' acts, b = bool_decide (l ≠ []) ∧ g' = g ∧ acts = []).
Proof.
  intros H. destruct (pinv_rep g l H) as (Hf & _). unfold BPendingGroup_HasJobs, SLinkedList.IsEmpty.
  apply wp_gets. split; [|done]. rewrite Hf. by destruct l.
Qed.

Lemma code_step_refines o g s r s' : abstracts g s → stack_step o s = Some (r, s') →
  wp (code_step o) g (λ r' g' acts, r' = r ∧ abstracts g' s' ∧ exiting g' = exiting g ∧ acts = []).
Proof.
  destruct s as [L l]. intros [H HL] E. simpl in H, HL. destruct o as [p|p|p|p|p| |]; simpl in E |- *; apply wp_bind;
    try (case_decide; try done; []).
  - injection E as <- <-. eapply wp_mono; [apply (pending_Init_run p g l H); by rewrite HL|].
    intros _ g' acts (-> & H' & He & Hl). apply wp_ret. split_and!; try done. split; [done|].
    intros q. simpl. rewrite Hl, HL. set_solver.
  - injection E as <- <-. eapply wp_mono; [apply (Free_run p g l H); by rewrite HL|].
    intros _ g' acts (-> & H' & He & Hl). apply wp_ret. split_and!; try done. split; [done|].
    intros q. simpl. rewrite Hl, HL. set_solver.
  - injection E as <- <-. eapply wp_mono; [apply (Set_run p g l H); by rewrite HL|].
    intros _ g' acts (-> & H' & He & Hl). apply wp_ret. split_and!; try done. split; [done|].
    intros q. simpl. by rewrite Hl, HL.
  - injection E as <- <-. eapply wp_mono; [apply (Unset_run p g l H); by rewrite HL|].
    intros _ g' acts (-> & H' & He & Hl). apply wp_ret. split_and!; try done. split; [done|].
    intros q. simpl. by rewrite Hl, HL.
  - injection E as <- <-. eapply wp_mono; [apply (IsSet_run p g l H); by rewrite HL|].
    intros b g' acts (-> & -> & ->). by apply wp_ret.
  - injection E as <- <-. eapply wp_mono; [by apply HasJobs_run|].
    intros b g' acts (-> & -> & ->). by apply wp_ret.
  - destruct l as [|p l]; [done|]. injection E as <- <-. eapply wp_mono; [by apply (take_job_run p l)|].
    intros b g' acts (-> & -> & H' & He & Hl). apply wp_ret. split_and!; try done. split; [done|].
    intros q. simpl. by rewrite Hl, HL.
Qed.

Lemma code_run_refines os g s rs s' : abstracts g s → stack_run os s = Some (rs, s') →
  wp (code_run os) g (λ rs' g' acts, rs' = rs ∧ abstracts g' s' ∧ acts = []).
Proof.
  revert g s rs. induction os as [|o os IH]; simpl; intros g s rs H E.
  { injection E as <- <-. by apply wp_ret. }
  destruct (stack_step o s) as [[r s1]|] eqn:E1; [|done]. simpl in E.
  destruct (stack_run os s1) as [[rs1 s2]|] eqn:E2; [|done]. simpl in E. injection E as <- <-.
  apply wp_bind. eapply wp_mono; [by eapply code_step_refines|]. intros r' g1 acts (-> & H1 & _ & ->).
  apply wp_bind. eapply wp_mono; [by eapply IH|]. intros rs' g2 acts (-> & H2 & ->). by apply wp_ret.
Qed.

(** C38: The pending jobs of a group are a stack. For every sequence of
    initialising, freeing, setting, unsetting, asking for and taking jobs that the
    stack specification allows (jobs are initialised once before use, a job is
    taken only when there is one), the pointer-level code passes all its
    assertions, returns the results of the specification, in particular the job
    that was set last, and ends in a group that represents its final state. *)
Theorem pending_refines_stack os g s rs s' :
  abstracts g s → stack_run os s = Some (rs, s') →
  ∃ g', code_run os g = Some (rs, g', []) ∧ abstracts g' s'.
Proof.
  intros H E. pose proof (code_run_refines os g s rs s' H E) as Hwp.
  apply wp_some in Hwp as (? & g' & ? & Er & -> & ? & ->). eauto.
Qed.

(** ** [BReactor_Synchronize] *)
Section Synchronize.
Variables (handler : nat → t → option t) (ref : nat) (B : list nat).
(** [W p]: how much work the job [p] stands for, the jobs it leads to included;
    [L]: the jobs the handlers rely on being initialised. *)
Variables (W : nat → nat) (L : nat → Prop).
Definition weight (X : list nat) : nat := sum_list_with W X.

(** What [BReactor_Synchronize] asks of the handlers of the jobs above [ref]: they
    leave [ref] and the jobs below it alone, and the jobs they leave above it stand
    for less work than before. They may set [exiting] ([BReactor_Quit]). *)
Hypothesis handler_ok : ∀ p g X, p ∉ ref :: B → (∀ q, L q → live g q) → pinv g (X ++ ref :: B) →
  ∃ g' X', handler p g = Some g' ∧ (∀ q, L q → live g' q) ∧ pinv g' (X' ++ ref :: B) ∧
    (weight X' < weight X + W p)%nat.

Lemma PeekJob_run g l : pinv g l → wp BPendingGroup_PeekJob g (λ r g' acts, r = head l ∧ g' = g ∧ acts = []).
Proof. intros H. destruct (pinv_rep g l H) as (Hf & _). by apply wp_gets. Qed.

(** [BReactor_Synchronize] returns. Called while the job [ref] is set, with
    the jobs [X] on top of it, it runs only jobs that were put above [ref], never
    [ref] or one below it; it returns 1 with [ref] as the next job and the jobs
    below it untouched, unless a handler made the reactor exit, when it returns 0.
    The number of iterations is bounded by the work the jobs above [ref] stand for,
    whatever jobs the handlers set and unset on the way. *)
Theorem synchronize_reaches g X :
  (∀ q, L q → live g q) → pinv g (X ++ ref :: B) →
  ∃ r g' acts, BReactor_Synchronize handler (S (weight X)) ref g = Some (r, g', acts) ∧
    (∀ p, Run p ∈ acts → p ∉ ref :: B) ∧
    ((r = 1 ∧ exiting g' = false ∧ pinv g' (ref :: B)) ∨
     (r = 0 ∧ exiting g' = true ∧ ∃ X', pinv g' (X' ++ ref :: B))).
Proof.
  enough (∀ n g X, (weight X < n)%nat → (∀ q, L q → live g q) → pinv g (X ++ ref :: B) →
    wp (BReactor_Synchronize handler n ref) g (λ r g' acts, (∀ p, Run p ∈ acts → p ∉ ref :: B) ∧
      ((r = 1 ∧ exiting g' = false ∧ pinv g' (ref :: B)) ∨
       (r = 0 ∧ exiting g' = true ∧ ∃ X', pinv g' (X' ++ ref :: B))))) as Hwp.
  { intros HL H. by apply wp_some, (Hwp _ g X); [lia|..]. }
  intros n. induction n as [|n IH]; intros g1 X1 Hn HL H; [lia|]. cbn [BReactor_Synchronize].
  apply wp_bind, wp_get. destruct (exiting g1) eqn:Ex.
  { apply wp_ret. split; [set_solver|]. right. eauto. }
  apply wp_bind. eapply wp_mono; [by apply HasJobs_run|]. intros b g2 acts (-> & -> & ->).
  apply wp_bind, wp_ASSERT; [apply bool_decide_true; by destruct X1|].
  apply wp_bind. eapply wp_mono; [by apply PeekJob_run|]. intros top g2 acts (-> & -> & ->).
  destruct X1 as [|p X1]; simpl.
  { rewrite bool_decide_true by done. apply wp_ret. split; [set_solver|]. by left. }
  assert (p ∉ ref :: B) as Hp.
  { destruct (pinv_rep g1 _ H) as (_ & Hnd & _). apply list.NoDup_app in Hnd as (_ & Hnd & _). apply Hnd. left. }
  rewrite bool_decide_false by set_solver. unfold BPendingGroup_ExecuteJob.
  apply wp_bind, wp_bind. eapply wp_mono; [by apply take_job_run|]. intros q g2 acts (-> & -> & H2 & He & Hl2).
  destruct (handler_ok p g2 X1 Hp) as (g3 & X3 & E3 & HL3 & H3 & Hw); [by intros q Hq; apply Hl2, HL|done|].
  unfold wp at 1, call_handler. rewrite E3. simpl in Hn. eapply wp_mono; [apply (IH g3 X3); [lia|done..]|].
  intros r g4 acts [Ha Hr]. split; [|done]. simpl. set_solver.
Qed.
End Synchronize.

(** ** Examples *)
Definition ex_group : t := mk_t (SLinkedList.mk_t None ∅) ∅ 0 false.
Lemma ex_group_ok : abstracts ex_group (∅, []).
Proof.
  split.
  - split; simpl; [split_and!; [done|by constructor|done]| | | |done]; intros p.
    + by rewrite !lookup_empty.
    + intros b. by rewrite lookup_empty.
    + rewrite lookup_empty. by intros [? ?].
  - intros p. unfold live. simpl. rewrite lookup_empty. split; [by intros [? ?]|set_solver].
Qed.

(** Two jobs are set, the first one again: it is the first to be taken. *)
Definition ex_ops : list op :=
  [OInit 1; OInit 2; OSet 1; OSet 2; OSet 1; OIsSet 2; OTake; OTake; OHasJobs; OFree 1].
Lemma pending_refines_stack_witness :
  ∃ g', code_run ex_ops ex_group =
    Some ([RUnit; RUnit; RUnit; RUnit; RUnit; RBool true; RJob 1; RJob 2; RBool false; RUnit], g', []) ∧
    abstracts g' ({[2%nat]}, []).
Proof.
  apply (pending_refines_stack ex_ops ex_group (∅, [])); [exact ex_group_ok|]. vm_compute. reflexivity.
Defined.

(** The handler of job 1 sets job 2; the others do nothing. Jobs 1 and 3 are above
    the job 5, job 7 is below it. *)
Definition ex_handler (p : nat) (g : t) : option t :=
  if (p =? 1)%nat then match BSmallPending_Set 2 g with Some (_, g', _) => Some g' | None => None end else Some g.
Definition ex_work (p : nat) : nat := if (p =? 1)%nat then 2 else 1.
Definition ex_sync_group : option (list result * t * list act) :=
  code_run [OInit 1; OInit 2; OInit 3; OInit 5; OInit 7; OSet 7; OSet 5; OSet 3; OSet 1] ex_group.

Lemma weight_filter W p X : (weight W (filter (λ q, q ≠ p) X) ≤ weight W X)%nat.
Proof. induction X as [|x X IH]; simpl; [done|]. rewrite filter_cons. case_decide; simpl; lia. Qed.

Lemma ex_handler_ok p g X : p ∉ [5; 7]%nat → (∀ q, q = 2%nat → live g q) → pinv g (X ++ [5; 7]%nat) →
  ∃ g' X', ex_handler p g = Some g' ∧ (∀ q, q = 2%nat → live g' q) ∧ pinv g' (X' ++ [5; 7]%nat) ∧
    (weight ex_work X' < weight ex_work X + ex_work p)%nat.
Proof.
  intros Hp HL H. unfold ex_handler, ex_work at 3. destruct (p =? 1)%nat eqn:E; [|exists g, X; split_and!; [done..|lia]].
  pose proof (Set_run 2 g _ H (HL _ eq_refl)) as Hs. apply wp_some in Hs as ([] & g' & acts & Es & _ & H' & _ & Hl).
  rewrite Es. exists g', (push 2 X). split_and!; [done|intros q Hq; by apply Hl, HL| |].
  - unfold push in *. rewrite list.filter_app in H'. exact H'.
  - unfold push. pose proof (weight_filter ex_work 2 X). simpl. lia.
Qed.

Lemma synchronize_reaches_witness :
  match ex_sync_group with
  | Some (_, g, _) =>
      pinv g [1; 3; 5; 7]%nat ∧
      ∃ r g' acts, BReactor_Synchronize ex_handler 4 5 g = Some (r, g', acts) ∧
        (∀ p, Run p ∈ acts → p ∉ [5; 7]%nat) ∧
        ((r = 1 ∧ exiting g' = false ∧ pinv g' [5; 7]%nat) ∨
         (r = 0 ∧ exiting g' = true ∧ ∃ X', pinv g' (X' ++ [5; 7]%nat)))
  | None => False
  end.
Proof.
  assert (wp (code_run [OInit 1; OInit 2; OInit 3; OInit 5; OInit 7; OSet 7; OSet 5; OSet 3; OSet 1]) ex_group
    (λ _ g _, abstracts g ({[1; 2; 3; 5; 7]}%nat, [1; 3; 5; 7]%nat))) as H.
  { eapply wp_mono; [eapply code_run_refines; [exact ex_group_ok|vm_compute; reflexivity]|].
    intros rs g acts (_ & H & _). exact H. }
  unfold ex_sync_group. unfold wp in H.
  destruct (code_run _ ex_group) as [[[rs g] acts]|]; [|exact H]. destruct H as [H HL].
  split; [exact H|].
  apply (synchronize_reaches ex_handler 5 [7%nat] ex_work (λ q, q = 2%nat) ex_handler_ok g [1; 3]%nat); [|exact H].
  intros q ->. apply HL. simpl. set_solver.
Defined.

End Stack.



