(* ===== verification/Avl.v ===== *)
(** * AVL trees: the reference algorithm of the linked trees

    structure/BAVL.h and structure/CAvl_impl.h keep balanced trees of linked nodes
    (BAvl.v, CAvl.v).  Here is the algorithm they implement, on inductive trees of
    node pointers ([nat]) with their balance factors: a node with its ancestors is a
    subtree with the path to it (a zipper), the frames of the path being the
    ancestors, nearest first, each with the side the path comes from.  Walking to a
    child extends the path, walking to the parent removes a frame.  These trees
    specify what the operations do on the nodes in memory; no definition here stands
    for a function of the source. *)
From Stdlib Require Import ZArith Lia Sorting.Sorted.
From stdpp Require Import base list sets numbers.
From S2P Require Import Prelude ByteOrder Addr Index.
#[local] Open Scope Z_scope.

Module AvlTree.

Inductive tree :=
| Leaf
| Node (left : tree) (node : nat) (balance : Z) (right : tree).

(** An ancestor: the path continues at [link[f_side]], [f_other] is the other link. *)
Record frame := mk_frame { f_side : bool; f_node : nat; f_balance : Z; f_other : tree }.
Abbreviation path := (list frame).

Definition link (side : bool) (t : tree) : tree :=
  match t with Leaf => Leaf | Node l _ _ r => if side then r else l end.
Definition set_link (side : bool) (c : tree) (t : tree) : tree :=
  match t with Leaf => Leaf | Node l n b r => if side then Node l n b c else Node c n b r end.
Definition balance (t : tree) : Z := match t with Leaf => 0 | Node _ _ b _ => b end.
Definition set_balance (b : Z) (t : tree) : tree :=
  match t with Leaf => Leaf | Node l n _ r => Node l n b r end.
Definition is_null (t : tree) : bool := match t with Leaf => true | _ => false end.

(** The subtree of an ancestor with [t] below it, and the whole tree. *)
Definition plug (f : frame) (t : tree) : tree :=
  if f_side f then Node (f_other f) (f_node f) (f_balance f) t
  else Node t (f_node f) (f_balance f) (f_other f).
Fixpoint zip (pa : path) (t : tree) : tree :=
  match pa with [] => t | f :: pa => zip pa (plug f t) end.

Definition MAX (a b : Z) : Z := if b <? a then a else b.
Definition OPTNEG (a : Z) (neg : bool) : Z := if neg then - a else a.

(** The rotation: the child on the side opposite to [dir] takes the place of [r]. *)
Definition rotate (r : tree) (dir : bool) : tree :=
  let nr := link (negb dir) r in
  let r := set_link (negb dir) (link dir nr) r in
  set_link dir r nr.

(** The transformations of a node whose balance factor is wrong.  [None]: a violated
    assertion. *)
Definition transform (node : tree) (delta : Z) : option (tree * Z) :=
  if (balance node =? 2) || (balance node =? -2) then
    let bside := balance node =? 2 in
    let bsidef := if bside then 1 else -1 in
    let child := link bside node in
    if is_null child then None else
    let s := balance child * bsidef in
    if s =? 1 then
      let t := rotate node (negb bside) in
      let t := set_link (negb bside) (set_balance 0 (link (negb bside) t)) t in
      Some (set_balance 0 t, delta - 1)
    else if s =? 0 then
      let t := rotate node (negb bside) in
      let t := set_link (negb bside) (set_balance (1 * bsidef) (link (negb bside) t)) t in
      Some (set_balance (-1 * bsidef) t, delta)
    else if s =? -1 then
      let gchild := link (negb bside) child in
      if is_null gchild then None else
      let node := set_link bside (rotate child bside) node in
      let t := rotate node (negb bside) in
      let t := set_link (negb bside) (set_balance (- MAX 0 (balance gchild * bsidef) * bsidef) (link (negb bside) t)) t in
      let t := set_link bside (set_balance (MAX 0 (- balance gchild * bsidef) * bsidef) (link bside t)) t in
      Some (set_balance 0 t, delta - 1)
    else None
  else Some (node, delta).

(** The rebalancing of one node: the subtree after it and the
    change of its height. *)
Definition rebalance_node (node : tree) (side : bool) (deltac : Z) : option (tree * Z) :=
  if negb ((-1 <=? deltac) && (deltac <=? 1) && (-1 <=? balance node) && (balance node <=? 1)) then None else
  let delta := MAX deltac (OPTNEG (balance node) side) - MAX 0 (OPTNEG (balance node) side) in
  if negb ((-1 <=? delta) && (delta <=? 1)) then None else
  let node := set_balance (balance node - OPTNEG deltac side) node in
  '(node, delta) ← transform node delta;
  if (-1 <=? delta) && (delta <=? 1) then Some (node, delta) else None.

(** The rebalancing from the node [t] at [pa] up the parents. *)
Fixpoint rebalance (pa : path) (t : tree) (side : bool) (deltac : Z) : option tree :=
  if deltac =? 0 then Some (zip pa t)
  else match rebalance_node t side deltac with
  | None => None
  | Some (t, delta) =>
      match pa with
      | [] => Some t
      | f :: pa => rebalance pa (plug f t) (f_side f) delta
      end
  end.

(** [ASSERT]. *)
Definition assert (b : bool) : option () := if b then Some () else None.

Section Ops.
Context {K : Type} (cmp : K → K → Z) (kf : nat → K).

(** The comparison, with the assertion on the comparator. *)
Definition compare_values (v1 v2 : K) : option Z :=
  let res := cmp v1 v2 in if (res =? -1) || (res =? 0) || (res =? 1) then Some res else None.

(** The search for the place from the node [c], with the insertion and rebalancing. *)
Fixpoint insert_at (node : nat) (c : tree) (pa : path) : option (bool * tree) :=
  match c with
  | Leaf => None
  | Node l n b r =>
      comp ← compare_values (kf node) (kf n);
      if comp =? 0 then Some (false, zip pa c) else
      let side := comp =? 1 in
      if is_null (link side c) then
        t ← rebalance pa (set_link side (Node Leaf node 0 Leaf) c) side 1; Some (true, t)
      else if side then insert_at node r (mk_frame true n b l :: pa)
      else insert_at node l (mk_frame false n b r :: pa)
  end.
(** The result and the tree; [None]: a violated assertion. *)
Definition Insert (node : nat) (root : tree) : option (bool * tree) :=
  if is_null root then Some (true, Node Leaf node 0 Leaf) else insert_at node root [].

Fixpoint LookupExact (val : K) (c : tree) : option (option nat) :=
  match c with
  | Leaf => Some None
  | Node l n b r =>
      comp ← compare_values val (kf n);
      if comp =? 0 then Some (Some n)
      else if comp =? 1 then LookupExact val r else LookupExact val l
  end.
(** The last node on the way is returned when none is equal. *)
Fixpoint Lookup (val : K) (c : tree) : option (option nat) :=
  match c with
  | Leaf => Some None
  | Node l n b r =>
      comp ← compare_values val (kf n);
      if comp =? 0 then Some (Some n) else
      let side := comp =? 1 in
      if is_null (link side c) then Some (Some n) else if side then Lookup val r else Lookup val l
  end.

End Ops.

Fixpoint GetFirst (t : tree) : option nat :=
  match t with
  | Leaf => None
  | Node l n _ _ => if is_null l then Some n else GetFirst l
  end.
Fixpoint GetLast (t : tree) : option nat :=
  match t with
  | Leaf => None
  | Node _ n _ r => if is_null r then Some n else GetLast r
  end.

(** The largest node, with the path to it. *)
Fixpoint subtree_max (t : tree) (pa : path) : option (tree * path) :=
  match t with
  | Leaf => None
  | Node l n b r => if is_null r then Some (t, pa) else subtree_max r (mk_frame true n b l :: pa)
  end.

(** A node and the largest node of its left subtree exchange their places, and
    the balance factors stay with the places. *)
Definition swap_with_max (l : tree) (node : nat) (b : Z) (r : tree) (pa : path) : option (tree * path) :=
  '(m, _) ← subtree_max l [];
  match m with
  | Leaf => None
  | Node _ max _ _ =>
      '(m, pa) ← subtree_max l (mk_frame false max b r :: pa);
      match m with Leaf => None | Node ml _ mb mr => Some (Node ml node mb mr, pa) end
  end.

(** The removal of the root of [c]. *)
Definition remove_at (c : tree) (pa : path) : option tree :=
  '(c, pa) ←
    (match c with
     | Node (Node _ _ _ _ as l) n b (Node _ _ _ _ as r) => swap_with_max l n b r pa
     | _ => Some (c, pa)
     end);
  if negb (is_null (link false c)) && negb (is_null (link true c)) then None else
  let child := if negb (is_null (link false c)) then link false c else link true c in
  match pa with
  | [] => Some child
  | f :: pa => rebalance pa (plug f child) (f_side f) (-1)
  end.

(** Where a node is. *)
Fixpoint locate (node : nat) (t : tree) (pa : path) : option (tree * path) :=
  match t with
  | Leaf => None
  | Node l n b r =>
      if decide (n = node) then Some (t, pa)
      else match locate node l (mk_frame false n b r :: pa) with
      | Some x => Some x
      | None => locate node r (mk_frame true n b l :: pa)
      end
  end.
Definition Remove (node : nat) (root : tree) : option tree :=
  '(c, pa) ← locate node root []; remove_at c pa.

End AvlTree.

(** ** Height, balance and order *)
Section Trees.
Import AvlTree.

Fixpoint height (t : tree) : Z :=
  match t with Leaf => 0 | Node l _ _ r => 1 + Z.max (height l) (height r) end.
Fixpoint avl (t : tree) : Prop :=
  match t with
  | Leaf => True
  | Node l _ b r => avl l ∧ avl r ∧ b = height r - height l ∧ -1 ≤ b ≤ 1
  end.
(** The nodes from left to right. *)
Fixpoint inorder (t : tree) : list nat :=
  match t with Leaf => [] | Node l n _ r => inorder l ++ n :: inorder r end.

(** The nodes of the whole tree, given those of the subtree at the path. *)
Fixpoint inorder_zip (pa : path) (l : list nat) : list nat :=
  match pa with
  | [] => l
  | f :: pa => inorder_zip pa (if f_side f then inorder (f_other f) ++ f_node f :: l
                               else l ++ f_node f :: inorder (f_other f))
  end.

(** The ancestors are balanced when the subtree at the path has height [h]. *)
Fixpoint path_ok (pa : path) (h : Z) : Prop :=
  match pa with
  | [] => True
  | f :: pa => avl (f_other f) ∧ -1 ≤ f_balance f ≤ 1 ∧
      f_balance f = (if f_side f then h - height (f_other f) else height (f_other f) - h) ∧
      path_ok pa (1 + Z.max h (height (f_other f)))
  end.

Lemma height_nonneg t : 0 ≤ height t.
Proof. induction t; simpl; lia. Qed.

Lemma inorder_plug f t : inorder (plug f t) =
  if f_side f then inorder (f_other f) ++ f_node f :: inorder t else inorder t ++ f_node f :: inorder (f_other f).
Proof. unfold plug. by destruct (f_side f). Qed.
Lemma inorder_zip_zip pa t : inorder (zip pa t) = inorder_zip pa (inorder t).
Proof. revert t. induction pa as [|f pa IH]; intros t; [done|]. simpl. by rewrite IH, inorder_plug. Qed.
Lemma avl_zip pa t : avl t → path_ok pa (height t) → avl (zip pa t).
Proof.
  revert t. induction pa as [|f pa IH]; intros t Ht; [done|]. simpl. intros (Ho & Hb & Eb & Hp).
  apply IH; unfold plug; destruct (f_side f); simpl; try done.
  by rewrite Z.max_comm in Hp.
Qed.

(** The node [t], whose child on [side] has just changed its height by [deltac]
    while its balance factor is the old one. *)
Definition unbalanced (t : tree) (side : bool) (deltac : Z) : Prop :=
  match t with
  | Leaf => False
  | Node l _ b r => avl l ∧ avl r ∧ -1 ≤ b ≤ 1 ∧
      b = (height r - if side then deltac else 0) - (height l - if side then 0 else deltac)
  end.
(** Its height before the change. *)
Definition old_height (t : tree) (side : bool) (deltac : Z) : Z :=
  match t with
  | Leaf => 0
  | Node l _ _ r => 1 + Z.max (height l - if side then 0 else deltac) (height r - if side then deltac else 0)
  end.

Ltac zcase :=
  repeat match goal with
  | |- context [?x <? ?y] => destruct (Z.ltb_spec x y); try lia
  | |- context [?x <=? ?y] => destruct (Z.leb_spec x y); try lia
  | |- context [?x =? ?y] => destruct (Z.eqb_spec x y); try lia
  end.

Lemma MAX_max a b : MAX a b = Z.max a b.
Proof. unfold MAX. destruct (Z.ltb_spec b a); lia. Qed.

Lemma leb_range x : -1 ≤ x ≤ 1 → (-1 <=? x) && (x <=? 1) = true.
Proof. intros. apply andb_true_iff. rewrite !Z.leb_le. lia. Qed.

(** Heavy on the right. *)
Lemma transform_right l n r delta : avl l → avl r → height r - height l = 2 →
  ∃ t' d, transform (Node l n 2 r) delta = Some (t', d) ∧ avl t' ∧ inorder t' = inorder (Node l n 2 r) ∧ t' ≠ Leaf ∧
    height t' - d = height (Node l n 2 r) - delta ∧ (d = delta ∨ d = delta - 1).
Proof.
  intros Hl Hr Eh. pose proof (height_nonneg l). unfold transform. simpl.
  destruct r as [|rl rn rb rr]; simpl in *; [lia|]. destruct Hr as (Hrl & Hrr & Erb & Hrb).
  pose proof (height_nonneg rl). pose proof (height_nonneg rr).
  assert (rb = 1 ∨ rb = 0 ∨ rb = -1) as [Hc|[Hc|Hc]] by lia; rewrite Hc; simpl.
  - do 2 eexists. split; [done|]. simpl. rewrite <- app_assoc. split_and!; try done; try lia.
  - do 2 eexists. split; [done|]. simpl. rewrite <- app_assoc. split_and!; try done; try lia.
  - destruct rl as [|gl gn gb gr]; simpl in *; [lia|]. destruct Hrl as (Hgl & Hgr & Egb & Hgb).
    pose proof (height_nonneg gl). pose proof (height_nonneg gr).
    assert (gb = 1 ∨ gb = 0 ∨ gb = -1) as [Hg|[Hg|Hg]] by lia; rewrite Hg; simpl;
      (do 2 eexists; split; [done|]; simpl; rewrite <- !app_assoc; simpl;
       split_and!; try done; try lia; by rewrite <- app_assoc).
Qed.
(** Heavy on the left. *)
Lemma transform_left l n r delta : avl l → avl r → height r - height l = -2 →
  ∃ t' d, transform (Node l n (-2) r) delta = Some (t', d) ∧ avl t' ∧ inorder t' = inorder (Node l n (-2) r) ∧ t' ≠ Leaf ∧
    height t' - d = height (Node l n (-2) r) - delta ∧ (d = delta ∨ d = delta - 1).
Proof.
  intros Hl Hr Eh. pose proof (height_nonneg r). unfold transform. simpl.
  destruct l as [|ll ln lb lr]; simpl in *; [lia|]. destruct Hl as (Hll & Hlr & Elb & Hlb).
  pose proof (height_nonneg ll). pose proof (height_nonneg lr).
  assert (lb = 1 ∨ lb = 0 ∨ lb = -1) as [Hc|[Hc|Hc]] by lia; rewrite Hc; simpl.
  - destruct lr as [|gl gn gb gr]; simpl in *; [lia|]. destruct Hlr as (Hgl & Hgr & Egb & Hgb).
    pose proof (height_nonneg gl). pose proof (height_nonneg gr).
    assert (gb = 1 ∨ gb = 0 ∨ gb = -1) as [Hg|[Hg|Hg]] by lia; rewrite Hg; simpl;
      (do 2 eexists; split; [done|]; simpl; rewrite <- !app_assoc; simpl;
       split_and!; try done; try lia; by rewrite <- ?app_assoc).
  - do 2 eexists. split; [done|]. simpl. rewrite <- ?app_assoc. split_and!; try done; try lia.
  - do 2 eexists. split; [done|]. simpl. rewrite <- ?app_assoc. split_and!; try done; try lia.
Qed.

(** One step restores balance and order at the node and computes how its height
    changed; no assertion fails. *)
Lemma rebalance_node_ok t side deltac : unbalanced t side deltac → deltac = -1 ∨ deltac = 1 →
  ∃ t' delta, rebalance_node t side deltac = Some (t', delta) ∧ avl t' ∧ inorder t' = inorder t ∧
    height t' = old_height t side deltac + delta ∧ -1 ≤ delta ≤ 1.
Proof.
  destruct t as [|l n b r]; [done|]. intros (Hl & Hr & Hb & Eb) Hd. unfold rebalance_node.
  cbn [balance set_balance]. rewrite !MAX_max. unfold OPTNEG.
  rewrite (leb_range deltac) by lia. rewrite <- andb_assoc. cbn [andb]. rewrite (leb_range b) by done. cbn [negb].
  set (delta := Z.max deltac (if side then - b else b) - Z.max 0 (if side then - b else b)).
  rewrite (leb_range delta) by (unfold delta; destruct side; lia). cbn [negb].
  set (nb := b - (if side then - deltac else deltac)).
  assert (nb = height r - height l) as Enb by (unfold nb; destruct side; lia).
  assert (height (Node l n nb r) - delta = old_height (Node l n b r) side deltac) as Hold.
  { simpl. unfold delta. destruct side; lia. }
  assert (∃ t' d, transform (Node l n nb r) delta = Some (t', d) ∧ avl t' ∧ inorder t' = inorder (Node l n nb r) ∧
    height t' - d = height (Node l n nb r) - delta ∧ -1 ≤ d ≤ 1) as (t' & d & E & ? & ? & ? & ?).
  { assert (nb = 2 ∨ nb = -2 ∨ -1 ≤ nb ≤ 1) as [H2|[H2|H2]] by (unfold nb; destruct side; lia).
    - rewrite H2 in Enb |- *. destruct (transform_right l n r delta) as (t' & d & ? & ? & ? & _ & ? & Hd'); [done|done|lia|].
      exists t', d. split_and!; try done; unfold delta, nb in *; destruct side; lia.
    - rewrite H2 in Enb |- *. destruct (transform_left l n r delta) as (t' & d & ? & ? & ? & _ & ? & Hd'); [done|done|lia|].
      exists t', d. split_and!; try done; unfold delta, nb in *; destruct side; lia.
    - unfold transform. cbn [balance]. rewrite !(proj2 (Z.eqb_neq _ _)) by lia. simpl.
      exists (Node l n nb r), delta. split_and!; try done; unfold delta in *; destruct side; lia. }
  rewrite E. cbn [mbind option_bind]. rewrite leb_range by done. exists t', d. rewrite <- Hold.
  split_and!; try done; lia.
Qed.

Lemma unbalanced_0 t side : unbalanced t side 0 → avl t ∧ old_height t side 0 = height t.
Proof.
  destruct t as [|l n b r]; [done|]. intros (Hl & Hr & Hb & Eb). simpl.
  destruct side; rewrite !Z.sub_0_r in *; done.
Qed.

(** Rebalancing up to the root. *)
Lemma rebalance_ok pa t side deltac : unbalanced t side deltac → -1 ≤ deltac ≤ 1 →
  path_ok pa (old_height t side deltac) →
  ∃ t', rebalance pa t side deltac = Some t' ∧ avl t' ∧ inorder t' = inorder_zip pa (inorder t).
Proof.
  revert t side deltac. induction pa as [|f pa IH]; intros t side deltac Ht Hd Hp.
  - simpl. destruct (Z.eqb_spec deltac 0) as [->|Hne].
    + exists t. split_and!; try done. by destruct (unbalanced_0 t side Ht).
    + destruct (rebalance_node_ok t side deltac Ht) as (t' & d & -> & ? & ? & _); [lia|]. eauto.
  - simpl. destruct (Z.eqb_spec deltac 0) as [->|Hne].
    + eexists. split; [done|]. rewrite inorder_zip_zip, inorder_plug. split; [|done].
      destruct (unbalanced_0 t side Ht) as [Ha E]. rewrite E in Hp. by apply (avl_zip (f :: pa)).
    + destruct (rebalance_node_ok t side deltac Ht) as (t' & d & -> & Ha & Hi & Hh & Hd'); [lia|].
      destruct Hp as (Ho & Hb & Eb & Hp).
      destruct (IH (plug f t') (f_side f) d) as (t'' & E & Ha' & Hi'); [|done| |].
      * unfold plug. destruct (f_side f); simpl; split_and!; try done; lia.
      * eapply (eq_rect _ (path_ok pa)); [exact Hp|]. unfold plug. destruct (f_side f); simpl; lia.
      * exists t''. split_and!; try done. by rewrite Hi', inorder_plug, Hi.
Qed.

(** ** Against the sorted list *)
Context {K : Type} {ok : K → Prop} {cmp : K → K → Z} `{!TotalCmp ok cmp}.

Lemma insert_sorted_left kf p A q B : cmp (kf p) (kf q) = -1 →
  list_insert_sorted cmp kf p (A ++ q :: B) = (λ A', A' ++ q :: B) <$> list_insert_sorted cmp kf p A.
Proof.
  intros E. induction A as [|a A IH]; simpl; [by rewrite E|].
  destruct (_ =? 0); [done|]. destruct (_ =? -1); [done|]. rewrite IH. by destruct (list_insert_sorted _ _ _ A).
Qed.
Lemma insert_sorted_skip kf p A l : (∀ a, a ∈ A → cmp (kf p) (kf a) = 1) →
  list_insert_sorted cmp kf p (A ++ l) = (A ++.) <$> list_insert_sorted cmp kf p l.
Proof.
  intros HA. induction A as [|a A IH]; simpl; [by destruct (list_insert_sorted _ _ _ l)|].
  rewrite (HA a) by left. simpl. rewrite IH by (intros; apply HA; by right).
  by destruct (list_insert_sorted _ _ _ l).
Qed.

Lemma ordered_app kf A q B : ordered ok cmp kf (A ++ q :: B) →
  ordered ok cmp kf A ∧ ordered ok cmp kf B ∧ ok (kf q) ∧
  (∀ a, a ∈ A → cmp (kf a) (kf q) = -1) ∧ (∀ b, b ∈ B → cmp (kf q) (kf b) = -1).
Proof.
  intros [Hok Hs]. apply Forall_app in Hok as [HA HB]. apply list.Forall_cons in HB as [Hq HB].
  induction A as [|a A IH]; simpl in *.
  - apply StronglySorted_inv in Hs as [Hs Hlt]. rewrite list.Forall_forall in Hlt.
    split_and!; [split; constructor|by split|done|by intros ? ?%elem_of_nil|done].
  - apply StronglySorted_inv in Hs as [Hs Hlt]. apply list.Forall_cons in HA as [Ha HA].
    destruct (IH HA Hs) as ([? HsA] & ? & ? & HAq & ?). rewrite list.Forall_forall in Hlt.
    split_and!; try done.
    + split; [by constructor|]. constructor; [done|]. rewrite list.Forall_forall. intros x Hx. apply Hlt. set_solver.
    + intros x [->|Hx]%elem_of_cons; [apply Hlt; set_solver|auto].
Qed.

(** A key not below [q] is above everything to the left of [q]. *)
Lemma above_left kf p A q B : ordered ok cmp kf (A ++ q :: B) → ok (kf p) → cmp (kf p) (kf q) ≠ -1 →
  ∀ a, a ∈ A → cmp (kf p) (kf a) = 1.
Proof.
  intros Ho Hp Hne a Ha. destruct (ordered_app _ _ _ _ Ho) as ([HokA _] & _ & Hq & Hlt & _).
  rewrite list.Forall_forall in HokA. specialize (HokA a Ha). specialize (Hlt a Ha).
  rewrite (cmp_antisym (kf a) (kf p)) by done.
  destruct (cmp_range (kf p) (kf q)) as [?|[E|E]]; [done..| |].
  - apply cmp_eq in E; [|done..]. rewrite E, Hlt. lia.
  - rewrite (cmp_trans (kf a) (kf q) (kf p)); [lia|done..|]. rewrite (cmp_antisym (kf p) (kf q)) by done. lia.
Qed.

Lemma compare_values_ok v1 v2 : ok v1 → ok v2 → compare_values cmp v1 v2 = Some (cmp v1 v2).
Proof.
  intros H1 H2. unfold compare_values. destruct (cmp_range v1 v2 H1 H2) as [E|[E|E]]; by rewrite E.
Qed.

(** Insertion into the subtree at a path is insertion into the sorted list. *)
Lemma insert_at_ok kf p c pa : c ≠ Leaf → avl c → ordered ok cmp kf (inorder c) → ok (kf p) →
  path_ok pa (height c) →
  match list_insert_sorted cmp kf p (inorder c) with
  | None => insert_at cmp kf p c pa = Some (false, zip pa c)
  | Some l => ∃ t, insert_at cmp kf p c pa = Some (true, t) ∧ avl t ∧ inorder t = inorder_zip pa l
  end.
Proof.
  revert pa. induction c as [|l IHl n b r IHr]; intros pa Hnl Ha Ho Hp Hpa; [done|].
  destruct Ha as (Hl & Hr & Eb & Hb). pose proof (ordered_app _ _ _ _ Ho) as (HoA & HoB & Hq & _).
  simpl. rewrite compare_values_ok by done. cbn [mbind option_bind].
  destruct (cmp_range (kf p) (kf n)) as [E|[E|E]]; [done..| | |]; rewrite E; cbn.
  - rewrite insert_sorted_left by done. destruct (is_null l) eqn:En.
    + destruct l; [|done]. simpl.
      destruct (rebalance_ok pa (Node (Node Leaf p 0 Leaf) n b r) false 1) as (t & -> & ? & ?);
        [simpl in *; split_and!; try done; lia|done| |simpl; eauto].
      eapply (eq_rect _ (path_ok pa)); [exact Hpa|]. simpl in *. lia.
    + assert (l ≠ Leaf) as Hln by (by intros ->).
      specialize (IHl (mk_frame false n b r :: pa) Hln Hl HoA Hp ltac:(done)).
      destruct (list_insert_sorted cmp kf p (inorder l)); simpl in *; done.
  - rewrite insert_sorted_skip by (eapply above_left; [done..|lia]). simpl. by rewrite E.
  - rewrite insert_sorted_skip by (eapply above_left; [done..|lia]). simpl. rewrite E. simpl.
    destruct (is_null r) eqn:En.
    + destruct r; [|done]. simpl.
      destruct (rebalance_ok pa (Node l n b (Node Leaf p 0 Leaf)) true 1) as (t & -> & ? & ?);
        [simpl in *; split_and!; try done; lia|done| |simpl; eauto].
      eapply (eq_rect _ (path_ok pa)); [exact Hpa|]. simpl in *. lia.
    + assert (r ≠ Leaf) as Hrn by (by intros ->).
      assert (path_ok (mk_frame true n b l :: pa) (height r)) as Hpa'.
      { simpl. split_and!; try done; try lia. by rewrite Z.max_comm. }
      specialize (IHr (mk_frame true n b l :: pa) Hrn Hr HoB Hp Hpa').
      destruct (list_insert_sorted cmp kf p (inorder r)); simpl in *; done.
Qed.

Lemma Insert_ok kf p t : avl t → ordered ok cmp kf (inorder t) → ok (kf p) →
  match list_insert_sorted cmp kf p (inorder t) with
  | None => Insert cmp kf p t = Some (false, t)
  | Some l => ∃ t', Insert cmp kf p t = Some (true, t') ∧ avl t' ∧ inorder t' = l
  end.
Proof.
  intros Ha Ho Hp. unfold Insert. destruct t as [|l n b r]; [simpl; eexists; split_and!; done|].
  by apply (insert_at_ok kf p (Node l n b r) []).
Qed.

Lemma LookupExact_ok kf k t : ordered ok cmp kf (inorder t) → ok k →
  ∃ r, LookupExact cmp kf k t = Some r ∧
    match r with Some p => p ∈ inorder t ∧ kf p = k | None => ∀ p, p ∈ inorder t → kf p ≠ k end.
Proof.
  induction t as [|l IHl n b r IHr]; intros Ho Hk; simpl.
  { exists None. split; [done|]. by intros p ?%elem_of_nil. }
  pose proof (ordered_app _ _ _ _ Ho) as (HoA & HoB & Hq & HA & HB). rewrite compare_values_ok by done. simpl.
  assert (∀ p, p ∈ inorder l → ok (kf p)) as HokA by (apply list.Forall_forall, HoA).
  assert (∀ p, p ∈ inorder r → ok (kf p)) as HokB by (apply list.Forall_forall, HoB).
  destruct (cmp_range k (kf n)) as [E|[E|E]]; [done..| | |]; rewrite E; simpl.
  - destruct (IHl HoA Hk) as (res & -> & Hres). exists res. split; [done|]. destruct res as [p|]; [set_solver|].
    intros p [?|[->|Hp]%elem_of_cons]%elem_of_app; [auto| |].
    + intros <-. rewrite (proj2 (cmp_eq _ _ Hq Hq) eq_refl) in E. done.
    + intros <-. rewrite (cmp_antisym (kf n) (kf p)), (HB p Hp) in E by auto. done.
  - exists (Some n). split; [done|]. apply cmp_eq in E; [|done..]. set_solver.
  - destruct (IHr HoB Hk) as (res & -> & Hres). exists res. split; [done|]. destruct res as [p|]; [set_solver|].
    intros p [Hp|[->|?]%elem_of_cons]%elem_of_app; [| |auto].
    + intros <-. rewrite (HA p Hp) in E. done.
    + intros <-. rewrite (proj2 (cmp_eq _ _ Hq Hq) eq_refl) in E. done.
Qed.

(** ** Removal *)

Lemma inorder_zip_app pa pa' l : inorder_zip (pa ++ pa') l = inorder_zip pa' (inorder_zip pa l).
Proof. revert l. induction pa as [|f pa IH]; intros l; [done|]. simpl. apply IH. Qed.
Lemma inorder_zip_context pa : ∃ A B, ∀ l, inorder_zip pa l = A ++ l ++ B.
Proof.
  induction pa as [|f pa (A & B & IH)]; [exists [], []; intros l; by rewrite app_nil_r|].
  destruct (f_side f) eqn:E.
  - exists (A ++ inorder (f_other f) ++ [f_node f]), B. intros l. simpl. rewrite E, IH. by rewrite <- !app_assoc.
  - exists A, (f_node f :: inorder (f_other f) ++ B). intros l. simpl. rewrite E, IH. by rewrite <- !app_assoc.
Qed.

Lemma locate_ok p t pa : avl t → path_ok pa (height t) →
  match locate p t pa with
  | Some (c, pa') => ∃ l b r, c = Node l p b r ∧ avl c ∧ path_ok pa' (height c) ∧
      inorder_zip pa' (inorder c) = inorder_zip pa (inorder t)
  | None => p ∉ inorder t
  end.
Proof.
  revert pa. induction t as [|l IHl n b r IHr]; intros pa Ha Hpa; simpl; [set_solver|].
  destruct (decide (n = p)) as [->|Hne]; [eauto 10|].
  destruct Ha as (Hl & Hr & Eb & Hb). simpl in Hpa.
  specialize (IHl (mk_frame false n b r :: pa) Hl). specialize (IHr (mk_frame true n b l :: pa) Hr).
  destruct (locate p l _) as [[c pa']|].
  - destruct IHl as (? & ? & ? & ? & ? & ? & E); [done|]. eauto 10.
  - assert (path_ok (mk_frame true n b l :: pa) (height r)) as Hpr.
    { simpl. rewrite (Z.max_comm (height r)). done. }
    specialize (IHr Hpr). destruct (locate p r _) as [[c pa']|].
    + destruct IHr as (? & ? & ? & ? & ? & ? & E). eauto 10.
    + assert (p ∉ inorder l) by (apply IHl; done). set_solver.
Qed.

Lemma subtree_max_ok t : t ≠ Leaf → avl t →
  ∃ ml m mb pm A, (∀ pa, subtree_max t pa = Some (Node ml m mb Leaf, pm ++ pa)) ∧ avl (Node ml m mb Leaf) ∧
    (∀ pa, path_ok pa (height t) → path_ok (pm ++ pa) (height (Node ml m mb Leaf))) ∧
    (∀ x, inorder_zip pm x = A ++ x) ∧ inorder t = A ++ inorder ml ++ [m].
Proof.
  induction t as [|l _ n b r IHr]; intros Hne Ha; [done|]. simpl. destruct (is_null r) eqn:En.
  - destruct r; [|done]. destruct Ha as (Hl & _ & Eb & Hb). simpl in Eb.
    exists l, n, b, [], []. split_and!; done || lia.
  - destruct Ha as (Hl & Hr & Eb & Hb). destruct IHr as (ml & m & mb & pm & A & E & Ham & Hpm & Hz & Hi); [by intros ->|done|].
    exists ml, m, mb, (pm ++ [mk_frame true n b l]), (inorder l ++ n :: A).
    split; [intros pa; by rewrite E, <- app_assoc|]. split; [exact Ham|]. split_and!.
    + intros pa Hpa. rewrite <- app_assoc. apply Hpm. simpl. rewrite (Z.max_comm (height r)). done.
    + intros x. rewrite inorder_zip_app. simpl. by rewrite Hz, <- app_assoc.
    + by rewrite Hi, <- app_assoc.
Qed.

(** A node with at most one child is replaced by it. *)
Lemma unlink_ok c child pa : avl child → path_ok pa (height c) → height c = 1 + height child →
  ∃ t, (match pa with [] => Some child | f :: pa => rebalance pa (plug f child) (f_side f) (-1) end) = Some t ∧
    avl t ∧ inorder t = inorder_zip pa (inorder child).
Proof.
  intros Hc Hpa Hh. destruct pa as [|f pa]; [eauto|]. destruct Hpa as (Ho & Hb & Eb & Hpa).
  destruct (rebalance_ok pa (plug f child) (f_side f) (-1)) as (t & E & ? & Hi).
  - unfold plug. destruct (f_side f); simpl; split_and!; try done; lia.
  - done.
  - eapply (eq_rect _ (path_ok pa)); [exact Hpa|]. unfold plug. destruct (f_side f); simpl; lia.
  - exists t. split_and!; try done. by rewrite Hi, inorder_plug.
Qed.

Lemma remove_at_ok l p b r pa : avl (Node l p b r) → path_ok pa (height (Node l p b r)) →
  ∃ t, remove_at (Node l p b r) pa = Some t ∧ avl t ∧ inorder t = inorder_zip pa (inorder l ++ inorder r).
Proof.
  intros Ha Hpa. unfold remove_at.
  destruct l as [|ll ln lb lr], r as [|rl rn rb rr]; cbn [mbind option_bind].
  - apply (unlink_ok (Node Leaf p b Leaf)); done.
  - destruct Ha as (_ & Hr & Eb & Hb). apply (unlink_ok (Node Leaf p b (Node rl rn rb rr)) (Node rl rn rb rr)); try done.
    pose proof (height_nonneg (Node rl rn rb rr)). cbn [height]. simpl height in *. lia.
  - destruct Ha as (Hl & _ & Eb & Hb). cbn [link is_null negb andb].
    destruct (unlink_ok (Node (Node ll ln lb lr) p b Leaf) (Node ll ln lb lr) pa) as (t & E & ? & Hi); try done.
    { pose proof (height_nonneg (Node ll ln lb lr)). cbn [height]. simpl height in *. lia. }
    exists t. split_and!; try done. by rewrite app_nil_r.
  - set (l := Node ll ln lb lr) in *. set (r := Node rl rn rb rr) in *. destruct Ha as (Hl & Hr & Eb & Hb).
    destruct (subtree_max_ok l) as (ml & m & mb & pm & A & E & Ham & Hpm & Hz & Hi); [done|done|].
    unfold swap_with_max. rewrite E. cbn [mbind option_bind]. rewrite E. cbn [mbind option_bind link is_null negb].
    rewrite andb_false_r.
    destruct Ham as (Hml & _ & Emb & Hmb). pose proof (height_nonneg ml) as Hn.
    destruct (unlink_ok (Node ml m mb Leaf) ml (pm ++ mk_frame false m b r :: pa)) as (t & Eu & ? & Hu).
    + done.
    + apply Hpm. done.
    + cbn [height]. simpl height in Emb. lia.
    + exists t. split_and!; [|done|].
      * rewrite <- Eu. destruct ml; done.
      * rewrite Hu, inorder_zip_app. cbn [inorder_zip f_side f_node f_other]. rewrite Hz, Hi. by rewrite <- !app_assoc.
Qed.

Lemma Remove_ok p t : avl t → NoDup (inorder t) → p ∈ inorder t →
  ∃ t', Remove p t = Some t' ∧ avl t' ∧ inorder t' = filter (λ q, q ≠ p) (inorder t).
Proof.
  intros Ha Hnd Hp. unfold Remove. pose proof (locate_ok p t [] Ha I) as Hl.
  destruct (locate p t []) as [[c pa]|]; [|done]. destruct Hl as (l & b & r & -> & Hc & Hpa & Hz).
  simpl in Hz. cbn [mbind option_bind]. destruct (remove_at_ok l p b r pa Hc Hpa) as (t' & E & ? & Hi).
  exists t'. split_and!; [done|done|]. destruct (inorder_zip_context pa) as (A & B & HAB).
  rewrite HAB in Hz, Hi. rewrite Hi, <- Hz. rewrite <- Hz in Hnd.
  rewrite <- app_assoc in Hnd |- *. simpl in *. rewrite <- app_assoc.
  assert (p ∉ A ++ inorder l ∧ p ∉ inorder r ++ B) as [H1 H2].
  { rewrite app_assoc in Hnd. apply list.NoDup_app in Hnd as (_ & H1 & H2). apply list.NoDup_cons in H2 as [? _]. set_solver. }
  change ((p :: inorder r) ++ B) with (p :: (inorder r ++ B)).
  rewrite (app_assoc A (inorder l) (p :: _)), list.filter_app, filter_cons, decide_False by naive_solver.
  rewrite !filter_neq_notin by done. by rewrite <- !app_assoc.
Qed.

Lemma GetFirst_ok t : GetFirst t = head (inorder t).
Proof.
  induction t as [|l IHl n b r _]; [done|]. simpl. destruct (is_null l) eqn:E; [by destruct l|].
  rewrite IHl. destruct l; [done|]. simpl. by destruct (inorder l1).
Qed.
Lemma GetLast_ok t : GetLast t = list.last (inorder t).
Proof.
  induction t as [|l _ n b r IHr]; [done|]. simpl. rewrite last_app_cons. destruct (is_null r) eqn:E; [by destruct r|].
  rewrite IHr. destruct r as [|r1 m c r2]; [done|]. simpl inorder. by destruct (inorder r1).
Qed.

(** ** Neighbours *)

(** The nodes before and after those at a path. *)
Fixpoint nodes_before (pa : path) : list nat :=
  match pa with [] => [] | f :: pa => nodes_before pa ++ (if f_side f then inorder (f_other f) ++ [f_node f] else []) end.
Fixpoint nodes_after (pa : path) : list nat :=
  match pa with [] => [] | f :: pa => (if f_side f then [] else f_node f :: inorder (f_other f)) ++ nodes_after pa end.
Lemma inorder_before_after pa l : inorder_zip pa l = nodes_before pa ++ l ++ nodes_after pa.
Proof.
  revert l. induction pa as [|f pa IH]; intros l; simpl; [by rewrite app_nil_r|]. rewrite IH.
  destruct (f_side f); simpl; rewrite ?app_nil_r, <- !app_assoc; done.
Qed.

Lemma NoDup_split_unique (A B A' B' : list nat) n : NoDup (A ++ n :: B) → A ++ n :: B = A' ++ n :: B' → A = A' ∧ B = B'.
Proof.
  revert A'. induction A as [|a A IH]; intros [|a' A']; simpl; intros Hnd [=]; subst; try done.
  - apply list.NoDup_cons in Hnd as [Hn _]. set_solver.
  - apply list.NoDup_cons in Hnd as [Hn _]. set_solver.
  - apply list.NoDup_cons in Hnd as [_ Hnd]. by destruct (IH A' Hnd) as [-> ->].
Qed.

(** The nearest node: everything before it is below the value, everything after it above. *)
Lemma Lookup_ok kf k t : ordered ok cmp kf (inorder t) → ok k → t ≠ Leaf →
  ∃ A p B, Lookup cmp kf k t = Some (Some p) ∧ inorder t = A ++ p :: B ∧
    (∀ a, a ∈ A → cmp (kf a) k = -1) ∧ (∀ b, b ∈ B → cmp k (kf b) = -1).
Proof.
  induction t as [|l IHl n b r IHr]; intros Ho Hk Hne; [done|]. cbn [Lookup].
  pose proof (ordered_app _ _ _ _ Ho) as (HoA & HoB & Hq & HA & HB). rewrite compare_values_ok by done. cbn [mbind option_bind].
  assert (∀ p, p ∈ inorder l → ok (kf p)) as HokA by (apply list.Forall_forall, HoA).
  assert (∀ p, p ∈ inorder r → ok (kf p)) as HokB by (apply list.Forall_forall, HoB).
  destruct (cmp_range k (kf n)) as [E|[E|E]]; [done..| | |]; rewrite E; cbn [Z.eqb link].
  - assert (∀ q, q ∈ inorder r → cmp k (kf q) = -1) as HkB by (intros q Hr; apply (cmp_trans k (kf n)); auto).
    destruct l as [|l1 m c l2]; simpl is_null; cbn iota.
    + exists [], n, (inorder r). split_and!; [done|done|by intros ? ?%elem_of_nil|done].
    + destruct (IHl HoA Hk ltac:(done)) as (A & p & B & E' & Ei & Hla & Hlb).
      exists A, p, (B ++ n :: inorder r). rewrite E'. split_and!; [done| |done|].
      * cbn [inorder]. cbn [inorder] in Ei. rewrite Ei. by rewrite <- app_assoc.
      * intros q [?|[->|?]%elem_of_cons]%elem_of_app; auto.
  - apply cmp_eq in E; [|done..]. subst k. exists (inorder l), n, (inorder r). done.
  - assert (cmp (kf n) k = -1) as E1 by (rewrite (cmp_antisym k (kf n)) by done; lia).
    assert (∀ q, q ∈ inorder l → cmp (kf q) k = -1) as HkA by (intros q Hr; apply (cmp_trans _ (kf n)); auto).
    destruct r as [|r1 m c r2]; simpl is_null; cbn iota.
    + exists (inorder l), n, []. split_and!; [done|done|done|by intros ? ?%elem_of_nil].
    + destruct (IHr HoB Hk ltac:(done)) as (A & p & B & E' & Ei & Hla & Hlb).
      exists (inorder l ++ n :: A), p, B. rewrite E'. split_and!; [done| | |done].
      * cbn [inorder]. cbn [inorder] in Ei. rewrite Ei. by rewrite <- app_assoc.
      * intros q [?|[->|?]%elem_of_cons]%elem_of_app; auto.
Qed.

(** ** Height *)

Lemma avl_size t : avl t → ∀ k : nat, 2 * Z.of_nat k ≤ height t → 2 ^ Z.of_nat k ≤ zlen (inorder t) + 1.
Proof.
  induction t as [|l IHl n b r IHr]; intros Ha k Hk; simpl in *.
  - replace k with 0%nat by lia. done.
  - destruct Ha as (Hl & Hr & Eb & Hb). specialize (IHl Hl). specialize (IHr Hr).
    rewrite zlen_app, zlen_cons. pose proof (zlen_nonneg (inorder l)). pose proof (zlen_nonneg (inorder r)).
    destruct k as [|k]; [change (2 ^ Z.of_nat 0) with 1; lia|].
    specialize (IHl k ltac:(lia)). specialize (IHr k ltac:(lia)).
    rewrite Nat2Z.inj_succ, Z.pow_succ_r by lia. lia.
Qed.
End Trees.

Section Sequences.
Import AvlTree.

Context {K : Type} (ok : K → Prop) (cmp : K → K → Z) `{!TotalCmp ok cmp}.

(** ** Sequences of operations *)

Inductive op := OpInsert (node : nat) | OpRemove (node : nat) | OpLookup (val : K) | OpFirst | OpLast.
Inductive answer := AInserted (b : bool) | ARemoved | ANode (n : option nat).

(** On the tree; [None]: a violated assertion. *)
Definition op_tree (kf : nat → K) (o : op) (t : tree) : option (answer * tree) :=
  match o with
  | OpInsert p => '(b, t') ← Insert cmp kf p t; Some (AInserted b, t')
  | OpRemove p => t' ← Remove p t; Some (ARemoved, t')
  | OpLookup k => r ← LookupExact cmp kf k t; Some (ANode r, t)
  | OpFirst => Some (ANode (GetFirst t), t)
  | OpLast => Some (ANode (GetLast t), t)
  end.
(** On the sorted list; [None]: removing a node that is not in it. *)
Definition op_list (kf : nat → K) (o : op) (l : list nat) : option (answer * list nat) :=
  match o with
  | OpInsert p => match list_insert_sorted cmp kf p l with
                  | Some l' => Some (AInserted true, l') | None => Some (AInserted false, l) end
  | OpRemove p => if decide (p ∈ l) then Some (ARemoved, filter (λ q, q ≠ p) l) else None
  | OpLookup k => Some (ANode (snd <$> list_find (λ p, cmp k (kf p) = 0) l), l)
  | OpFirst => Some (ANode (head l), l)
  | OpLast => Some (ANode (list.last l), l)
  end.
Fixpoint run {S} (f : op → S → option (answer * S)) (ops : list op) (s : S) : option (list answer * S) :=
  match ops with
  | [] => Some ([], s)
  | o :: ops => '(a, s) ← f o s; '(as_, s) ← run f ops s; Some (a :: as_, s)
  end.
Definition op_ok (o : op) : Prop := match o with OpLookup k => ok k | _ => True end.

Lemma list_insert_sorted_some kf p l l' : ordered ok cmp kf l → ok (kf p) →
  list_insert_sorted cmp kf p l = Some l' → ordered ok cmp kf l'.
Proof.
  intros Ho Hp E. destruct (decide (Exists (λ q, cmp (kf p) (kf q) = 0) l)) as [Hex|Hne].
  - exfalso. apply list.Exists_exists in Hex as (q & Hq & E0).
    apply list_elem_of_split in Hq as (A & B & ->).
    rewrite insert_sorted_skip in E by (eapply above_left; [done..|lia]). simpl in E. by rewrite E0 in E.
  - destruct (list_insert_sorted_spec ok cmp kf p l Ho Hp) as (l'' & E' & ? & _); [|congruence].
    intros q Hq Ek. apply Hne, list.Exists_exists. exists q. split; [done|]. rewrite Ek. by apply cmp_eq.
Qed.

Lemma lookup_list_find kf k t : ordered ok cmp kf (inorder t) → ok k →
  LookupExact cmp kf k t = Some (snd <$> list_find (λ p, cmp k (kf p) = 0) (inorder t)).
Proof.
  intros Ho Hk. destruct (LookupExact_ok kf k t Ho Hk) as (r & -> & Hr). f_equal.
  pose proof (ix_lookup_spec (IndexLaws := list_index_laws ok cmp) kf k (inorder t) Ho Hk) as Hs. simpl in Hs.
  destruct (snd <$> _) as [q|], r as [p|]; [|naive_solver|naive_solver|done]. f_equal.
  eapply ordered_key_inj; [done|apply Hr|apply Hs|]. destruct Hr as [_ ->], Hs as [_ ->]. done.
Qed.

Lemma op_tree_list kf o t a l : (∀ p, ok (kf p)) → op_ok o → avl t → ordered ok cmp kf (inorder t) →
  op_list kf o (inorder t) = Some (a, l) →
  ∃ t', op_tree kf o t = Some (a, t') ∧ avl t' ∧ inorder t' = l ∧ ordered ok cmp kf l.
Proof.
  intros Hkf Hop Ha Ho. destruct o as [p|p|k| |]; simpl.
  - pose proof (Insert_ok kf p t Ha Ho (Hkf p)) as Hi. destruct (list_insert_sorted cmp kf p (inorder t)) as [l'|] eqn:E;
      intros [= <- <-].
    + destruct Hi as (t' & -> & ? & ?). exists t'. split_and!; try done. by eapply list_insert_sorted_some.
    + rewrite Hi. by exists t.
  - case_decide as Hp; [|done]. intros [= <- <-].
    destruct (Remove_ok p t Ha (ordered_NoDup kf _ Ho) Hp) as (t' & -> & ? & ?). exists t'. split_and!; try done.
    apply (ix_remove_spec (IndexLaws := list_index_laws ok cmp) kf p (inorder t)); done.
  - intros [= <- <-]. rewrite lookup_list_find by done. by exists t.
  - intros [= <- <-]. rewrite GetFirst_ok. by exists t.
  - intros [= <- <-]. rewrite GetLast_ok. by exists t.
Qed.

End Sequences.

(** Integer keys. *)
Lemma B_COMPARE_total : TotalCmp (λ _ : Z, True) B_COMPARE.
Proof.
  split; intros; unfold B_COMPARE in *;
    repeat match goal with H : context [?x <? ?y] |- _ => destruct (Z.ltb_spec x y)
           | |- context [?x <? ?y] => destruct (Z.ltb_spec x y) end; simpl in *; lia.
Qed.
