(* ===== verification/CAvl.v ===== *)
(** * AVL trees of linked nodes: structure/CAvl_impl.h and structure/SAvl_impl.h

    The tree of the timers of the event loop and, through the wrappers of SAvl,
    of the flows of the fair queue.  Here the tree is what it is in memory: every
    node holds the links to its parent and its two children and its balance
    factor, and the operations read and write these fields one at a time, in the
    order of the source.  A reference is the link itself, since both trees are
    instantiated with [DEREF(arg, link) = link]; [NULL] is [None].  An operation
    is [None] if it fails an assertion or follows a link to no node.

    The operations are proved to do on the linked nodes what those of [AvlTree] do on
    inductive trees: [rep] ties a tree to the nodes in memory, [repz] does so for
    the path from a node up to the root.

    The trees are instantiated without counts, associated sums, indices as keys
    and keys, so that those features of the header are not compiled. *)
From Stdlib Require Import ZArith Lia Sorting.Sorted.
From stdpp Require Import base list sets gmap numbers.
From S2P Require Import Prelude ByteOrder Addr Index Avl.
#[local] Open Scope Z_scope.

Module CAvl.
Abbreviation assert := AvlTree.assert.

(** [CAvlLink]: [None] is the null link. *)
Abbreviation CAvlLink := (option nat).
(** The fields of an entry that belong to the tree; [int8_t balance] stays between -2 and 2. *)
Record CAvlNode := mk_CAvlNode { CAvl_parent : CAvlLink; CAvl_link0 : CAvlLink; CAvl_link1 : CAvlLink; CAvl_balance : Z }.
(** [CAvl], and the tree fields of the entries. *)
Record CAvl := mk_CAvl { root : CAvlLink; nodes : gmap nat CAvlNode }.

Definition CAvl_link (n : CAvlNode) (side : bool) : CAvlLink := if side then CAvl_link1 n else CAvl_link0 n.
Definition upd_link (side : bool) (x : CAvlLink) (n : CAvlNode) : CAvlNode :=
  if side then mk_CAvlNode (CAvl_parent n) (CAvl_link0 n) x (CAvl_balance n)
  else mk_CAvlNode (CAvl_parent n) x (CAvl_link1 n) (CAvl_balance n).
Definition upd_parent (x : CAvlLink) (n : CAvlNode) : CAvlNode :=
  mk_CAvlNode x (CAvl_link0 n) (CAvl_link1 n) (CAvl_balance n).
Definition upd_balance (b : Z) (n : CAvlNode) : CAvlNode :=
  mk_CAvlNode (CAvl_parent n) (CAvl_link0 n) (CAvl_link1 n) b.

(** Reads and writes of the fields of a node. *)
Definition get (s : CAvl) (n : nat) : option CAvlNode := nodes s !! n.
Definition get_link (s : CAvl) (n : nat) (side : bool) : option CAvlLink := d ← get s n; Some (CAvl_link d side).
Definition get_parent (s : CAvl) (n : nat) : option CAvlLink := d ← get s n; Some (CAvl_parent d).
Definition get_balance (s : CAvl) (n : nat) : option Z := d ← get s n; Some (CAvl_balance d).
Definition put (s : CAvl) (n : nat) (f : CAvlNode → CAvlNode) : option CAvl :=
  _ ← get s n; Some (mk_CAvl (root s) (alter f n (nodes s))).
Definition set_link (s : CAvl) (n : nat) (side : bool) (x : CAvlLink) : option CAvl := put s n (upd_link side x).
Definition set_parent (s : CAvl) (n : nat) (x : CAvlLink) : option CAvl := put s n (upd_parent x).
Definition set_balance (s : CAvl) (n : nat) (b : Z) : option CAvl := put s n (upd_balance b).
Definition set_root (s : CAvl) (x : CAvlLink) : CAvl := mk_CAvl x (nodes s).

(** [if (l != null) parent(l) = p] *)
Definition set_parent_if (s : CAvl) (l : CAvlLink) (p : CAvlLink) : option CAvl :=
  match l with None => Some s | Some c => set_parent s c p end.
(** [if (p != null) link(p)[old == link(p)[1]] = new; else o->root = new;] *)
Definition set_child (s : CAvl) (p : CAvlLink) (old : nat) (new : CAvlLink) : option CAvl :=
  match p with
  | Some p => r ← get_link s p true; set_link s p (bool_decide (Some old = r)) new
  | None => Some (set_root s new)
  end.

Definition CAvl_check_parent (s : CAvl) (p : CAvlLink) (c : nat) : option bool :=
  cp ← get_parent s c;
  if bool_decide (p = cp) then
    match p with
    | None => Some true
    | Some p =>
        l ← get_link s p false;
        if bool_decide (Some c = l) then Some true else r ← get_link s p true; Some (bool_decide (Some c = r))
    end
  else Some false.

Definition CAvl_rotate (s : CAvl) (r : nat) (dir : bool) (r_parent : CAvlLink) : option CAvl :=
  b ← CAvl_check_parent s r_parent r; _ ← assert b;
  nr ← get_link s r (negb dir); nr ← nr;
  x ← get_link s nr dir;
  s ← set_link s r (negb dir) x;
  x ← get_link s r (negb dir);
  s ← set_parent_if s x (Some r);
  s ← set_link s nr dir (Some r);
  s ← set_parent s nr r_parent;
  s ← set_child s r_parent r (Some nr);
  set_parent s r (Some nr).

(** The loops of [CAvl_subtree_min] and [CAvl_subtree_max]. *)
Fixpoint descend (fuel : nat) (side : bool) (s : CAvl) (n : nat) : option nat :=
  match fuel with
  | O => None
  | S fuel => l ← get_link s n side; match l with None => Some n | Some c => descend fuel side s c end
  end.
(** A loop passes each node at most once. *)
Definition fuel_of (s : CAvl) : nat := S (size (nodes s)).
Definition CAvl_subtree_min (s : CAvl) (n : CAvlLink) : option nat := n ← n; descend (fuel_of s) false s n.
Definition CAvl_subtree_max (s : CAvl) (n : CAvlLink) : option nat := n ← n; descend (fuel_of s) true s n.

Definition CAvl_replace_subtree_fix_assoc (s : CAvl) (dest : nat) (n : CAvlLink) (dest_parent : CAvlLink) : option CAvl :=
  b ← CAvl_check_parent s dest_parent dest; _ ← assert b;
  s ← set_child s dest_parent dest n;
  p ← get_parent s dest;
  set_parent_if s n p.

(** [if ((link(a)[side] = x) != null) parent(link(a)[side]) = a;] *)
Definition adopt (s : CAvl) (a : nat) (side : bool) (x : CAvlLink) : option CAvl :=
  s ← set_link s a side x; set_parent_if s x (Some a).

(** The nodes are directly connected. *)
Definition swap_connected (s : CAvl) (node enode : nat) (node_parent : CAvlLink) : option CAvl :=
  r ← get_link s node true; let side := bool_decide (Some enode = r) in
  c ← get_link s node (negb side);
  x ← get_link s enode false; s ← adopt s node false x;
  x ← get_link s enode true; s ← adopt s node true x;
  p ← get_parent s node; s ← set_parent s enode p;
  s ← set_child s node_parent node (Some enode);
  s ← set_link s enode side (Some node);
  s ← set_parent s node (Some enode);
  adopt s enode (negb side) c.
Definition swap_others (s : CAvl) (node enode : nat) (node_parent enode_parent : CAvlLink) : option CAvl :=
  p ← get_parent s enode; s ← set_parent s node p;
  s ← set_child s enode_parent enode (Some node);
  s ← set_parent s enode node_parent;
  s ← set_child s node_parent node (Some enode);
  temp ← get_link s node false;
  x ← get_link s enode false; s ← adopt s node false x;
  s ← adopt s enode false temp;
  temp ← get_link s node true;
  x ← get_link s enode true; s ← adopt s node true x;
  adopt s enode true temp.
Definition CAvl_swap_for_remove (s : CAvl) (node enode : nat) (node_parent enode_parent : CAvlLink) : option CAvl :=
  b ← CAvl_check_parent s node_parent node; _ ← assert b;
  b ← CAvl_check_parent s enode_parent enode; _ ← assert b;
  s ← (if bool_decide (enode_parent = Some node) then swap_connected s node enode node_parent
       else swap_others s node enode node_parent enode_parent);
  b ← get_balance s node; eb ← get_balance s enode;
  s ← set_balance s node eb;
  set_balance s enode b.

Definition CAvl_MAX (a b : Z) : Z := if b <? a then a else b.
Definition CAvl_OPTNEG (a : Z) (neg : bool) : Z := if neg then - a else a.

(** The transformations of [CAvl_rebalance]: the node that is in the place of
    [node] afterwards, and [delta]. *)
Definition transform (s : CAvl) (node : nat) (delta : Z) : option (CAvl * nat * Z) :=
  b ← get_balance s node;
  if (b =? 2) || (b =? -2) then
    let bside := b =? 2 in
    let bsidef := if bside then 1 else -1 in
    child ← get_link s node bside; child ← child;
    cb ← get_balance s child;
    if cb * bsidef =? 1 then
      p ← get_parent s node; s ← CAvl_rotate s node (negb bside) p;
      s ← set_balance s node 0; s ← set_balance s child 0;
      Some (s, child, delta - 1)
    else if cb * bsidef =? 0 then
      p ← get_parent s node; s ← CAvl_rotate s node (negb bside) p;
      s ← set_balance s node (1 * bsidef); s ← set_balance s child (-1 * bsidef);
      Some (s, child, delta)
    else if cb * bsidef =? -1 then
      gchild ← get_link s child (negb bside); gchild ← gchild;
      s ← CAvl_rotate s child bside (Some node);
      p ← get_parent s node; s ← CAvl_rotate s node (negb bside) p;
      gb ← get_balance s gchild;
      s ← set_balance s node (- CAvl_MAX 0 (gb * bsidef) * bsidef);
      s ← set_balance s child (CAvl_MAX 0 (- gb * bsidef) * bsidef);
      s ← set_balance s gchild 0;
      Some (s, gchild, delta - 1)
    else None
  else Some (s, node, delta).

Definition in_range (x : Z) : bool := (-1 <=? x) && (x <=? 1).

(** The recursion goes up to the root, one node at a time. *)
Fixpoint CAvl_rebalance (fuel : nat) (s : CAvl) (node : nat) (side : bool) (deltac : Z) : option CAvl :=
  match fuel with
  | O => None
  | S fuel =>
      b ← get_balance s node; _ ← assert (in_range deltac && in_range b);
      if deltac =? 0 then Some s else
      let delta := CAvl_MAX deltac (CAvl_OPTNEG b side) - CAvl_MAX 0 (CAvl_OPTNEG b side) in
      _ ← assert (in_range delta);
      s ← set_balance s node (b - CAvl_OPTNEG deltac side);
      '(s, node, delta) ← transform s node delta;
      _ ← assert (in_range delta);
      p ← get_parent s node;
      match p with
      | None => Some s
      | Some p => r ← get_link s p true; CAvl_rebalance fuel s p (bool_decide (Some node = r)) delta
      end
  end.

Definition CAvl_Init (nodes : gmap nat CAvlNode) : CAvl := mk_CAvl None nodes.
Definition CAvl_IsEmpty (s : CAvl) : bool := bool_decide (root s = None).

Section Insert.
Context {K : Type} (cmp : K → K → Z) (kf : nat → K).

(** [CAvl_compare_entries], with its assertions. *)
Definition CAvl_compare_entries (node1 node2 : nat) : option Z :=
  let res := cmp (kf node1) (kf node2) in if (-1 <=? res) && (res <=? 1) then Some res else None.

(** The loop of [CAvl_Insert]: an equal node, or the node to insert below and the side. *)
Fixpoint insert_search (fuel : nat) (s : CAvl) (node c : nat) : option (nat + nat * bool) :=
  match fuel with
  | O => None
  | S fuel =>
      comp ← CAvl_compare_entries node c;
      if comp =? 0 then Some (inl c) else
      let side := comp =? 1 in
      l ← get_link s c side;
      match l with None => Some (inr (c, side)) | Some c => insert_search fuel s node c end
  end.

(** All the fields of an entry that is linked below [p]. *)
Definition init_node (s : CAvl) (node : nat) (p : CAvlLink) : CAvl :=
  mk_CAvl (root s) (<[node := mk_CAvlNode p None None 0]> (nodes s)).

(** The result, [*out_ref] and the tree. *)
Definition CAvl_Insert (s : CAvl) (node : nat) : option (bool * CAvlLink * CAvl) :=
  match root s with
  | None => Some (true, None, init_node (set_root s (Some node)) node None)
  | Some c =>
      r ← insert_search (fuel_of s) s node c;
      match r with
      | inl c => Some (false, Some c, s)
      | inr (c, side) =>
          s ← set_link s c side (Some node);
          let s := init_node s node (Some c) in
          s ← CAvl_rebalance (fuel_of s) s c side 1;
          Some (true, Some c, s)
      end
  end.
End Insert.

(** The rest of [CAvl_Remove], when the node has at most one child. *)
Definition unlink (s : CAvl) (node : nat) : option CAvl :=
  l ← get_link s node false; r ← get_link s node true;
  _ ← assert (bool_decide (l = None) || bool_decide (r = None));
  paren ← get_parent s node;
  let child := match l with Some _ => l | None => r end in
  match paren with
  | Some p =>
      pr ← get_link s p true; let side := bool_decide (Some node = pr) in
      s ← CAvl_replace_subtree_fix_assoc s node child paren;
      CAvl_rebalance (fuel_of s) s p side (-1)
  | None => CAvl_replace_subtree_fix_assoc s node child paren
  end.

Definition CAvl_Remove (s : CAvl) (node : nat) : option CAvl :=
  _ ← assert (negb (CAvl_IsEmpty s));
  l ← get_link s node false; r ← get_link s node true;
  s ← match l, r with
      | Some _, Some _ =>
          max ← CAvl_subtree_max s l; p ← get_parent s node; mp ← get_parent s max;
          CAvl_swap_for_remove s node max p mp
      | _, _ => Some s
      end;
  unlink s node.

(** The reference is null if the tree is empty. *)
Definition CAvl_GetFirst (s : CAvl) : option CAvlLink :=
  match root s with None => Some None | Some _ => n ← CAvl_subtree_min s (root s); Some (Some n) end.
Definition CAvl_GetLast (s : CAvl) : option CAvlLink :=
  match root s with None => Some None | Some _ => n ← CAvl_subtree_max s (root s); Some (Some n) end.

(** The loop of [CAvl_GetNext] ([side] true) and [CAvl_GetPrev] up the parents. *)
Fixpoint ascend (fuel : nat) (side : bool) (s : CAvl) (n : nat) : option CAvlLink :=
  match fuel with
  | O => None
  | S fuel =>
      p ← get_parent s n;
      match p with
      | None => Some None
      | Some q => l ← get_link s q side; if bool_decide (Some n = l) then ascend fuel side s q else Some p
      end
  end.
Definition CAvl_GetNext (s : CAvl) (node : nat) : option CAvlLink :=
  _ ← assert (negb (CAvl_IsEmpty s));
  r ← get_link s node true;
  match r with
  | Some c => n ← descend (fuel_of s) false s c; Some (Some n)
  | None => ascend (fuel_of s) true s node
  end.
Definition CAvl_GetPrev (s : CAvl) (node : nat) : option CAvlLink :=
  _ ← assert (negb (CAvl_IsEmpty s));
  l ← get_link s node false;
  match l with
  | Some c => n ← descend (fuel_of s) true s c; Some (Some n)
  | None => ascend (fuel_of s) false s node
  end.

(** *** Keys

    Both trees are instantiated without keys; this is the loop of
    [CAvl_LookupExact] where they are compiled in. *)
Section Keys.
Context {K : Type} (cmp : K → K → Z) (kf : nat → K).

Definition CAvl_compare_key_entry (key1 : K) (node2 : nat) : option Z :=
  let res := cmp key1 (kf node2) in if (-1 <=? res) && (res <=? 1) then Some res else None.
Fixpoint lookup_search (fuel : nat) (s : CAvl) (key : K) (c : nat) : option CAvlLink :=
  match fuel with
  | O => None
  | S fuel =>
      comp ← CAvl_compare_key_entry key c;
      if comp =? 0 then Some (Some c) else
      l ← get_link s c (comp =? 1);
      match l with None => Some None | Some c => lookup_search fuel s key c end
  end.
Definition CAvl_LookupExact (s : CAvl) (key : K) : option CAvlLink :=
  match root s with None => Some None | Some c => lookup_search (fuel_of s) s key c end.

(** *** Verification: the height of the subtree, if all is as it should be *)
Fixpoint CAvl_verify_recurser (fuel : nat) (s : CAvl) (n : nat) : option Z :=
  match fuel with
  | O => None
  | S fuel =>
      b ← get_balance s n; _ ← assert (-1 <=? b); _ ← assert (b <=? 1);
      l ← get_link s n false;
      height_left ← match l with
        | None => Some 0
        | Some c =>
            p ← get_parent s c; _ ← assert (bool_decide (p = Some n));
            comp ← CAvl_compare_entries cmp kf c n; _ ← assert (comp =? -1);
            CAvl_verify_recurser fuel s c
        end;
      r ← get_link s n true;
      height_right ← match r with
        | None => Some 0
        | Some c =>
            p ← get_parent s c; _ ← assert (bool_decide (p = Some n));
            comp ← CAvl_compare_entries cmp kf c n; _ ← assert (comp =? 1);
            CAvl_verify_recurser fuel s c
        end;
      _ ← assert (b =? height_right - height_left);
      Some (CAvl_MAX height_left height_right + 1)
  end.
Definition CAvl_Verify (s : CAvl) : option unit :=
  match root s with
  | None => Some ()
  | Some n =>
      p ← get_parent s n; _ ← assert (bool_decide (p = None));
      _ ← CAvl_verify_recurser (fuel_of s) s n; Some ()
  end.
End Keys.

End CAvl.

(** ** Trees in memory *)
Section Rep.
Import AvlTree CAvl.

Definition troot (t : tree) : CAvlLink := match t with Leaf => None | Node _ n _ _ => Some n end.

(** The nodes of [t] are in memory, linked as in [t], below [par]. *)
Fixpoint rep (h : gmap nat CAvlNode) (par : CAvlLink) (t : tree) : Prop :=
  match t with
  | Leaf => True
  | Node l n b r => h !! n = Some (mk_CAvlNode par (troot l) (troot r) b) ∧ rep h (Some n) l ∧ rep h (Some n) r
  end.

(** A node with [c] on [side] and [o] on the other. *)
Definition cell (side : bool) (par c o : CAvlLink) (b : Z) : CAvlNode :=
  if side then mk_CAvlNode par o c b else mk_CAvlNode par c o b.
(** The parent of what is at a path, and the root of what the path leads down from. *)
Definition up (pa : path) (par : CAvlLink) : CAvlLink := match pa with [] => par | f :: _ => Some (f_node f) end.
Fixpoint top (pa : path) (x : CAvlLink) : CAvlLink :=
  match pa with [] => x | f :: pa => top pa (Some (f_node f)) end.
(** The ancestors of a path are in memory, the nearest with the child [x], below [par]. *)
Fixpoint repz (h : gmap nat CAvlNode) (pa : path) (par x : CAvlLink) : Prop :=
  match pa with
  | [] => True
  | f :: pa => h !! f_node f = Some (cell (f_side f) (up pa par) x (troot (f_other f)) (f_balance f)) ∧
      rep h (Some (f_node f)) (f_other f) ∧ repz h pa par (Some (f_node f))
  end.
Fixpoint pnodes (pa : path) : list nat :=
  match pa with [] => [] | f :: pa => f_node f :: inorder (f_other f) ++ pnodes pa end.

(** The tree in memory is [t] at the path [pa]. *)
Definition linked (s : CAvl) (pa : path) (t : tree) : Prop :=
  rep (nodes s) (up pa None) t ∧ repz (nodes s) pa None (troot t) ∧
  NoDup (inorder t ++ pnodes pa) ∧ root s = top pa (troot t).

Lemma rep_plug h par f t : rep h par (plug f t) ↔
  h !! f_node f = Some (cell (f_side f) par (troot t) (troot (f_other f)) (f_balance f)) ∧
  rep h (Some (f_node f)) (f_other f) ∧ rep h (Some (f_node f)) t.
Proof. unfold plug, cell. destruct (f_side f); simpl; naive_solver. Qed.
Lemma troot_plug f t : troot (plug f t) = Some (f_node f).
Proof. unfold plug. by destruct (f_side f). Qed.
Lemma troot_zip pa t : troot (zip pa t) = top pa (troot t).
Proof. revert t. induction pa as [|f pa IH]; intros t; [done|]. simpl. by rewrite IH, troot_plug. Qed.
Lemma rep_zip h par pa t : rep h par (zip pa t) ↔ rep h (up pa par) t ∧ repz h pa par (troot t).
Proof.
  revert t. induction pa as [|f pa IH]; intros t; simpl; [naive_solver|].
  rewrite IH, rep_plug, troot_plug. naive_solver.
Qed.
Lemma pnodes_app pa pa' : pnodes (pa ++ pa') = pnodes pa ++ pnodes pa'.
Proof. induction pa as [|f pa IH]; simpl; [done|]. by rewrite IH, app_assoc. Qed.
Lemma inorder_plug_perm f t : inorder (plug f t) ≡ₚ inorder t ++ f_node f :: inorder (f_other f).
Proof.
  rewrite inorder_plug. destruct (f_side f); [|done]. rewrite <- !Permutation_middle.
  constructor. apply Permutation_app_comm.
Qed.
Lemma inorder_zip_perm pa t : inorder (zip pa t) ≡ₚ inorder t ++ pnodes pa.
Proof.
  revert t. induction pa as [|f pa IH]; intros t; simpl; [by rewrite app_nil_r|].
  rewrite IH, inorder_plug_perm, <- app_assoc. done.
Qed.
Lemma linked_zip s pa t : linked s pa t ↔ linked s [] (zip pa t).
Proof.
  unfold linked. simpl. rewrite rep_zip, app_nil_r, inorder_zip_perm, troot_zip. naive_solver.
Qed.
Lemma linked_move s f pa t : linked s (f :: pa) t ↔ linked s pa (plug f t).
Proof. by rewrite linked_zip, (linked_zip _ pa). Qed.
Lemma linked_app s pm pa t : linked s (pm ++ pa) t ↔ linked s pa (zip pm t).
Proof.
  revert t. induction pm as [|f pm IH]; intros t; [done|]. simpl. by rewrite linked_move, IH.
Qed.

Lemma up_app pm pa par : up (pm ++ pa) par = up pm (up pa par).
Proof. by destruct pm. Qed.
Lemma repz_app h pm pa par x : repz h (pm ++ pa) par x ↔ repz h pm (up pa par) x ∧ repz h pa par (top pm x).
Proof.
  revert x. induction pm as [|f pm IH]; intros x; simpl; [naive_solver|]. rewrite IH, up_app. naive_solver.
Qed.

(** *** Writes *)

Lemma rep_alter h g k par t : k ∉ inorder t → rep h par t → rep (alter g k h) par t.
Proof.
  revert par. induction t as [|l IHl n b r IHr]; intros par; simpl; [done|].
  rewrite not_elem_of_app, not_elem_of_cons. intros (? & ? & ?) (? & ? & ?).
  rewrite lookup_alter_ne by done. auto.
Qed.
Lemma repz_alter h g k pa par x : k ∉ pnodes pa → repz h pa par x → repz (alter g k h) pa par x.
Proof.
  revert x. induction pa as [|f pa IH]; intros x; simpl; [done|].
  rewrite not_elem_of_cons, not_elem_of_app. intros (? & ? & ?) (? & ? & ?).
  rewrite lookup_alter_ne by done. auto using rep_alter.
Qed.
Lemma lookup_alter_ne' (h : gmap nat CAvlNode) g k n d : k ≠ n → h !! n = Some d → alter g k h !! n = Some d.
Proof. intros. by rewrite lookup_alter_ne. Qed.

Definition hset_parent_if (h : gmap nat CAvlNode) (l p : CAvlLink) : gmap nat CAvlNode :=
  match l with None => h | Some c => alter (upd_parent p) c h end.
Definition hset_child (h : gmap nat CAvlNode) (pa : path) (y : CAvlLink) : gmap nat CAvlNode :=
  match pa with [] => h | f :: _ => alter (upd_link (f_side f) y) (f_node f) h end.

Lemma rep_reparent h par par' t : NoDup (inorder t) → rep h par t → rep (hset_parent_if h (troot t) par') par' t.
Proof.
  destruct t as [|l n b r]; [done|]. simpl. intros Hnd (Hn & Hl & Hr).
  apply list.NoDup_app in Hnd as (_ & Hd & Hnr). apply list.NoDup_cons in Hnr as [? _].
  rewrite lookup_alter_eq, Hn. split; [done|]. split; apply rep_alter; try done.
  intros Hin. apply (Hd _ Hin). by left.
Qed.
Lemma upd_link_cell side par c o b y : upd_link side y (cell side par c o b) = cell side par y o b.
Proof. by destruct side. Qed.
Lemma upd_other_cell side par c o b y : upd_link (negb side) y (cell side par c o b) = cell side par c y b.
Proof. by destruct side. Qed.
Lemma upd_parent_cell side par c o b y : upd_parent y (cell side par c o b) = cell side y c o b.
Proof. by destruct side. Qed.
Lemma upd_balance_cell side par c o b y : upd_balance y (cell side par c o b) = cell side par c o y.
Proof. by destruct side. Qed.
Lemma link_cell side par c o b : CAvl_link (cell side par c o b) side = c.
Proof. by destruct side. Qed.
Lemma link_other_cell side par c o b : CAvl_link (cell side par c o b) (negb side) = o.
Proof. by destruct side. Qed.
Lemma parent_cell side par c o b : CAvl_parent (cell side par c o b) = par.
Proof. by destruct side. Qed.
Lemma balance_cell side par c o b : CAvl_balance (cell side par c o b) = b.
Proof. by destruct side. Qed.
Lemma cell_negb side par c o b : cell (negb side) par c o b = cell side par o c b.
Proof. by destruct side. Qed.

Lemma repz_hole h pa par x y : NoDup (pnodes pa) → repz h pa par x → repz (hset_child h pa y) pa par y.
Proof.
  destruct pa as [|f pa]; [done|]. simpl. intros (Hf & Hnd)%list.NoDup_cons (Hn & Ho & Hz).
  apply not_elem_of_app in Hf as [? ?]. rewrite lookup_alter_eq, Hn. simpl. rewrite upd_link_cell.
  auto using rep_alter, repz_alter.
Qed.
Lemma top_elem pa x n : top pa x = Some n → pa ≠ [] → n ∈ pnodes pa.
Proof.
  revert x. induction pa as [|f pa IH]; intros x; [done|]. simpl. intros E _.
  destruct pa as [|g pa]; [simpl in E; simplify_eq; left|]. right. apply elem_of_app. right. by eapply IH.
Qed.
Lemma top_indep pa x y : pa ≠ [] → top pa x = top pa y.
Proof. by destruct pa. Qed.
Lemma top_app pm pa x : top (pm ++ pa) x = top pa (top pm x).
Proof. revert x. induction pm as [|f pm IH]; intros x; [done|]. apply IH. Qed.
Lemma up_indep pa x y : pa ≠ [] → up pa x = up pa y.
Proof. by destruct pa. Qed.
Lemma repz_top h pa par par' x : NoDup (pnodes pa) → repz h pa par x →
  repz (hset_parent_if h (top pa None) par') pa par' x.
Proof.
  revert x. induction pa as [|f pa IH]; intros x; [done|]. simpl.
  intros (Hf & Hnd)%list.NoDup_cons (Hn & Ho & Hz). apply list.NoDup_app in Hnd as (Hno & Hd & Hnd).
  apply not_elem_of_app in Hf as [Hfo Hfp].
  destruct pa as [|g pa].
  - simpl. rewrite lookup_alter_eq, Hn. simpl. rewrite upd_parent_cell. auto using rep_alter.
  - specialize (IH _ Hnd Hz). rewrite (top_indep _ _ None) by done.
    destruct (top (g :: pa) None) as [k|] eqn:Ek; [|simpl; auto].
    pose proof (top_elem _ _ _ Ek) as Hk. specialize (Hk ltac:(done)). cbn [hset_parent_if] in *.
    split_and!; [rewrite lookup_alter_ne; [done|congruence]| |done].
    apply rep_alter; [|done]. intros Hin. by apply (Hd k).
Qed.

(** *** The operations of the fields *)

Lemma put_ok s n f d : nodes s !! n = Some d → put s n f = Some (mk_CAvl (root s) (alter f n (nodes s))).
Proof. unfold put, get. by intros ->. Qed.
Lemma set_link_ok s n d side x : nodes s !! n = Some d →
  set_link s n side x = Some (mk_CAvl (root s) (alter (upd_link side x) n (nodes s))).
Proof. apply put_ok. Qed.
Lemma set_parent_ok s n d x : nodes s !! n = Some d →
  set_parent s n x = Some (mk_CAvl (root s) (alter (upd_parent x) n (nodes s))).
Proof. apply put_ok. Qed.
Lemma set_balance_ok s n d x : nodes s !! n = Some d →
  set_balance s n x = Some (mk_CAvl (root s) (alter (upd_balance x) n (nodes s))).
Proof. apply put_ok. Qed.
Lemma set_parent_if_ok s par t p : rep (nodes s) par t →
  set_parent_if s (troot t) p = Some (mk_CAvl (root s) (hset_parent_if (nodes s) (troot t) p)).
Proof. destruct s, t as [|l n b r]; simpl; [done|]. intros (Hn & _). by eapply put_ok. Qed.
Lemma get_link_ok s n d side : nodes s !! n = Some d → get_link s n side = Some (CAvl_link d side).
Proof. unfold get_link, get. by intros ->. Qed.
Lemma get_parent_ok s n d : nodes s !! n = Some d → get_parent s n = Some (CAvl_parent d).
Proof. unfold get_parent, get. by intros ->. Qed.
Lemma get_balance_ok s n d : nodes s !! n = Some d → get_balance s n = Some (CAvl_balance d).
Proof. unfold get_balance, get. by intros ->. Qed.

(** Which child of its parent a node is. *)
Lemma side_of h f pa par n : repz h (f :: pa) par (Some n) → n ∉ inorder (f_other f) →
  ∃ d, h !! f_node f = Some d ∧ bool_decide (Some n = CAvl_link d true) = f_side f ∧ CAvl_link d (f_side f) = Some n.
Proof.
  simpl. intros (Hf & Ho & _) Hn. eexists. split; [done|]. rewrite link_cell. split; [|done].
  destruct (f_side f) eqn:E; simpl; [by apply bool_decide_eq_true|]. apply bool_decide_eq_false.
  intros En. destruct (f_other f); simplify_eq/=. set_solver.
Qed.
Lemma set_child_ok s pa par old new : repz (nodes s) pa par (Some old) → old ∉ pnodes pa → (pa = [] → par = None) →
  set_child s (up pa par) old new =
    Some (mk_CAvl (match pa with [] => new | _ => root s end) (hset_child (nodes s) pa new)).
Proof.
  intros Hz Hn Hp. destruct pa as [|f pa]; simpl; [by rewrite Hp|].
  simpl in Hn. apply not_elem_of_cons in Hn as [_ Hn]. apply not_elem_of_app in Hn as [Hn _].
  destruct (side_of _ _ _ _ _ Hz Hn) as (d & Hd & Hs & _). rewrite (get_link_ok _ _ _ _ Hd). cbn [mbind option_bind]. rewrite Hs.
  by eapply put_ok.
Qed.
Lemma check_parent_ok s pa par n d : repz (nodes s) pa par (Some n) → n ∉ pnodes pa → (pa = [] → par = None) →
  nodes s !! n = Some d → CAvl_parent d = up pa par → CAvl_check_parent s (up pa par) n = Some true.
Proof.
  intros Hz Hn Hp Hd Hup. unfold CAvl_check_parent. rewrite (get_parent_ok _ _ _ Hd), Hup. simpl.
  rewrite bool_decide_eq_true_2 by done. destruct pa as [|f pa]; simpl; [by rewrite Hp|].
  simpl in Hn. apply not_elem_of_cons in Hn as [_ Hn]. apply not_elem_of_app in Hn as [Hn _].
  destruct (side_of _ _ _ _ _ Hz Hn) as (e & He & Hs & Hl).
  rewrite !(get_link_ok _ _ _ _ He). cbn [mbind option_bind]. destruct (f_side f).
  - rewrite Hs. by destruct (bool_decide (Some n = CAvl_link e false)).
  - by rewrite Hl, bool_decide_eq_true_2.
Qed.

Lemma linked_node s pa l n b r : linked s pa (Node l n b r) →
  nodes s !! n = Some (mk_CAvlNode (up pa None) (troot l) (troot r) b).
Proof. by intros ((? & _) & _). Qed.
Lemma linked_plug s pa f t : linked s pa (plug f t) →
  nodes s !! f_node f = Some (cell (f_side f) (up pa None) (troot t) (troot (f_other f)) (f_balance f)).
Proof. intros (H & _). by apply rep_plug in H as [? _]. Qed.

Lemma linked_set_balance s pa l n b r b' : linked s pa (Node l n b r) →
  ∃ s', set_balance s n b' = Some s' ∧ linked s' pa (Node l n b' r).
Proof.
  intros ((Hn & Hl & Hr) & Hz & Hnd & Hroot). eexists. split; [by eapply put_ok|]. simpl in Hnd.
  assert (n ∉ inorder l ∧ n ∉ inorder r ∧ n ∉ pnodes pa) as (? & ? & ?).
  { rewrite <- app_assoc in Hnd. apply list.NoDup_app in Hnd as (_ & Hd & [Hx _]%list.NoDup_cons).
    apply not_elem_of_app in Hx. split; [|done]. intros Hin. apply (Hd n Hin). by left. }
  split_and!; simpl; [|auto using repz_alter|done|done].
  split_and!; [by rewrite lookup_alter_eq, Hn|by apply rep_alter..].
Qed.
Lemma linked_set_balance_plug s pa f t b' : linked s pa (plug f t) →
  ∃ s', set_balance s (f_node f) b' = Some s' ∧ linked s' pa (plug (mk_frame (f_side f) (f_node f) b' (f_other f)) t).
Proof. unfold plug. destruct f as [[] n b o]; simpl; apply linked_set_balance. Qed.
End Rep.

(** ** Symbolic execution *)
Section Steps.
Import AvlTree CAvl.

Lemma lookup_alter_some (h : gmap nat CAvlNode) g n d d' : h !! n = Some d' → g d' = d → alter g n h !! n = Some d.
Proof. intros H <-. by rewrite lookup_alter_eq, H. Qed.

Lemma lookup_eq (h : gmap nat CAvlNode) n d d' : h !! n = Some d → d = d' → h !! n = Some d'.
Proof. congruence. Qed.

(** What [NoDup] says of each node that is named: it is nowhere else. *)
Definition apart (A B : list nat) : Prop := ∀ x, x ∈ A → x ∉ B.
Lemma nd_cons (k : nat) L : NoDup (k :: L) → k ∉ L ∧ NoDup L.
Proof. apply list.NoDup_cons. Qed.
Lemma nd_app (A L : list nat) : NoDup (A ++ L) → NoDup A ∧ apart A L ∧ NoDup L.
Proof. apply list.NoDup_app. Qed.
Lemma ni_cons (k n : nat) L : k ∉ n :: L → k ≠ n ∧ n ≠ k ∧ k ∉ L.
Proof. rewrite not_elem_of_cons. naive_solver. Qed.
Lemma ni_app (k : nat) A L : k ∉ A ++ L → k ∉ A ∧ k ∉ L.
Proof. apply not_elem_of_app. Qed.
Lemma apart_cons A k L : apart A (k :: L) → k ∉ A ∧ apart A L.
Proof. unfold apart. set_solver. Qed.
Lemma apart_app A B L : apart A (B ++ L) → apart A B ∧ apart B A ∧ apart A L.
Proof. unfold apart. set_solver. Qed.
Lemma apart_sym A B : apart A B → apart B A.
Proof. unfold apart. set_solver. Qed.

Lemma lookup_hset_parent_if h x p n d : n ∉ inorder x → h !! n = Some d → hset_parent_if h (troot x) p !! n = Some d.
Proof.
  destruct x as [|l m b r]; simpl; [done|]. intros Hn H. rewrite lookup_alter_ne; [done|]. set_solver.
Qed.
Lemma rep_hset_parent_if h x p par t : apart (inorder t) (inorder x) → rep h par t →
  rep (hset_parent_if h (troot x) p) par t.
Proof. destruct x as [|l m b r]; simpl; [done|]. intros Ha. apply rep_alter. unfold apart in Ha. set_solver. Qed.
Lemma repz_hset_parent_if h x p pa par y : apart (inorder x) (pnodes pa) → repz h pa par y →
  repz (hset_parent_if h (troot x) p) pa par y.
Proof. destruct x as [|l m b r]; simpl; [done|]. intros Ha. apply repz_alter. unfold apart in Ha. set_solver. Qed.
Lemma lookup_hset_top h pm p n d : n ∉ pnodes pm → h !! n = Some d → hset_parent_if h (top pm None) p !! n = Some d.
Proof.
  intros Hn H. destruct (top pm None) as [k|] eqn:E; [|done]. simpl. rewrite lookup_alter_ne; [done|].
  intros ->. apply Hn. eapply top_elem; [done|]. by intros ->.
Qed.
Lemma top_apart pm k L : top pm None = Some k → apart L (pnodes pm) → k ∉ L.
Proof. intros E Ha Hin. apply (Ha k Hin). eapply top_elem; [done|]. by intros ->. Qed.
Lemma rep_hset_top h pm p par t : apart (inorder t) (pnodes pm) → rep h par t →
  rep (hset_parent_if h (top pm None) p) par t.
Proof. intros Ha H. destruct (top pm None) as [k|] eqn:E; [|done]. simpl. by eapply rep_alter, H; eapply top_apart. Qed.
Lemma repz_hset_top h pm p pa par x : apart (pnodes pa) (pnodes pm) → repz h pa par x →
  repz (hset_parent_if h (top pm None) p) pa par x.
Proof. intros Ha H. destruct (top pm None) as [k|] eqn:E; [|done]. simpl. by eapply repz_alter, H; eapply top_apart. Qed.
Lemma lookup_hset_child h pa y n d : n ∉ pnodes pa → h !! n = Some d → hset_child h pa y !! n = Some d.
Proof. destruct pa as [|f pa]; simpl; [done|]. intros Hn H. rewrite lookup_alter_ne; [done|]. set_solver. Qed.
Lemma rep_hset_child h pa y par t : apart (inorder t) (pnodes pa) → rep h par t → rep (hset_child h pa y) par t.
Proof. destruct pa as [|f pa]; simpl; [done|]. intros Ha. apply rep_alter. unfold apart in Ha. set_solver. Qed.
Lemma repz_hset_child h pa y pa' par x : apart (pnodes pa') (pnodes pa) → repz h pa' par x →
  repz (hset_child h pa y) pa' par x.
Proof. destruct pa as [|f pa]; simpl; [done|]. intros Ha. apply repz_alter. unfold apart in Ha. set_solver. Qed.
End Steps.

Ltac split_nodup :=
  repeat match goal with
  | H : context [(?A ++ ?B) ++ ?C] |- _ => match type of H with
      | NoDup _ => rewrite <- app_assoc in H | _ ∉ _ => rewrite <- app_assoc in H end
  | H : NoDup ?L |- _ => progress cbn [app inorder pnodes AvlTree.f_node AvlTree.f_other] in H
  | H : NoDup [] |- _ => clear H
  | H : NoDup (_ :: _) |- _ => apply nd_cons in H as [? H]
  | H : NoDup (_ ++ _) |- _ => apply nd_app in H as (? & ? & H)
  | H : apart _ (_ :: _) |- _ => apply apart_cons in H as [? H]
  | H : apart _ (_ ++ _) |- _ => apply apart_app in H as (? & ? & H)
  | H : apart _ [] |- _ => clear H
  | H : _ ∉ _ :: _ |- _ => apply ni_cons in H as (? & ? & H)
  | H : _ ∉ _ ++ _ |- _ => apply ni_app in H as [? H]
  | H : _ ∉ [] |- _ => clear H
  end.

Ltac aside := solve [assumption | apply apart_sym; assumption].
(** The value of a node after some writes. *)
Ltac look :=
  cbn [CAvl.nodes CAvl.root];
  repeat first [eassumption | apply lookup_alter_ne'; [assumption|] | apply lookup_hset_child; [assumption|]
    | apply lookup_hset_parent_if; [assumption|] | apply lookup_hset_top; [assumption|] | eapply lookup_alter_some; [|reflexivity]].
(** A part of the memory, where all the writes to it are known. *)
Ltac frame :=
  cbn [CAvl.nodes CAvl.root];
  repeat first [eassumption | apply rep_alter; [assumption|] | apply repz_alter; [assumption|]
    | apply rep_hset_parent_if; [aside|] | apply repz_hset_parent_if; [aside|]
    | apply rep_hset_top; [aside|] | apply repz_hset_top; [aside|]
    | apply rep_hset_child; [aside|] | apply repz_hset_child; [aside|]
    | eapply rep_reparent; [assumption|] | eapply repz_hole; [assumption|] | eapply repz_top; [assumption|]].
Ltac cells := autorewrite with cavl; reflexivity.

Create HintDb cavl.
#[export] Hint Rewrite upd_link_cell upd_other_cell upd_parent_cell upd_balance_cell link_cell link_other_cell
  parent_cell balance_cell : cavl.

(** One read or write. *)
Ltac exec1 :=
  match goal with
  | |- CAvl.get_link ?s ?n ?side ≫= _ = _ => erewrite (get_link_ok s n _ side) by look
  | |- CAvl.get_parent ?s ?n ≫= _ = _ => erewrite (get_parent_ok s n) by look
  | |- CAvl.get_balance ?s ?n ≫= _ = _ => erewrite (get_balance_ok s n) by look
  | |- CAvl.set_link ?s ?n ?side ?x ≫= _ = _ => erewrite (set_link_ok s n) by look
  | |- CAvl.set_parent ?s ?n ?x ≫= _ = _ => erewrite (set_parent_ok s n) by look
  | |- CAvl.set_balance ?s ?n ?x ≫= _ = _ => erewrite (set_balance_ok s n) by look
  end; cbn [mbind option_bind CAvl.nodes CAvl.root]; autorewrite with cavl;
  cbn [mbind option_bind CAvl.CAvl_link CAvl.upd_link CAvl.upd_parent CAvl.upd_balance CAvl.CAvl_parent
    CAvl.CAvl_link0 CAvl.CAvl_link1 CAvl.CAvl_balance negb].

(** ** Rotation *)
Section Rotate.
Import AvlTree CAvl.

Lemma rotate_ok s pa dir r b o nr b' y x :
  linked s pa (plug (mk_frame (negb dir) r b o) (plug (mk_frame dir nr b' y) x)) →
  ∃ s', CAvl_rotate s r dir (up pa None) = Some s' ∧
    linked s' pa (plug (mk_frame dir nr b' y) (plug (mk_frame (negb dir) r b o) x)).
Proof.
  intros (Hrep & Hz & Hnd & Hroot). 
  assert (inorder (plug (mk_frame dir nr b' y) (plug (mk_frame (negb dir) r b o) x)) =
    inorder (plug (mk_frame (negb dir) r b o) (plug (mk_frame dir nr b' y) x))) as Hin.
  { rewrite !inorder_plug. destruct dir; simpl; by rewrite <- ?app_assoc. }
  rewrite <- Hin in Hnd. assert (Hnd' := Hnd). rewrite Hin in Hnd.
  apply rep_plug in Hrep as (Hr & Ho & Hrep). apply rep_plug in Hrep as (Hnr & Hy & Hx).
  rewrite troot_plug in *. rewrite !inorder_plug_perm in Hnd.
  cbn [f_node f_side f_other f_balance] in *. revert Hnd'. split_nodup. intros Hnd'.
  eexists. split.
  - unfold CAvl_rotate.
    erewrite check_parent_ok; [|exact Hz|assumption|done|exact Hr|by rewrite parent_cell].
    cbn [mbind option_bind assert]. do 4 exec1.
    erewrite set_parent_if_ok by frame. cbn [mbind option_bind]. do 2 exec1.
    erewrite set_child_ok; [|frame|assumption|done]. cbn [mbind option_bind].
    eapply set_parent_ok. look.
  - unfold linked. rewrite troot_plug. cbn [f_node]. split_and!; [|frame|done|].
    + rewrite !rep_plug, troot_plug. cbn [f_node f_side f_other f_balance].
      split_and!; [eapply lookup_eq; [look|cells]|frame|eapply lookup_eq; [look|cells]|frame|frame].
    + destruct pa; [done|exact Hroot].
Qed.
End Rotate.

(** ** Rebalancing *)
Section Rebalance.
Import AvlTree CAvl.

Lemma MAX_eq a b : CAvl_MAX a b = MAX a b.
Proof. done. Qed.

Lemma get_parent_plug s pa side n b o t : linked s pa (plug (mk_frame side n b o) t) → get_parent s n = Some (up pa None).
Proof. intros H%linked_plug. cbn in H. rewrite (get_parent_ok _ _ _ H). by rewrite parent_cell. Qed.
Lemma get_balance_plug s pa side n b o t : linked s pa (plug (mk_frame side n b o) t) → get_balance s n = Some b.
Proof. intros H%linked_plug. cbn in H. rewrite (get_balance_ok _ _ _ H). by rewrite balance_cell. Qed.

(** The single rotation, with the new balance factors. *)
Lemma rotate1_ok s pa side n b o c cb y x b1 b2 :
  linked s pa (plug (mk_frame side n b o) (plug (mk_frame (negb side) c cb y) x)) →
  ∃ s1 s2 s3, CAvl_rotate s n (negb side) (up pa None) = Some s1 ∧ set_balance s1 n b1 = Some s2 ∧
    set_balance s2 c b2 = Some s3 ∧
    linked s3 pa (plug (mk_frame (negb side) c b2 y) (plug (mk_frame side n b1 o) x)).
Proof.
  intros H. destruct (rotate_ok s pa (negb side) n b o c cb y x) as (s1 & E1 & H1).
  { by rewrite negb_involutive. }
  rewrite negb_involutive in H1. apply linked_move in H1.
  destruct (linked_set_balance_plug _ _ _ _ b1 H1) as (s2 & E2 & H2). rewrite linked_move in H2.
  destruct (linked_set_balance_plug _ _ _ _ b2 H2) as (s3 & E3 & H3). eauto 10.
Qed.
Lemma plug_swap side n b o t : plug (mk_frame side n b o) t = plug (mk_frame (negb side) n b t) o.
Proof. by destruct side. Qed.
(** The double rotation. *)
Lemma rotate2_ok s pa side n b o c cb y g gb x1 x2 b1 b2 b3 :
  linked s pa (plug (mk_frame side n b o) (plug (mk_frame (negb side) c cb y) (plug (mk_frame side g gb x1) x2))) →
  ∃ s0 s1 s2 s3 s4, CAvl_rotate s c side (Some n) = Some s0 ∧ get_parent s0 n = Some (up pa None) ∧
    CAvl_rotate s0 n (negb side) (up pa None) = Some s1 ∧ get_balance s1 g = Some gb ∧
    set_balance s1 n b1 = Some s2 ∧ set_balance s2 c b2 = Some s3 ∧ set_balance s3 g b3 = Some s4 ∧
    linked s4 pa (plug (mk_frame side g b3 (plug (mk_frame side n b1 o) x1)) (plug (mk_frame (negb side) c b2 y) x2)).
Proof.
  intros H. apply linked_move in H. destruct (rotate_ok _ _ _ _ _ _ _ _ _ _ H) as (s0 & E0 & H0).
  rewrite linked_move in H0. pose proof (get_parent_plug _ _ _ _ _ _ _ H0) as Ep.
  rewrite (plug_swap side g) in H0.
  destruct (rotate_ok s0 pa (negb side) n b o g gb (plug (mk_frame (negb side) c cb y) x2) x1) as (s1 & E1 & H1).
  { by rewrite negb_involutive. }
  rewrite negb_involutive in H1.
  pose proof (get_balance_plug _ _ _ _ _ _ _ H1) as Eg. apply linked_move in H1.
  destruct (linked_set_balance_plug _ _ _ _ b1 H1) as (s2 & E2 & H2). rewrite linked_move in H2. cbn [f_side f_node f_other f_balance] in *.
  rewrite (plug_swap (negb side) g), negb_involutive, <- linked_move in H2.
  destruct (linked_set_balance_plug _ _ _ _ b2 H2) as (s3 & E3 & H3). rewrite linked_move in H3. cbn [f_side f_node f_other f_balance] in *.
  destruct (linked_set_balance_plug _ _ _ _ b3 H3) as (s4 & E4 & H4). cbn [f_side f_node f_other f_balance] in *.
  exists s0, s1, s2, s3, s4. done.
Qed.

Lemma transform_refines s pa t n delta t' d : linked s pa t → troot t = Some n → AvlTree.transform t delta = Some (t', d) →
  ∃ s' n', transform s n delta = Some (s', n', d) ∧ linked s' pa t' ∧ troot t' = Some n'.
Proof.
  destruct t as [|l n' b r]; [done|]. intros H [= ->]. unfold AvlTree.transform, transform.
  pose proof (linked_node _ _ _ _ _ _ H) as Hn. rewrite (get_balance_ok _ _ _ Hn). cbn [balance mbind option_bind CAvl_balance].
  destruct ((b =? 2) || (b =? -2)) eqn:Eb; [|intros [= <- <-]; eauto].
  set (side := b =? 2). set (sf := if side then 1 else -1).
  rewrite (get_link_ok _ _ _ side Hn). cbn [mbind option_bind].
  assert (CAvl_link (mk_CAvlNode (up pa None) (troot l) (troot r) b) side = troot (link side (Node l n b r))) as ->
    by (by destruct side).
  set (o := link (negb side) (Node l n b r)). set (ch := link side (Node l n b r)).
  assert (Node l n b r = plug (mk_frame side n b o) ch) as Et by (subst o ch; by destruct side).
  rewrite Et in H |- *. clearbody side sf o ch. clear Et Hn Eb.
  rewrite (get_parent_plug _ _ _ _ _ _ _ H).
  destruct ch as [|c1 c cb c2]; [done|]. cbn [is_null troot mbind option_bind].
  assert (get_balance s c = Some cb) as ->.
  { apply linked_move in H. apply (get_balance_ok _ _ _ (linked_node _ _ _ _ _ _ H)). }
  cbn [mbind option_bind balance].
  set (y := link side (Node c1 c cb c2)). set (x := link (negb side) (Node c1 c cb c2)).
  assert (Node c1 c cb c2 = plug (mk_frame (negb side) c cb y) x) as Ec by (subst x y; by destruct side).
  rewrite Ec in H |- *. clearbody x y. clear Ec.
  destruct (cb * sf =? 1) eqn:E1; [|destruct (cb * sf =? 0) eqn:E0; [|destruct (cb * sf =? -1) eqn:Em; [|done]]].
  - intros [= <- <-]. destruct (rotate1_ok _ _ _ _ _ _ _ _ _ _ 0 0 H) as (s1 & s2 & s3 & -> & E2 & E3 & H3).
    cbn [mbind option_bind]. rewrite E2. cbn [mbind option_bind]. rewrite E3. cbn [mbind option_bind].
    do 2 eexists. split; [done|]. destruct side; done.
  - intros [= <- <-]. destruct (rotate1_ok _ _ _ _ _ _ _ _ _ _ (1 * sf) (-1 * sf) H) as (s1 & s2 & s3 & -> & E2 & E3 & H3).
    cbn [mbind option_bind]. rewrite E2. cbn [mbind option_bind]. rewrite E3. cbn [mbind option_bind].
    do 2 eexists. split; [done|]. destruct side; done.
  - assert (get_link s c (negb side) = Some (troot x)) as ->.
    { apply linked_move in H. rewrite (get_link_ok _ _ _ _ (linked_plug _ _ _ _ H)). by destruct side. }
    destruct x as [|g1 g gb g2] eqn:Ex; [done|]. cbn [is_null troot mbind option_bind balance].
    set (x1 := link (negb side) x) in *. set (x2 := link side x) in *.
    assert (Node g1 g gb g2 = plug (mk_frame side g gb x1) x2) as Eg by (subst x1 x2; rewrite Ex; by destruct side).
    rewrite Eg in H |- *. clearbody x1 x2. clear Eg Ex x E1 E0 Em.
    destruct (rotate2_ok _ _ _ _ _ _ _ _ _ _ _ _ _ (- CAvl_MAX 0 (gb * sf) * sf) (CAvl_MAX 0 (- gb * sf) * sf) 0 H)
      as (s0 & s1 & s2 & s3 & s4 & -> & E1 & E2 & E3 & E4 & E5 & E6 & H6). intros [= <- <-].
    cbn [mbind option_bind]. rewrite E1. cbn [mbind option_bind]. rewrite E2. cbn [mbind option_bind].
    rewrite E3. cbn [mbind option_bind]. rewrite E4. cbn [mbind option_bind].
    rewrite E5. cbn [mbind option_bind]. rewrite E6. cbn [mbind option_bind].
    do 2 eexists. split; [done|]. destruct side; done.
Qed.

Definition in_balance (f : frame) : Prop := -1 ≤ f_balance f ≤ 1.

(** The node above, and the side the path comes from. *)
Lemma linked_up s f pa l n b r : linked s (f :: pa) (Node l n b r) →
  get_parent s n = Some (Some (f_node f)) ∧
  ∃ d, get_link s (f_node f) true = Some d ∧ bool_decide (Some n = d) = f_side f.
Proof.
  intros H. split; [by rewrite (get_parent_ok _ _ _ (linked_node _ _ _ _ _ _ H))|].
  destruct H as (_ & Hz & Hnd & _). simpl inorder in Hnd. split_nodup.
  destruct (side_of _ _ _ _ _ Hz) as (d & Hd & Hs & _); [assumption|].
  rewrite (get_link_ok _ _ _ _ Hd). eauto.
Qed.

Lemma in_range_true x : -1 ≤ x ≤ 1 → in_range x = true.
Proof. apply leb_range. Qed.
(** The node itself. *)
Lemma rebalance_node_refines s pa l n b r side deltac t' d : linked s pa (Node l n b r) → deltac ≠ 0 →
  rebalance_node (Node l n b r) side deltac = Some (t', d) →
  let delta := CAvl_MAX deltac (CAvl_OPTNEG b side) - CAvl_MAX 0 (CAvl_OPTNEG b side) in
  in_range delta = true ∧ in_range d = true ∧
  ∃ s1 s2 n', set_balance s n (b - CAvl_OPTNEG deltac side) = Some s1 ∧ transform s1 n delta = Some (s2, n', d) ∧
    linked s2 pa t' ∧ troot t' = Some n'.
Proof.
  intros H Hne E. unfold rebalance_node in E. cbn [balance AvlTree.set_balance] in E.
  destruct (negb _); [done|]. unfold in_range. cbv zeta.
  change (MAX deltac (OPTNEG b side) - MAX 0 (OPTNEG b side)) with
    (CAvl_MAX deltac (CAvl_OPTNEG b side) - CAvl_MAX 0 (CAvl_OPTNEG b side)) in E.
  set (delta := CAvl_MAX _ _ - CAvl_MAX _ _) in *.
  destruct ((-1 <=? delta) && (delta <=? 1)); [|done]. cbn [negb] in E.
  destruct (AvlTree.transform _ delta) as [[t1 d1]|] eqn:Et; [|done]. cbn [mbind option_bind] in E.
  destruct ((-1 <=? d1) && (d1 <=? 1)) eqn:Ed; [|done]. injection E as <- <-.
  destruct (linked_set_balance _ _ _ _ _ _ (b - CAvl_OPTNEG deltac side) H) as (s1 & E1 & H1).
  destruct (transform_refines _ _ _ n _ _ _ H1 eq_refl Et) as (s2 & n' & E2 & H2 & Hn'). eauto 10.
Qed.

Lemma rebalance_refines pa fuel s t n side deltac t' :
  (length pa < fuel)%nat → linked s pa t → troot t = Some n → -1 ≤ balance t ≤ 1 → Forall in_balance pa →
  -1 ≤ deltac ≤ 1 → rebalance pa t side deltac = Some t' →
  ∃ s', CAvl_rebalance fuel s n side deltac = Some s' ∧ linked s' [] t'.
Proof.
  revert fuel s t n side deltac. induction pa as [|f pa IH]; intros fuel s t n side deltac Hf H Hn Hb Hpa Hd E;
    (destruct fuel as [|fuel]; [simpl in Hf; lia|]); destruct t as [|l n' b r]; [done| |done|]; injection Hn as ->;
    cbn [CAvl_rebalance]; rewrite (get_balance_ok _ _ _ (linked_node _ _ _ _ _ _ H)); cbn [mbind option_bind CAvl_balance];
    rewrite (in_range_true deltac Hd), (in_range_true b Hb); cbn [assert mbind option_bind andb];
    cbn [rebalance] in E; (destruct (Z.eqb_spec deltac 0) as [|Hne];
      [exists s; split; [done|]; injection E as <-; exact (proj1 (linked_zip s _ _) H)|]);
    (destruct (rebalance_node _ side deltac) as [[t1 d]|] eqn:Er; [|done]);
    destruct (rebalance_node_refines _ _ _ _ _ _ _ _ _ _ H Hne Er) as (-> & Hir & s1 & s2 & n1 & -> & E2 & H2 & Hn1);
    cbn [assert mbind option_bind]; rewrite E2; cbn [mbind option_bind]; rewrite Hir; cbn [assert mbind option_bind];
    (destruct t1 as [|l1 n2 b1 r1]; [done|]); injection Hn1 as ->.
  - rewrite (get_parent_ok _ _ _ (linked_node _ _ _ _ _ _ H2)). cbn. injection E as <-. eauto.
  - destruct (linked_up _ _ _ _ _ _ _ H2) as (-> & d' & Ed' & Hs). cbn [mbind option_bind].
    rewrite Ed'. cbn [mbind option_bind]. rewrite Hs. apply list.Forall_cons in Hpa as [Hf' Hpa].
    apply linked_move in H2. eapply IH; [simpl in Hf; lia|exact H2|apply troot_plug| |done| |exact E].
    + unfold plug. destruct f as [[] ? ? ?]; apply Hf'.
    + unfold in_range in Hir. apply andb_true_iff in Hir. rewrite !Z.leb_le in Hir. lia.
Qed.
End Rebalance.

(** ** Linking, unlinking and exchanging nodes *)
Section Links.
Import AvlTree CAvl.

Lemma rep_insert h k x par t : k ∉ inorder t → rep h par t → rep (<[k := x]> h) par t.
Proof.
  revert par. induction t as [|l IHl n b r IHr]; intros par; simpl; [done|].
  rewrite not_elem_of_app, not_elem_of_cons. intros (? & ? & ?) (? & ? & ?).
  rewrite lookup_insert_ne by done. auto.
Qed.
Lemma repz_insert h k y pa par x : k ∉ pnodes pa → repz h pa par x → repz (<[k := y]> h) pa par x.
Proof.
  revert x. induction pa as [|f pa IH]; intros x; simpl; [done|].
  rewrite not_elem_of_cons, not_elem_of_app. intros (? & ? & ?) (? & ? & ?).
  rewrite lookup_insert_ne by done. auto using rep_insert.
Qed.

(** A new node in an empty place. *)
Lemma link_leaf_ok s pa side n b o node : linked s pa (plug (mk_frame side n b o) Leaf) →
  node ∉ inorder (zip pa (plug (mk_frame side n b o) Leaf)) →
  ∃ s', set_link s n side (Some node) = Some s' ∧
    linked (init_node s' node (Some n)) pa (plug (mk_frame side n b o) (Node Leaf node 0 Leaf)).
Proof.
  rewrite inorder_zip_perm. intros (Hrep & Hz & Hnd & Hroot) Hin. rewrite inorder_plug_perm in Hnd, Hin.
  apply rep_plug in Hrep as (Hn & Ho & _). rewrite troot_plug in *. cbn [f_node f_side f_other f_balance inorder app] in *.
  assert (NoDup (node :: n :: inorder o ++ pnodes pa)) as Hnd' by (by constructor).
  eexists. split; [by eapply set_link_ok|]. unfold linked. rewrite inorder_plug_perm, troot_plug, rep_plug.
  cbn [f_node f_side f_other f_balance inorder app]. revert Hnd'. split_nodup. intros Hnd'.
  unfold init_node. cbn [nodes root].
  split; [split; [|split]|split; [by apply repz_insert, repz_alter|split; [exact Hnd'|exact Hroot]]].
  - rewrite lookup_insert_ne by done. eapply lookup_eq; [look|cells].
  - apply rep_insert; [assumption|]. frame.
  - simpl. by rewrite lookup_insert_eq.
Qed.

Lemma adopt_ok s a d side t par : nodes s !! a = Some d → rep (nodes s) par t → a ∉ inorder t →
  adopt s a side (troot t) =
    Some (mk_CAvl (root s) (hset_parent_if (alter (upd_link side (troot t)) a (nodes s)) (troot t) (Some a))).
Proof.
  intros Ha Ht Hn. unfold adopt. erewrite set_link_ok by done. cbn [mbind option_bind].
  by erewrite set_parent_if_ok by (by apply rep_alter).
Qed.

(** A node with at most one child is replaced by it. *)
Lemma replace_subtree_ok s pa l n b r child : linked s pa (Node l n b r) →
  (l = Leaf ∧ child = r) ∨ (r = Leaf ∧ child = l) →
  ∃ s', CAvl_replace_subtree_fix_assoc s n (troot child) (up pa None) = Some s' ∧ linked s' pa child.
Proof.
  intros ((Hn & Hl & Hr) & Hz & Hnd & Hroot) Hc.
  assert (rep (nodes s) (Some n) child) as Hch by naive_solver.
  assert (NoDup (n :: inorder child ++ pnodes pa)) as Hnd'.
  { simpl in Hnd. destruct Hc as [[-> ->]|[-> ->]]; [done|]. simpl in Hnd. rewrite <- app_assoc in Hnd. simpl in Hnd.
    by rewrite <- Permutation_middle in Hnd. }
  assert (NoDup (inorder child ++ pnodes pa)) as Hk by (by inversion_clear Hnd').
  clear Hnd Hl Hr Hc. revert Hk. split_nodup. intros Hk.
  eexists. split.
  - unfold CAvl_replace_subtree_fix_assoc.
    erewrite check_parent_ok; [|exact Hz|assumption|done|exact Hn|done]. cbn [mbind option_bind assert].
    erewrite set_child_ok; [|exact Hz|assumption|done]. cbn [mbind option_bind]. exec1.
    cbn [CAvl_parent]. erewrite set_parent_if_ok; [done|]. frame.
  - split_and!; [frame|cbn [nodes]; frame|done|]. destruct pa; [done|exact Hroot].
Qed.

Lemma swap_perm (A B C : list nat) n m : A ++ m :: B ++ n :: C ≡ₚ A ++ n :: B ++ m :: C.
Proof. rewrite <- !Permutation_middle. rewrite perm_swap. done. Qed.
Lemma troot_not_in n t : n ∉ inorder t → bool_decide (Some n = troot t) = false.
Proof. intros Hn. apply bool_decide_eq_false. destruct t; simpl in *; [done|]. intros [= ->]. set_solver. Qed.

(** The largest node of the left subtree is the left child. *)
Lemma swap_connected_ok s pa n b o m mb ml mr : linked s (mk_frame false n b o :: pa) (Node ml m mb mr) →
  ∃ s', swap_connected s n m (up pa None) = Some s' ∧
    linked s' (mk_frame false m mb o :: pa) (Node ml n b mr).
Proof.
  intros ((Hm & Hml & Hmr) & (Hn & Ho & Hz) & Hnd & Hroot).
  cbn [f_node f_side f_other f_balance cell up troot top inorder pnodes] in *. rewrite <- app_assoc in Hnd. cbn [app] in Hnd.
  assert (NoDup (inorder (Node ml n b mr) ++ pnodes (mk_frame false m mb o :: pa))) as Hnd'.
  { cbn [inorder pnodes f_node f_other]. rewrite <- app_assoc. cbn [app]. by rewrite swap_perm. }
  revert Hnd'. split_nodup. intros Hnd'.
  eexists. split.
  - unfold swap_connected. exec1. rewrite troot_not_in by assumption. do 2 exec1.
    erewrite adopt_ok; [|look|frame|assumption]. cbn [mbind option_bind]. exec1.
    erewrite adopt_ok; [|look|frame|assumption]. cbn [mbind option_bind]. do 2 exec1.
    erewrite set_child_ok; [|frame|assumption|done]. cbn [mbind option_bind]. do 2 exec1.
    eapply adopt_ok; [look|frame|assumption].
  - split; [|split; [|split; [exact Hnd'|]]].
    + split; [eapply lookup_eq; [look|cells]|split; frame].
    + cbn [repz f_node f_side f_other f_balance]. split; [eapply lookup_eq; [look|cells]|split; frame].
    + destruct pa; [done|exact Hroot].
Qed.

Lemma repz_top_some h pm par x : repz h pm par x → pm ≠ [] → ∃ k d, top pm None = Some k ∧ h !! k = Some d.
Proof.
  revert x. induction pm as [|f pm IH]; intros x; [done|]. simpl. intros (Hf & _ & Hz) _.
  destruct pm as [|g pm]; [simpl; eauto|]. rewrite (top_indep _ _ None) by done. by eapply IH.
Qed.
Lemma adopt_top_ok s a d side pm par x : nodes s !! a = Some d → repz (nodes s) pm par x → pm ≠ [] → a ∉ pnodes pm →
  adopt s a side (top pm None) =
    Some (mk_CAvl (root s) (hset_parent_if (alter (upd_link side (top pm None)) a (nodes s)) (top pm None) (Some a))).
Proof.
  intros Ha Ht Hne Hn. unfold adopt. erewrite set_link_ok by done. cbn [mbind option_bind].
  destruct (repz_top_some _ _ _ _ Ht Hne) as (k & e & -> & He). simpl.
  assert (k ≠ a ∨ k = a) as [Hka| ->] by lia; eapply set_parent_ok; cbn [nodes].
  - by rewrite lookup_alter_ne.
  - by rewrite lookup_alter_eq, He.
Qed.

(** It is further down. *)
Lemma swap_others_ok s pm pa n b o m mb ml mr : pm ≠ [] →
  linked s (pm ++ mk_frame false n b o :: pa) (Node ml m mb mr) →
  ∃ s', swap_others s n m (up pa None) (up pm (Some n)) = Some s' ∧
    linked s' (pm ++ mk_frame false m mb o :: pa) (Node ml n b mr).
Proof.
  intros Hne ((Hm & Hml & Hmr) & Hzz & Hnd & Hroot). apply repz_app in Hzz as (Hzm & Hn & Ho & Hz).
  rewrite up_app, pnodes_app in *.
  cbn [f_node f_side f_other f_balance cell up troot top inorder pnodes] in *.
  rewrite <- !app_assoc in Hnd. cbn [app] in Hnd.
  assert (NoDup (inorder (Node ml n b mr) ++ pnodes (pm ++ mk_frame false m mb o :: pa))) as Hnd'.
  { rewrite pnodes_app. cbn [inorder pnodes f_node f_other]. rewrite <- !app_assoc. cbn [app].
    pose proof (swap_perm (inorder ml) (inorder mr ++ pnodes pm) (inorder o ++ pnodes pa) n m) as Hp.
    rewrite <- !app_assoc in Hp. by rewrite <- Hp. }
  revert Hnd'. split_nodup. intros Hnd'. rewrite (top_indep pm _ None) in Hn by done.
  eexists. split.
  - unfold swap_others. do 2 exec1.
    erewrite (set_child_ok _ pm (Some n)); [|frame|assumption|by intros ->]. cbn [mbind option_bind]. exec1.
    erewrite set_child_ok; [|frame|assumption|done]. cbn [mbind option_bind]. do 2 exec1.
    erewrite adopt_ok; [|look|frame|assumption]. cbn [mbind option_bind].
    erewrite adopt_top_ok; [|look|frame|assumption|assumption]. cbn [mbind option_bind]. do 2 exec1.
    erewrite adopt_ok; [|look|frame|assumption]. cbn [mbind option_bind].
    eapply adopt_ok; [look|frame|assumption].
  - split; [|split; [|split; [exact Hnd'|]]].
    + rewrite up_app, (up_indep pm (up (_ :: pa) None) (Some n)) by done. split; [eapply lookup_eq; [look|cells]|split; frame].
    + apply repz_app. cbn [repz f_node f_side f_other f_balance up troot]. rewrite (top_indep pm (Some n) None) by done.
      split; [frame|]. split; [eapply lookup_eq; [look|cells]|split; frame].
    + rewrite top_app in Hroot |- *. destruct pm; [done|]. destruct pa; [done|exact Hroot].
Qed.

Lemma linked_check s pa l n b r : linked s pa (Node l n b r) → CAvl_check_parent s (up pa None) n = Some true.
Proof.
  intros H. pose proof (linked_node _ _ _ _ _ _ H) as Hn. destruct H as (_ & Hz & Hnd & _). simpl inorder in Hnd.
  split_nodup. by eapply check_parent_ok.
Qed.
Lemma linked_check_plug s pa f t : linked s pa (plug f t) → CAvl_check_parent s (up pa None) (f_node f) = Some true.
Proof. unfold plug. destruct (f_side f); apply linked_check. Qed.

(** They exchange their places, and the balance factors stay with the places. *)
Lemma swap_for_remove_ok s pm pa n b o m mb ml mr :
  linked s (pm ++ mk_frame false n b o :: pa) (Node ml m mb mr) →
  ∃ s', CAvl_swap_for_remove s n m (up pa None) (up pm (Some n)) = Some s' ∧
    linked s' (pm ++ mk_frame false m b o :: pa) (Node ml n mb mr).
Proof.
  intros H. pose proof (linked_check _ _ _ _ _ _ H) as Hcm. rewrite up_app in Hcm. simpl in Hcm.
  assert (CAvl_check_parent s (up pa None) n = Some true) as Hcn.
  { rewrite linked_app, linked_move in H. apply (linked_check_plug _ _ _ _ H). }
  assert (∃ s1, (if bool_decide (up pm (Some n) = Some n) then swap_connected s n m (up pa None)
      else swap_others s n m (up pa None) (up pm (Some n))) = Some s1 ∧
      linked s1 (pm ++ mk_frame false m mb o :: pa) (Node ml n b mr)) as (s1 & E1 & H1).
  { destruct pm as [|f pm]; [rewrite bool_decide_eq_true_2 by done; by apply swap_connected_ok|].
    rewrite bool_decide_eq_false_2; [by apply swap_others_ok|]. destruct H as (_ & _ & Hnd & _).
    rewrite pnodes_app in Hnd. simpl inorder in Hnd. intros [= E]. split_nodup. congruence. }
  unfold CAvl_swap_for_remove. rewrite Hcn. cbn [assert mbind option_bind]. rewrite Hcm. cbn [assert mbind option_bind].
  rewrite E1. cbn [mbind option_bind]. rewrite (get_balance_ok _ _ _ (linked_node _ _ _ _ _ _ H1)).
  cbn [mbind option_bind CAvl_balance].
  destruct (linked_set_balance _ _ _ _ _ _ mb H1) as (s2 & E2 & H2).
  rewrite linked_app, linked_move in H1, H2. rewrite (get_balance_plug _ _ _ _ _ _ _ H1).
  cbn [mbind option_bind]. rewrite E2. cbn [mbind option_bind].
  destruct (linked_set_balance_plug _ _ _ _ b H2) as (s3 & E3 & H3). exists s3.
  split; [exact E3|]. by rewrite linked_app, linked_move.
Qed.
End Links.

(** ** The operations *)
Section Refines.
Import AvlTree CAvl.

(** *** Loops *)

Lemma linked_size s pa t : linked s pa t → (length (inorder t ++ pnodes pa) ≤ size (nodes s))%nat.
Proof.
  rewrite linked_zip. intros (Hrep & _ & Hnd & _). rewrite <- inorder_zip_perm. rewrite app_nil_r in Hnd.
  rewrite <- (size_dom (D := gset nat)), <- (size_list_to_set (C := gset nat) (inorder (zip pa t))) by done.
  apply subseteq_size. intros x Hx%elem_of_list_to_set. revert Hrep. generalize (up [] None : CAvlLink).
  clear Hnd. induction (zip pa t) as [|l IHl n b r IHr]; intros par; [by apply elem_of_nil in Hx|].
  simpl in *. intros (Hn & Hl & Hr). apply elem_of_app in Hx as [Hx|[->|Hx]%elem_of_cons]; [by eapply IHl| |by eapply IHr].
  by apply elem_of_dom_2 in Hn.
Qed.
Lemma length_path pa : (length pa ≤ length (pnodes pa))%nat.
Proof. induction pa as [|f pa IH]; simpl; [done|]. rewrite length_app. lia. Qed.
Lemma linked_fuel s pa t : linked s pa t → (length pa + length (inorder t) < fuel_of s)%nat.
Proof. intros H%linked_size. rewrite length_app in H. pose proof (length_path pa). unfold fuel_of. lia. Qed.

Ltac lens := cbn [inorder] in *; repeat first [progress rewrite ?length_app in * | progress cbn [length] in *]; lia.

Lemma descend_max s t : ∀ fuel pa n, linked s pa t → troot t = Some n → (length (inorder t) < fuel)%nat →
  descend fuel true s n = GetLast t ∧ is_Some (GetLast t).
Proof.
  induction t as [|l _ n b r IHr]; intros fuel pa n' H [=] Hf; subst. destruct fuel as [|fuel]; [lia|]. simpl.
  rewrite (get_link_ok _ _ _ _ (linked_node _ _ _ _ _ _ H)). simpl. destruct r as [|rl m rb rr]; [simpl; eauto|].
  cbn [troot is_null]. apply (IHr fuel (mk_frame true n' b l :: pa)); [by apply linked_move|done|].
  lens.
Qed.
Lemma descend_min s t : ∀ fuel pa n, linked s pa t → troot t = Some n → (length (inorder t) < fuel)%nat →
  descend fuel false s n = GetFirst t ∧ is_Some (GetFirst t).
Proof.
  induction t as [|l IHl n b r _]; intros fuel pa n' H [=] Hf; subst. destruct fuel as [|fuel]; [lia|]. simpl.
  rewrite (get_link_ok _ _ _ _ (linked_node _ _ _ _ _ _ H)). simpl. destruct l as [|ll m lb lr]; [simpl; eauto|].
  cbn [troot is_null]. apply (IHl fuel (mk_frame false n' b r :: pa)); [by apply linked_move|done|].
  lens.
Qed.

(** *** Insertion *)
Section Insertion.
Context {K : Type} (cmp : K → K → Z) (kf : nat → K).

Lemma compare_key_values k q : CAvl_compare_key_entry cmp kf k q = compare_values cmp k (kf q).
Proof.
  unfold CAvl_compare_key_entry, compare_values. set (x := cmp _ _).
  destruct ((x =? -1) || (x =? 0) || (x =? 1)) eqn:E, ((-1 <=? x) && (x <=? 1)) eqn:E'; try done; exfalso; lia.
Qed.

Lemma compare_entries_values p q : CAvl_compare_entries cmp kf p q = compare_values cmp (kf p) (kf q).
Proof. apply compare_key_values. Qed.

(** Where the loop ends: at an equal node, or above an empty place, where the
    insertion into the inductive tree puts the node. *)
Lemma insert_search_ok node s c : ∀ fuel pa n res, (length (inorder c) < fuel)%nat → linked s pa c → troot c = Some n →
  avl c → Forall in_balance pa → insert_at cmp kf node c pa = Some res →
  (∃ m, insert_search cmp kf fuel s node n = Some (inl m) ∧ res = (false, zip pa c)) ∨
  ∃ side m b o pa' t, insert_search cmp kf fuel s node n = Some (inr (m, side)) ∧
    zip pa' (plug (mk_frame side m b o) Leaf) = zip pa c ∧ -1 ≤ b ≤ 1 ∧ Forall in_balance pa' ∧
    rebalance pa' (plug (mk_frame side m b o) (Node Leaf node 0 Leaf)) side 1 = Some t ∧ res = (true, t).
Proof.
  induction c as [|l IHl n b r IHr]; intros fuel pa n' res Hf H [=] Ha Hpa E; subst. destruct fuel as [|fuel]; [lia|].
  destruct Ha as (Hl & Hr & _ & Hb). simpl in E |- *.
  rewrite compare_entries_values. destruct (compare_values _ _ _) as [comp|]; [|done]. simpl in E |- *.
  destruct (comp =? 0); [simplify_eq; eauto|]. rewrite (get_link_ok _ _ _ _ (linked_node _ _ _ _ _ _ H)). simpl.
  destruct (comp =? 1); simpl in E |- *.
  - destruct r as [|rl m rb rr]; simpl in E |- *.
    + destruct (rebalance pa _ true 1) as [t|] eqn:Et; [|done]. simplify_eq/=. right. exists true, n', b, l, pa, t. done.
    + destruct (IHr fuel (mk_frame true n' b l :: pa) m res) as [?|Hx]; try done; [lens|by apply linked_move| |by left|right].
      * by constructor.
      * exact Hx.
  - destruct l as [|ll m lb lr]; simpl in E |- *.
    + destruct (rebalance pa _ false 1) as [t|] eqn:Et; [|done]. simplify_eq/=. right. exists false, n', b, r, pa, t. done.
    + destruct (IHl fuel (mk_frame false n' b r :: pa) m res) as [?|Hx]; try done; [lens|by apply linked_move| |by left|right].
      * by constructor.
      * exact Hx.
Qed.

Lemma Insert_refines s t node b t' : linked s [] t → avl t → Insert cmp kf node t = Some (b, t') →
  (b = true → node ∉ inorder t) →
  ∃ out s', CAvl_Insert cmp kf s node = Some (b, out, s') ∧ linked s' [] t'.
Proof.
  intros H Ha E Hin. unfold CAvl_Insert. pose proof H as (_ & _ & _ & ->). unfold Insert in E.
  destruct t as [|l n bb r]; cbn [is_null] in E; cbn [top troot].
  - simplify_eq. do 2 eexists. split; [done|]. split_and!; simpl; try done.
    + by rewrite lookup_insert_eq.
    + repeat constructor. by intros ?%elem_of_nil.
  - destruct (insert_search_ok node s (Node l n bb r) (fuel_of s) [] n (b, t')) as [(m & Em & [= -> ->])|Hx]; try done.
    { apply (linked_fuel _ [] _ H). }
    { rewrite Em. cbn. eauto. }
    destruct Hx as (side & m & mb & o & pa & t1 & Em & Hz & Hmb & Hpa & Er & [= -> ->]). rewrite Em. cbn [mbind option_bind].
    assert (linked s pa (plug (mk_frame side m mb o) Leaf)) as H1 by (apply linked_zip; by rewrite Hz).
    destruct (link_leaf_ok _ _ _ _ _ _ node H1) as (s1 & E1 & H2); [rewrite Hz; auto|]. rewrite E1. cbn [mbind option_bind].
    pose proof (linked_fuel _ _ _ H2) as Hfuel.
    destruct (rebalance_refines pa (fuel_of (init_node s1 node (Some m))) (init_node s1 node (Some m)) _ m side 1 t1
      ltac:(lia) H2 (troot_plug _ _) ltac:(by destruct side) Hpa ltac:(lia) Er) as (s2 & E2 & H3).
    rewrite E2. cbn. eauto.
Qed.
End Insertion.

(** *** Removal *)

Lemma zip_app pa pa' t : zip (pa ++ pa') t = zip pa' (zip pa t).
Proof. revert t. induction pa as [|f pa IH]; intros t; [done|]. apply IH. Qed.

Lemma avl_zip_balance pa t : avl (zip pa t) → Forall in_balance pa.
Proof.
  assert (∀ pa t, avl (zip pa t) → avl t ∧ Forall in_balance pa) as Hx; [|apply Hx].
  clear. intros pa. induction pa as [|f pa IH]; intros t Ha; [done|]. simpl in Ha.
  destruct (IH _ Ha) as [Hp Hpa]. unfold plug in Hp. destruct f as [[] n b o]; simpl in Hp; destruct_and!;
    split; try done; constructor; done.
Qed.
Lemma locate_zip p t pa c pa' : locate p t pa = Some (c, pa') → zip pa' c = zip pa t ∧ ∃ l b r, c = Node l p b r.
Proof.
  revert pa. induction t as [|l IHl n b r IHr]; intros pa; simpl; [done|].
  case_decide; [intros [= <- <-]; subst; eauto|].
  destruct (locate p l _) as [[c1 pa1]|] eqn:E; [intros [= <- <-]; by apply IHl in E|apply IHr].
Qed.
Lemma subtree_max_zip t : t ≠ Leaf → ∃ pm ml m mb, (∀ pa, subtree_max t pa = Some (Node ml m mb Leaf, pm ++ pa)) ∧
  zip pm (Node ml m mb Leaf) = t ∧ GetLast t = Some m.
Proof.
  induction t as [|l _ n b r IHr]; intros Hne; [done|]. simpl. destruct r as [|rl rn rb rr].
  - exists [], l, n, b. done.
  - destruct IHr as (pm & ml & m & mb & E & Hz & Hl); [done|]. exists (pm ++ [mk_frame true n b l]), ml, m, mb.
    split_and!; [intros pa; cbn [is_null]; by rewrite E, <- app_assoc|by rewrite zip_app, Hz|done].
Qed.

Lemma unlink_refines s pa l n b r child t' : linked s pa (Node l n b r) → Forall in_balance pa →
  (l = Leaf ∧ child = r) ∨ (r = Leaf ∧ child = l) →
  match pa with [] => Some child | f :: pa => rebalance pa (plug f child) (f_side f) (-1) end = Some t' →
  ∃ s', unlink s n = Some s' ∧ linked s' [] t'.
Proof.
  intros H Hpa Hc E. destruct (replace_subtree_ok _ _ _ _ _ _ _ H Hc) as (s1 & E1 & H1). unfold unlink.
  rewrite !(get_link_ok _ _ _ _ (linked_node _ _ _ _ _ _ H)), (get_parent_ok _ _ _ (linked_node _ _ _ _ _ _ H)).
  cbn [mbind option_bind CAvl_link CAvl_link0 CAvl_link1 CAvl_parent].
  assert (bool_decide (troot l = None) || bool_decide (troot r = None) = true) as ->.
  { destruct Hc as [[-> _]|[-> _]]; [done|]. by destruct (troot l). }
  cbn [assert mbind option_bind].
  assert (match troot l with Some _ => troot l | None => troot r end = troot child) as ->.
  { destruct Hc as [[-> ->]|[-> ->]]; [done|]. by destruct l. }
  destruct pa as [|f pa]; cbn [up] in *.
  - simplify_eq. eauto.
  - destruct (linked_up _ _ _ _ _ _ _ H) as (_ & d & -> & Hs). cbn [mbind option_bind]. rewrite Hs, E1.
    cbn [mbind option_bind]. apply linked_move in H1. apply list.Forall_cons in Hpa as [Hf Hpa].
    pose proof (linked_fuel _ _ _ H1) as Hfuel.
    apply (rebalance_refines pa _ _ (plug f child)); [lia|done|apply troot_plug| |done|lia|done].
    destruct f as [[] ? ? ?]; apply Hf.
Qed.

Lemma Remove_refines s t node t' : linked s [] t → avl t → Remove node t = Some t' →
  ∃ s', CAvl_Remove s node = Some s' ∧ linked s' [] t'.
Proof.
  intros H Ha E. unfold Remove in E. destruct (locate node t []) as [[c pa]|] eqn:El; [|done]. simpl in E.
  destruct (locate_zip _ _ _ _ _ El) as (Hz & l & b & r & ->). simpl in Hz. rewrite <- Hz in *. clear El Hz t.
  pose proof (avl_zip_balance _ _ Ha) as Hpa. rewrite <- linked_zip in H.
  assert (CAvl_IsEmpty s = false) as Hempty.
  { unfold CAvl_IsEmpty. destruct H as (_ & _ & _ & ->). apply bool_decide_eq_false.
    rewrite <- troot_zip. simpl in Ha. destruct (zip pa (Node l node b r)) as [|? ? ? ?] eqn:Ez; [|done].
    apply (f_equal inorder) in Ez. rewrite inorder_zip_zip in Ez. destruct (inorder_zip_context pa) as (A & B & HAB).
    rewrite HAB in Ez. simpl in Ez. by destruct A, (inorder l). }
  unfold CAvl_Remove. rewrite Hempty. cbn [negb assert mbind option_bind].
  pose proof (linked_node _ _ _ _ _ _ H) as Hn. rewrite !(get_link_ok _ _ _ _ Hn).
  cbn [mbind option_bind CAvl_link CAvl_link0 CAvl_link1]. unfold remove_at in E.
  destruct l as [|ll ln lb lr], r as [|rl rn rb rr]; cbn [troot mbind option_bind link is_null negb andb] in E |- *.
  - eapply unlink_refines; eauto.
  - eapply unlink_refines; eauto.
  - eapply unlink_refines; eauto.
  - set (l := Node ll ln lb lr) in *. set (r := Node rl rn rb rr) in *.
    destruct (subtree_max_zip l) as (pm & ml & m & mb & Em & Hzl & Hm); [done|].
    unfold swap_with_max in E. rewrite Em in E. cbn [mbind option_bind] in E. rewrite Em in E.
    cbn [mbind option_bind link is_null negb] in E. rewrite andb_false_r in E.
    pose proof (linked_fuel _ _ _ H) as Hfuel.
    assert (linked s (mk_frame false node b r :: pa) l) as Hl by (by apply linked_move).
    assert (CAvl_subtree_max s (Some ln) = Some m) as ->.
    { unfold CAvl_subtree_max. cbn [mbind option_bind].
      destruct (descend_max s l (fuel_of s) _ ln Hl) as [-> _]; [done|lens|done]. }
    assert (linked s (pm ++ mk_frame false node b r :: pa) (Node ml m mb Leaf)) as H1.
    { rewrite linked_app, Hzl. done. }
    cbn [mbind option_bind]. rewrite (get_parent_ok _ _ _ Hn). cbn [mbind option_bind].
    rewrite (get_parent_ok _ _ _ (linked_node _ _ _ _ _ _ H1)).
    cbn [mbind option_bind CAvl_parent]. rewrite up_app. cbn [up f_node].
    destruct (swap_for_remove_ok _ _ _ _ _ _ _ _ _ _ H1) as (s1 & -> & H2). cbn [mbind option_bind].
    eapply unlink_refines; [exact H2| |right; split; reflexivity|].
    + assert (Forall in_balance (pm ++ mk_frame false node b r :: pa)) as Hb.
      { apply (avl_zip_balance _ (Node ml m mb Leaf)). rewrite zip_app, Hzl. done. }
      rewrite Forall_app, list.Forall_cons in Hb |- *. done.
    + rewrite <- E. by destruct ml.
Qed.

(** *** Queries *)

Lemma IsEmpty_refines s t : linked s [] t → CAvl_IsEmpty s = is_null t.
Proof. intros (_ & _ & _ & E). unfold CAvl_IsEmpty. rewrite E. by destruct t. Qed.
Lemma GetFirst_refines s t : linked s [] t → CAvl_GetFirst s = Some (head (inorder t)).
Proof.
  intros H. unfold CAvl_GetFirst, CAvl_subtree_min. pose proof H as (_ & _ & _ & ->). rewrite <- GetFirst_ok.
  destruct t as [|l n b r]; [done|]. cbn [top troot mbind option_bind].
  destruct (descend_min s _ (fuel_of s) [] n H eq_refl) as [-> [x ->]]; [apply (linked_fuel _ [] _ H)|done].
Qed.
Lemma GetLast_refines s t : linked s [] t → CAvl_GetLast s = Some (list.last (inorder t)).
Proof.
  intros H. unfold CAvl_GetLast, CAvl_subtree_max. pose proof H as (_ & _ & _ & ->). rewrite <- GetLast_ok.
  destruct t as [|l n b r]; [done|]. cbn [top troot mbind option_bind].
  destruct (descend_max s _ (fuel_of s) [] n H eq_refl) as [-> [x ->]]; [apply (linked_fuel _ [] _ H)|done].
Qed.

Lemma linked_up_side s f pa l n b r d : linked s (f :: pa) (Node l n b r) →
  get_parent s n = Some (Some (f_node f)) ∧
  ∃ x, get_link s (f_node f) d = Some x ∧ bool_decide (Some n = x) = Bool.eqb d (f_side f).
Proof.
  intros H. destruct (linked_up _ _ _ _ _ _ _ H) as (Hp & x & Hx & Hs). split; [done|].
  destruct H as (_ & (Hf & _ & _) & Hnd & _). simpl inorder in Hnd. split_nodup.
  rewrite (get_link_ok _ _ _ _ Hf) in *. eexists. split; [done|].
  destruct d, f as [[] fn fb fo]; simpl in *; simplify_eq; try done;
    [by rewrite bool_decide_eq_true_2|by apply troot_not_in|by apply troot_not_in|by rewrite bool_decide_eq_true_2].
Qed.

Lemma ascend_next pa : ∀ fuel s l n b r, linked s pa (Node l n b r) → (length pa < fuel)%nat →
  ascend fuel true s n = Some (head (nodes_after pa)).
Proof.
  induction pa as [|f pa IH]; intros fuel s l n b r H Hf; (destruct fuel as [|fuel]; [lia|]); cbn [ascend].
  - rewrite (get_parent_ok _ _ _ (linked_node _ _ _ _ _ _ H)). done.
  - destruct (linked_up_side _ _ _ _ _ _ _ true H) as (-> & x & E & Hs). cbn [mbind option_bind]. rewrite E.
    cbn [mbind option_bind]. rewrite Hs. apply linked_move in H. unfold plug in H. cbn [nodes_after].
    destruct (f_side f); [|done]. cbn [Bool.eqb]. rewrite (IH _ _ _ _ _ _ H) by (simpl in Hf; lia). done.
Qed.
Lemma ascend_prev pa : ∀ fuel s l n b r, linked s pa (Node l n b r) → (length pa < fuel)%nat →
  ascend fuel false s n = Some (list.last (nodes_before pa)).
Proof.
  induction pa as [|f pa IH]; intros fuel s l n b r H Hf; (destruct fuel as [|fuel]; [lia|]); cbn [ascend].
  - rewrite (get_parent_ok _ _ _ (linked_node _ _ _ _ _ _ H)). done.
  - destruct (linked_up_side _ _ _ _ _ _ _ false H) as (-> & x & E & Hs). cbn [mbind option_bind]. rewrite E.
    cbn [mbind option_bind]. rewrite Hs. apply linked_move in H. unfold plug in H. cbn [nodes_before].
    destruct (f_side f); cbn [Bool.eqb]; [by rewrite app_assoc, last_snoc|].
    rewrite (IH _ _ _ _ _ _ H) by (simpl in Hf; lia). by rewrite app_nil_r.
Qed.

Lemma focus n t : n ∈ inorder t → ∃ pa l b r, zip pa (Node l n b r) = t.
Proof.
  induction t as [|l IHl m b r IHr]; simpl; [by intros ?%elem_of_nil|].
  intros [Hl|[->|Hr]%elem_of_cons]%elem_of_app.
  - destruct (IHl Hl) as (pa & l' & b' & r' & Hz). exists (pa ++ [mk_frame false m b r]), l', b', r'. by rewrite zip_app, Hz.
  - by exists [], l, b, r.
  - destruct (IHr Hr) as (pa & l' & b' & r' & Hz). exists (pa ++ [mk_frame true m b l]), l', b', r'. by rewrite zip_app, Hz.
Qed.
(** The neighbours in the order. *)
Lemma neighbours_refine s t A n B : linked s [] t → inorder t = A ++ n :: B →
  CAvl_GetNext s n = Some (head B) ∧ CAvl_GetPrev s n = Some (list.last A).
Proof.
  intros H Hi. assert (n ∈ inorder t) as Hin by (rewrite Hi; set_solver).
  assert (CAvl_IsEmpty s = false) as He by (rewrite (IsEmpty_refines _ _ H); by destruct t; [by apply elem_of_nil in Hin|]).
  destruct (focus n t Hin) as (pa & l & b & r & <-). pose proof H as (_ & _ & Hnd & _). rewrite app_nil_r in Hnd.
  rewrite inorder_zip_zip, inorder_before_after in Hi, Hnd. simpl in Hi, Hnd. rewrite <- app_assoc in Hi, Hnd.
  cbn [app] in Hi, Hnd. rewrite app_assoc in Hi, Hnd.
  destruct (NoDup_split_unique _ _ _ _ _ Hnd Hi) as [<- <-]. rewrite <- linked_zip in H. clear Hi Hnd Hin.
  pose proof (linked_fuel _ _ _ H) as Hf. cbn [inorder] in Hf.
  unfold CAvl_GetNext, CAvl_GetPrev. rewrite He. cbn [negb assert mbind option_bind].
  rewrite !(get_link_ok _ _ _ _ (linked_node _ _ _ _ _ _ H)). cbn [mbind option_bind CAvl_link CAvl_link0 CAvl_link1].
  split.
  - destruct r as [|rl m rb rr]; cbn [troot]; [by rewrite (ascend_next _ _ _ _ _ _ _ H) by lia|].
    assert (linked s (mk_frame true n b l :: pa) (Node rl m rb rr)) as Hr by (by apply linked_move).
    destruct (descend_min _ _ (fuel_of s) _ m Hr eq_refl) as [-> [x Hx]]; [lens|].
    rewrite Hx. cbn [mbind option_bind]. f_equal. rewrite GetFirst_ok in Hx. rewrite <- Hx. simpl. by destruct (inorder rl).
  - destruct l as [|ll m lb lr]; cbn [troot]; [rewrite (ascend_prev _ _ _ _ _ _ _ H) by lia; simpl; by rewrite app_nil_r|].
    assert (linked s (mk_frame false n b r :: pa) (Node ll m lb lr)) as Hl by (by apply linked_move).
    destruct (descend_max _ _ (fuel_of s) _ m Hl eq_refl) as [-> [x Hx]]; [lens|].
    rewrite Hx. cbn [mbind option_bind]. f_equal. rewrite GetLast_ok in Hx. rewrite <- Hx. cbn [inorder].
    by rewrite app_assoc, !last_app_cons.
Qed.

(** *** The tree in memory is unique *)

Fixpoint tree_of (fuel : nat) (h : gmap nat CAvlNode) (x : CAvlLink) : tree :=
  match fuel, x with
  | S fuel, Some n => match h !! n with
      | Some d => Node (tree_of fuel h (CAvl_link0 d)) n (CAvl_balance d) (tree_of fuel h (CAvl_link1 d))
      | None => Leaf end
  | _, _ => Leaf
  end.
Lemma tree_of_rep h t : ∀ fuel par, rep h par t → (length (inorder t) < fuel)%nat → tree_of fuel h (troot t) = t.
Proof.
  induction t as [|l IHl n b r IHr]; intros fuel par Hrep Hf; (destruct fuel as [|fuel]; [lia|]); [done|].
  destruct Hrep as (Hn & Hl & Hr). cbn [tree_of troot]. rewrite Hn. cbn [CAvl_link0 CAvl_link1 CAvl_balance].
  rewrite (IHl fuel _ Hl), (IHr fuel _ Hr) by lens. done.
Qed.
Definition elems (s : CAvl) : list nat := inorder (tree_of (fuel_of s) (nodes s) (root s)).
Lemma elems_linked s t : linked s [] t → elems s = inorder t.
Proof.
  intros H. pose proof (linked_fuel _ [] _ H). destruct H as (Hrep & _ & _ & E). unfold elems. rewrite E.
  simpl top. by rewrite (tree_of_rep _ _ _ _ Hrep).
Qed.

(** *** Lookup and verification *)
Section Keys.
Context {K : Type} {ok : K → Prop} {cmp : K → K → Z} `{!TotalCmp ok cmp}.

Lemma compare_entries_ok kf p q : ok (kf p) → ok (kf q) → CAvl_compare_entries cmp kf p q = Some (cmp (kf p) (kf q)).
Proof. intros. rewrite compare_entries_values. by apply compare_values_ok. Qed.

Lemma lookup_search_ok kf k s t : ∀ fuel pa n, linked s pa t → troot t = Some n → (length (inorder t) < fuel)%nat →
  lookup_search cmp kf fuel s k n = LookupExact cmp kf k t.
Proof.
  induction t as [|l IHl n b r IHr]; intros fuel pa n' H [=] Hf; subst. destruct fuel as [|fuel]; [lia|].
  cbn [lookup_search LookupExact]. rewrite compare_key_values.
  destruct (compare_values cmp k (kf n')) as [comp|]; [|done]. cbn [mbind option_bind]. destruct (comp =? 0); [done|].
  rewrite (get_link_ok _ _ _ _ (linked_node _ _ _ _ _ _ H)). cbn [mbind option_bind].
  destruct (comp =? 1); cbn [CAvl_link CAvl_link0 CAvl_link1].
  - destruct r as [|rl m rb rr]; [done|]. cbn [troot].
    apply (IHr fuel (mk_frame true n' b l :: pa)); [by apply linked_move|done|lens].
  - destruct l as [|ll m lb lr]; [done|]. cbn [troot].
    apply (IHl fuel (mk_frame false n' b r :: pa)); [by apply linked_move|done|lens].
Qed.
Lemma LookupExact_refines kf k s t : linked s [] t → CAvl_LookupExact cmp kf s k = LookupExact cmp kf k t.
Proof.
  intros H. unfold CAvl_LookupExact. pose proof H as (_ & _ & _ & ->). destruct t as [|l n b r]; [done|].
  apply (lookup_search_ok kf k s _ _ [] n H eq_refl), (linked_fuel _ [] _ H).
Qed.

Lemma verify_ok kf s t : ∀ fuel pa n, linked s pa t → troot t = Some n → (length (inorder t) < fuel)%nat →
  avl t → ordered ok cmp kf (inorder t) → CAvl_verify_recurser cmp kf fuel s n = Some (height t).
Proof.
  induction t as [|l IHl n b r IHr]; intros fuel pa n' H [=] Hf Ha Ho; subst. destruct fuel as [|fuel]; [lia|].
  destruct Ha as (Hal & Har & Eb & Hb). pose proof (ordered_app _ _ _ _ Ho) as (Hol & Hor & Hn & HA & HB).
  assert (linked s (mk_frame false n' b r :: pa) l) as Hl by (by apply linked_move).
  assert (linked s (mk_frame true n' b l :: pa) r) as Hr by (by apply linked_move).
  assert (∀ p, p ∈ inorder l → ok (kf p)) as Hokl by (apply list.Forall_forall, Hol).
  assert (∀ p, p ∈ inorder r → ok (kf p)) as Hokr by (apply list.Forall_forall, Hor).
  cbn [CAvl_verify_recurser]. rewrite (get_balance_ok _ _ _ (linked_node _ _ _ _ _ _ H)),
    !(get_link_ok _ _ _ _ (linked_node _ _ _ _ _ _ H)). cbn [mbind option_bind CAvl_link CAvl_link0 CAvl_link1 CAvl_balance].
  rewrite (proj2 (Z.leb_le (-1) b)), (proj2 (Z.leb_le b 1)) by lia. cbn [assert mbind option_bind].
  assert (match troot l with None => Some 0 | Some c =>
      p ← get_parent s c; _ ← assert (bool_decide (p = Some n'));
      comp ← CAvl_compare_entries cmp kf c n'; _ ← assert (comp =? -1); CAvl_verify_recurser cmp kf fuel s c end =
    Some (height l)) as ->.
  { destruct l as [|ll m lb lr]; [done|]. cbn [troot].
    rewrite (get_parent_ok _ _ _ (linked_node _ _ _ _ _ _ Hl)). cbn [mbind option_bind CAvl_parent up f_node].
    rewrite bool_decide_eq_true_2 by done. cbn [assert mbind option_bind].
    assert (m ∈ inorder (Node ll m lb lr)) as Hm by (simpl; set_solver).
    rewrite compare_entries_ok, HA by auto. cbn [assert mbind option_bind]. apply (IHl fuel _ m Hl); [done|lens|done..]. }
  cbn [mbind option_bind].
  assert (match troot r with None => Some 0 | Some c =>
      p ← get_parent s c; _ ← assert (bool_decide (p = Some n'));
      comp ← CAvl_compare_entries cmp kf c n'; _ ← assert (comp =? 1); CAvl_verify_recurser cmp kf fuel s c end =
    Some (height r)) as ->.
  { destruct r as [|rl m rb rr]; [done|]. cbn [troot].
    rewrite (get_parent_ok _ _ _ (linked_node _ _ _ _ _ _ Hr)). cbn [mbind option_bind CAvl_parent up f_node].
    rewrite bool_decide_eq_true_2 by done. cbn [assert mbind option_bind].
    assert (m ∈ inorder (Node rl m rb rr)) as Hm by (simpl; set_solver).
    rewrite compare_entries_ok by auto. rewrite (cmp_antisym (kf n') (kf m)), HB by auto. cbn [assert mbind option_bind].
    apply (IHr fuel _ m Hr); [done|lens|done..]. }
  cbn [mbind option_bind]. rewrite (proj2 (Z.eqb_eq _ _) Eb). cbn [assert mbind option_bind height]. rewrite MAX_eq, MAX_max.
  f_equal. lia.
Qed.
Lemma Verify_refines kf s t : linked s [] t → avl t → ordered ok cmp kf (inorder t) → CAvl_Verify cmp kf s = Some ().
Proof.
  intros H Ha Ho. unfold CAvl_Verify. pose proof H as (_ & _ & _ & ->). destruct t as [|l n b r]; [done|].
  cbn [top troot]. rewrite (get_parent_ok _ _ _ (linked_node _ _ _ _ _ _ H)). cbn [mbind option_bind CAvl_parent up].
  rewrite bool_decide_eq_true_2 by done. cbn [assert mbind option_bind].
  rewrite (verify_ok kf s _ _ [] n H eq_refl) by first [done|apply (linked_fuel _ [] _ H)]. done.
Qed.
End Keys.
End Refines.

(** ** The wrappers of structure/SAvl_impl.h

    The entries are linked through a field that holds the node; an entry is the
    reference to it. *)
Module SAvl.
Import CAvl.

Definition SAvl_Init (nodes : gmap nat CAvlNode) : CAvl := CAvl_Init nodes.
Definition SAvl_Insert {K} (cmp : K → K → Z) (kf : nat → K) (o : CAvl) (entry : nat) : option (bool * CAvlLink * CAvl) :=
  CAvl_Insert cmp kf o entry.
Definition SAvl_Remove (o : CAvl) (entry : nat) : option CAvl := CAvl_Remove o entry.
Definition SAvl_LookupExact {K} (cmp : K → K → Z) (kf : nat → K) (o : CAvl) (key : K) : option CAvlLink :=
  CAvl_LookupExact cmp kf o key.
Definition SAvl_GetFirst (o : CAvl) : option CAvlLink := CAvl_GetFirst o.
Definition SAvl_GetLast (o : CAvl) : option CAvlLink := CAvl_GetLast o.
Definition SAvl_GetNext (o : CAvl) (entry : nat) : option CAvlLink := CAvl_GetNext o entry.
Definition SAvl_GetPrev (o : CAvl) (entry : nat) : option CAvlLink := CAvl_GetPrev o entry.
Definition SAvl_IsEmpty (o : CAvl) : bool := CAvl_IsEmpty o.
Definition SAvl_Verify {K} (cmp : K → K → Z) (kf : nat → K) (o : CAvl) : option unit := CAvl_Verify cmp kf o.
End SAvl.

(** ** The contract of the clients *)
Section Contract.
Import AvlTree CAvl SAvl.

(** The tree of the timers, and that of the queued flows. *)
Definition cavl_index {K} : IndexOps K CAvl := {|
  ix_empty := CAvl_Init ∅;
  ix_lookup cmp kf k s := match CAvl_LookupExact cmp kf s k with Some r => r | None => None end;
  ix_insert cmp kf p s := match CAvl_Insert cmp kf s p with Some (true, _, s') => Some s' | _ => None end;
  ix_remove p s := match CAvl_Remove s p with Some s' => s' | None => s end;
  ix_first s := match CAvl_GetFirst s with Some r => r | None => None end
|}.
Definition savl_index {K} : IndexOps K CAvl := {|
  ix_empty := SAvl_Init ∅;
  ix_lookup cmp kf k s := match SAvl_LookupExact cmp kf s k with Some r => r | None => None end;
  ix_insert cmp kf p s := match SAvl_Insert cmp kf s p with Some (true, _, s') => Some s' | _ => None end;
  ix_remove p s := match SAvl_Remove s p with Some s' => s' | None => s end;
  ix_first s := match SAvl_GetFirst s with Some r => r | None => None end
|}.

Context {K : Type} (ok : K → Prop) (cmp : K → K → Z) `{!TotalCmp ok cmp}.

Lemma linked_empty h : linked (CAvl_Init h) [] Leaf.
Proof. split_and!; try done. constructor. Qed.

Lemma inserted_fresh kf p l l' : ordered ok cmp kf l → ok (kf p) → list_insert_sorted cmp kf p l = Some l' → p ∉ l.
Proof.
  intros Ho Hp E (A & B & ->)%list_elem_of_split.
  assert (cmp (kf p) (kf p) = 0) as E0 by (by apply cmp_eq).
  rewrite insert_sorted_skip in E by (eapply above_left; [done..|lia]). simpl in E. by rewrite E0 in E.
Qed.

Lemma Insert_step kf p s t : linked s [] t → avl t → ordered ok cmp kf (inorder t) → ok (kf p) →
  match list_insert_sorted cmp kf p (inorder t) with
  | None => ∃ out s', CAvl_Insert cmp kf s p = Some (false, out, s') ∧ linked s' [] t
  | Some l => ∃ out s' t', CAvl_Insert cmp kf s p = Some (true, out, s') ∧ linked s' [] t' ∧ avl t' ∧ inorder t' = l
  end.
Proof.
  intros H Ha Ho Hp. pose proof (Insert_ok kf p t Ha Ho Hp) as Hi.
  destruct (list_insert_sorted cmp kf p (inorder t)) as [l|] eqn:El.
  - destruct Hi as (t' & Ei & Ha' & Hi).
    destruct (Insert_refines cmp kf s t p true t' H Ha Ei) as (out & s' & E & H'); [|by eauto 10].
    intros _. by eapply inserted_fresh.
  - by apply (Insert_refines cmp kf s t p false t H Ha Hi).
Qed.

Definition cavl_wf (kf : nat → K) (s : CAvl) : Prop :=
  ∃ t, linked s [] t ∧ avl t ∧ ordered ok cmp kf (inorder t).

#[global] Program Instance cavl_index_laws : IndexLaws (@cavl_index K) ok cmp := {|
  ix_elems := elems; ix_wf := cavl_wf
|}.
Next Obligation. intros kf s (t & H & Ha & Ho). by rewrite (elems_linked _ _ H). Qed.
Next Obligation.
  intros kf kf' s He (t & H & Ha & Ho). exists t. rewrite (elems_linked _ _ H) in He. split_and!; try done.
  by apply (ix_wf_ext (IndexLaws := list_index_laws ok cmp) kf).
Qed.
Next Obligation. intros kf kf' s (t & H & Ha & Ho) Ho'. exists t. by rewrite (elems_linked _ _ H) in Ho'. Qed.
Next Obligation. intros kf. exists Leaf. split; [apply linked_empty|]. split; [done|]. split; constructor. Qed.
Next Obligation. by rewrite (elems_linked _ _ (linked_empty ∅)). Qed.
Next Obligation.
  intros kf k s (t & H & Ha & Ho) Hk. simpl. rewrite (elems_linked _ _ H), (LookupExact_refines kf k _ _ H).
  destruct (LookupExact_ok kf k t Ho Hk) as (r & -> & Hr). by destruct r.
Qed.
Next Obligation.
  intros kf p s (t & H & Ha & Ho) Hp Hne. simpl. rewrite (elems_linked _ _ H) in Hne |- *.
  destruct (list_insert_sorted_spec ok cmp kf p (inorder t) Ho Hp Hne) as (l & El & Hl & Hperm).
  pose proof (Insert_step kf p s t H Ha Ho Hp) as Hi. rewrite El in Hi.
  destruct Hi as (out & s' & t' & -> & H' & Ha' & Hi'). exists s'. rewrite (elems_linked _ _ H'), Hi'.
  split_and!; [done| |done]. exists t'. by rewrite Hi'.
Qed.
Next Obligation.
  intros kf p s (t & H & Ha & Ho) Hp. rewrite (elems_linked _ _ H) in Hp |- *. pose proof (ordered_NoDup kf _ Ho) as Hnd.
  simpl. destruct (Remove_ok p t Ha Hnd Hp) as (t' & Er & Ha' & Hi).
  destruct (Remove_refines s t p t' H Ha Er) as (s' & -> & H'). rewrite (elems_linked _ _ H'), Hi. split.
  - exists t'. split_and!; try done. rewrite Hi.
    apply (ix_remove_spec (IndexLaws := list_index_laws ok cmp) kf p (inorder t)); done.
  - by apply remove_filter_perm.
Qed.
Next Obligation. intros kf s (t & H & _). simpl. by rewrite (GetFirst_refines _ _ H), (elems_linked _ _ H). Qed.
#[global] Instance savl_index_laws : IndexLaws (@savl_index K) ok cmp := cavl_index_laws.

(** ** Sequences of operations *)

(** On the linked nodes; [None]: a violated assertion or an invalid link. *)
Definition op_linked (kf : nat → K) (o : op) (s : CAvl) : option (answer * CAvl) :=
  match o with
  | OpInsert p => '(b, _, s') ← CAvl_Insert cmp kf s p; Some (AInserted b, s')
  | OpRemove p => s' ← CAvl_Remove s p; Some (ARemoved, s')
  | OpLookup k => r ← CAvl_LookupExact cmp kf s k; Some (ANode r, s)
  | OpFirst => r ← CAvl_GetFirst s; Some (ANode r, s)
  | OpLast => r ← CAvl_GetLast s; Some (ANode r, s)
  end.

Lemma op_linked_list kf o s t a l : (∀ p, ok (kf p)) → op_ok ok o → linked s [] t → avl t → ordered ok cmp kf (inorder t) →
  op_list cmp kf o (inorder t) = Some (a, l) →
  ∃ s' t', op_linked kf o s = Some (a, s') ∧ linked s' [] t' ∧ avl t' ∧ inorder t' = l ∧ ordered ok cmp kf l.
Proof.
  intros Hkf Hop H Ha Ho E. destruct (op_tree_list ok cmp kf o t a l Hkf Hop Ha Ho E) as (t1 & E1 & Ha1 & Hi1 & Ho1).
  destruct o as [p|p|k| |]; simpl in E, E1 |- *.
  - pose proof (Insert_step kf p s t H Ha Ho (Hkf p)) as Hs. destruct (list_insert_sorted cmp kf p (inorder t)) as [l'|] eqn:El.
    + destruct Hs as (out & s' & t' & -> & H' & ? & Hi). injection E as <- <-. by exists s', t'.
    + destruct Hs as (out & s' & -> & H'). simplify_eq/=. by exists s', t.
  - destruct (Remove p t) as [t'|] eqn:Er; [|done]. destruct (Remove_refines s t p t' H Ha Er) as (s' & -> & H').
    simplify_eq/=. by exists s', t1.
  - rewrite (LookupExact_refines kf k _ _ H). destruct (LookupExact cmp kf k t) as [r|]; [|done]. simplify_eq/=. by exists s, t1.
  - rewrite (GetFirst_refines _ _ H). injection E as <- <-. by exists s, t.
  - rewrite (GetLast_refines _ _ H). injection E as <- <-. by exists s, t.
Qed.

Lemma run_linked_list kf ops s t as_ l : (∀ p, ok (kf p)) → Forall (op_ok ok) ops → linked s [] t → avl t →
  ordered ok cmp kf (inorder t) → run (op_list cmp kf) ops (inorder t) = Some (as_, l) →
  ∃ s' t', run (op_linked kf) ops s = Some (as_, s') ∧ linked s' [] t' ∧ avl t' ∧ inorder t' = l ∧ ordered ok cmp kf l.
Proof.
  intros Hkf Hops. revert s t as_. induction Hops as [|o ops Ho Hops IH]; intros s t as_ H Ha Hord; simpl.
  { intros [= <- <-]. by exists s, t. }
  destruct (op_list cmp kf o (inorder t)) as [[a l1]|] eqn:E; [|done]. simpl.
  destruct (op_linked_list kf o s t a l1 Hkf Ho H Ha Hord E) as (s1 & t1 & -> & H1 & Ha1 & <- & Ho1). simpl.
  destruct (run (op_list cmp kf) ops (inorder t1)) as [[as1 l2]|] eqn:E2; [|done]. simpl. intros [= <- <-].
  destruct (IH s1 t1 as1 H1 Ha1 Ho1 E2) as (s2 & t2 & -> & ? & ? & ? & ?). simpl. by exists s2, t2.
Qed.

(** C36: The AVL tree of linked nodes implements a sorted list.  Whatever the
    fields of the entries held before, any sequence of insertions, removals of
    present nodes, lookups and queries of the first and last node gives the same
    answers on the nodes in memory as on the list: no assertion fails, no link
    leads outside the nodes, and every loop and the recursion of the rebalancing
    end.  The tree then passes the program's own verification (parent links,
    order and balance factors), and each node leads to its neighbours in the
    list. *)
Theorem cavl_refines_list h kf ops as_ l :
  (∀ p, ok (kf p)) → Forall (op_ok ok) ops → run (op_list cmp kf) ops [] = Some (as_, l) →
  ∃ s, run (op_linked kf) ops (CAvl_Init h) = Some (as_, s) ∧ elems s = l ∧
    CAvl_Verify cmp kf s = Some () ∧ CAvl_IsEmpty s = bool_decide (l = []) ∧
    ∀ A n B, l = A ++ n :: B → CAvl_GetNext s n = Some (head B) ∧ CAvl_GetPrev s n = Some (list.last A).
Proof.
  intros Hkf Hops Hr.
  destruct (run_linked_list kf ops (CAvl_Init h) Leaf as_ l Hkf Hops (linked_empty h) I) as (s & t & E & H & Ha & Hi & Ho);
    [split; constructor|done|].
  exists s. rewrite (elems_linked _ _ H), (IsEmpty_refines _ _ H). subst l. split_and!; try done.
  - by apply (Verify_refines kf s t).
  - destruct t; simpl; [done|]. symmetry. apply bool_decide_eq_false. by destruct (inorder t1).
  - intros A n B. by apply neighbours_refine.
Qed.
End Contract.

(** Insertions and removals with all the kinds of rotation and exchange. *)
Lemma cavl_refines_list_witness :
  let ops := [OpInsert 5; OpInsert 3; OpInsert 8; OpInsert 1; OpInsert 4; OpInsert 2; OpRemove 3; OpRemove 4;
              OpInsert 9; OpInsert 7; OpInsert 6; OpRemove 8; OpLookup 7; OpFirst; OpLast] in
  ∃ s as_, run (op_linked B_COMPARE Z.of_nat) ops (CAvl.CAvl_Init ∅) = Some (as_, s) ∧
    elems s = [1; 2; 5; 6; 7; 9]%nat ∧ CAvl.CAvl_Verify B_COMPARE Z.of_nat s = Some () ∧
    CAvl.CAvl_GetNext s 5 = Some (Some 6%nat).
Proof.
  destruct (cavl_refines_list (λ _ : Z, True) B_COMPARE (TotalCmp0 := B_COMPARE_total) ∅ Z.of_nat
    [OpInsert 5; OpInsert 3; OpInsert 8; OpInsert 1; OpInsert 4; OpInsert 2; OpRemove 3; OpRemove 4;
              OpInsert 9; OpInsert 7; OpInsert 6; OpRemove 8; OpLookup 7; OpFirst; OpLast] _ _ (λ _, I)
    ltac:(repeat constructor) ltac:(vm_compute; reflexivity)) as (s & E & Hl & Hv & _ & Hn).
  exists s. eexists. split; [exact E|]. split; [exact Hl|]. split; [exact Hv|].
  exact (proj1 (Hn [1; 2]%nat 5%nat [6; 7; 9]%nat eq_refl)).
Defined.
