(* ===== verification/BAvl.v ===== *)
(** * AVL trees of linked nodes with parents: structure/BAVL.h

    The trees of the UDP clients' connections.  A [BAVLNode] has the fields of an
    entry of CAvl (the links to its parent and its two children and its balance
    factor), so the nodes in memory, the reads and writes of their fields and the
    walks down and up the links are those of CAvl.v; the operations here are those of
    BAVL.h, one read or write at a time in the order of the source.  [BAVL_COUNT] is
    not defined, so the counts do not exist.  An operation is [None] if it fails an
    assertion or follows a link to no node.

    The operations are proved to do on the nodes in memory what those of [AvlTree] do
    on inductive trees. *)
From Stdlib Require Import ZArith Lia Sorting.Sorted.
From stdpp Require Import base list sets gmap numbers.
From S2P Require Import Prelude ByteOrder Addr Index Avl CAvl.
#[local] Open Scope Z_scope.

Module BAVL.
Import CAvl.

Definition BAVL_MAX (a b : Z) : Z := if b <? a then a else b.
Definition BAVL_OPTNEG (a : Z) (neg : bool) : Z := if neg then - a else a.

(** [if (p) p->link[old == old->parent->link[1]] = new; else tree->root = new;] *)
Definition replace_child (s : CAvl) (p : CAvlLink) (old : nat) (new : CAvlLink) : option CAvl :=
  match p with
  | Some p => op ← get_parent s old; op ← op; r ← get_link s op true; set_link s p (bool_decide (Some old = r)) new
  | None => Some (set_root s new)
  end.

Definition BAVL_rotate (s : CAvl) (r : nat) (dir : bool) : option CAvl :=
  nr ← get_link s r (negb dir); nr ← nr;
  x ← get_link s nr dir;
  s ← set_link s r (negb dir) x;
  x ← get_link s r (negb dir);
  s ← set_parent_if s x (Some r);
  s ← set_link s nr dir (Some r);
  p ← get_parent s r; s ← set_parent s nr p;
  s ← replace_child s p r (Some nr);
  set_parent s r (Some nr).

Definition BAVL_subtree_max (s : CAvl) (n : CAvlLink) : option nat := n ← n; descend (fuel_of s) true s n.

Definition BAVL_replace_subtree (s : CAvl) (dest : nat) (n : CAvlLink) : option CAvl :=
  p ← get_parent s dest;
  s ← replace_child s p dest n;
  match n with None => Some s | Some c => p ← get_parent s dest; set_parent s c p end.

(** [_BAVL_swap_nodes]: the nodes are directly connected, [n1] above [n2]. *)
Definition BAVL_swap_connected (s : CAvl) (n1 n2 : nat) : option CAvl :=
  r ← get_link s n1 true; let side := bool_decide (Some n2 = r) in
  c ← get_link s n1 (negb side);
  x ← get_link s n2 false; s ← adopt s n1 false x;
  x ← get_link s n2 true; s ← adopt s n1 true x;
  p ← get_parent s n1; s ← set_parent s n2 p;
  s ← replace_child s p n1 (Some n2);
  s ← set_link s n2 side (Some n1);
  s ← set_parent s n1 (Some n2);
  adopt s n2 (negb side) c.
Definition BAVL_swap_others (s : CAvl) (n1 n2 : nat) : option CAvl :=
  temp ← get_parent s n1;
  p ← get_parent s n2; s ← set_parent s n1 p;
  s ← replace_child s p n2 (Some n1);
  s ← set_parent s n2 temp;
  s ← set_child s temp n1 (Some n2);
  temp ← get_link s n1 false;
  x ← get_link s n2 false; s ← adopt s n1 false x;
  s ← adopt s n2 false temp;
  temp ← get_link s n1 true;
  x ← get_link s n2 true; s ← adopt s n1 true x;
  adopt s n2 true temp.
Definition BAVL_swap_nodes (s : CAvl) (n1 n2 : nat) : option CAvl :=
  p2 ← get_parent s n2; p1 ← get_parent s n1;
  let connected := bool_decide (p2 = Some n1) || bool_decide (p1 = Some n2) in
  let '(n1, n2) := if connected && bool_decide (p1 = Some n2) then (n2, n1) else (n1, n2) in
  s ← (if connected then BAVL_swap_connected s n1 n2 else BAVL_swap_others s n1 n2);
  b ← get_balance s n1; b2 ← get_balance s n2;
  s ← set_balance s n1 b2;
  set_balance s n2 b.

(** The transformations of [_BAVL_rebalance]: the node that is in the place of
    [node] afterwards, and [delta]. *)
Definition BAVL_transform (s : CAvl) (node : nat) (delta : Z) : option (CAvl * nat * Z) :=
  b ← get_balance s node;
  if (b =? 2) || (b =? -2) then
    let bside := b =? 2 in
    let bsidef := if bside then 1 else -1 in
    child ← get_link s node bside; child ← child;
    cb ← get_balance s child;
    if cb * bsidef =? 1 then
      s ← BAVL_rotate s node (negb bside);
      s ← set_balance s node 0; s ← set_balance s child 0;
      Some (s, child, delta - 1)
    else if cb * bsidef =? 0 then
      s ← BAVL_rotate s node (negb bside);
      s ← set_balance s node (1 * bsidef); s ← set_balance s child (-1 * bsidef);
      Some (s, child, delta)
    else if cb * bsidef =? -1 then
      gchild ← get_link s child (negb bside); gchild ← gchild;
      s ← BAVL_rotate s child bside;
      s ← BAVL_rotate s node (negb bside);
      gb ← get_balance s gchild;
      s ← set_balance s node (- BAVL_MAX 0 (gb * bsidef) * bsidef);
      s ← set_balance s child (BAVL_MAX 0 (- gb * bsidef) * bsidef);
      s ← set_balance s gchild 0;
      Some (s, gchild, delta - 1)
    else None
  else Some (s, node, delta).

(** The recursion goes up to the root, one node at a time. *)
Fixpoint BAVL_rebalance (fuel : nat) (s : CAvl) (node : nat) (side : bool) (deltac : Z) : option CAvl :=
  match fuel with
  | O => None
  | S fuel =>
      _ ← assert (in_range deltac);
      b ← get_balance s node; _ ← assert (in_range b);
      if deltac =? 0 then Some s else
      let delta := BAVL_MAX deltac (BAVL_OPTNEG b side) - BAVL_MAX 0 (BAVL_OPTNEG b side) in
      _ ← assert (in_range delta);
      s ← set_balance s node (b - BAVL_OPTNEG deltac side);
      '(s, node, delta) ← BAVL_transform s node delta;
      _ ← assert (in_range delta);
      p ← get_parent s node;
      match p with
      | None => Some s
      | Some p => r ← get_link s p true; BAVL_rebalance fuel s p (bool_decide (Some node = r)) delta
      end
  end.

Definition BAVL_Init (nodes : gmap nat CAvlNode) : CAvl := mk_CAvl None nodes.
Definition BAVL_IsEmpty (s : CAvl) : bool := bool_decide (root s = None).

(** The rest of [BAVL_Remove], when the node has at most one child. *)
Definition BAVL_unlink (s : CAvl) (node : nat) : option CAvl :=
  l ← get_link s node false; r ← get_link s node true;
  _ ← assert (negb (bool_decide (is_Some l) && bool_decide (is_Some r)));
  parent ← get_parent s node;
  let child := match l with Some _ => l | None => r end in
  match parent with
  | Some p =>
      pr ← get_link s p true; let side := bool_decide (Some node = pr) in
      s ← BAVL_replace_subtree s node child;
      BAVL_rebalance (fuel_of s) s p side (-1)
  | None => BAVL_replace_subtree s node child
  end.
Definition BAVL_Remove (s : CAvl) (node : nat) : option CAvl :=
  l ← get_link s node false; r ← get_link s node true;
  s ← match l, r with
      | Some _, Some _ => max ← BAVL_subtree_max s l; BAVL_swap_nodes s node max
      | _, _ => Some s
      end;
  BAVL_unlink s node.

(** The reference is null if the tree is empty. *)
Definition BAVL_GetFirst (s : CAvl) : option CAvlLink :=
  match root s with None => Some None | Some n => n ← descend (fuel_of s) false s n; Some (Some n) end.
Definition BAVL_GetLast (s : CAvl) : option CAvlLink :=
  match root s with None => Some None | Some n => n ← descend (fuel_of s) true s n; Some (Some n) end.
Definition BAVL_GetNext (s : CAvl) (n : nat) : option CAvlLink :=
  r ← get_link s n true;
  match r with
  | Some c => n ← descend (fuel_of s) false s c; Some (Some n)
  | None => ascend (fuel_of s) true s n
  end.
Definition BAVL_GetPrev (s : CAvl) (n : nat) : option CAvlLink :=
  l ← get_link s n false;
  match l with
  | Some c => n ← descend (fuel_of s) true s c; Some (Some n)
  | None => ascend (fuel_of s) false s n
  end.

Section Values.
Context {K : Type} (cmp : K → K → Z) (kf : nat → K).

(** With the assertion on the comparator; [kf] is the value of a node. *)
Definition BAVL_compare_values (v1 v2 : K) : option Z :=
  let res := cmp v1 v2 in _ ← assert ((res =? -1) || (res =? 0) || (res =? 1)); Some res.
Definition BAVL_compare_nodes (n1 n2 : nat) : option Z := BAVL_compare_values (kf n1) (kf n2).

(** The loop of [BAVL_Insert]: an equal node, or the node to insert below and the side. *)
Fixpoint BAVL_insert_search (fuel : nat) (s : CAvl) (node c : nat) : option (nat + nat * bool) :=
  match fuel with
  | O => None
  | S fuel =>
      comp ← BAVL_compare_nodes node c;
      if comp =? 0 then Some (inl c) else
      let side := comp =? 1 in
      l ← get_link s c side;
      match l with None => Some (inr (c, side)) | Some c => BAVL_insert_search fuel s node c end
  end.
(** The result, [*ref] and the tree. *)
Definition BAVL_Insert (s : CAvl) (node : nat) : option (bool * CAvlLink * CAvl) :=
  match root s with
  | None => Some (true, None, init_node (set_root s (Some node)) node None)
  | Some c =>
      r ← BAVL_insert_search (fuel_of s) s node c;
      match r with
      | inl c => Some (false, Some c, s)
      | inr (c, side) =>
          s ← set_link s c side (Some node);
          let s := init_node s node (Some c) in
          s ← BAVL_rebalance (fuel_of s) s c side 1;
          Some (true, Some c, s)
      end
  end.

(** The loops of [BAVL_Lookup] and [BAVL_LookupExact]: what they return at a leaf. *)
Fixpoint BAVL_lookup_loop (exact : bool) (fuel : nat) (s : CAvl) (val : K) (c : nat) : option CAvlLink :=
  match fuel with
  | O => None
  | S fuel =>
      comp ← BAVL_compare_values val (kf c);
      if comp =? 0 then Some (Some c) else
      l ← get_link s c (comp =? 1);
      match l with None => Some (if exact then None else Some c) | Some c => BAVL_lookup_loop exact fuel s val c end
  end.
Definition BAVL_Lookup (s : CAvl) (val : K) : option CAvlLink :=
  match root s with None => Some None | Some c => BAVL_lookup_loop false (fuel_of s) s val c end.
Definition BAVL_LookupExact (s : CAvl) (val : K) : option CAvlLink :=
  match root s with None => Some None | Some c => BAVL_lookup_loop true (fuel_of s) s val c end.

Fixpoint BAVL_assert_recurser (fuel : nat) (s : CAvl) (n : nat) : option Z :=
  match fuel with
  | O => None
  | S fuel =>
      b ← get_balance s n; _ ← assert (-1 <=? b); _ ← assert (b <=? 1);
      l ← get_link s n false;
      height_left ← match l with
        | None => Some 0
        | Some c =>
            p ← get_parent s c; _ ← assert (bool_decide (p = Some n));
            comp ← BAVL_compare_nodes c n; _ ← assert (comp =? -1);
            BAVL_assert_recurser fuel s c
        end;
      r ← get_link s n true;
      height_right ← match r with
        | None => Some 0
        | Some c =>
            p ← get_parent s c; _ ← assert (bool_decide (p = Some n));
            comp ← BAVL_compare_nodes c n; _ ← assert (comp =? 1);
            BAVL_assert_recurser fuel s c
        end;
      _ ← assert (b =? height_right - height_left);
      Some (BAVL_MAX height_left height_right + 1)
  end.
Definition BAVL_Verify (s : CAvl) : option unit :=
  match root s with
  | None => Some ()
  | Some n =>
      p ← get_parent s n; _ ← assert (bool_decide (p = None));
      _ ← BAVL_assert_recurser (fuel_of s) s n; Some ()
  end.
End Values.

End BAVL.

(** ** Links *)
Section Links.
Import AvlTree CAvl BAVL.

Lemma replace_child_eq s p old new : get_parent s old = Some p → replace_child s p old new = set_child s p old new.
Proof. intros E. unfold replace_child, set_child. destruct p as [p|]; [|done]. by rewrite E. Qed.
Lemma replace_child_ok s pa par old new d : repz (nodes s) pa par (Some old) → old ∉ pnodes pa → (pa = [] → par = None) →
  nodes s !! old = Some d → CAvl_parent d = up pa par →
  replace_child s (up pa par) old new =
    Some (mk_CAvl (match pa with [] => new | _ => root s end) (hset_child (nodes s) pa new)).
Proof.
  intros Hz Hn Hp Hd Hup. rewrite replace_child_eq by (by rewrite (get_parent_ok _ _ _ Hd), Hup). by apply set_child_ok.
Qed.

(** The rotation does the same writes as that of CAvl. *)
Lemma rotate_same s pa dir r b o nr b' y x :
  linked s pa (plug (mk_frame (negb dir) r b o) (plug (mk_frame dir nr b' y) x)) →
  BAVL_rotate s r dir = CAvl_rotate s r dir (up pa None).
Proof.
  intros (Hrep & Hz & Hnd & _).
  apply rep_plug in Hrep as (Hr & Ho & Hrep). apply rep_plug in Hrep as (Hnr & Hy & Hx).
  rewrite troot_plug in *. rewrite !inorder_plug_perm in Hnd.
  cbn [f_node f_side f_other f_balance] in *. split_nodup.
  etransitivity; [|symmetry].
  - unfold BAVL_rotate. do 4 exec1.
    erewrite set_parent_if_ok by frame. cbn [mbind option_bind]. do 3 exec1.
    erewrite replace_child_ok; [|frame|assumption|done|look|by autorewrite with cavl]. cbn [mbind option_bind].
    eapply set_parent_ok. look.
  - unfold CAvl_rotate.
    erewrite check_parent_ok; [|exact Hz|assumption|done|exact Hr|by rewrite parent_cell].
    cbn [mbind option_bind assert]. do 4 exec1.
    erewrite set_parent_if_ok by frame. cbn [mbind option_bind]. do 2 exec1.
    erewrite set_child_ok; [|frame|assumption|done]. cbn [mbind option_bind].
    erewrite set_parent_ok by look. reflexivity.
Qed.
End Links.

(** ** Rebalancing *)
Section Rebalance.
Import AvlTree CAvl BAVL.

Lemma transform_same s pa t n delta : linked s pa t → troot t = Some n →
  BAVL_transform s n delta = transform s n delta.
Proof.
  destruct t as [|l n' b r]; [done|]. intros H [= ->]. unfold BAVL_transform, transform.
  pose proof (linked_node _ _ _ _ _ _ H) as Hn. rewrite (get_balance_ok _ _ _ Hn). cbn [mbind option_bind CAvl_balance].
  destruct ((b =? 2) || (b =? -2)); [|done].
  set (side := b =? 2). set (sf := if side then 1 else -1).
  rewrite (get_link_ok _ _ _ side Hn). cbn [mbind option_bind].
  assert (CAvl_link (mk_CAvlNode (up pa None) (troot l) (troot r) b) side = troot (link side (Node l n b r))) as ->
    by (by destruct side).
  set (o := link (negb side) (Node l n b r)). set (ch := link side (Node l n b r)).
  assert (Node l n b r = plug (mk_frame side n b o) ch) as Et by (subst o ch; by destruct side).
  rewrite Et in H. clearbody side sf o ch. clear Et Hn.
  rewrite (get_parent_plug _ _ _ _ _ _ _ H). destruct ch as [|c1 c cb c2]; [done|]. cbn [troot mbind option_bind].
  set (y := link side (Node c1 c cb c2)). set (x := link (negb side) (Node c1 c cb c2)).
  assert (Node c1 c cb c2 = plug (mk_frame (negb side) c cb y) x) as Ec by (subst x y; by destruct side).
  rewrite Ec in H. clearbody x y. clear Ec.
  assert (BAVL_rotate s n (negb side) = CAvl_rotate s n (negb side) (up pa None)) as ->.
  { apply (rotate_same s pa (negb side) n b o c cb y x). by rewrite negb_involutive. }
  destruct (get_balance s c) as [cb'|]; [|done]. cbn [mbind option_bind].
  destruct (cb' * sf =? 1); [done|]. destruct (cb' * sf =? 0); [done|]. destruct (cb' * sf =? -1); [|done].
  assert (get_link s c (negb side) = Some (troot x)) as ->.
  { apply linked_move in H. rewrite (get_link_ok _ _ _ _ (linked_plug _ _ _ _ H)). by destruct side. }
  destruct x as [|g1 g gb g2] eqn:Ex; [done|]. cbn [troot mbind option_bind].
  set (x1 := link (negb side) x) in *. set (x2 := link side x) in *.
  assert (Node g1 g gb g2 = plug (mk_frame side g gb x1) x2) as Eg by (subst x1 x2; rewrite Ex; by destruct side).
  rewrite Eg in H. clearbody x1 x2. clear Eg Ex x. apply linked_move in H.
  rewrite (rotate_same _ _ _ _ _ _ _ _ _ _ H).
  destruct (rotate_ok _ _ _ _ _ _ _ _ _ _ H) as (s0 & E0 & H0). cbn [up f_node] in E0 |- *. rewrite E0.
  cbn [mbind option_bind]. rewrite linked_move in H0. rewrite (get_parent_plug _ _ _ _ _ _ _ H0). cbn [mbind option_bind].
  rewrite (plug_swap side g) in H0.
  rewrite (rotate_same s0 pa (negb side) n b o g gb (plug (mk_frame (negb side) c cb y) x2) x1)
    by (by rewrite negb_involutive). done.
Qed.

Lemma BAVL_rebalance_refines pa fuel s t n side deltac t' :
  (length pa < fuel)%nat → linked s pa t → troot t = Some n → -1 ≤ balance t ≤ 1 → Forall in_balance pa →
  -1 ≤ deltac ≤ 1 → rebalance pa t side deltac = Some t' →
  ∃ s', BAVL_rebalance fuel s n side deltac = Some s' ∧ linked s' [] t'.
Proof.
  revert fuel s t n side deltac. induction pa as [|f pa IH]; intros fuel s t n side deltac Hf H Hn Hb Hpa Hd E;
    (destruct fuel as [|fuel]; [simpl in Hf; lia|]); destruct t as [|l n' b r]; [done| |done|]; injection Hn as ->;
    cbn [BAVL_rebalance]; rewrite (get_balance_ok _ _ _ (linked_node _ _ _ _ _ _ H)); cbn [mbind option_bind CAvl_balance];
    rewrite (in_range_true deltac Hd), (in_range_true b Hb); cbn [assert mbind option_bind andb];
    cbn [rebalance] in E; (destruct (Z.eqb_spec deltac 0) as [|Hne];
      [exists s; split; [done|]; injection E as <-; exact (proj1 (linked_zip s _ _) H)|]);
    (destruct (rebalance_node _ side deltac) as [[t1 d]|] eqn:Er; [|done]);
    destruct (rebalance_node_refines _ _ _ _ _ _ _ _ _ _ H Hne Er) as (Hin & Hir & s1 & s2 & n1 & E1 & E2 & H2 & Hn1);
    change (BAVL_MAX deltac (BAVL_OPTNEG b side) - BAVL_MAX 0 (BAVL_OPTNEG b side)) with
      (CAvl_MAX deltac (CAvl_OPTNEG b side) - CAvl_MAX 0 (CAvl_OPTNEG b side)); rewrite Hin;
    change (BAVL_OPTNEG deltac side) with (CAvl_OPTNEG deltac side); cbn [assert mbind option_bind]; rewrite E1;
    destruct (linked_set_balance _ _ _ _ _ _ (b - CAvl_OPTNEG deltac side) H) as (s1' & E1' & H1);
    rewrite E1 in E1'; injection E1' as <-;
    cbn [assert mbind option_bind]; rewrite (transform_same _ _ _ _ _ H1 eq_refl), E2; cbn [mbind option_bind]; rewrite Hir;
    cbn [assert mbind option_bind]; (destruct t1 as [|l1 n2 b1 r1]; [done|]); injection Hn1 as ->.
  - rewrite (get_parent_ok _ _ _ (linked_node _ _ _ _ _ _ H2)). cbn. injection E as <-. eauto.
  - destruct (linked_up _ _ _ _ _ _ _ H2) as (-> & d' & Ed' & Hs). cbn [mbind option_bind].
    rewrite Ed'. cbn [mbind option_bind]. rewrite Hs. apply list.Forall_cons in Hpa as [Hf' Hpa].
    apply linked_move in H2. eapply IH; [simpl in Hf; lia|exact H2|apply troot_plug| |done| |exact E].
    + unfold plug. destruct f as [[] ? ? ?]; apply Hf'.
    + unfold in_range in Hir. apply andb_true_iff in Hir. rewrite !Z.leb_le in Hir. lia.
Qed.
End Rebalance.

(** ** Replacing and exchanging nodes *)
Section Exchange.
Import AvlTree CAvl BAVL.

Lemma BAVL_replace_subtree_ok s pa l n b r child : linked s pa (Node l n b r) →
  (l = Leaf ∧ child = r) ∨ (r = Leaf ∧ child = l) →
  ∃ s', BAVL_replace_subtree s n (troot child) = Some s' ∧ linked s' pa child.
Proof.
  intros H Hc. destruct (replace_subtree_ok _ _ _ _ _ _ _ H Hc) as (s' & E & H'). exists s'. split; [|done]. rewrite <- E.
  unfold BAVL_replace_subtree, CAvl_replace_subtree_fix_assoc. rewrite (linked_check _ _ _ _ _ _ H). cbn [assert mbind option_bind].
  pose proof (get_parent_ok _ _ _ (linked_node _ _ _ _ _ _ H)) as Hp. cbn [CAvl_parent] in Hp.
  rewrite Hp. cbn [mbind option_bind]. rewrite replace_child_eq by done.
  unfold CAvl_replace_subtree_fix_assoc in E. rewrite (linked_check _ _ _ _ _ _ H) in E. cbn [assert mbind option_bind] in E.
  destruct (set_child _ _ _ _) as [s1|]; [|done]. cbn [mbind option_bind] in *.
  destruct (get_parent s1 n); [|done]. cbn [mbind option_bind] in *. by destruct child.
Qed.

Lemma swap_connected_same s pa n b o m mb ml mr : linked s (mk_frame false n b o :: pa) (Node ml m mb mr) →
  BAVL_swap_connected s n m = swap_connected s n m (up pa None).
Proof.
  intros ((Hm & Hml & Hmr) & (Hn & Ho & Hz) & Hnd & _).
  cbn [f_node f_side f_other f_balance cell up troot top inorder pnodes] in *. rewrite <- app_assoc in Hnd. cbn [app] in Hnd.
  split_nodup. etransitivity; [|symmetry].
  - unfold BAVL_swap_connected. exec1. rewrite troot_not_in by assumption. do 2 exec1.
    erewrite adopt_ok; [|look|frame|assumption]. cbn [mbind option_bind]. exec1.
    erewrite adopt_ok; [|look|frame|assumption]. cbn [mbind option_bind]. do 2 exec1.
    erewrite replace_child_ok; [|frame|assumption|done|look|done]. cbn [mbind option_bind]. do 2 exec1.
    eapply adopt_ok; [look|frame|assumption].
  - unfold swap_connected. exec1. rewrite troot_not_in by assumption. do 2 exec1.
    erewrite adopt_ok; [|look|frame|assumption]. cbn [mbind option_bind]. exec1.
    erewrite adopt_ok; [|look|frame|assumption]. cbn [mbind option_bind]. do 2 exec1.
    erewrite set_child_ok; [|frame|assumption|done]. cbn [mbind option_bind]. do 2 exec1.
    erewrite adopt_ok; [reflexivity|look|frame|assumption].
Qed.

Lemma get_parent_set_parent s s' n x m : set_parent s n x = Some s' → m ≠ n → get_parent s' m = get_parent s m.
Proof.
  unfold set_parent, put, get_parent, get. intros E Hne. destruct (nodes s !! n); [|done]. injection E as <-. simpl.
  by rewrite lookup_alter_ne.
Qed.
Lemma swap_others_same s n m p q : n ≠ m → get_parent s n = Some p → get_parent s m = Some q →
  BAVL_swap_others s n m = swap_others s n m p q.
Proof.
  intros Hne Ep Eq. unfold BAVL_swap_others, swap_others. rewrite Ep, Eq. cbn [mbind option_bind].
  destruct (set_parent s n q) as [s1|] eqn:E1; [|done]. cbn [mbind option_bind].
  rewrite replace_child_eq; [done|]. by rewrite (get_parent_set_parent _ _ _ _ _ E1).
Qed.

(** The exchange of a node and the largest one of its left subtree. *)
Lemma swap_nodes_ok s pm pa n b o m mb ml mr :
  linked s (pm ++ mk_frame false n b o :: pa) (Node ml m mb mr) →
  ∃ s', BAVL_swap_nodes s n m = Some s' ∧ linked s' (pm ++ mk_frame false m b o :: pa) (Node ml n mb mr).
Proof.
  intros H. destruct (swap_for_remove_ok _ _ _ _ _ _ _ _ _ _ H) as (s' & E & H'). exists s'. split; [|done]. rewrite <- E.
  pose proof (linked_check _ _ _ _ _ _ H) as Hcm. rewrite up_app in Hcm. simpl in Hcm.
  pose proof (get_parent_ok _ _ _ (linked_node _ _ _ _ _ _ H)) as Hpm. cbn [CAvl_parent] in Hpm. rewrite up_app in Hpm. simpl in Hpm.
  pose proof H as Hn. rewrite linked_app, linked_move in Hn. pose proof (linked_check_plug _ _ _ _ Hn) as Hcn. cbn [f_node] in Hcn.
  apply get_parent_plug in Hn as Hpn.
  assert (n ≠ m ∧ up pa None ≠ Some m) as [Hne Hup].
  { destruct H as (_ & _ & Hnd & _). rewrite pnodes_app in Hnd. simpl inorder in Hnd. split_nodup. split; [done|].
    destruct pa as [|f pa]; [done|]. simpl. intros [= Hf]. cbn [pnodes] in *. split_nodup. congruence. }
  unfold BAVL_swap_nodes, CAvl_swap_for_remove. rewrite Hpm, Hpn, Hcn, Hcm. cbn [assert mbind option_bind].
  rewrite (bool_decide_eq_false_2 (up pa None = Some m)), orb_false_r, andb_false_r by done.
  destruct pm as [|f pm].
  - simpl up. rewrite bool_decide_eq_true_2 by done. by rewrite (swap_connected_same _ _ _ _ _ _ _ _ _ H).
  - destruct (bool_decide (up (f :: pm) (Some n) = Some n)) eqn:Eb.
    + exfalso. apply bool_decide_eq_true in Eb. destruct H as (_ & _ & Hnd & _).
      rewrite pnodes_app in Hnd. simpl inorder in Hnd. injection Eb as Eb. split_nodup. congruence.
    + by rewrite (swap_others_same _ _ _ _ _ Hne Hpn Hpm).
Qed.
End Exchange.

(** ** The operations *)
Section Refines.
Import AvlTree CAvl BAVL.

Lemma BAVL_unlink_refines s pa l n b r child t' : linked s pa (Node l n b r) → Forall in_balance pa →
  (l = Leaf ∧ child = r) ∨ (r = Leaf ∧ child = l) →
  match pa with [] => Some child | f :: pa => rebalance pa (plug f child) (f_side f) (-1) end = Some t' →
  ∃ s', BAVL_unlink s n = Some s' ∧ linked s' [] t'.
Proof.
  intros H Hpa Hc E. destruct (BAVL_replace_subtree_ok _ _ _ _ _ _ _ H Hc) as (s1 & E1 & H1). unfold BAVL_unlink.
  rewrite !(get_link_ok _ _ _ _ (linked_node _ _ _ _ _ _ H)), (get_parent_ok _ _ _ (linked_node _ _ _ _ _ _ H)).
  cbn [mbind option_bind CAvl_link CAvl_link0 CAvl_link1 CAvl_parent].
  assert (negb (bool_decide (is_Some (troot l)) && bool_decide (is_Some (troot r))) = true) as ->.
  { destruct Hc as [[-> _]|[-> _]]; [done|]. by rewrite andb_false_r. }
  cbn [assert mbind option_bind].
  assert (match troot l with Some _ => troot l | None => troot r end = troot child) as ->.
  { destruct Hc as [[-> ->]|[-> ->]]; [done|]. by destruct l. }
  destruct pa as [|f pa]; cbn [up] in *.
  - simplify_eq. eauto.
  - destruct (linked_up _ _ _ _ _ _ _ H) as (_ & d & -> & Hs). cbn [mbind option_bind]. rewrite Hs, E1.
    cbn [mbind option_bind]. apply linked_move in H1. apply list.Forall_cons in Hpa as [Hf Hpa].
    pose proof (linked_fuel _ _ _ H1) as Hfuel.
    apply (BAVL_rebalance_refines pa _ _ (plug f child)); [lia|done|apply troot_plug| |done|lia|done].
    destruct f as [[] ? ? ?]; apply Hf.
Qed.

Lemma BAVL_Remove_refines s t node t' : linked s [] t → avl t → Remove node t = Some t' →
  ∃ s', BAVL_Remove s node = Some s' ∧ linked s' [] t'.
Proof.
  intros H Ha E. unfold Remove in E. destruct (locate node t []) as [[c pa]|] eqn:El; [|done]. simpl in E.
  destruct (locate_zip _ _ _ _ _ El) as (Hz & l & b & r & ->). simpl in Hz. rewrite <- Hz in *. clear El Hz t.
  pose proof (avl_zip_balance _ _ Ha) as Hpa. rewrite <- linked_zip in H.
  unfold BAVL_Remove.
  pose proof (linked_node _ _ _ _ _ _ H) as Hn. rewrite !(get_link_ok _ _ _ _ Hn).
  cbn [mbind option_bind CAvl_link CAvl_link0 CAvl_link1]. unfold remove_at in E.
  destruct l as [|ll ln lb lr], r as [|rl rn rb rr]; cbn [troot mbind option_bind link is_null negb andb] in E |- *.
  1,2,3: eapply BAVL_unlink_refines; eauto.
  set (l := Node ll ln lb lr) in *. set (r := Node rl rn rb rr) in *.
  destruct (subtree_max_zip l) as (pm & ml & m & mb & Em & Hzl & Hm); [done|].
  unfold swap_with_max in E. rewrite Em in E. cbn [mbind option_bind] in E. rewrite Em in E.
  cbn [mbind option_bind link is_null negb] in E. rewrite andb_false_r in E.
  pose proof (linked_fuel _ _ _ H) as Hfuel.
  assert (linked s (mk_frame false node b r :: pa) l) as Hl by (by apply linked_move).
  assert (BAVL_subtree_max s (Some ln) = Some m) as ->.
  { unfold BAVL_subtree_max. cbn [mbind option_bind].
    destruct (descend_max s l (fuel_of s) _ ln Hl) as [-> _]; [done| |done].
    cbn [inorder] in Hfuel. rewrite !length_app in Hfuel. lia. }
  assert (linked s (pm ++ mk_frame false node b r :: pa) (Node ml m mb Leaf)) as H1 by (by rewrite linked_app, Hzl).
  cbn [mbind option_bind]. destruct (swap_nodes_ok _ _ _ _ _ _ _ _ _ _ H1) as (s1 & -> & H2). cbn [mbind option_bind].
  eapply BAVL_unlink_refines; [exact H2| |right; split; reflexivity|].
  - assert (Forall in_balance (pm ++ mk_frame false node b r :: pa)) as Hb.
    { apply (avl_zip_balance _ (Node ml m mb Leaf)). rewrite zip_app, Hzl. done. }
    rewrite Forall_app, list.Forall_cons in Hb |- *. done.
  - rewrite <- E. by destruct ml.
Qed.

Lemma BAVL_GetFirst_eq s : BAVL_GetFirst s = CAvl_GetFirst s.
Proof. unfold BAVL_GetFirst, CAvl_GetFirst. by destruct (root s). Qed.
Lemma BAVL_GetLast_eq s : BAVL_GetLast s = CAvl_GetLast s.
Proof. unfold BAVL_GetLast, CAvl_GetLast. by destruct (root s). Qed.
Lemma BAVL_neighbours s t A n B : linked s [] t → inorder t = A ++ n :: B →
  BAVL_GetNext s n = Some (head B) ∧ BAVL_GetPrev s n = Some (list.last A).
Proof.
  intros H Hi. destruct (neighbours_refine s t A n B H Hi) as [<- <-]. unfold CAvl_GetNext, CAvl_GetPrev.
  rewrite (IsEmpty_refines _ _ H). destruct t; [simpl in Hi; by destruct A|done].
Qed.

Section Values.
Context {K : Type} {ok : K → Prop} {cmp : K → K → Z} `{!TotalCmp ok cmp}.

Lemma BAVL_compare_eq v1 v2 : BAVL_compare_values cmp v1 v2 = compare_values cmp v1 v2.
Proof. unfold BAVL_compare_values, compare_values. cbv zeta. by destruct (_ || _). Qed.

Lemma BAVL_insert_search_eq kf fuel s node c :
  BAVL_insert_search cmp kf fuel s node c = insert_search cmp kf fuel s node c.
Proof.
  revert c. induction fuel as [|fuel IH]; intros c; [done|]. cbn [BAVL_insert_search insert_search].
  unfold BAVL_compare_nodes. rewrite BAVL_compare_eq, <- compare_entries_values.
  destruct (CAvl_compare_entries _ _ _ _) as [comp|]; [|done]. cbn [mbind option_bind]. destruct (comp =? 0); [done|].
  destruct (get_link _ _ _) as [[c'|]|]; [|done..]. cbn [mbind option_bind]. apply IH.
Qed.

Lemma BAVL_Insert_refines kf s t node b t' : linked s [] t → avl t → Insert cmp kf node t = Some (b, t') →
  (b = true → node ∉ inorder t) →
  ∃ out s', BAVL_Insert cmp kf s node = Some (b, out, s') ∧ linked s' [] t'.
Proof.
  intros H Ha E Hin. unfold BAVL_Insert. pose proof H as (_ & _ & _ & ->). unfold Insert in E.
  destruct t as [|l n bb r]; cbn [is_null] in E; cbn [top troot].
  - simplify_eq. do 2 eexists. split; [done|]. split_and!; simpl; try done.
    + by rewrite lookup_insert_eq.
    + repeat constructor. by intros ?%elem_of_nil.
  - rewrite BAVL_insert_search_eq.
    destruct (insert_search_ok cmp kf node s (Node l n bb r) (fuel_of s) [] n (b, t')) as [(m & Em & [= -> ->])|Hx]; try done.
    { apply (linked_fuel _ [] _ H). }
    { rewrite Em. cbn. eauto. }
    destruct Hx as (side & m & mb & o & pa & t1 & Em & Hz & Hmb & Hpa & Er & [= -> ->]). rewrite Em. cbn [mbind option_bind].
    assert (linked s pa (plug (mk_frame side m mb o) Leaf)) as H1 by (apply linked_zip; by rewrite Hz).
    destruct (link_leaf_ok _ _ _ _ _ _ node H1) as (s1 & E1 & H2); [rewrite Hz; auto|]. rewrite E1. cbn [mbind option_bind].
    pose proof (linked_fuel _ _ _ H2) as Hfuel.
    destruct (BAVL_rebalance_refines pa (fuel_of (init_node s1 node (Some m))) (init_node s1 node (Some m)) _ m side 1 t1
      ltac:(lia) H2 (troot_plug _ _) ltac:(by destruct side) Hpa ltac:(lia) Er) as (s2 & E2 & H3).
    rewrite E2. cbn. eauto.
Qed.

Lemma lookup_loop_ok kf exact k s t : ∀ fuel pa n, linked s pa t → troot t = Some n → (length (inorder t) < fuel)%nat →
  BAVL_lookup_loop cmp kf exact fuel s k n = if exact then LookupExact cmp kf k t else Lookup cmp kf k t.
Proof.
  induction t as [|l IHl n b r IHr]; intros fuel pa n' H [=] Hf; subst. destruct fuel as [|fuel]; [lia|].
  cbn [BAVL_lookup_loop LookupExact Lookup inorder] in *. rewrite BAVL_compare_eq, length_app in *.
  destruct (compare_values cmp k (kf n')) as [comp|]; [|by destruct exact]. cbn [mbind option_bind length] in *.
  destruct (comp =? 0); [by destruct exact|].
  rewrite (get_link_ok _ _ _ _ (linked_node _ _ _ _ _ _ H)). cbn [mbind option_bind].
  destruct (comp =? 1); cbn [CAvl_link CAvl_link0 CAvl_link1 link].
  - destruct r as [|rl m rb rr]; [by destruct exact|]. cbn [troot is_null].
    apply (IHr fuel (mk_frame true n' b l :: pa)); [by apply linked_move|done|lia].
  - destruct l as [|ll m lb lr]; [by destruct exact|]. cbn [troot is_null].
    apply (IHl fuel (mk_frame false n' b r :: pa)); [by apply linked_move|done|lia].
Qed.
Lemma BAVL_LookupExact_refines kf k s t : linked s [] t → BAVL_LookupExact cmp kf s k = LookupExact cmp kf k t.
Proof.
  intros H. unfold BAVL_LookupExact. pose proof H as (_ & _ & _ & ->). destruct t as [|l n b r]; [done|].
  apply (lookup_loop_ok kf true k s _ _ [] n H eq_refl), (linked_fuel _ [] _ H).
Qed.
Lemma BAVL_Lookup_refines kf k s t : linked s [] t → BAVL_Lookup cmp kf s k = Lookup cmp kf k t.
Proof.
  intros H. unfold BAVL_Lookup. pose proof H as (_ & _ & _ & ->). destruct t as [|l n b r]; [done|].
  apply (lookup_loop_ok kf false k s _ _ [] n H eq_refl), (linked_fuel _ [] _ H).
Qed.

Lemma assert_recurser_eq kf fuel s n : BAVL_assert_recurser cmp kf fuel s n = CAvl_verify_recurser cmp kf fuel s n.
Proof.
  revert n. induction fuel as [|fuel IH]; intros n; [done|]. cbn [BAVL_assert_recurser CAvl_verify_recurser].
  assert (∀ c x, (p ← get_parent s c; _ ← assert (bool_decide (p = Some n));
      comp ← BAVL_compare_nodes cmp kf c n; _ ← assert (comp =? x); BAVL_assert_recurser cmp kf fuel s c) =
    (p ← get_parent s c; _ ← assert (bool_decide (p = Some n));
      comp ← CAvl_compare_entries cmp kf c n; _ ← assert (comp =? x); CAvl_verify_recurser cmp kf fuel s c)) as Hc.
  { intros c x. unfold BAVL_compare_nodes. by rewrite BAVL_compare_eq, compare_entries_values, IH. }
  destruct (get_balance s n) as [b|]; [|done]. cbn [mbind option_bind].
  destruct (assert (-1 <=? b)); [|done]. cbn [mbind option_bind]. destruct (assert (b <=? 1)); [|done]. cbn [mbind option_bind].
  destruct (get_link s n false) as [[c|]|]; [| |done]; cbn [mbind option_bind]; rewrite ?Hc;
    destruct (get_link s n true) as [[d|]|]; cbn [mbind option_bind]; rewrite ?Hc; done.
Qed.
Lemma BAVL_Verify_refines kf s t : linked s [] t → avl t → ordered ok cmp kf (inorder t) →
  BAVL_Verify cmp kf s = Some () ∧
  match root s with Some n => BAVL_assert_recurser cmp kf (fuel_of s) s n = Some (height t) | None => t = Leaf end.
Proof.
  intros H Ha Ho. unfold BAVL_Verify. pose proof H as (_ & _ & _ & ->). destruct t as [|l n b r]; [done|].
  cbn [top troot]. rewrite (get_parent_ok _ _ _ (linked_node _ _ _ _ _ _ H)). cbn [mbind option_bind CAvl_parent up].
  rewrite bool_decide_eq_true_2 by done. cbn [assert mbind option_bind].
  rewrite assert_recurser_eq, (verify_ok kf s _ _ [] n H eq_refl) by first [done|apply (linked_fuel _ [] _ H)]. done.
Qed.
End Values.
End Refines.

(** ** The contract of the clients *)
Section Contract.
Import AvlTree CAvl BAVL.

(** The trees of the connections of the UDP clients. *)
Definition bavl_index {K} : IndexOps K CAvl := {|
  ix_empty := BAVL_Init ∅;
  ix_lookup cmp kf k s := match BAVL_LookupExact cmp kf s k with Some r => r | None => None end;
  ix_insert cmp kf p s := match BAVL_Insert cmp kf s p with Some (true, _, s') => Some s' | _ => None end;
  ix_remove p s := match BAVL_Remove s p with Some s' => s' | None => s end;
  ix_first s := match BAVL_GetFirst s with Some r => r | None => None end
|}.

Context {K : Type} (ok : K → Prop) (cmp : K → K → Z) `{!TotalCmp ok cmp}.

Lemma BAVL_Insert_step kf p s t : linked s [] t → avl t → ordered ok cmp kf (inorder t) → ok (kf p) →
  match list_insert_sorted cmp kf p (inorder t) with
  | None => ∃ out s', BAVL_Insert cmp kf s p = Some (false, out, s') ∧ linked s' [] t
  | Some l => ∃ out s' t', BAVL_Insert cmp kf s p = Some (true, out, s') ∧ linked s' [] t' ∧ avl t' ∧ inorder t' = l
  end.
Proof.
  intros H Ha Ho Hp. pose proof (Insert_ok kf p t Ha Ho Hp) as Hi.
  destruct (list_insert_sorted cmp kf p (inorder t)) as [l|] eqn:El.
  - destruct Hi as (t' & Ei & Ha' & Hi).
    destruct (BAVL_Insert_refines kf s t p true t' H Ha Ei) as (out & s' & E & H'); [|by eauto 10].
    intros _. by eapply (inserted_fresh ok cmp).
  - by apply (BAVL_Insert_refines kf s t p false t H Ha Hi).
Qed.

#[global] Program Instance bavl_index_laws : IndexLaws (@bavl_index K) ok cmp := {|
  ix_elems := elems; ix_wf := cavl_wf ok cmp
|}.
Next Obligation. exact (ix_ordered (IndexLaws := cavl_index_laws ok cmp)). Qed.
Next Obligation. exact (ix_wf_ext (IndexLaws := cavl_index_laws ok cmp)). Qed.
Next Obligation. exact (ix_rekey (IndexLaws := cavl_index_laws ok cmp)). Qed.
Next Obligation. exact (ix_empty_wf (IndexLaws := cavl_index_laws ok cmp)). Qed.
Next Obligation. exact (ix_empty_elems (IndexLaws := cavl_index_laws ok cmp)). Qed.
Next Obligation.
  intros kf k s (t & H & Ha & Ho) Hk. simpl. rewrite (elems_linked _ _ H), (BAVL_LookupExact_refines kf k _ _ H).
  destruct (LookupExact_ok kf k t Ho Hk) as (r & -> & Hr). by destruct r.
Qed.
Next Obligation.
  intros kf p s (t & H & Ha & Ho) Hp Hne. simpl. rewrite (elems_linked _ _ H) in Hne |- *.
  destruct (list_insert_sorted_spec ok cmp kf p (inorder t) Ho Hp Hne) as (l & El & Hl & Hperm).
  pose proof (BAVL_Insert_step kf p s t H Ha Ho Hp) as Hi. rewrite El in Hi.
  destruct Hi as (out & s' & t' & -> & H' & Ha' & Hi'). exists s'. rewrite (elems_linked _ _ H'), Hi'.
  split_and!; [done| |done]. exists t'. by rewrite Hi'.
Qed.
Next Obligation.
  intros kf p s (t & H & Ha & Ho) Hp. rewrite (elems_linked _ _ H) in Hp |- *. pose proof (ordered_NoDup kf _ Ho) as Hnd.
  simpl. destruct (Remove_ok p t Ha Hnd Hp) as (t' & Er & Ha' & Hi).
  destruct (BAVL_Remove_refines s t p t' H Ha Er) as (s' & -> & H'). rewrite (elems_linked _ _ H'), Hi. split.
  - exists t'. split_and!; try done. rewrite Hi.
    apply (ix_remove_spec (IndexLaws := list_index_laws ok cmp) kf p (inorder t)); done.
  - by apply remove_filter_perm.
Qed.
Next Obligation. intros kf s (t & H & _). simpl. by rewrite BAVL_GetFirst_eq, (GetFirst_refines _ _ H), (elems_linked _ _ H). Qed.

(** ** Sequences of operations *)

(** On the nodes in memory; [None]: a violated assertion or an invalid link. *)
Definition op_bavl (kf : nat → K) (o : op) (s : CAvl) : option (answer * CAvl) :=
  match o with
  | OpInsert p => '(b, _, s') ← BAVL_Insert cmp kf s p; Some (AInserted b, s')
  | OpRemove p => s' ← BAVL_Remove s p; Some (ARemoved, s')
  | OpLookup k => r ← BAVL_LookupExact cmp kf s k; Some (ANode r, s)
  | OpFirst => r ← BAVL_GetFirst s; Some (ANode r, s)
  | OpLast => r ← BAVL_GetLast s; Some (ANode r, s)
  end.

Lemma op_bavl_list kf o s t a l : (∀ p, ok (kf p)) → op_ok ok o → linked s [] t → avl t → ordered ok cmp kf (inorder t) →
  op_list cmp kf o (inorder t) = Some (a, l) →
  ∃ s' t', op_bavl kf o s = Some (a, s') ∧ linked s' [] t' ∧ avl t' ∧ inorder t' = l ∧ ordered ok cmp kf l.
Proof.
  intros Hkf Hop H Ha Ho E. destruct (op_tree_list ok cmp kf o t a l Hkf Hop Ha Ho E) as (t1 & E1 & Ha1 & Hi1 & Ho1).
  destruct o as [p|p|k| |]; simpl in E, E1 |- *.
  - pose proof (BAVL_Insert_step kf p s t H Ha Ho (Hkf p)) as Hs. destruct (list_insert_sorted cmp kf p (inorder t)) as [l'|] eqn:El.
    + destruct Hs as (out & s' & t' & -> & H' & ? & Hi). injection E as <- <-. by exists s', t'.
    + destruct Hs as (out & s' & -> & H'). simplify_eq/=. by exists s', t.
  - destruct (Remove p t) as [t'|] eqn:Er; [|done]. destruct (BAVL_Remove_refines s t p t' H Ha Er) as (s' & -> & H').
    simplify_eq/=. by exists s', t1.
  - rewrite (BAVL_LookupExact_refines kf k _ _ H). destruct (LookupExact cmp kf k t) as [r|]; [|done]. simplify_eq/=. by exists s, t1.
  - rewrite BAVL_GetFirst_eq, (GetFirst_refines _ _ H). injection E as <- <-. by exists s, t.
  - rewrite BAVL_GetLast_eq, (GetLast_refines _ _ H). injection E as <- <-. by exists s, t.
Qed.

Lemma run_bavl_list kf ops s t as_ l : (∀ p, ok (kf p)) → Forall (op_ok ok) ops → linked s [] t → avl t →
  ordered ok cmp kf (inorder t) → run (op_list cmp kf) ops (inorder t) = Some (as_, l) →
  ∃ s' t', run (op_bavl kf) ops s = Some (as_, s') ∧ linked s' [] t' ∧ avl t' ∧ inorder t' = l ∧ ordered ok cmp kf l.
Proof.
  intros Hkf Hops. revert s t as_. induction Hops as [|o ops Ho Hops IH]; intros s t as_ H Ha Hord; simpl.
  { intros [= <- <-]. by exists s, t. }
  destruct (op_list cmp kf o (inorder t)) as [[a l1]|] eqn:E; [|done]. simpl.
  destruct (op_bavl_list kf o s t a l1 Hkf Ho H Ha Hord E) as (s1 & t1 & -> & H1 & Ha1 & <- & Ho1). simpl.
  destruct (run (op_list cmp kf) ops (inorder t1)) as [[as1 l2]|] eqn:E2; [|done]. simpl. intros [= <- <-].
  destruct (IH s1 t1 as1 H1 Ha1 Ho1 E2) as (s2 & t2 & -> & ? & ? & ? & ?). simpl. by exists s2, t2.
Qed.

(** C37: The tree of BAVL.h implements a sorted list.  Whatever the fields of the
    nodes held before, any sequence of insertions, removals of present nodes,
    lookups and queries of the first and last node gives the same answers on the
    nodes in memory as on the list: no assertion fails, no link leads outside the
    nodes, and every loop and the recursion of the rebalancing end.  The tree then
    passes the program's own verification (parent links, order and balance
    factors), each node leads to its neighbours in the list, and [BAVL_Lookup] finds
    the node with the value or one next to where it would be.  The height that the
    verification computes is below [2k] if there are fewer than [2^k - 1] nodes. *)
Theorem bavl_refines_list h kf ops as_ l :
  (∀ p, ok (kf p)) → Forall (op_ok ok) ops → run (op_list cmp kf) ops [] = Some (as_, l) →
  ∃ s, run (op_bavl kf) ops (BAVL_Init h) = Some (as_, s) ∧ elems s = l ∧
    BAVL_Verify cmp kf s = Some () ∧ BAVL_IsEmpty s = bool_decide (l = []) ∧
    (∀ A n B, l = A ++ n :: B → BAVL_GetNext s n = Some (head B) ∧ BAVL_GetPrev s n = Some (list.last A)) ∧
    (∀ v, ok v → l ≠ [] → ∃ A p B, BAVL_Lookup cmp kf s v = Some (Some p) ∧ l = A ++ p :: B ∧
      (∀ a, a ∈ A → cmp (kf a) v = -1) ∧ ∀ b, b ∈ B → cmp v (kf b) = -1) ∧
    ∀ n, root s = Some n → ∃ height, BAVL_assert_recurser cmp kf (fuel_of s) s n = Some height ∧
      ∀ k : nat, zlen l + 1 < 2 ^ Z.of_nat k → height < 2 * Z.of_nat k.
Proof.
  intros Hkf Hops Hr.
  destruct (run_bavl_list kf ops (BAVL_Init h) Leaf as_ l Hkf Hops (linked_empty h) I) as (s & t & E & H & Ha & <- & Ho);
    [split; constructor|done|].
  destruct (BAVL_Verify_refines kf s t H Ha Ho) as [Hv Hh].
  exists s. rewrite (elems_linked _ _ H). split_and!; try done.
  - change (BAVL_IsEmpty s) with (CAvl_IsEmpty s). rewrite (IsEmpty_refines _ _ H).
    destruct t; simpl; [done|]. symmetry. apply bool_decide_eq_false. by destruct (inorder t1).
  - intros A n B. by apply BAVL_neighbours.
  - intros v Hv' Hne. rewrite (BAVL_Lookup_refines kf v _ _ H). apply Lookup_ok; [done|done|]. by intros ->.
  - intros n En. rewrite En in Hh. exists (height t). split; [exact Hh|]. intros k Hk.
    destruct (Z.lt_ge_cases (height t) (2 * Z.of_nat k)) as [?|Hge]; [done|]. pose proof (avl_size t Ha k Hge). lia.
Qed.
End Contract.

(** Insertions and removals with all the kinds of rotation and exchange. *)
Lemma bavl_refines_list_witness :
  let ops := [OpInsert 5; OpInsert 3; OpInsert 8; OpInsert 1; OpInsert 4; OpInsert 2; OpRemove 3; OpRemove 4;
              OpInsert 9; OpInsert 7; OpInsert 6; OpRemove 8; OpLookup 7; OpFirst; OpLast] in
  ∃ s as_, run (op_bavl B_COMPARE Z.of_nat) ops (BAVL.BAVL_Init ∅) = Some (as_, s) ∧
    elems s = [1; 2; 5; 6; 7; 9]%nat ∧ BAVL.BAVL_Verify B_COMPARE Z.of_nat s = Some () ∧
    BAVL.BAVL_GetNext s 5 = Some (Some 6%nat).
Proof.
  destruct (bavl_refines_list (λ _ : Z, True) B_COMPARE (TotalCmp0 := B_COMPARE_total) ∅ Z.of_nat
    [OpInsert 5; OpInsert 3; OpInsert 8; OpInsert 1; OpInsert 4; OpInsert 2; OpRemove 3; OpRemove 4;
              OpInsert 9; OpInsert 7; OpInsert 6; OpRemove 8; OpLookup 7; OpFirst; OpLast] _ _ (λ _, I)
    ltac:(repeat constructor) ltac:(vm_compute; reflexivity)) as (s & E & Hl & Hv & _ & Hn & _).
  exists s. eexists. split; [exact E|]. split; [exact Hl|]. split; [exact Hv|].
  exact (proj1 (Hn [1; 2]%nat 5%nat [6; 7; 9]%nat eq_refl)).
Defined.
