(* ===== verification/Reactor.v ===== *)
(** * The event loop: system/BReactor_badvpn.c

    The reactor runs jobs, timers and file descriptor handlers, in this order of
    priority, and waits in [epoll_wait] when none is left.  The model keeps the
    timers, file descriptors and limits as objects, the tree of running timers by
    its contract (Index.v), which that of structure/CAvl_impl.h satisfies (CAvl.v), the pending jobs as the stack that Pending.v shows them to
    be, and the registrations at the kernel.  What a handler does is an arbitrary
    sequence of calls of the reactor's functions; the answers of [epoll_wait] are an
    argument too.  A history of what was armed, registered and reported, computed
    from the calls alone, says what the event loop has to do. *)
From stdpp Require Import base list gmap sets numbers option.
From Stdlib Require Import ZArith Lia Sorting.Sorted.
From S2P Require Import Prelude History ByteOrder Addr Index Pending Avl CAvl.
#[local] Open Scope Z_scope.

Module BReactor.

Definition INT64_MAX : Z := 9223372036854775807.
Definition INT64_MIN : Z := -9223372036854775808.
Definition BSYSTEM_MAX_RESULTS : nat := 64.
Definition BREACTOR_READ : Z := 1.
Definition BREACTOR_WRITE : Z := 2.
Definition BREACTOR_ERROR : Z := 4.
Definition BREACTOR_HUP : Z := 8.
Definition EPOLLIN : Z := 1.
Definition EPOLLOUT : Z := 4.
Definition EPOLLERR : Z := 8.
Definition EPOLLHUP : Z := 16.

Inductive timer_state := TIMER_STATE_INACTIVE | TIMER_STATE_RUNNING | TIMER_STATE_EXPIRED.
#[global] Instance timer_state_eq_dec : EqDecision timer_state.
Proof. solve_decision. Defined.
Record BSmallTimer := mk_timer { absTime : Z; state : timer_state }.
#[global] Instance eta_timer : Eta BSmallTimer := λ r, mk_timer (absTime r) (state r).

(** [epoll_returned_ptr]: the index of the result that points to the descriptor. *)
Record BFileDescriptor := mk_fd { active : bool; waitEvents : Z; epoll_returned_ptr : option nat }.
#[global] Instance eta_fd : Eta BFileDescriptor := λ r, mk_fd (active r) (waitEvents r) (epoll_returned_ptr r).

Record BReactorLimit := mk_limit { limit : Z; count : Z }.
#[global] Instance eta_limit : Eta BReactorLimit := λ r, mk_limit (limit r) (count r).

(** [struct epoll_event]: [data.ptr] and [events]. *)
Record epoll_event := mk_event { ev_ptr : option nat; ev_events : Z }.
#[global] Instance eta_event : Eta epoll_event := λ r, mk_event (ev_ptr r) (ev_events r).

(** [epoll_results]: the first [epoll_results_num] entries.  [epoll] is the kernel's
    interest list, [clock] what [btime_gettime] returns. *)
Record t (T : Type) := mk_t {
  exiting : bool; exit_code : Z; pending_jobs : list nat;
  timers : gmap nat BSmallTimer; timers_tree : T; timers_expired_list : list nat;
  limits : gmap nat BReactorLimit; active_limits_list : list nat;
  fds : gmap nat BFileDescriptor; epoll_results : list epoll_event; epoll_results_pos : nat;
  epoll : gmap nat Z; clock : Z; d_fds_counter : Z; d_limits_ctr : Z
}.
#[global] Arguments mk_t {T}.
#[global] Arguments exiting {T}.
#[global] Arguments exit_code {T}.
#[global] Arguments pending_jobs {T}.
#[global] Arguments timers {T}.
#[global] Arguments timers_tree {T}.
#[global] Arguments timers_expired_list {T}.
#[global] Arguments limits {T}.
#[global] Arguments active_limits_list {T}.
#[global] Arguments fds {T}.
#[global] Arguments epoll_results {T}.
#[global] Arguments epoll_results_pos {T}.
#[global] Arguments epoll {T}.
#[global] Arguments clock {T}.
#[global] Arguments d_fds_counter {T}.
#[global] Arguments d_limits_ctr {T}.
#[global] Instance eta_t {T} : Eta (t T) := λ r,
  mk_t (exiting r) (exit_code r) (pending_jobs r) (timers r) (timers_tree r) (timers_expired_list r)
    (limits r) (active_limits_list r) (fds r) (epoll_results r) (epoll_results_pos r) (epoll r) (clock r)
    (d_fds_counter r) (d_limits_ctr r).

(** What the reactor does, for the history. *)
Inductive act :=
| JobSet (j : nat) | JobUnset (j : nat) | CallJob (j : nat)
| CallSetTimer (tm : nat) (relative : bool) (time : Z) | TimerSet (tm : nat) (time : Z) | TimerRemoved (tm : nat) | CallTimer (tm : nat)
| FdAdded (f : nat) | FdRemoved (f : nat) | FdEvents (f : nat) (events : Z) | CallFd (f : nat) (events : Z) | NoEvents (f : nat)
| LimitSet (l : nat) (n : Z) | LimitFreed (l : nat) | LimitOk (l : nat)
| EpollWait (timeout : Z) | Ready (events : list (nat * Z)) | Clock (now : Z) | WaitOver | Quit (code : Z).

Definition compare_timers (t1 t2 : Z * Z) : Z :=
  let cmp := B_COMPARE t1.1 t2.1 in
  if negb (cmp =? 0) then cmp else B_COMPARE t1.2 t2.2.

(** The key of a timer: its time and its address. *)
Definition timer_key (ts : gmap nat BSmallTimer) (p : nat) : Z * Z := (from_option absTime 0 (ts !! p), Z.of_nat p).

Section Ops.
Context {T : Type} {ops : IndexOps (Z * Z) T}.
Abbreviation RM := (M (t T) act).


Definition timer (p : nat) : RM BSmallTimer := λ r,
  match timers r !! p with Some tm => Some (tm, r, []) | None => None end.
Definition fd_at (p : nat) : RM BFileDescriptor := λ r,
  match fds r !! p with Some f => Some (f, r, []) | None => None end.
Definition limit_at (p : nat) : RM BReactorLimit := λ r,
  match limits r !! p with Some l => Some (l, r, []) | None => None end.
Definition set_timer (p : nat) (tm : BSmallTimer) : RM () := modify (λ r, r <| timers := <[p := tm]> (timers r) |>).
Definition set_fd (p : nat) (f : BFileDescriptor) : RM () := modify (λ r, r <| fds := <[p := f]> (fds r) |>).
Definition set_limit (p : nat) (l : BReactorLimit) : RM () := modify (λ r, r <| limits := <[p := l]> (limits r) |>).
Definition tree_remove (p : nat) : RM () := modify (λ r, r <| timers_tree := ix_remove p (timers_tree r) |>).
Definition expired_append (p : nat) : RM () := modify (λ r, r <| timers_expired_list := timers_expired_list r ++ [p] |>).

(** [btime_gettime] *)
Definition btime_gettime : RM Z := gets clock.
Definition btime_add (t1 t2 : Z) : Z :=
  if INT64_MAX <? t1 + t2 then INT64_MAX else if t1 + t2 <? INT64_MIN then INT64_MIN else t1 + t2.

(** misc/debugcounter.h: the counters stay at [INT32_MAX] once they have reached it. *)
Definition DebugCounter_Increment (c : Z) : option Z :=
  if 0 <=? c then Some (if negb (c =? INT_MAX) then c + 1 else c) else None.
Definition DebugCounter_Decrement (c : Z) : option Z :=
  if 0 <? c then Some (if negb (c =? INT_MAX) then c - 1 else c) else None.
Definition DebugCounter_Free (c : Z) : bool := (c =? 0) || (c =? INT_MAX).
Definition count_fds (f : Z → option Z) : RM () :=
  r ← get; match f (d_fds_counter r) with Some c => modify (λ r, r <| d_fds_counter := c |>) | None => ASSERT false end.
Definition count_limits (f : Z → option Z) : RM () :=
  r ← get; match f (d_limits_ctr r) with Some c => modify (λ r, r <| d_limits_ctr := c |>) | None => ASSERT false end.

(** ** Timers *)

(** The body shared by the three places that expire the first timer of the tree. *)
Definition expire (p : nat) : RM () :=
  tree_remove p;;
  expired_append p;;
  tm ← timer p;
  set_timer p (tm <| state := TIMER_STATE_EXPIRED |>).

(** The [while] of [move_expired_timers]; every round takes a timer out of the tree, so the
    number of timers is enough fuel. *)
Fixpoint move_loop (fuel : nat) (now : Z) (moved : bool) : RM bool :=
  r ← get;
  match ix_first (timers_tree r) with
  | None => mret moved
  | Some p =>
      tm ← timer p;
      ASSERT (bool_decide (state tm = TIMER_STATE_RUNNING));;
      if now <? absTime tm then mret moved
      else match fuel with
      | O => ASSERT false;; mret false
      | S fuel => expire p;; move_loop fuel now true
      end
  end.
Definition move_expired_timers (now : Z) : RM bool :=
  r ← get; move_loop (size (timers r)) now false.

(** The [while] of [move_first_timers]. *)
Fixpoint move_same_loop (fuel : nat) (first_time : Z) : RM () :=
  r ← get;
  match ix_first (timers_tree r) with
  | None => mret ()
  | Some p =>
      tm ← timer p;
      ASSERT (bool_decide (state tm = TIMER_STATE_RUNNING));;
      ASSERT (first_time <=? absTime tm);;
      if first_time <? absTime tm then mret ()
      else match fuel with
      | O => ASSERT false
      | S fuel => expire p;; move_same_loop fuel first_time
      end
  end.
Definition move_first_timers : RM () :=
  r ← get;
  match ix_first (timers_tree r) with
  | None => ASSERT false
  | Some p =>
      tm ← timer p;
      ASSERT (bool_decide (state tm = TIMER_STATE_RUNNING));;
      expire p;;
      move_same_loop (size (timers r)) (absTime tm)
  end.

Definition BSmallTimer_Init (p : nat) : RM () := set_timer p (mk_timer 0 TIMER_STATE_INACTIVE).
Definition BSmallTimer_IsRunning (p : nat) : RM bool :=
  tm ← timer p; mret (negb (bool_decide (state tm = TIMER_STATE_INACTIVE))).

Definition BReactor_RemoveSmallTimer (p : nat) : RM () :=
  tm ← timer p;
  match state tm with
  | TIMER_STATE_INACTIVE => mret ()
  | TIMER_STATE_EXPIRED =>
      modify (λ r, r <| timers_expired_list := filter (λ q, q ≠ p) (timers_expired_list r) |>);;
      set_timer p (tm <| state := TIMER_STATE_INACTIVE |>);; emit (TimerRemoved p)
  | TIMER_STATE_RUNNING =>
      tree_remove p;;
      set_timer p (tm <| state := TIMER_STATE_INACTIVE |>);; emit (TimerRemoved p)
  end.

(** [relative]: the mode [BTIMER_SET_RELATIVE]. *)
Definition BReactor_SetSmallTimer (p : nat) (relative : bool) (time : Z) : RM () :=
  _ ← timer p;
  BReactor_RemoveSmallTimer p;;
  time ← (if relative then now ← btime_gettime; mret (btime_add now time) else mret time);
  set_timer p (mk_timer time TIMER_STATE_RUNNING);;
  r ← get;
  match ix_insert compare_timers (timer_key (timers r)) p (timers_tree r) with
  | None => ASSERT false
  | Some tr => modify (λ r, r <| timers_tree := tr |>);; emit (TimerSet p time)
  end.

(** ** File descriptors *)

Definition BFileDescriptor_Init (p : nat) : RM () := set_fd p (mk_fd false 0 None).

(** [ctl]: whether [epoll_ctl] succeeds. *)
Definition BReactor_AddFileDescriptor (p : nat) (ctl : bool) : RM bool :=
  f ← fd_at p;
  ASSERT (negb (active f));;
  if negb ctl then mret false
  else
    modify (λ r, r <| epoll := <[p := 0]> (epoll r) |>);;
    set_fd p (f <| epoll_returned_ptr := None |> <| active := true |> <| waitEvents := 0 |>);;
    count_fds DebugCounter_Increment;;
    emit (FdAdded p);;
    mret true.

(** [*bs->epoll_returned_ptr = NULL] *)
Definition clear_result (i : nat) : RM () :=
  modify (λ r, r <| epoll_results := alter (λ e, e <| ev_ptr := None |>) i (epoll_results r) |>).

Definition BReactor_RemoveFileDescriptor (p : nat) : RM () :=
  f ← fd_at p;
  ASSERT (active f);;
  count_fds DebugCounter_Decrement;;
  set_fd p (f <| active := false |>);;
  r ← get;
  ASSERT (bool_decide (is_Some (epoll r !! p)));;
  modify (λ r, r <| epoll := delete p (epoll r) |>);;
  match epoll_returned_ptr f with
  | Some i => clear_result i
  | None => mret ()
  end;;
  emit (FdRemoved p).

Definition epoll_of (events : Z) : Z :=
  Z.lor (if negb (Z.land events BREACTOR_READ =? 0) then EPOLLIN else 0)
        (if negb (Z.land events BREACTOR_WRITE =? 0) then EPOLLOUT else 0).

Definition BReactor_SetFileDescriptorEvents (p : nat) (events : Z) : RM () :=
  f ← fd_at p;
  ASSERT (active f);;
  ASSERT (Z.ldiff events (Z.lor BREACTOR_READ BREACTOR_WRITE) =? 0);;
  if waitEvents f =? events then mret ()
  else
    r ← get;
    ASSERT (bool_decide (is_Some (epoll r !! p)));;
    modify (λ r, r <| epoll := <[p := epoll_of events]> (epoll r) |>);;
    set_fd p (f <| waitEvents := events |>);;
    emit (FdEvents p events).

(** ** Limits *)

Definition BReactorLimit_Init (p : nat) (n : Z) : RM () :=
  ASSERT (0 <? n);; set_limit p (mk_limit n 0);; count_limits DebugCounter_Increment;; emit (LimitSet p n).
Definition BReactorLimit_Free (p : nat) : RM () :=
  l ← limit_at p;
  count_limits DebugCounter_Decrement;;
  when (0 <? count l) (modify (λ r, r <| active_limits_list := filter (λ q, q ≠ p) (active_limits_list r) |>));;
  modify (λ r, r <| limits := delete p (limits r) |>);;
  emit (LimitFreed p).
Definition BReactorLimit_Increment (p : nat) : RM bool :=
  l ← limit_at p;
  if limit l <=? count l then mret false
  else
    set_limit p (l <| count := count l + 1 |>);;
    when (count l + 1 =? 1) (modify (λ r, r <| active_limits_list := active_limits_list r ++ [p] |>));;
    emit (LimitOk p);;
    mret true.
Definition BReactorLimit_SetLimit (p : nat) (n : Z) : RM () :=
  ASSERT (0 <? n);; l ← limit_at p; set_limit p (l <| limit := n |>);; emit (LimitSet p n).

(** The [while] at the end of [wait_for_events]. *)
Fixpoint reset_limits (fuel : nat) : RM () :=
  r ← get;
  match active_limits_list r with
  | [] => mret ()
  | p :: _ =>
      match fuel with
      | O => ASSERT false
      | S fuel =>
          l ← limit_at p;
          ASSERT (0 <? count l);;
          set_limit p (l <| count := 0 |>);;
          modify (λ r, r <| active_limits_list := filter (λ q, q ≠ p) (active_limits_list r) |>);;
          reset_limits fuel
      end
  end.

(** ** Waiting *)

(** An answer of [epoll_wait], with the time that passes: a signal, descriptors, or the end of
    the timeout. *)
Inductive wait_answer := Interrupted (d : nat) | ReadyFds (events : list (nat * Z)) (d : nat) | TimedOut (d : nat).

(** epoll_wait(2): it reports registered descriptors, each once and at most as many
    as asked for, and none only at the end of the timeout. *)
Definition kernel_allows (r : t T) (timeout : Z) (a : wait_answer) : bool :=
  match a with
  | Interrupted _ => true
  | ReadyFds evs _ =>
      negb (bool_decide (evs = [])) && bool_decide (length evs ≤ BSYSTEM_MAX_RESULTS)%nat &&
      bool_decide (NoDup evs.*1) && bool_decide (Forall (λ p, is_Some (epoll r !! p)) evs.*1)
  | TimedOut _ => negb (timeout =? -1)
  end.

(** The loop of [set_epoll_fd_pointers] from the [i]-th result on. *)
Fixpoint set_epoll_fd_pointers (i : nat) (evs : list epoll_event) : RM () :=
  match evs with
  | [] => mret ()
  | e :: evs =>
      match ev_ptr e with
      | None => ASSERT false
      | Some p =>
          f ← fd_at p;
          ASSERT (active f);;
          ASSERT (bool_decide (epoll_returned_ptr f = None));;
          set_fd p (f <| epoll_returned_ptr := Some i |>);;
          set_epoll_fd_pointers (S i) evs
      end
  end.

Definition pass_time (d : Z) : RM () :=
  modify (λ r, r <| clock := Z.min (clock r + d) INT64_MAX |>);; r ← get; emit (Clock (clock r)).

(** [try_again]: [true] when the time was reached. *)
Definition try_again (timeout : option Z) : RM (option Z) :=
  match timeout with
  | None => mret (Some 0)
  | Some timeout_abs =>
      now ← btime_gettime;
      if timeout_abs <=? now then move_first_timers;; mret None else mret (Some now)
  end.

(** The loop around [epoll_wait]; [timeout]: the time of the first timer.  [false]:
    the program still waits. *)
Fixpoint wait_loop (answers : list wait_answer) (timeout : option Z) (now : Z) : RM bool :=
  match answers with
  | [] => mret false
  | a :: answers =>
      let timeout_rel := from_option (λ timeout_abs, timeout_abs - now) 0 timeout in
      let timeout_rel_trunc := Z.min timeout_rel INT_MAX in
      let arg := if timeout then timeout_rel_trunc else -1 in
      emit (EpollWait arg);;
      r ← get;
      if negb (kernel_allows r arg a) then wait_loop answers timeout now
      else match a with
      | Interrupted d =>
          pass_time (Z.of_nat d);;
          again ← try_again timeout;
          match again with None => mret true | Some now => wait_loop answers timeout now end
      | ReadyFds evs d =>
          pass_time (Z.of_nat d);;
          let results := (λ e, mk_event (Some e.1) e.2) <$> evs in
          modify (λ r, r <| epoll_results := results |>);;
          emit (Ready evs);;
          set_epoll_fd_pointers 0 results;;
          mret true
      | TimedOut d =>
          pass_time (arg + Z.of_nat d);;
          if timeout_rel_trunc =? timeout_rel then move_first_timers;; mret true
          else
            again ← try_again timeout;
            match again with None => mret true | Some now => wait_loop answers timeout now end
      end
  end.

Definition wait_for_events (answers : list wait_answer) : RM bool :=
  r ← get;
  ASSERT (bool_decide (pending_jobs r = []));;
  ASSERT (bool_decide (timers_expired_list r = []));;
  ASSERT (bool_decide (epoll_results_pos r = length (epoll_results r)));;
  modify (λ r, r <| epoll_results := [] |> <| epoll_results_pos := 0%nat |>);;
  match ix_first (timers_tree r) with
  | Some p =>
      tm ← timer p;
      ASSERT (bool_decide (state tm = TIMER_STATE_RUNNING));;
      now ← btime_gettime;
      moved ← move_expired_timers now;
      if (moved : bool) then mret true
      else
        woken ← wait_loop answers (Some (absTime tm)) now;
        if (woken : bool) then r ← get; emit WaitOver;; reset_limits (length (active_limits_list r));; mret true
        else mret false
  | None =>
      woken ← wait_loop answers None 0;
      if (woken : bool) then r ← get; emit WaitOver;; reset_limits (length (active_limits_list r));; mret true
      else mret false
  end.

(** ** The operations that a handler may call *)

Inductive op :=
| OJobSet (j : nat) | OJobUnset (j : nat)
| OTimerInit (p : nat) | OSetTimer (p : nat) (relative : bool) (time : Z) | ORemoveTimer (p : nat)
| OFdInit (p : nat) | OAddFd (p : nat) (ctl : bool) | ORemoveFd (p : nat) | OSetEvents (p : nat) (events : Z)
| OLimitInit (p : nat) (n : Z) | OLimitFree (p : nat) | OLimitIncrement (p : nat) | OLimitSet (p : nat) (n : Z)
| OQuit (code : Z).

(** What the callers keep to: objects are initialised before use, timers and
    descriptors are not reinitialised while they are in use, times are 64-bit. *)
Definition op_allowed (r : t T) (o : op) : bool :=
  match o with
  | OTimerInit p => match timers r !! p with Some tm => bool_decide (state tm = TIMER_STATE_INACTIVE) | None => true end
  | OSetTimer p _ time => bool_decide (is_Some (timers r !! p)) && (INT64_MIN <=? time) && (time <=? INT64_MAX)
  | ORemoveTimer p => bool_decide (is_Some (timers r !! p))
  | OFdInit p => match fds r !! p with Some f => negb (active f) | None => true end
  | OAddFd p _ => match fds r !! p with Some f => negb (active f) | None => false end
  | ORemoveFd p => match fds r !! p with Some f => active f | None => false end
  | OSetEvents p ev => (Z.ldiff ev (Z.lor BREACTOR_READ BREACTOR_WRITE) =? 0) &&
      match fds r !! p with Some f => active f | None => false end
  | OLimitInit p n => (0 <? n) && bool_decide (limits r !! p = None)
  | OLimitFree p | OLimitIncrement p => bool_decide (is_Some (limits r !! p))
  | OLimitSet p n => (0 <? n) && bool_decide (is_Some (limits r !! p))
  | _ => true
  end.

Definition BReactor_Quit (code : Z) : RM () := modify (λ r, r <| exiting := true |> <| exit_code := code |>);; emit (Quit code).

Definition run_op (o : op) : RM () :=
  match o with
  | OJobSet j => modify (λ r, r <| pending_jobs := push j (pending_jobs r) |>);; emit (JobSet j)
  | OJobUnset j => modify (λ r, r <| pending_jobs := filter (λ q, q ≠ j) (pending_jobs r) |>);; emit (JobUnset j)
  | OTimerInit p => BSmallTimer_Init p
  | OSetTimer p relative time => emit (CallSetTimer p relative time);; BReactor_SetSmallTimer p relative time
  | ORemoveTimer p => BReactor_RemoveSmallTimer p
  | OFdInit p => BFileDescriptor_Init p
  | OAddFd p ctl => _ ← BReactor_AddFileDescriptor p ctl; mret ()
  | ORemoveFd p => BReactor_RemoveFileDescriptor p
  | OSetEvents p ev => BReactor_SetFileDescriptorEvents p ev
  | OLimitInit p n => BReactorLimit_Init p n
  | OLimitFree p => BReactorLimit_Free p
  | OLimitIncrement p => _ ← BReactorLimit_Increment p; mret ()
  | OLimitSet p n => BReactorLimit_SetLimit p n
  | OQuit code => BReactor_Quit code
  end.

(** A handler: the calls it makes. *)
Fixpoint handler (os : list op) : RM () :=
  match os with
  | [] => mret ()
  | o :: os => r ← get; when (op_allowed r o) (run_op o);; handler os
  end.

(** ** The loop *)

Definition report (waitEvents events : Z) : Z :=
  Z.lor (Z.lor (if negb (Z.land waitEvents BREACTOR_READ =? 0) && negb (Z.land events EPOLLIN =? 0) then BREACTOR_READ else 0)
               (if negb (Z.land waitEvents BREACTOR_WRITE =? 0) && negb (Z.land events EPOLLOUT =? 0) then BREACTOR_WRITE else 0))
        (Z.lor (if negb (Z.land events EPOLLERR =? 0) then BREACTOR_ERROR else 0)
               (if negb (Z.land events EPOLLHUP =? 0) then BREACTOR_HUP else 0)).

Definition dispatch_timer (p : nat) (os : list op) : RM () :=
  tm ← timer p;
  ASSERT (bool_decide (state tm = TIMER_STATE_EXPIRED));;
  modify (λ r, r <| timers_expired_list := filter (λ q, q ≠ p) (timers_expired_list r) |>);;
  set_timer p (tm <| state := TIMER_STATE_INACTIVE |>);;
  emit (CallTimer p);;
  handler os.

Definition dispatch_fd (event : epoll_event) (os : list op) : RM () :=
  r ← get;
  let pos := epoll_results_pos r in
  modify (λ r, r <| epoll_results_pos := S pos |>);;
  match ev_ptr event with
  | None => mret ()
  | Some p =>
      f ← fd_at p;
      ASSERT (active f);;
      ASSERT (bool_decide (epoll_returned_ptr f = Some pos));;
      set_fd p (f <| epoll_returned_ptr := None |>);;
      let events := report (waitEvents f) (ev_events event) in
      if events =? 0 then emit (NoEvents p) else emit (CallFd p events);; handler os
  end.

(** One round of the [while]: what the handler that it calls does, and what
    [epoll_wait] answers.  [false]: the program waits. *)
Definition exec_round (os : list op) (answers : list wait_answer) : RM bool :=
  r ← get;
  match pending_jobs r with
  | j :: js => modify (λ r, r <| pending_jobs := js |>);; emit (CallJob j);; handler os;; mret true
  | [] =>
      match timers_expired_list r with
      | p :: _ => dispatch_timer p os;; mret true
      | [] =>
          match epoll_results r !! epoll_results_pos r with
          | Some event => dispatch_fd event os;; mret true
          | None => wait_for_events answers
          end
      end
  end.

(** The result is the exit code; [None]: the loop goes on. *)
Fixpoint BReactor_Exec (rounds : list (list op * list wait_answer)) : RM (option Z) :=
  r ← get;
  if exiting r then mret (Some (exit_code r))
  else match rounds with
  | [] => mret None
  | (os, answers) :: rounds =>
      running ← exec_round os answers;
      if (running : bool) then BReactor_Exec rounds else mret None
  end.

(** The program: what it calls before the event loop, and the loop. *)
Definition reactor_program (setup : list op) (rounds : list (list op * list wait_answer)) : RM (option Z) :=
  handler setup;; BReactor_Exec rounds.

Definition BReactor_Init (now : Z) : t T := mk_t false 0 [] ∅ ix_empty [] ∅ [] ∅ [] 0 ∅ now 0 0.

Definition BReactor_Free : RM () :=
  r ← get;
  ASSERT (bool_decide (pending_jobs r = []));;
  ASSERT (bool_decide (ix_first (timers_tree r) = None));;
  ASSERT (bool_decide (timers_expired_list r = []));;
  ASSERT (bool_decide (active_limits_list r = []));;
  ASSERT (DebugCounter_Free (d_fds_counter r));;
  ASSERT (DebugCounter_Free (d_limits_ctr r)).

End Ops.
End BReactor.

(** ** What the event loop has to do *)

(** What was armed, registered and reported so far, from the calls alone. *)
Record hist := mk_hist {
  h_jobs : list nat; h_armed : gmap nat Z; h_fds : gmap nat Z; h_reported : gmap nat Z;
  h_limits : gmap nat (Z * Z); h_now : Z; h_quit : option Z; h_call : option (nat * bool * Z)
}.
#[global] Instance eta_hist : Eta hist := λ h,
  mk_hist (h_jobs h) (h_armed h) (h_fds h) (h_reported h) (h_limits h) (h_now h) (h_quit h) (h_call h).
Definition hist0 (now : Z) : hist := mk_hist [] ∅ ∅ ∅ ∅ now None None.

Section Spec.
Import BReactor.

Definition obs (h : hist) (a : act) : hist :=
  match a with
  | JobSet j => h <| h_jobs := push j (h_jobs h) |>
  | JobUnset j => h <| h_jobs := filter (λ q, q ≠ j) (h_jobs h) |>
  | CallJob j => h <| h_jobs := tail (h_jobs h) |>
  | CallSetTimer p relative time => h <| h_call := Some (p, relative, time) |>
  | TimerSet p time => h <| h_armed := <[p := time]> (h_armed h) |>
  | TimerRemoved p | CallTimer p => h <| h_armed := delete p (h_armed h) |>
  | FdAdded f => h <| h_fds := <[f := 0]> (h_fds h) |>
  | FdRemoved f => h <| h_fds := delete f (h_fds h) |> <| h_reported := delete f (h_reported h) |>
  | FdEvents f events => h <| h_fds := <[f := events]> (h_fds h) |>
  | CallFd f _ | NoEvents f => h <| h_reported := delete f (h_reported h) |>
  | LimitSet l n => h <| h_limits := <[l := (n, from_option snd 0 (h_limits h !! l))]> (h_limits h) |>
  | LimitFreed l => h <| h_limits := delete l (h_limits h) |>
  | LimitOk l => h <| h_limits := alter (λ x, (x.1, x.2 + 1)) l (h_limits h) |>
  | EpollWait _ => h
  | Ready events => h <| h_reported := list_to_map events |>
  | Clock now => h <| h_now := now |>
  | WaitOver => h <| h_limits := (λ x, (x.1, 0)) <$> h_limits h |>
  | Quit code => h <| h_quit := Some code |>
  end.

(** No timer is due, and the timeout ends exactly at the first one (or is the
    longest possible); without timers there is none. *)
Definition timeout_ok (h : hist) (timeout : Z) : Prop :=
  (∀ p z, h_armed h !! p = Some z → h_now h < z ∧ 0 < timeout ∧ h_now h + timeout ≤ z) ∧
  (timeout = -1 ∨ timeout = INT_MAX ∨ 0 < timeout ≤ INT_MAX ∧ ∃ p, h_armed h !! p = Some (h_now h + timeout)).

(** The time at which a timer is set: the one given, or the present time plus the
    one given, within the range of [btime_t]. *)
Definition set_time (h : hist) (p : nat) (z : Z) : Prop :=
  ∃ relative time, h_call h = Some (p, relative, time) ∧
    z = if relative then Z.max INT64_MIN (Z.min INT64_MAX (h_now h + time)) else time.

(** The events that a handler gets, bit by bit: reading (bit 0) if it waits for it
    and [EPOLLIN] (bit 0) was reported, writing (bit 1) if it waits for it and
    [EPOLLOUT] (bit 2) was reported, an error (bit 2) for [EPOLLERR] (bit 3), a hangup
    (bit 3) for [EPOLLHUP] (bit 4). *)
Definition delivered (waited reported events : Z) : Prop :=
  ∀ k, 0 ≤ k → Z.testbit events k =
    (if k =? 0 then Z.testbit waited 0 && Z.testbit reported 0
     else if k =? 1 then Z.testbit waited 1 && Z.testbit reported 2
     else if k =? 2 then Z.testbit reported 3
     else if k =? 3 then Z.testbit reported 4 else false).

(** When the reactor may do what it does. *)
Definition act_ok (h : hist) (a : act) : Prop :=
  match a with
  | CallJob j => head (h_jobs h) = Some j
  | CallTimer p => h_jobs h = [] ∧ ∃ z, h_armed h !! p = Some z ∧ z ≤ h_now h
  | CallFd f events => h_jobs h = [] ∧ ∃ w m, h_fds h !! f = Some w ∧ h_reported h !! f = Some m ∧
      delivered w m events ∧ events ≠ 0
  | NoEvents f => ∃ w m, h_fds h !! f = Some w ∧ h_reported h !! f = Some m ∧ delivered w m 0
  | TimerSet p z => set_time h p z
  | LimitOk l => ∃ n used, h_limits h !! l = Some (n, used) ∧ 0 ≤ used < n
  | EpollWait timeout => h_jobs h = [] ∧ h_reported h = ∅ ∧ timeout_ok h timeout
  | _ => True
  end.
End Spec.

Section Bits.
Import BReactor.

(** A test of one bit by a mask. *)
Lemma land_bit x k : 0 ≤ k → negb (Z.land x (2 ^ k) =? 0) = Z.testbit x k.
Proof.
  intros Hk. destruct (Z.testbit x k) eqn:E.
  - apply negb_true_iff, Z.eqb_neq. intros H. assert (Z.testbit (Z.land x (2 ^ k)) k = false) as H' by (rewrite H; apply Z.bits_0).
    rewrite Z.land_spec, E, Z.pow2_bits_true in H' by done. done.
  - apply negb_false_iff, Z.eqb_eq, Z.bits_inj'. intros n Hn. rewrite Z.land_spec, Z.bits_0.
    destruct (decide (n = k)) as [->|]; [by rewrite E|]. by rewrite Z.pow2_bits_false, andb_false_r.
Qed.
Lemma if_bit (b : bool) j k : 0 ≤ j → Z.testbit (if b then 2 ^ j else 0) k = b && (k =? j).
Proof.
  intros. destruct b; [|by rewrite Z.bits_0]. simpl. destruct (Z.eqb_spec k j) as [->|].
  - by rewrite Z.pow2_bits_true.
  - by rewrite Z.pow2_bits_false.
Qed.

Lemma report_delivered w m : delivered w m (report w m).
Proof.
  intros k Hk. unfold report.
  change BREACTOR_READ with (2 ^ 0). change BREACTOR_WRITE with (2 ^ 1). change BREACTOR_ERROR with (2 ^ 2).
  change BREACTOR_HUP with (2 ^ 3). change EPOLLIN with (2 ^ 0). change EPOLLOUT with (2 ^ 2).
  change EPOLLERR with (2 ^ 3). change EPOLLHUP with (2 ^ 4). rewrite !land_bit by lia.
  rewrite !Z.lor_spec, !if_bit by lia.
  destruct (Z.eqb_spec k 0) as [->|]; [simpl; by rewrite !andb_true_r, !andb_false_r, !orb_false_r|].
  destruct (Z.eqb_spec k 1) as [->|]; [simpl; by rewrite !andb_true_r, !andb_false_r, !orb_false_r|].
  destruct (Z.eqb_spec k 2) as [->|]; [simpl; by rewrite !andb_true_r, !andb_false_r, !orb_false_r|].
  destruct (Z.eqb_spec k 3) as [->|]; simpl; by rewrite ?andb_true_r, !andb_false_r, ?orb_false_r.
Qed.
Lemma delivered_unique w m e e' : delivered w m e → delivered w m e' → e = e'.
Proof. intros H H'. apply Z.bits_inj'. intros k Hk. by rewrite H, H'. Qed.
End Bits.

Abbreviation observe := (after obs).
Abbreviation acts_ok := (trace_ok obs act_ok).
Abbreviation rtri := (tri obs act_ok).

Section Objects.
Import BReactor.
Context {T : Type}.

Lemma tri_timer p tm h r (Q : BSmallTimer → hist → t T → Prop) :
  timers r !! p = Some tm → Q tm h r → rtri h r (timer p) Q.
Proof. intros E HQ. unfold tri, wp, timer. by rewrite E. Qed.
Lemma tri_fd p f h r (Q : BFileDescriptor → hist → t T → Prop) :
  fds r !! p = Some f → Q f h r → rtri h r (fd_at p) Q.
Proof. intros E HQ. unfold tri, wp, fd_at. by rewrite E. Qed.
Lemma tri_limit p l h r (Q : BReactorLimit → hist → t T → Prop) :
  limits r !! p = Some l → Q l h r → rtri h r (limit_at p) Q.
Proof. intros E HQ. unfold tri, wp, limit_at. by rewrite E. Qed.
End Objects.

(** ** The invariant, by parts of the state *)
Section Parts.
Import BReactor.
Context {T : Type} {ops : IndexOps (Z * Z) T}.

Lemma compare_timers_lt k1 k2 : compare_timers k1 k2 = -1 ↔ k1.1 < k2.1 ∨ k1.1 = k2.1 ∧ k1.2 < k2.2.
Proof.
  unfold compare_timers. pose proof (B_COMPARE_spec k1.1 k2.1) as (? & ? & ?). pose proof (B_COMPARE_spec k1.2 k2.2) as (? & ? & ?).
  destruct (Z.eqb_spec (B_COMPARE k1.1 k2.1) 0); simpl; lia.
Qed.
#[global] Instance compare_timers_total : TotalCmp (λ _ : Z * Z, True) compare_timers.
Proof.
  split.
  - intros a b _ _. unfold compare_timers, B_COMPARE. repeat case_match; repeat (destruct (_ <? _)); simpl; lia.
  - intros [a1 a2] [b1 b2] _ _. unfold compare_timers. pose proof (B_COMPARE_spec a1 b1). pose proof (B_COMPARE_spec a2 b2). simpl.
    destruct (Z.eqb_spec (B_COMPARE a1 b1) 0); simpl; split; intros E; try (injection E as -> ->); try (f_equal; lia); lia.
  - intros [a1 a2] [b1 b2] _ _. unfold compare_timers, B_COMPARE. simpl.
    destruct (Z.ltb_spec a1 b1), (Z.ltb_spec b1 a1), (Z.ltb_spec a2 b2), (Z.ltb_spec b2 a2); simpl; lia.
  - intros a b c _ _ _. rewrite !compare_timers_lt. lia.
Qed.
Context {laws : IndexLaws ops (λ _, True) compare_timers}.

Abbreviation RUN z := (mk_timer z TIMER_STATE_RUNNING).
Abbreviation EXP z := (mk_timer z TIMER_STATE_EXPIRED).
Abbreviation OFF z := (mk_timer z TIMER_STATE_INACTIVE).

(** *** Timers *)

(** The armed timers are the running ones, which are in the tree, and the expired ones, which
    are in the list and due. *)
Record timers_ok (armed : gmap nat Z) (ts : gmap nat BSmallTimer) (tr : T) (ex : list nat) (now : Z) : Prop := mk_timers_ok {
  to_wf : ix_wf (timer_key ts) tr;
  to_tree p : p ∈ ix_elems tr ↔ ∃ z, ts !! p = Some (RUN z);
  to_ex p : p ∈ ex → ∃ z, ts !! p = Some (EXP z) ∧ z ≤ now;
  to_ex_all p z : ts !! p = Some (EXP z) → p ∈ ex;
  to_nodup : NoDup ex;
  to_armed p z : armed !! p = Some z ↔ ts !! p = Some (RUN z) ∨ ts !! p = Some (EXP z);
  to_range p tm : ts !! p = Some tm → absTime tm ≤ INT64_MAX
}.

(** The key of a timer does not change with its state. *)
Lemma timer_key_insert ts p z st st' : ts !! p = Some (mk_timer z st) →
  ∀ q, timer_key ts q = timer_key (<[p := mk_timer z st']> ts) q.
Proof. intros E q. unfold timer_key. destruct (decide (q = p)) as [->|]; [by rewrite E, lookup_insert_eq|by rewrite lookup_insert_ne]. Qed.

Lemma tree_removed ts tr p z st st' : ix_wf (timer_key ts) tr → p ∈ ix_elems tr → ts !! p = Some (mk_timer z st) →
  ix_wf (timer_key (<[p := mk_timer z st']> ts)) (ix_remove p tr) ∧
  (∀ q, q ∈ ix_elems (ix_remove p tr) ↔ q ∈ ix_elems tr ∧ q ≠ p).
Proof.
  intros Hwf Hp E. destruct (ix_remove_spec _ p tr Hwf Hp) as [Hwf' Hperm]. split.
  - eapply ix_wf_ext; [|exact Hwf']. intros q _. by apply (timer_key_insert ts p z st).
  - intros q. pose proof (ix_NoDup _ _ Hwf) as Hnd. rewrite Hperm in Hnd |- *. apply list.NoDup_cons in Hnd as [Hn _].
    rewrite elem_of_cons. naive_solver.
Qed.

Lemma expire_ok armed ts tr ex now p z : timers_ok armed ts tr ex now → ts !! p = Some (RUN z) → z ≤ now →
  timers_ok armed (<[p := EXP z]> ts) (ix_remove p tr) (ex ++ [p]) now.
Proof.
  intros [Hwf Htr Hex Hall Hnd Harm Hrg] E Hz. assert (p ∈ ix_elems tr) as Hp by (apply Htr; eauto).
  destruct (tree_removed ts tr p z _ TIMER_STATE_EXPIRED Hwf Hp E) as [Hwf' Hel]. split; [done|..].
  - intros q. rewrite Hel, Htr. destruct (decide (q = p)) as [->|].
    + rewrite lookup_insert_eq. naive_solver.
    + rewrite lookup_insert_ne by done. naive_solver.
  - intros q. rewrite elem_of_app, list_elem_of_singleton. destruct (decide (q = p)) as [->|].
    + rewrite lookup_insert_eq. eauto.
    + rewrite lookup_insert_ne by done. naive_solver.
  - intros q z'. rewrite elem_of_app, list_elem_of_singleton. destruct (decide (q = p)) as [->|]; [auto|].
    rewrite lookup_insert_ne by done. naive_solver.
  - apply list.NoDup_app. split_and!; [done| |apply NoDup_singleton]. intros q Hq ->%list_elem_of_singleton.
    destruct (Hex p Hq) as (? & E' & _). rewrite E in E'. discriminate E'.
  - intros q z'. rewrite Harm. destruct (decide (q = p)) as [->|]; [rewrite lookup_insert_eq, E; naive_solver|by rewrite lookup_insert_ne].
  - intros q tm. destruct (decide (q = p)) as [->|]; [rewrite lookup_insert_eq; intros [= <-]; apply (Hrg p _ E)|].
    rewrite lookup_insert_ne by done. apply Hrg.
Qed.

(** A timer is switched off, from the tree or from the list. *)
Lemma off_ok armed ts tr tr' ex ex' now p z st : timers_ok armed ts tr ex now → ts !! p = Some (mk_timer z st) →
  ix_wf (timer_key (<[p := OFF z]> ts)) tr' → (∀ q, q ∈ ix_elems tr' ↔ q ∈ ix_elems tr ∧ q ≠ p) →
  ex' = filter (λ q, q ≠ p) ex →
  timers_ok (delete p armed) (<[p := OFF z]> ts) tr' ex' now.
Proof.
  intros [Hwf Htr Hex Hall Hnd Harm Hrg] E Hwf' Hel ->. split; [done|..].
  - intros q. rewrite Hel, Htr. destruct (decide (q = p)) as [->|].
    + rewrite lookup_insert_eq. naive_solver.
    + rewrite lookup_insert_ne by done. naive_solver.
  - intros q. rewrite list_elem_of_filter. intros [? Hq]. rewrite lookup_insert_ne by done. auto.
  - intros q z'. destruct (decide (q = p)) as [->|]; [by rewrite lookup_insert_eq|]. rewrite lookup_insert_ne by done.
    intros. apply list_elem_of_filter. eauto.
  - by apply list.NoDup_filter.
  - intros q z'. destruct (decide (q = p)) as [->|]; [rewrite lookup_delete_eq, lookup_insert_eq; naive_solver|].
    rewrite lookup_delete_ne, lookup_insert_ne by done. apply Harm.
  - intros q tm. destruct (decide (q = p)) as [->|]; [rewrite lookup_insert_eq; intros [= <-]; apply (Hrg p _ E)|].
    rewrite lookup_insert_ne by done. apply Hrg.
Qed.

Lemma off_running armed ts tr ex now p z : timers_ok armed ts tr ex now → ts !! p = Some (RUN z) →
  timers_ok (delete p armed) (<[p := OFF z]> ts) (ix_remove p tr) ex now.
Proof.
  intros H E. assert (p ∈ ix_elems tr) as Hp by (apply (to_tree _ _ _ _ _ H); eauto).
  destruct (tree_removed ts tr p z _ TIMER_STATE_INACTIVE (to_wf _ _ _ _ _ H) Hp E) as [Hwf' Hel].
  eapply off_ok; try done. rewrite filter_neq_notin; [done|]. intros Hq.
  destruct (to_ex _ _ _ _ _ H p Hq) as (? & E' & _). rewrite E in E'. discriminate E'.
Qed.
Lemma off_expired armed ts tr ex now p z : timers_ok armed ts tr ex now → ts !! p = Some (EXP z) →
  timers_ok (delete p armed) (<[p := OFF z]> ts) tr (filter (λ q, q ≠ p) ex) now.
Proof.
  intros H E. eapply off_ok; try done.
  - eapply ix_wf_ext; [|apply (to_wf _ _ _ _ _ H)]. intros q _. by apply (timer_key_insert ts p z _ _ E).
  - intros q. split; [|naive_solver]. intros Hq. split; [done|]. intros ->.
    apply (to_tree _ _ _ _ _ H) in Hq as [? E']. rewrite E in E'. discriminate E'.
Qed.
Lemma init_timer_ok armed ts tr ex now p : timers_ok armed ts tr ex now →
  (∀ z st, ts !! p = Some (mk_timer z st) → st = TIMER_STATE_INACTIVE) →
  timers_ok armed (<[p := OFF 0]> ts) tr ex now.
Proof.
  intros [Hwf Htr Hex Hall Hnd Harm Hrg] E.
  assert (∀ q st z, st ≠ TIMER_STATE_INACTIVE → <[p := OFF 0]> ts !! q = Some (mk_timer z st) ↔ ts !! q = Some (mk_timer z st)) as Hl.
  { intros q st z Hst. destruct (decide (q = p)) as [->|]; [|by rewrite lookup_insert_ne]. rewrite lookup_insert_eq. split; [naive_solver|].
    intros E'. by destruct Hst, (E _ _ E'). }
  split; try done.
  - eapply ix_wf_ext; [|done]. intros q [z Hq]%Htr. unfold timer_key.
    destruct (decide (q = p)) as [->|]; [|by rewrite lookup_insert_ne]. discriminate (E _ _ Hq).
  - intros q. rewrite Htr. f_equiv. intros z. by rewrite Hl.
  - intros q (z & ? & ?)%Hex. exists z. by rewrite Hl.
  - intros q z. rewrite Hl by done. apply Hall.
  - intros q z. by rewrite Harm, !Hl.
  - intros q tm. destruct (decide (q = p)) as [->|]; [rewrite lookup_insert_eq; by intros [= <-]|]. rewrite lookup_insert_ne by done. apply Hrg.
Qed.
Lemma set_timer_ok armed ts tr ex now p z : timers_ok armed ts tr ex now →
  (∃ z, ts !! p = Some (OFF z)) → z ≤ INT64_MAX →
  ∃ tr', ix_insert compare_timers (timer_key (<[p := RUN z]> ts)) p tr = Some tr' ∧
    timers_ok (<[p := z]> armed) (<[p := RUN z]> ts) tr' ex now.
Proof.
  intros [Hwf Htr Hex Hall Hnd Harm Hrg] [z0 E] Hz.
  assert (p ∉ ix_elems tr) as Hn by (rewrite Htr, E; naive_solver).
  assert (ix_wf (timer_key (<[p := RUN z]> ts)) tr) as Hwf1.
  { eapply ix_wf_ext; [|done]. intros q Hq. unfold timer_key. rewrite lookup_insert_ne; [done|]. by intros <-. }
  destruct (ix_insert_spec _ p tr Hwf1) as (tr' & Hi & Hwf' & Hel); [done| |].
  { intros q Hq Hk. injection Hk as _ Hk. assert (q = p) by lia. by subst. }
  exists tr'. split; [done|]. split; [done|..].
  - intros q. rewrite Hel, elem_of_cons, Htr. destruct (decide (q = p)) as [->|].
    + rewrite lookup_insert_eq. naive_solver.
    + rewrite lookup_insert_ne by done. naive_solver.
  - intros q Hq. destruct (Hex q Hq) as (z' & E' & ?). rewrite lookup_insert_ne by (intros ->; rewrite E in E'; discriminate E'). eauto.
  - intros q z'. destruct (decide (q = p)) as [->|]; [by rewrite lookup_insert_eq|]. rewrite lookup_insert_ne by done. apply Hall.
  - done.
  - intros q z'. destruct (decide (q = p)) as [->|]; [rewrite !lookup_insert_eq; naive_solver|].
    rewrite !lookup_insert_ne by done. apply Harm.
  - intros q tm. destruct (decide (q = p)) as [->|]; [rewrite lookup_insert_eq; by intros [= <-]|]. rewrite lookup_insert_ne by done. apply Hrg.
Qed.
Lemma timers_later armed ts tr ex now now' : timers_ok armed ts tr ex now → now ≤ now' → timers_ok armed ts tr ex now'.
Proof. intros [] ?. split; try done. intros p (z & ? & ?)%to_ex0. exists z. split; [done|lia]. Qed.

Lemma first_timer armed ts tr ex now p : timers_ok armed ts tr ex now → ix_first tr = Some p →
  ∃ z, ts !! p = Some (RUN z) ∧ ∀ q z', ts !! q = Some (RUN z') → z ≤ z'.
Proof.
  intros [Hwf Htr _ _ _ _ _] E. rewrite (ix_first_spec _ _ Hwf) in E. destruct (ix_ordered _ _ Hwf) as [_ Hs].
  destruct (ix_elems tr) as [|a l] eqn:El; [done|]. injection E as ->.
  assert (p ∈ ix_elems tr) as Hp by (rewrite El; left). rewrite El in Hp. apply Htr in Hp as [z Hz]. exists z. split; [done|].
  intros q z' Hq. assert (q ∈ p :: l) as Hq' by (apply Htr; eauto). apply elem_of_cons in Hq' as [->|Hq']; [by simplify_eq|].
  apply StronglySorted_inv in Hs as [_ Hs]. rewrite list.Forall_forall in Hs. specialize (Hs q Hq').
  apply compare_timers_lt in Hs. unfold timer_key in Hs. rewrite Hz, Hq in Hs. simpl in Hs. lia.
Qed.
Lemma no_timer armed ts tr ex now : timers_ok armed ts tr ex now → ix_first tr = None → ∀ p z, ts !! p ≠ Some (RUN z).
Proof.
  intros [Hwf Htr _ _ _ _ _] E p z Hp. rewrite (ix_first_spec _ _ Hwf) in E.
  assert (p ∈ ix_elems tr) as Hin by (apply Htr; eauto). destruct (ix_elems tr); [by apply elem_of_nil in Hin|done].
Qed.
Lemma tree_size armed ts tr ex now : timers_ok armed ts tr ex now → (length (ix_elems tr) ≤ size ts)%nat.
Proof.
  intros [Hwf Htr _ _ _ _ _]. rewrite <- size_dom, <- (size_list_to_set (C:=gset nat)) by (by eapply ix_NoDup).
  apply subseteq_size. intros p. rewrite elem_of_list_to_set, Htr, elem_of_dom. intros [z ->]. eauto.
Qed.

(** *** File descriptors *)

(** The kernel knows the registered descriptors with their events.  A result that
    is still to be dispatched names a registered descriptor, which points back to it. *)
Record fds_ok (reg rep : gmap nat Z) (fs : gmap nat BFileDescriptor) (res : list epoll_event) (pos : nat)
    (ep : gmap nat Z) : Prop := mk_fds_ok {
  fo_reg p w : reg !! p = Some w ↔ ∃ f, fs !! p = Some f ∧ active f = true ∧ waitEvents f = w;
  fo_ep : ep = epoll_of <$> reg;
  fo_res i e p : res !! i = Some e → (pos ≤ i)%nat → ev_ptr e = Some p →
    rep !! p = Some (ev_events e) ∧ ∃ f, fs !! p = Some f ∧ active f = true ∧ epoll_returned_ptr f = Some i;
  fo_ret p f i : fs !! p = Some f → active f = true → epoll_returned_ptr f = Some i →
    (pos ≤ i)%nat ∧ ∃ e, res !! i = Some e ∧ ev_ptr e = Some p;
  fo_rep p m : rep !! p = Some m → ∃ i e, (pos ≤ i)%nat ∧ res !! i = Some e ∧ ev_ptr e = Some p;
  fo_pos : (pos ≤ length res)%nat
}.

Lemma fd_inactive reg rep fs res pos ep p f : fds_ok reg rep fs res pos ep →
  (∀ f0, fs !! p = Some f0 → active f0 = false) → active f = false → fds_ok reg rep (<[p := f]> fs) res pos ep.
Proof.
  intros [Hreg Hep Hres Hret Hrep Hpos] H0 Hf. split; try done.
  - intros q w. rewrite Hreg. destruct (decide (q = p)) as [->|]; [|by rewrite lookup_insert_ne].
    rewrite lookup_insert_eq. split; [intros (f0 & E & Ha & _); by rewrite (H0 _ E) in Ha|]. intros (f0 & [= <-] & Ha & _). by rewrite Hf in Ha.
  - intros i e q Hi Hle Hq. destruct (Hres i e q Hi Hle Hq) as (Hm & f0 & E & Ha & Hr). split; [done|]. exists f0.
    rewrite lookup_insert_ne; [done|]. intros <-. by rewrite (H0 _ E) in Ha.
  - intros q f0 i. destruct (decide (q = p)) as [->|]; [rewrite lookup_insert_eq; intros [= <-] Ha; by rewrite Hf in Ha|].
    rewrite lookup_insert_ne by done. apply Hret.
Qed.

Lemma fd_add reg rep fs res pos ep p f : fds_ok reg rep fs res pos ep → fs !! p = Some f → active f = false →
  fds_ok (<[p := 0]> reg) rep (<[p := mk_fd true 0 None]> fs) res pos (<[p := 0]> ep).
Proof.
  intros [Hreg Hep Hres Hret Hrep Hpos] E0 Hf. split; try done.
  - intros q w. destruct (decide (q = p)) as [->|]; [rewrite !lookup_insert_eq; naive_solver|]. by rewrite !lookup_insert_ne.
  - rewrite Hep, fmap_insert. done.
  - intros i e q Hi Hle Hq. destruct (Hres i e q Hi Hle Hq) as (Hm & f0 & E & Ha & Hr). split; [done|]. exists f0.
    rewrite lookup_insert_ne; [done|]. intros <-. simplify_eq. congruence.
  - intros q f0 i. destruct (decide (q = p)) as [->|]; [rewrite lookup_insert_eq; by intros [= <-]|].
    rewrite lookup_insert_ne by done. apply Hret.
Qed.

(** The result of a removed descriptor is cleared, if it has one. *)
Definition cleared (ret : option nat) (res : list epoll_event) : list epoll_event :=
  match ret with Some i => alter (λ e, e <| ev_ptr := None |>) i res | None => res end.
Lemma cleared_lookup ret res i e p : cleared ret res !! i = Some e → ev_ptr e = Some p → res !! i = Some e ∧ ret ≠ Some i.
Proof.
  unfold cleared. destruct ret as [k|]; [|done]. destruct (decide (i = k)) as [->|]; [|rewrite list_lookup_alter_ne by done; naive_solver].
  rewrite list_lookup_alter_eq. destruct (res !! k) as [[? ?]|]; [|done]. simpl. by intros [= <-].
Qed.
Lemma lookup_cleared ret res i e : res !! i = Some e → ret ≠ Some i → cleared ret res !! i = Some e.
Proof. unfold cleared. destruct ret as [k|]; [|done]. intros. rewrite list_lookup_alter_ne; [done|naive_solver]. Qed.

Lemma fd_remove reg rep fs res pos ep p f : fds_ok reg rep fs res pos ep → fs !! p = Some f → active f = true →
  fds_ok (delete p reg) (delete p rep) (<[p := f <| active := false |>]> fs) (cleared (epoll_returned_ptr f) res) pos (delete p ep).
Proof.
  intros [Hreg Hep Hres Hret Hrep Hpos] E0 Hf. split.
  - intros q w. destruct (decide (q = p)) as [->|]; [rewrite lookup_delete_eq, lookup_insert_eq|by rewrite lookup_delete_ne, lookup_insert_ne].
    split; [done|]. intros (f0 & [= <-] & Ha & _). discriminate Ha.
  - by rewrite Hep, fmap_delete.
  - intros i e q Hi Hle Hq. destruct (cleared_lookup _ _ _ _ _ Hi Hq) as [Hi' Hne].
    destruct (Hres i e q Hi' Hle Hq) as (Hm & f0 & E & Ha & Hr).
    assert (q ≠ p) by (intros ->; simplify_eq; congruence). rewrite lookup_delete_ne, lookup_insert_ne by done. eauto.
  - intros q f0 i. destruct (decide (q = p)) as [->|]; [rewrite lookup_insert_eq; intros [= <-] Ha; discriminate Ha|].
    rewrite lookup_insert_ne by done. intros E Ha Hr. destruct (Hret q f0 i E Ha Hr) as (? & e & He & Hq). split; [done|].
    exists e. split; [|done]. apply lookup_cleared; [done|]. intros Hk. destruct (Hret p f i E0 Hf Hk) as (_ & e' & ? & ?). by simplify_eq.
  - intros q m. destruct (decide (q = p)) as [->|]; [by rewrite lookup_delete_eq|]. rewrite lookup_delete_ne by done.
    intros (i & e & Hi & He & Hq)%Hrep. exists i, e. split_and!; [done| |done]. apply lookup_cleared; [done|].
    intros Hk. destruct (Hret p f i E0 Hf Hk) as (_ & e' & ? & ?). by simplify_eq.
  - unfold cleared. destruct (epoll_returned_ptr f); [by rewrite length_alter|done].
Qed.

Lemma fd_events reg rep fs res pos ep p f w : fds_ok reg rep fs res pos ep → fs !! p = Some f → active f = true →
  fds_ok (<[p := w]> reg) rep (<[p := f <| waitEvents := w |>]> fs) res pos (<[p := epoll_of w]> ep).
Proof.
  intros [Hreg Hep Hres Hret Hrep Hpos] E0 Hf. split; try done.
  - intros q v. destruct (decide (q = p)) as [->|]; [rewrite !lookup_insert_eq; naive_solver|]. by rewrite !lookup_insert_ne.
  - by rewrite Hep, fmap_insert.
  - intros i e q Hi Hle Hq. destruct (Hres i e q Hi Hle Hq) as (Hm & f0 & E & Ha & Hr). split; [done|].
    destruct (decide (q = p)) as [->|]; [|rewrite lookup_insert_ne by done; eauto]. rewrite lookup_insert_eq. simplify_eq. eauto.
  - intros q f0 i. destruct (decide (q = p)) as [->|]; [rewrite lookup_insert_eq; intros [= <-]; exact (Hret p f i E0)|].
    rewrite lookup_insert_ne by done. apply Hret.
Qed.

(** The next result is taken; [p]: the descriptor it names. *)
Lemma fd_taken reg rep fs res pos ep e p : fds_ok reg rep fs res pos ep → res !! pos = Some e → ev_ptr e = Some p →
  ∃ f, fs !! p = Some f ∧ active f = true ∧ epoll_returned_ptr f = Some pos ∧
    reg !! p = Some (waitEvents f) ∧ rep !! p = Some (ev_events e) ∧
    fds_ok reg (delete p rep) (<[p := f <| epoll_returned_ptr := None |>]> fs) res (S pos) ep.
Proof.
  intros [Hreg Hep Hres Hret Hrep Hpos] Hi Hp. destruct (Hres pos e p Hi ltac:(done) Hp) as (Hm & f & E & Ha & Hr).
  exists f. split_and!; try done; [apply Hreg; eauto|]. split; try done.
  - intros q v. rewrite Hreg. destruct (decide (q = p)) as [->|]; [rewrite lookup_insert_eq, E; naive_solver|]. by rewrite lookup_insert_ne.
  - intros i e' q Hi' Hle Hq. destruct (Hres i e' q Hi' ltac:(lia) Hq) as (Hm' & f' & E' & Ha' & Hr').
    assert (q ≠ p) by (intros ->; simplify_eq; lia). rewrite lookup_delete_ne, lookup_insert_ne by done. eauto.
  - intros q f' i. destruct (decide (q = p)) as [->|]; [rewrite lookup_insert_eq; by intros [= <-]|].
    rewrite lookup_insert_ne by done. intros E' Ha' Hr'. destruct (Hret q f' i E' Ha' Hr') as (? & e' & ? & ?). split; [|eauto].
    assert (i ≠ pos) by (intros ->; by simplify_eq). lia.
  - intros q m. destruct (decide (q = p)) as [->|]; [by rewrite lookup_delete_eq|]. rewrite lookup_delete_ne by done.
    intros (i & e' & ? & ? & ?)%Hrep. exists i, e'. split_and!; try done. assert (i ≠ pos) by (intros ->; by simplify_eq). lia.
  - apply lookup_lt_Some in Hi. lia.
Qed.
Lemma fd_skipped reg rep fs res pos ep e : fds_ok reg rep fs res pos ep → res !! pos = Some e → ev_ptr e = None →
  fds_ok reg rep fs res (S pos) ep.
Proof.
  intros [Hreg Hep Hres Hret Hrep Hpos] Hi Hp. split; try done.
  - intros i e' q Hi' Hle. apply Hres; [done|lia].
  - intros q f i E Ha Hr. destruct (Hret q f i E Ha Hr) as (? & e' & ? & ?). split; [|eauto].
    assert (i ≠ pos) by (intros ->; by simplify_eq). lia.
  - intros q m (i & e' & ? & ? & ?)%Hrep. exists i, e'. split_and!; try done. assert (i ≠ pos) by (intros ->; by simplify_eq). lia.
  - apply lookup_lt_Some in Hi. lia.
Qed.
Lemma fd_over reg rep fs res ep : fds_ok reg rep fs res (length res) ep →
  fds_ok reg rep fs [] 0 ep ∧ rep = ∅ ∧ ∀ p f, fs !! p = Some f → active f = true → epoll_returned_ptr f = None.
Proof.
  intros [Hreg Hep Hres Hret Hrep Hpos].
  assert (∀ p f, fs !! p = Some f → active f = true → epoll_returned_ptr f = None) as Hnone.
  { intros p f E Ha. destruct (epoll_returned_ptr f) as [i|] eqn:Er; [|done]. destruct (Hret p f i E Ha Er) as (? & e & ?%lookup_lt_Some & _). lia. }
  assert (rep = ∅) as ->. { apply map_eq. intros p. rewrite lookup_empty. destruct (rep !! p) as [m|] eqn:E; [|done].
    apply Hrep in E as (i & e & ? & ?%lookup_lt_Some & _). lia. }
  split_and!; [|done|done]. split; try done. intros p f i E Ha Hr. rewrite (Hnone _ _ E Ha) in Hr. done.
Qed.

(** *** Limits *)
Record limits_ok (lim : gmap nat (Z * Z)) (ls : gmap nat BReactorLimit) (al : list nat) : Prop := mk_limits_ok {
  lo_lim : lim = (λ x, (limit x, count x)) <$> ls;
  lo_count p l : ls !! p = Some l → 0 ≤ count l ∧ (0 < count l ↔ p ∈ al);
  lo_in p : p ∈ al → is_Some (ls !! p);
  lo_nodup : NoDup al
}.

Lemma limit_set lim ls al p n : limits_ok lim ls al → 0 < n →
  limits_ok (<[p := (n, from_option snd 0 (lim !! p))]> lim) (<[p := mk_limit n (from_option count 0 (ls !! p))]> ls) al.
Proof.
  intros [-> Hc Hin Hnd] Hn. split; [|..|done].
  - rewrite fmap_insert. f_equal. simpl. rewrite lookup_fmap. by destruct (ls !! p) as [[]|].
  - intros q l. destruct (decide (q = p)) as [->|]; [|by rewrite lookup_insert_ne; auto].
    rewrite lookup_insert_eq. intros [= <-]. simpl. destruct (ls !! p) as [l|] eqn:E; [by apply Hc|]. simpl. split; [lia|].
    split; [lia|]. intros Hp%Hin. rewrite E in Hp. by destruct Hp.
  - intros q Hq. rewrite lookup_insert_is_Some'. right. auto.
Qed.
Lemma limit_free lim ls al p l : limits_ok lim ls al → ls !! p = Some l →
  limits_ok (delete p lim) (delete p ls) (if 0 <? count l then filter (λ q, q ≠ p) al else al).
Proof.
  intros [-> Hc Hin Hnd] E. assert ((if 0 <? count l then filter (λ q, q ≠ p) al else al) = filter (λ q, q ≠ p) al) as ->.
  { destruct (Z.ltb_spec 0 (count l)); [done|]. symmetry. apply filter_neq_notin. rewrite <- (proj2 (Hc p l E)). lia. }
  split; [by rewrite fmap_delete|..].
  - intros q l'. destruct (decide (q = p)) as [->|]; [by rewrite lookup_delete_eq|]. rewrite lookup_delete_ne by done. intros E'.
    rewrite elem_of_remove. destruct (Hc q l' E') as [? ?]. naive_solver.
  - intros q [? Hq]%elem_of_remove. rewrite lookup_delete_ne by done. auto.
  - by apply list.NoDup_filter.
Qed.
Lemma limit_increment lim ls al p l : limits_ok lim ls al → ls !! p = Some l →
  limits_ok (alter (λ x, (x.1, x.2 + 1)) p lim) (<[p := l <| count := count l + 1 |>]> ls)
    (if count l + 1 =? 1 then al ++ [p] else al).
Proof.
  intros [-> Hc Hin Hnd] E. destruct (Hc p l E) as [H0 Hp]. set (al' := if count l + 1 =? 1 then al ++ [p] else al).
  assert (∀ q, q ∈ al' ↔ q ∈ al ∨ q = p) as Hal.
  { intros q. unfold al'. destruct (Z.eqb_spec (count l + 1) 1); [by rewrite elem_of_app, list_elem_of_singleton|].
    split; [tauto|]. intros [?| ->]; [done|]. apply Hp. lia. }
  split.
  - apply map_eq. intros q. destruct (decide (q = p)) as [->|].
    + rewrite lookup_alter_eq, !lookup_fmap, lookup_insert_eq, E. done.
    + by rewrite lookup_alter_ne, !lookup_fmap, lookup_insert_ne.
  - intros q l'. rewrite Hal. destruct (decide (q = p)) as [->|].
    + rewrite lookup_insert_eq. intros [= <-]. simpl. split; [lia|]. split; [auto|lia].
    + rewrite lookup_insert_ne by done. intros E'. destruct (Hc q l' E'). naive_solver.
  - intros q. rewrite Hal, lookup_insert_is_Some'. naive_solver.
  - unfold al'. destruct (Z.eqb_spec (count l + 1) 1); [|done]. apply list.NoDup_app.
    split_and!; [done| |apply NoDup_singleton]. intros q Hq ->%list_elem_of_singleton. apply Hp in Hq. lia.
Qed.
End Parts.

(** ** Every operation keeps the invariant *)
Section Reactor.
Import BReactor.
Context {T : Type} {ops : IndexOps (Z * Z) T} {laws : IndexLaws ops (λ _, True) compare_timers}.
Abbreviation RM := (M (t T) act).

(** A debug counter counts [n] objects, unless it has been full. *)
Definition counts (c : Z) (n : nat) : Prop := c = Z.of_nat n ∨ c = INT_MAX.

Lemma counts_inc c n : counts c n → ∃ c', DebugCounter_Increment c = Some c' ∧ counts c' (S n).
Proof.
  unfold counts, DebugCounter_Increment, INT_MAX. intros Hc. destruct (Z.leb_spec 0 c); [|lia].
  destruct (Z.eqb_spec c 2147483647); simpl; eexists; (split; [done|]); lia.
Qed.
Lemma counts_dec c n : counts c (S n) → ∃ c', DebugCounter_Decrement c = Some c' ∧ counts c' n.
Proof.
  unfold counts, DebugCounter_Decrement, INT_MAX. intros Hc. destruct (Z.ltb_spec 0 c); [|lia].
  destruct (Z.eqb_spec c 2147483647); simpl; eexists; (split; [done|]); lia.
Qed.
Lemma counts_free c n : counts c n → DebugCounter_Free c = true ↔ n = 0%nat ∨ c = INT_MAX.
Proof.
  unfold counts, DebugCounter_Free, INT_MAX. rewrite orb_true_iff, !Z.eqb_eq. lia.
Qed.

Lemma tri_count_fds f c' h (r : t T) (Q : () → hist → t T → Prop) : f (d_fds_counter r) = Some c' →
  Q () h (r <| d_fds_counter := c' |>) → rtri h r (count_fds f) Q.
Proof. intros E HQ. unfold count_fds. tri_pure. rewrite E. by tri_pure. Qed.
Lemma tri_count_limits f c' h (r : t T) (Q : () → hist → t T → Prop) : f (d_limits_ctr r) = Some c' →
  Q () h (r <| d_limits_ctr := c' |>) → rtri h r (count_limits f) Q.
Proof. intros E HQ. unfold count_limits. tri_pure. rewrite E. by tri_pure. Qed.

Record inv (h : hist) (r : t T) : Prop := mk_inv {
  i_jobs : h_jobs h = pending_jobs r;
  i_timers : timers_ok (h_armed h) (timers r) (timers_tree r) (timers_expired_list r) (clock r);
  i_fds : fds_ok (h_fds h) (h_reported h) (fds r) (epoll_results r) (epoll_results_pos r) (epoll r);
  i_limits : limits_ok (h_limits h) (limits r) (active_limits_list r);
  i_clock : h_now h = clock r ∧ 0 ≤ clock r ≤ INT64_MAX;
  i_counters : counts (d_fds_counter r) (size (h_fds h)) ∧ counts (d_limits_ctr r) (size (h_limits h));
  i_quit : h_quit h = if exiting r then Some (exit_code r) else None
}.
Definition keeps {A} (h : hist) (r : t T) (m : RM A) : Prop := rtri h r m (λ _ h' r', inv h' r').

(** *** Timers *)

Lemma expire_run h r p z : inv h r → timers r !! p = Some (mk_timer z TIMER_STATE_RUNNING) → z ≤ clock r →
  rtri h r (expire p) (λ _ h' r', h' = h ∧ inv h r' ∧ clock r' = clock r ∧
    timers_tree r' = ix_remove p (timers_tree r) ∧
    (∀ q z', timers r' !! q = Some (mk_timer z' TIMER_STATE_RUNNING) → timers r !! q = Some (mk_timer z' TIMER_STATE_RUNNING))).
Proof.
  intros [] E Hz. unfold expire, tree_remove, expired_append, set_timer. tri_pure. eapply tri_timer; [exact E|]. tri_pure.
  split_and!; [done| |done|done|]. { split; try done. by apply expire_ok. }
  intros q z'. simpl. destruct (decide (q = p)) as [->|]; [by rewrite lookup_insert_eq|by rewrite lookup_insert_ne].
Qed.

(** The first timer of the tree; [d]: enough fuel for the loop after it. *)
Lemma first_run h r p : inv h r → ix_first (timers_tree r) = Some p →
  ∃ z, timers r !! p = Some (mk_timer z TIMER_STATE_RUNNING) ∧
    (∀ q z', timers r !! q = Some (mk_timer z' TIMER_STATE_RUNNING) → z ≤ z') ∧
    length (ix_elems (timers_tree r)) = S (length (ix_elems (ix_remove p (timers_tree r)))).
Proof.
  intros H E. destruct (first_timer _ _ _ _ _ _ (i_timers h r H) E) as (z & Ez & Hmin). exists z. split_and!; [done..|].
  pose proof (to_wf _ _ _ _ _ (i_timers h r H)) as Hwf.
  assert (p ∈ ix_elems (timers_tree r)) as Hp by (apply (to_tree _ _ _ _ _ (i_timers h r H)); eauto).
  destruct (ix_remove_spec _ p _ Hwf Hp) as [_ Hperm]. by rewrite Hperm at 1.
Qed.

(** The part that the two loops over the tree share. *)
Ltac at_first H p z Ez Hmin Hlen :=
  destruct (first_run _ _ p H ltac:(eassumption)) as (z & Ez & Hmin & Hlen); tri_pure;
  eapply tri_timer; [exact Ez|]; tri_pure; (apply tri_ASSERT; [by apply bool_decide_true|]).

Lemma move_loop_run fuel now moved h r : inv h r → now = clock r → (length (ix_elems (timers_tree r)) ≤ fuel)%nat →
  rtri h r (move_loop fuel now moved) (λ m h' r', h' = h ∧ inv h r' ∧ (moved = true → m = true) ∧
    (m = false → r' = r ∧ ∀ p z, timers r !! p = Some (mk_timer z TIMER_STATE_RUNNING) → now < z)).
Proof.
  revert moved r. induction fuel as [|fuel IH]; intros moved r H -> Hf; simpl; tri_pure;
    (destruct (ix_first (timers_tree r)) as [p|] eqn:E;
     [|tri_pure; split_and!; try done; intros _; split; [done|]; intros q z Hq; by destruct (no_timer _ _ _ _ _ (i_timers h r H) E q z)]);
    at_first H p z Ez Hmin Hlen; simpl;
    (destruct (Z.ltb_spec (clock r) z) as [Hlt|Hge];
     [tri_pure; split_and!; try done; intros _; split; [done|]; intros q z' Hq; specialize (Hmin q z' Hq); lia|]); [lia|].
  tri_pure. eapply tri_mono; [by apply (expire_run h r p z)|]. intros _ ? r1 (-> & H1 & Hc & Ht & _).
  eapply tri_mono; [apply (IH true r1 H1 (eq_sym Hc)); rewrite Ht; lia|]. simpl. intros m h' r' (-> & H' & Hm & _).
  rewrite (Hm eq_refl). split_and!; done.
Qed.
Lemma move_expired_run h r : inv h r →
  rtri h r (move_expired_timers (clock r)) (λ m h' r', h' = h ∧ inv h r' ∧
    (m = false → r' = r ∧ ∀ p z, timers r !! p = Some (mk_timer z TIMER_STATE_RUNNING) → clock r < z)).
Proof.
  intros H. unfold move_expired_timers. tri_pure. eapply tri_mono.
  - apply (move_loop_run _ _ _ h r H eq_refl). by eapply tree_size, i_timers.
  - intros m h' r' (-> & ? & _ & ?). done.
Qed.

Lemma move_same_run fuel first_time h r : inv h r → first_time ≤ clock r → (length (ix_elems (timers_tree r)) ≤ fuel)%nat →
  (∀ p z, timers r !! p = Some (mk_timer z TIMER_STATE_RUNNING) → first_time ≤ z) → keeps h r (move_same_loop fuel first_time).
Proof.
  revert r. induction fuel as [|fuel IH]; intros r H Hc Hf Hall; unfold keeps; simpl; tri_pure;
    (destruct (ix_first (timers_tree r)) as [p|] eqn:E; [|by tri_pure]);
    at_first H p z Ez Hmin Hlen; tri_pure; (apply tri_ASSERT; [apply Z.leb_le; by eapply Hall|]); simpl;
    (destruct (Z.ltb_spec first_time z) as [Hlt|Hge]; [by tri_pure|]); [lia|].
  tri_pure. eapply tri_mono; [apply (expire_run h r p z); [done..|]; specialize (Hall p z Ez); lia|].
  intros _ ? r1 (-> & H1 & Hc1 & Ht & Hr). apply IH; [done|lia|rewrite Ht; lia|]. intros q z' Hq. eapply Hall, Hr, Hq.
Qed.
Lemma move_first_run h r p z : inv h r → ix_first (timers_tree r) = Some p →
  timers r !! p = Some (mk_timer z TIMER_STATE_RUNNING) → z ≤ clock r → keeps h r move_first_timers.
Proof.
  intros H E Ez Hz. unfold keeps, move_first_timers. tri_pure. rewrite E. tri_pure.
  destruct (first_run h r p H E) as (z' & Ez' & Hmin & Hlen). simplify_eq.
  eapply tri_timer; [exact Ez|]. tri_pure. apply tri_ASSERT; [done|]. tri_pure.
  eapply tri_mono; [by apply (expire_run h r p z)|]. intros _ ? r1 (-> & H1 & Hc1 & Ht & Hr).
  apply move_same_run; [done|simpl; lia| |intros q z' Hq; by eapply Hmin, Hr].
  pose proof (tree_size _ _ _ _ _ (i_timers h r H)). rewrite Ht. lia.
Qed.

Lemma remove_timer_run h r p : inv h r → is_Some (timers r !! p) →
  rtri h r (BReactor_RemoveSmallTimer p) (λ _ h' r', inv h' r' ∧ clock r' = clock r ∧ h_call h' = h_call h ∧
    ∃ z, timers r' !! p = Some (mk_timer z TIMER_STATE_INACTIVE)).
Proof.
  intros H [[z st] E]. unfold BReactor_RemoveSmallTimer, tree_remove, set_timer. tri_pure. eapply tri_timer; [exact E|].
  simpl. destruct H. destruct st; tri_pure.
  - split_and!; [by split|done|done|eauto].
  - apply tri_emit; [done|]. split_and!; [split; try done; by apply off_running|done|done|]. exists z. simpl. by rewrite lookup_insert_eq.
  - apply tri_emit; [done|]. split_and!; [split; try done; by apply off_expired|done|done|]. exists z. simpl. by rewrite lookup_insert_eq.
Qed.

Lemma btime_add_eq a b : btime_add a b = Z.max INT64_MIN (Z.min INT64_MAX (a + b)).
Proof.
  unfold btime_add, INT64_MAX, INT64_MIN. destruct (Z.ltb_spec 9223372036854775807 (a + b)); [lia|].
  destruct (Z.ltb_spec (a + b) (-9223372036854775808)); lia.
Qed.
Lemma btime_add_range a b : btime_add a b ≤ INT64_MAX.
Proof. rewrite btime_add_eq. unfold INT64_MAX, INT64_MIN. lia. Qed.

Lemma set_timer_run h r p rel time : inv h r → is_Some (timers r !! p) → time ≤ INT64_MAX →
  h_call h = Some (p, rel, time) → keeps h r (BReactor_SetSmallTimer p rel time).
Proof.
  intros H Hp Hle Hcall. unfold keeps, BReactor_SetSmallTimer, set_timer. destruct (id Hp) as [tm E]. tri_pure. eapply tri_timer; [exact E|].
  tri_pure. eapply tri_mono; [by apply remove_timer_run|]. intros _ h1 r1 (H1 & Hc & Ecall & z & Ez).
  apply tri_bind. apply (tri_mono _ _ _ _ _ (λ v h' r', h' = h1 ∧ r' = r1 ∧ v ≤ INT64_MAX ∧ set_time h1 p v)).
  { destruct rel; unfold btime_gettime; tri_pure; split_and!; try done; [apply btime_add_range|..];
      eexists _, _; (split; [by rewrite Ecall|]); [|done]. by rewrite (proj1 (i_clock h1 r1 H1)), btime_add_eq. }
  intros v ? ? (-> & -> & Hv & Hset). tri_pure. destruct H1.
  destruct (set_timer_ok _ _ _ _ _ p v i_timers0 (ex_intro _ z Ez) Hv) as (tr' & Hi & Hok). simpl. rewrite Hi.
  tri_pure. apply tri_emit; [exact Hset|]. by split.
Qed.

(** *** File descriptors and limits *)

Lemma add_fd_run h r p ctl f : inv h r → fds r !! p = Some f → active f = false → keeps h r (BReactor_AddFileDescriptor p ctl).
Proof.
  intros H E Ha. unfold keeps, BReactor_AddFileDescriptor, set_fd. tri_pure. eapply tri_fd; [exact E|]. tri_pure.
  apply tri_ASSERT; [by rewrite Ha|]. destruct ctl; tri_pure; [|done]. simpl. tri_pure.
  assert (h_fds h !! p = None) as Hn.
  { destruct (h_fds h !! p) as [w|] eqn:Ep; [|done]. apply (fo_reg _ _ _ _ _ _ (i_fds h r H)) in Ep as (f' & ? & ? & _). congruence. }
  destruct (counts_inc _ _ (proj1 (i_counters h r H))) as (c' & Ec & Hc).
  eapply tri_count_fds; [exact Ec|]. tri_pure. apply tri_emit; [done|]. tri_pure.
  destruct H. split; try done; [by eapply fd_add|]. simpl. split; [|apply i_counters0]. by rewrite map_size_insert_None.
Qed.
Lemma registered h r p f : inv h r → fds r !! p = Some f → active f = true → is_Some (epoll r !! p).
Proof.
  intros H E Ha. rewrite (fo_ep _ _ _ _ _ _ (i_fds h r H)), lookup_fmap.
  rewrite (proj2 (fo_reg _ _ _ _ _ _ (i_fds h r H) p (waitEvents f))) by eauto. eauto.
Qed.
Lemma remove_fd_run h r p f : inv h r → fds r !! p = Some f → active f = true → keeps h r (BReactor_RemoveFileDescriptor p).
Proof.
  intros H E Ha. unfold keeps, BReactor_RemoveFileDescriptor, set_fd. tri_pure. eapply tri_fd; [exact E|]. tri_pure.
  apply tri_ASSERT; [done|]. tri_pure.
  assert (h_fds h !! p = Some (waitEvents f)) as Hp by (apply (fo_reg _ _ _ _ _ _ (i_fds h r H)); eauto).
  pose proof (i_counters h r H) as [Hcf Hcl].
  assert (size (h_fds h) = S (size (delete p (h_fds h)))) as Hsz.
  { rewrite map_size_delete, Hp. pose proof (map_size_non_empty_iff (h_fds h)) as [_ Hne].
    assert (size (h_fds h) ≠ 0%nat) by (apply Hne; intros Hemp; by rewrite Hemp, lookup_empty in Hp). simpl. lia. }
  rewrite Hsz in Hcf. destruct (counts_dec _ _ Hcf) as (c' & Ec & Hc). eapply tri_count_fds; [exact Ec|]. tri_pure.
  apply tri_ASSERT; [apply bool_decide_true; by apply (registered h r p f)|]. tri_pure.
  pose proof (fd_remove _ _ _ _ _ _ p f (i_fds h r H) E Ha) as Hok. unfold cleared in Hok.
  destruct (epoll_returned_ptr f); unfold clear_result; tri_pure; (apply tri_emit; [done|]); destruct H; by split.
Qed.
Lemma set_events_run h r p f ev : inv h r → fds r !! p = Some f → active f = true →
  (Z.ldiff ev (Z.lor BREACTOR_READ BREACTOR_WRITE) =? 0) = true → keeps h r (BReactor_SetFileDescriptorEvents p ev).
Proof.
  intros H E Ha Hev. unfold keeps, BReactor_SetFileDescriptorEvents, set_fd. tri_pure. eapply tri_fd; [exact E|]. tri_pure.
  apply tri_ASSERT; [done|]. tri_pure. apply tri_ASSERT; [done|]. tri_pure. destruct (waitEvents f =? ev); tri_pure; [done|].
  apply tri_ASSERT; [apply bool_decide_true; by apply (registered h r p f)|]. tri_pure. apply tri_emit; [done|].
  destruct H. split; try done; [by apply fd_events|]. simpl.
  assert (h_fds h !! p = Some (waitEvents f)) as Hp by (apply (fo_reg _ _ _ _ _ _ i_fds0); eauto).
  by rewrite map_size_insert_Some by eauto.
Qed.

Lemma limit_used h r p l : inv h r → limits r !! p = Some l → h_limits h !! p = Some (limit l, count l) ∧ 0 ≤ count l.
Proof.
  intros H E. rewrite (lo_lim _ _ _ (i_limits h r H)), lookup_fmap, E. split; [done|]. by apply (lo_count _ _ _ (i_limits h r H) p l).
Qed.
Lemma limit_free_run h r p l : inv h r → limits r !! p = Some l → keeps h r (BReactorLimit_Free p).
Proof.
  intros H E. unfold keeps, BReactorLimit_Free. tri_pure. eapply tri_limit; [exact E|]. tri_pure.
  pose proof (i_counters h r H) as [Hcf Hcl].
  assert (size (h_limits h) = S (size (delete p (h_limits h)))) as Hsz.
  { destruct (limit_used h r p l H E) as [Hp _].
    rewrite map_size_delete, Hp. pose proof (map_size_non_empty_iff (h_limits h)) as [_ Hne].
    assert (size (h_limits h) ≠ 0%nat) by (apply Hne; intros Hemp; by rewrite Hemp, lookup_empty in Hp). simpl. lia. }
  rewrite Hsz in Hcl. destruct (counts_dec _ _ Hcl) as (c' & Ec & Hc). eapply tri_count_limits; [exact Ec|]. tri_pure.
  pose proof (limit_free _ _ _ p l (i_limits h r H) E) as Hok.
  unfold when. destruct (0 <? count l); tri_pure; (apply tri_emit; [done|]); destruct H; by split.
Qed.
Lemma map_size_alter {A} (f : A → A) i (m : gmap nat A) : size (alter f i m) = size m.
Proof. by rewrite <- (size_dom (D:=gset nat)), dom_alter_L, size_dom. Qed.
Lemma limit_increment_run h r p l : inv h r → limits r !! p = Some l → keeps h r (BReactorLimit_Increment p).
Proof.
  intros H E. unfold keeps, BReactorLimit_Increment, set_limit. tri_pure. eapply tri_limit; [exact E|].
  destruct (limit_used h r p l H E) as [Hu H0]. destruct (Z.leb_spec (limit l) (count l)); tri_pure; [done|].
  pose proof (limit_increment _ _ _ p l (i_limits h r H) E) as Hok.
  unfold when. destruct (count l + 1 =? 1); tri_pure; (apply tri_emit; [exists (limit l), (count l); split; [done|lia]|]); tri_pure;
    destruct H; (split; try done); simpl; by rewrite map_size_alter.
Qed.
Lemma limit_set_run h r p n : inv h r → 0 < n →
  is_Some (limits r !! p) →
  inv (obs h (LimitSet p n)) (r <| limits := <[p := mk_limit n (from_option count 0 (limits r !! p))]> (limits r) |>).
Proof.
  intros H Hn [l E]. destruct (limit_used h r p l H E) as [Hp _]. destruct H.
  split; try done; [by apply limit_set|]. simpl. by rewrite map_size_insert_Some by eauto.
Qed.

(** *** Handlers *)

Lemma run_op_keeps h r o : inv h r → op_allowed r o = true → keeps h r (run_op o).
Proof.
  intros H Ho. destruct o; simpl in Ho |- *; unfold keeps.
  - tri_pure. apply tri_emit; [done|]. destruct H. split; try done. simpl. by rewrite i_jobs0.
  - tri_pure. apply tri_emit; [done|]. destruct H. split; try done. simpl. by rewrite i_jobs0.
  - unfold BSmallTimer_Init, set_timer. tri_pure. destruct H. split; try done. apply init_timer_ok; [done|].
    intros z st E. rewrite E in Ho. by apply bool_decide_eq_true in Ho.
  - apply andb_true_iff in Ho as [[Ho%bool_decide_eq_true _]%andb_true_iff Ht%Z.leb_le].
    tri_pure. apply tri_emit; [done|]. apply set_timer_run; try done. destruct H. by split.
  - apply bool_decide_eq_true in Ho. eapply tri_mono; [by apply remove_timer_run|]. by intros _ h' r' [? _].
  - unfold BFileDescriptor_Init, set_fd. tri_pure. destruct H. split; try done. apply fd_inactive; [done| |done].
    intros f E. rewrite E in Ho. by apply negb_true_iff.
  - destruct (fds r !! p) as [f|] eqn:E; [|done]. apply negb_true_iff in Ho. apply tri_bind. eapply tri_mono; [by eapply add_fd_run|]. done.
  - destruct (fds r !! p) as [f|] eqn:E; [|done]. by eapply remove_fd_run.
  - apply andb_true_iff in Ho as [Hev Ho]. destruct (fds r !! p) as [f|] eqn:E; [|done]. by eapply set_events_run.
  - apply andb_true_iff in Ho as [Hn%Z.ltb_lt Ho%bool_decide_eq_true]. unfold BReactorLimit_Init, set_limit. tri_pure.
    apply tri_ASSERT; [by apply Z.ltb_lt|]. tri_pure.
    assert (h_limits h !! p = None) as Hp by (by rewrite (lo_lim _ _ _ (i_limits h r H)), lookup_fmap, Ho).
    destruct (counts_inc _ _ (proj2 (i_counters h r H))) as (c' & Ec & Hc). eapply tri_count_limits; [exact Ec|]. tri_pure.
    apply tri_emit; [done|]. destruct H.
    split; try done; [|simpl; split; [apply i_counters0|by rewrite map_size_insert_None]].
    pose proof (limit_set _ _ _ p n i_limits0 Hn) as Hok. by rewrite Ho in Hok.
  - apply bool_decide_eq_true in Ho as [l E]. by eapply limit_free_run.
  - apply bool_decide_eq_true in Ho as [l E]. apply tri_bind. eapply tri_mono; [by eapply limit_increment_run|]. done.
  - apply andb_true_iff in Ho as [Hn%Z.ltb_lt [l E]%bool_decide_eq_true]. unfold BReactorLimit_SetLimit, set_limit. tri_pure.
    apply tri_ASSERT; [by apply Z.ltb_lt|]. tri_pure. eapply tri_limit; [exact E|]. tri_pure. apply tri_emit; [done|].
    pose proof (limit_set_run h r p n H Hn (ex_intro _ l E)) as Hok. by rewrite E in Hok.
  - unfold BReactor_Quit. tri_pure. apply tri_emit; [done|]. destruct H. by split.
Qed.
Lemma handler_keeps os h r : inv h r → keeps h r (handler os).
Proof.
  revert h r. induction os as [|o os IH]; intros h r H; unfold keeps; simpl; tri_pure; [done|].
  unfold when. destruct (op_allowed r o) eqn:E; tri_pure; [|by apply IH].
  eapply tri_mono; [by apply run_op_keeps|]. intros [] h' r' H'. by apply IH.
Qed.

(** *** Waiting *)

Lemma reset_limits_run fuel h (r : t T) :
  (∀ p l, limits r !! p = Some l → 0 ≤ count l ∧ (0 < count l ↔ p ∈ active_limits_list r)) →
  (∀ p, p ∈ active_limits_list r → is_Some (limits r !! p)) →
  NoDup (active_limits_list r) → (length (active_limits_list r) ≤ fuel)%nat →
  rtri h r (reset_limits fuel) (λ _ h' r', h' = h ∧
    r' = r <| limits := (λ l, l <| count := 0 |>) <$> limits r |> <| active_limits_list := [] |>).
Proof.
  revert r. induction fuel as [|fuel IH]; intros r Hc Hin Hnd Hf; simpl; tri_pure;
    destruct (active_limits_list r) as [|p al] eqn:Ea; try (simpl in Hf; lia).
  1,2: tri_pure; split; [done|]; assert ((λ l, l <| count := 0 |>) <$> limits r = limits r) as El;
    [apply map_eq; intros q; rewrite lookup_fmap; destruct (limits r !! q) as [[n c]|] eqn:E; [|done];
     destruct (Hc q _ E) as [? Hq]; rewrite elem_of_nil in Hq; simpl in *;
     assert (c = 0) as -> by (destruct (Z.lt_ge_cases 0 c); [tauto|lia]); done|rewrite El; clear -Ea; destruct r; simpl in *; by subst].
  destruct (Hin p ltac:(left)) as [l E]. apply list.NoDup_cons in Hnd as [Hn Hnd]. unfold set_limit. tri_pure. eapply tri_limit; [exact E|].
  tri_pure. apply tri_ASSERT; [apply Z.ltb_lt, (Hc p l E); left|]. tri_pure.
  set (r1 := _ : t T). assert (active_limits_list r1 = al) as Ea1.
  { subst r1. simpl. rewrite Ea, filter_cons, decide_False by naive_solver. by apply filter_neq_notin. }
  assert (limits r1 = <[p := l <| count := 0 |>]> (limits r)) as El1 by done.
  eapply tri_mono; [apply IH; rewrite ?Ea1, ?El1; [..|done|simpl in Hf; lia]|].
  - intros q l'. destruct (decide (q = p)) as [->|]; [rewrite lookup_insert_eq; intros [= <-]; simpl; split; [lia|naive_solver lia]|].
    rewrite lookup_insert_ne by done. intros E'. destruct (Hc q l' E') as [? Hq]. rewrite elem_of_cons in Hq. naive_solver.
  - intros q Hq. rewrite lookup_insert_is_Some'. right. apply Hin. by right.
  - intros _ h' r' [-> ->]. split; [done|]. rewrite El1, fmap_insert. simpl.
    assert (<[p := l <| count := 0 |>]> ((λ l, l <| count := 0 |>) <$> limits r) = (λ l, l <| count := 0 |>) <$> limits r) as Hm.
    { apply insert_id. by rewrite lookup_fmap, E. }
    change (l <|count := 0|> <|count := 0|>) with (l <|count := 0|>). rewrite Hm. done.
Qed.
Lemma wait_over_run h r : inv h r →
  keeps h r (r ← get; emit WaitOver;; reset_limits (length (active_limits_list r));; mret true).
Proof.
  intros H. unfold keeps. tri_pure. apply tri_emit; [done|]. tri_pure. destruct (i_limits h r H) as [El Hc Hin Hnd].
  eapply tri_mono; [by apply reset_limits_run|]. intros _ h' r' [-> ->]. tri_pure. destruct H. split; try done; simpl; [|by rewrite map_size_fmap].
  split; [|..|constructor].
  - by rewrite El, <- !map_fmap_compose.
  - intros q l. rewrite lookup_fmap. destruct (limits r !! q); [|done]. intros [= <-]. simpl. split; [done|]. split; [lia|by intros ?%elem_of_nil].
  - by intros q ?%elem_of_nil.
Qed.

(** The kernel has reported descriptors. *)
Lemma pointers_run evs i h (r : t T) : NoDup evs.*1 →
  (∀ p, p ∈ evs.*1 → ∃ f, fds r !! p = Some f ∧ active f = true ∧ epoll_returned_ptr f = None) →
  rtri h r (set_epoll_fd_pointers i ((λ e, mk_event (Some e.1) e.2) <$> evs)) (λ _ h' r', h' = h ∧ ∃ fs, r' = r <| fds := fs |> ∧
    (∀ k p m, evs !! k = Some (p, m) → fs !! p = (λ f, f <| epoll_returned_ptr := Some (i + k)%nat |>) <$> fds r !! p) ∧
    (∀ p, p ∉ evs.*1 → fs !! p = fds r !! p)).
Proof.
  revert i r. induction evs as [|[p m] evs IH]; intros i r Hnd Hf; simpl.
  { tri_pure. split; [done|]. exists (fds r). split; [by destruct r|]. done. }
  simpl in Hnd, Hf. apply list.NoDup_cons in Hnd as [Hn Hnd].
  destruct (Hf p ltac:(left)) as (f & E & Ha & Hr). unfold set_fd. tri_pure. eapply tri_fd; [exact E|]. tri_pure.
  apply tri_ASSERT; [done|]. tri_pure. apply tri_ASSERT; [by apply bool_decide_true|]. tri_pure.
  eapply tri_mono; [apply IH; [done|]|].
  - intros q Hq. destruct (Hf q ltac:(by right)) as (f' & ? & ? & ?). exists f'. simpl.
    rewrite lookup_insert_ne by (by intros ->). done.
  - simpl. intros _ h' r' (-> & fs & -> & Hfs & Hfs'). split; [done|]. exists fs. split_and!; [done|..].
    + intros [|k] q m' Hk; simpl in Hk.
      * simplify_eq. rewrite Hfs' by done. rewrite lookup_insert_eq, E. simpl. by rewrite Nat.add_0_r.
      * rewrite (Hfs k q m' Hk), lookup_insert_ne, Nat.add_succ_r; [done|]. intros <-. apply Hn.
        apply list_elem_of_fmap. exists (p, m'). split; [done|]. by eapply list_elem_of_lookup_2.
    + intros q [? Hq]%not_elem_of_cons. rewrite Hfs', lookup_insert_ne by done. done.
Qed.
Lemma fd_ready reg fs fs' ep (evs : list (nat * Z)) : fds_ok reg ∅ fs [] 0 ep → NoDup evs.*1 →
  (∀ p, p ∈ evs.*1 → is_Some (ep !! p)) →
  (∀ k p m, evs !! k = Some (p, m) → fs' !! p = (λ f, f <| epoll_returned_ptr := Some k |>) <$> fs !! p) →
  (∀ p, p ∉ evs.*1 → fs' !! p = fs !! p) →
  fds_ok reg (list_to_map evs) fs' ((λ e, mk_event (Some e.1) e.2) <$> evs) 0 ep.
Proof.
  intros [Hreg Hep _ Hret _ _] Hnd Hev Hin Hout.
  assert (∀ p, p ∈ evs.*1 → ∃ k m, evs !! k = Some (p, m)) as Hk.
  { intros p ([q m] & -> & [k ?]%list_elem_of_lookup_1)%list_elem_of_fmap. eauto. }
  assert (∀ p f', fs' !! p = Some f' → ∃ f, fs !! p = Some f ∧ active f = active f' ∧ waitEvents f = waitEvents f') as Hback.
  { intros p f' E. destruct (decide (p ∈ evs.*1)) as [(k & m & ?)%Hk|Hn]; [|rewrite Hout in E by done; eauto].
    erewrite Hin in E by done. destruct (fs !! p) as [f|]; [|done]. injection E as <-. eauto. }
  split; try done.
  - intros p w. rewrite Hreg. split.
    + intros (f & E & Ha & Hw). destruct (decide (p ∈ evs.*1)) as [(k & m & ?)%Hk|Hn]; [|rewrite Hout by done; eauto].
      erewrite Hin by done. rewrite E. simpl. eauto.
    + intros (f' & E & Ha & Hw). destruct (Hback p f' E) as (f & ? & ? & ?). exists f. split_and!; congruence.
  - intros i e p. rewrite list_lookup_fmap. destruct (evs !! i) as [[q m]|] eqn:Ei; [|done]. simpl. intros [= <-] _ [= ->]. simpl. split.
    + apply elem_of_list_to_map_1; [done|]. by eapply list_elem_of_lookup_2.
    + destruct (Hev p) as [w Hw]. { apply list_elem_of_fmap. exists (p, m). split; [done|]. by eapply list_elem_of_lookup_2. }
      rewrite Hep, lookup_fmap in Hw. destruct (reg !! p) as [w'|] eqn:Er; [|done]. apply Hreg in Er as (f & E & Ha & _).
      rewrite (Hin i p m Ei), E. simpl. eauto.
  - intros p f' i E Ha Hr. split; [lia|]. destruct (decide (p ∈ evs.*1)) as [(k & m & Ek)%Hk|Hn].
    + rewrite (Hin k p m Ek) in E. destruct (fs !! p) as [f|]; [|done]. injection E as <-. simpl in Hr. injection Hr as <-.
      exists (mk_event (Some p) m). by rewrite list_lookup_fmap, Ek.
    + rewrite Hout in E by done. by destruct (Hret p f' i E Ha Hr) as (_ & e & ? & _).
  - intros p m Hm%elem_of_list_to_map_2. apply list_elem_of_lookup_1 in Hm as [k Ek]. exists k, (mk_event (Some p) m).
    rewrite list_lookup_fmap, Ek. split_and!; [lia|done|done].
  - lia.
Qed.

Lemma pass_time_run h r d : inv h r → 0 ≤ d →
  rtri h r (pass_time d) (λ _ h' r', inv h' r' ∧ h' = h <| h_now := clock r' |> ∧
    r' = r <| clock := Z.min (clock r + d) INT64_MAX |>).
Proof.
  intros [] Hd. unfold pass_time. tri_pure. apply tri_emit; [done|]. split_and!; [|done..]. split; try done.
  - eapply timers_later; [done|]. simpl. destruct i_clock0. lia.
  - simpl. destruct i_clock0. lia.
Qed.

(** Waiting for events: nothing is left to do, and [timeout] is the time of the first timer. *)
Record waiting (h : hist) (r : t T) (timeout : option Z) : Prop := mk_waiting {
  w_inv : inv h r; w_jobs : pending_jobs r = []; w_expired : timers_expired_list r = [];
  w_results : epoll_results r = [] ∧ epoll_results_pos r = 0%nat; w_reported : h_reported h = ∅;
  w_fds p f : fds r !! p = Some f → active f = true → epoll_returned_ptr f = None;
  w_timer : match timeout with
    | Some z => z ≤ INT64_MAX ∧ ∃ p, ix_first (timers_tree r) = Some p ∧ timers r !! p = Some (mk_timer z TIMER_STATE_RUNNING)
    | None => ix_first (timers_tree r) = None end
}.

Definition early (r : t T) (timeout : option Z) : Prop := from_option (λ z, clock r < z) True timeout.

Lemma armed_running h r p z : inv h r → timers_expired_list r = [] →
  h_armed h !! p = Some z ↔ timers r !! p = Some (mk_timer z TIMER_STATE_RUNNING).
Proof.
  intros H Hx. rewrite (to_armed _ _ _ _ _ (i_timers h r H)). split; [|auto]. intros [?|E]; [done|].
  apply (to_ex_all _ _ _ _ _ (i_timers h r H)) in E. rewrite Hx in E. by apply elem_of_nil in E.
Qed.

Lemma epoll_wait_ok h r timeout : waiting h r timeout → early r timeout →
  act_ok h (EpollWait (if timeout is Some z then Z.min (z - clock r) INT_MAX else -1)).
Proof.
  intros [H Hj Hx _ Hr _ Ht] He. simpl. split_and!; [by rewrite (i_jobs h r H)|done|]. destruct (i_clock h r H) as [Hn Hc].
  unfold timeout_ok. rewrite Hn. destruct timeout as [z|]; simpl in He.
  - destruct Ht as (Hz & p & Hp & Ep). destruct (first_run h r p H Hp) as (z' & Ez & Hmin & _). simplify_eq. split.
    + intros q z' Hq. apply (armed_running h r q z' H Hx) in Hq. specialize (Hmin q z' Hq). unfold INT_MAX. lia.
    + right. destruct (Z.min_spec (z - clock r) INT_MAX) as [[? ->]|[? ->]]; [|by left]. right. split; [lia|]. exists p.
      apply (armed_running h r _ _ H Hx). rewrite Ep. do 2 f_equal. lia.
  - split; [|by left]. intros q z Hq. apply (armed_running h r q z H Hx) in Hq.
    by destruct (no_timer _ _ _ _ _ (i_timers h r H) Ht q z).
Qed.

Lemma waiting_later h r timeout d : waiting h r timeout → 0 ≤ d →
  rtri h r (pass_time d) (λ _ h' r', waiting h' r' timeout ∧ clock r' = Z.min (clock r + d) INT64_MAX).
Proof.
  intros [] Hd. eapply tri_mono; [by apply pass_time_run|]. intros _ h' r' (H' & -> & ->). split; [by split|done].
Qed.
Lemma first_due_run h r z : waiting h r (Some z) → z ≤ clock r → keeps h r move_first_timers.
Proof. intros [H _ _ _ _ _ (_ & p & Hp & Ep)] Hz. by apply (move_first_run h r p z). Qed.

Lemma try_again_run h r timeout : waiting h r timeout →
  rtri h r (try_again timeout) (λ o h' r', match o with
    | None => inv h' r'
    | Some now => h' = h ∧ r' = r ∧ early r timeout ∧ (is_Some timeout → now = clock r) end).
Proof.
  intros Hw. unfold try_again, btime_gettime. destruct timeout as [z|]; tri_pure.
  - destruct (Z.leb_spec z (clock r)) as [Hle|Hgt]; tri_pure; [|done].
    eapply tri_mono; [by apply (first_due_run h r z)|]. done.
  - done.
Qed.

Lemma ready_run h r timeout evs d : waiting h r timeout → kernel_allows r (-1) (ReadyFds evs d) = true →
  keeps h r (let results := (λ e, mk_event (Some e.1) e.2) <$> evs in
    modify (λ r, r <| epoll_results := results |>);; emit (Ready evs);; set_epoll_fd_pointers 0 results;; mret true).
Proof.
  intros [H Hj Hx [Hr0 Hp0] Hrep Hfd Ht] Hk. simpl in Hk.
  apply andb_true_iff in Hk as [[_ Hnd%bool_decide_eq_true]%andb_true_iff Hreg%bool_decide_eq_true].
  rewrite list.Forall_forall in Hreg. unfold keeps. tri_pure. apply tri_emit; [done|]. tri_pure.
  eapply tri_mono; [apply (pointers_run evs 0); [done|]|].
  - intros p Hp. destruct (Hreg p Hp) as [w Hw]. rewrite (fo_ep _ _ _ _ _ _ (i_fds h r H)), lookup_fmap in Hw.
    destruct (h_fds h !! p) as [w'|] eqn:E; [|done]. apply (fo_reg _ _ _ _ _ _ (i_fds h r H)) in E as (f & E & Ha & _).
    exists f. split_and!; [done..|]. by apply (Hfd p f).
  - intros _ h' r' (-> & fs & -> & Hin & Hout). tri_pure. destruct H. split; try done. simpl. rewrite Hp0.
    rewrite Hr0, Hp0, Hrep in i_fds0. by apply (fd_ready _ (fds r)).
Qed.

Lemma wait_loop_run answers timeout now h r : waiting h r timeout → early r timeout → (is_Some timeout → now = clock r) →
  keeps h r (wait_loop answers timeout now).
Proof.
  revert now h r. induction answers as [|a answers IH]; intros now h r Hw He Hn; unfold keeps; simpl; [tri_pure; apply Hw|].
  set (rel := from_option _ 0 timeout). set (arg := if timeout then Z.min rel INT_MAX else -1). tri_pure.
  apply tri_emit.
  { pose proof (epoll_wait_ok h r timeout Hw He) as Hok. subst arg rel. destruct timeout; [|done]. simpl. by rewrite Hn. }
  change (obs h (EpollWait arg)) with h. tri_pure. destruct (kernel_allows r arg a) eqn:Hk; simpl; [|by apply IH].
  assert (∀ h1 r1, waiting h1 r1 timeout → rtri h1 r1
    (again ← try_again timeout; match again with None => mret true | Some now => wait_loop answers timeout now end)
    (λ _ h' r', inv h' r')) as Hagain.
  { intros h1 r1 Hw1. tri_pure. eapply tri_mono; [by apply try_again_run|]. intros [now1|] h2 r2; [|by intros ?; tri_pure].
    intros (-> & -> & He1 & Hn1). by apply IH. }
  destruct a as [d|evs d|d].
  - tri_pure. eapply tri_mono; [apply (waiting_later h r timeout); [done|lia]|]. intros _ h1 r1 [Hw1 _]. by apply Hagain.
  - apply tri_bind. eapply tri_mono; [apply (pass_time_run h r); [apply Hw|lia]|]. intros _ h1 r1 (H1 & Eh & Er).
    apply (ready_run h1 r1 timeout evs d); [|by subst r1]. subst r1. destruct Hw. split; try done. by rewrite Eh.
  - tri_pure. assert (∃ z, timeout = Some z ∧ arg = Z.min (z - clock r) INT_MAX ∧ rel = z - clock r) as (z & -> & Ha & Hr).
    { subst arg rel. destruct timeout as [z|]; [|done]. exists z. by rewrite (Hn ltac:(eauto)). }
    simpl in He. eapply tri_mono; [apply (waiting_later h r (Some z)); [done|unfold INT_MAX in *; lia]|]. intros _ h1 r1 [Hw1 Hc1].
    destruct (Z.eqb_spec (Z.min rel INT_MAX) rel) as [Hrel|]; [|by apply Hagain]. tri_pure.
    eapply tri_mono; [apply (first_due_run h1 r1 z); [done|]|done]. pose proof (w_timer _ _ _ Hw) as [? _]. lia.
Qed.

Lemma wait_for_events_run answers h r : inv h r → pending_jobs r = [] → timers_expired_list r = [] →
  epoll_results_pos r = length (epoll_results r) → keeps h r (wait_for_events answers).
Proof.
  intros H Hj Hx Hp. unfold keeps, wait_for_events. tri_pure. do 3 (apply tri_ASSERT; [by apply bool_decide_true|]; tri_pure).
  destruct (fd_over (h_fds h) (h_reported h) (fds r) (epoll_results r) (epoll r)) as (Hok & Hrep & Hfd); [rewrite <- Hp; apply H|].
  set (r1 := r <| epoll_results := [] |> <| epoll_results_pos := 0%nat |>).
  assert (inv h r1) as H1 by (destruct H; by split).
  assert (∀ timeout now, waiting h r1 timeout → early r1 timeout → (is_Some timeout → now = clock r1) → rtri h r1
    (woken ← wait_loop answers timeout now;
     if (woken : bool) then r ← get; emit WaitOver;; reset_limits (length (active_limits_list r));; mret true else mret false)
    (λ _ h' r', inv h' r')) as Hloop.
  { intros timeout now Hw He Hn. apply tri_bind. eapply tri_mono; [by apply wait_loop_run|]. intros woken h2 r2 H2.
    destruct woken; [by apply wait_over_run|by tri_pure]. }
  destruct (ix_first (timers_tree r)) as [p|] eqn:E; [|apply Hloop; [by split|done|by intros []]].
  destruct (first_run h r1 p H1 E) as (z & Ez & Hmin & _). tri_pure. eapply tri_timer; [exact Ez|]. tri_pure.
  apply tri_ASSERT; [by apply bool_decide_true|]. unfold btime_gettime. tri_pure.
  eapply tri_mono; [exact (move_expired_run h r1 H1)|]. intros m h' r' (-> & H' & Hm). destruct m; [by tri_pure|].
  destruct (Hm eq_refl) as [-> Hall]. apply Hloop; [|exact (Hall p z Ez)|done].
  split; try done. split; [exact (to_range _ _ _ _ _ (i_timers h r1 H1) p _ Ez)|eauto].
Qed.

(** *** The loop *)

Lemma dispatch_timer_run h r p ex os : inv h r → pending_jobs r = [] → timers_expired_list r = p :: ex → keeps h r (dispatch_timer p os).
Proof.
  intros H Hj Hx. destruct (to_ex _ _ _ _ _ (i_timers h r H) p) as (z & E & Hz); [rewrite Hx; left|].
  unfold keeps, dispatch_timer, set_timer. tri_pure. eapply tri_timer; [exact E|]. tri_pure. apply tri_ASSERT; [done|]. tri_pure.
  apply tri_emit.
  { split; [by rewrite (i_jobs h r H)|]. exists z. rewrite (proj1 (i_clock h r H)). split; [|done].
    apply (to_armed _ _ _ _ _ (i_timers h r H)). auto. }
  apply handler_keeps. destruct H. split; try done. by apply off_expired.
Qed.

Lemma dispatch_fd_run h r e os : inv h r → pending_jobs r = [] → epoll_results r !! epoll_results_pos r = Some e →
  keeps h r (dispatch_fd e os).
Proof.
  intros H Hj Hi. unfold keeps, dispatch_fd, set_fd. tri_pure. destruct (ev_ptr e) as [p|] eqn:Ep.
  - destruct (fd_taken _ _ _ _ _ _ e p (i_fds h r H) Hi Ep) as (f & E & Ha & Hr & Hreg & Hrep & Hok).
    tri_pure. eapply tri_fd; [exact E|]. tri_pure. apply tri_ASSERT; [done|]. tri_pure. apply tri_ASSERT; [by apply bool_decide_true|]. tri_pure.
    destruct (Z.eqb_spec (report (waitEvents f) (ev_events e)) 0) as [E0|E0].
    + apply tri_emit; [exists (waitEvents f), (ev_events e); rewrite <- E0; by auto using report_delivered|]. destruct H. by split.
    + tri_pure. apply tri_emit; [split; [by rewrite (i_jobs h r H)|]; exists (waitEvents f), (ev_events e); by auto using report_delivered|].
      apply handler_keeps. destruct H. by split.
  - tri_pure. destruct H. split; try done. by eapply fd_skipped.
Qed.

Lemma exec_round_run h r os answers : inv h r → keeps h r (exec_round os answers).
Proof.
  intros H. unfold keeps, exec_round. tri_pure. destruct (pending_jobs r) as [|j js] eqn:Ej.
  - destruct (timers_expired_list r) as [|p ex] eqn:Ex.
    + destruct (epoll_results r !! epoll_results_pos r) as [e|] eqn:Ee.
      * tri_pure. eapply tri_mono; [by apply dispatch_fd_run|]. done.
      * apply wait_for_events_run; try done. apply lookup_ge_None in Ee. pose proof (fo_pos _ _ _ _ _ _ (i_fds h r H)). lia.
    + tri_pure. eapply tri_mono; [by eapply dispatch_timer_run|]. done.
  - tri_pure. apply tri_emit; [simpl; by rewrite (i_jobs h r H), Ej|]. tri_pure.
    eapply tri_mono; [apply handler_keeps|done]. destruct H. split; try done. simpl. by rewrite i_jobs0, Ej.
Qed.

Lemma exec_run rounds h r : inv h r →
  rtri h r (BReactor_Exec rounds) (λ c h' r', inv h' r' ∧ (∀ code, c = Some code → h_quit h' = Some code)).
Proof.
  revert h r. induction rounds as [|[os answers] rounds IH]; intros h r H; simpl; tri_pure; pose proof (i_quit h r H) as Hq;
    destruct (exiting r); tri_pure; try (split; [done|]; by intros ? [= <-]).
  eapply tri_mono; [by apply exec_round_run|]. intros running h1 r1 H1. destruct running; [by apply IH|by tri_pure].
Qed.

Lemma init_inv now : 0 ≤ now ≤ INT64_MAX → inv (hist0 now) (BReactor_Init now).
Proof.
  intros Hn. split; try done.
  - split; try done.
    + apply ix_empty_wf.
    + intros p. simpl. rewrite ix_empty_elems. split; [by intros ?%elem_of_nil|]. by intros [z ?].
    + by intros p ?%elem_of_nil.
    + constructor.
    + intros p z. simpl. rewrite !lookup_empty. naive_solver.
  - split; try done.
    + intros p w. simpl. rewrite !lookup_empty. naive_solver.
  - split; try done; [by intros p ?%elem_of_nil|constructor].
  - by split; left.
Qed.

Lemma program_from_init now setup rounds : 0 ≤ now ≤ INT64_MAX →
  ∃ c r acts, reactor_program setup rounds (BReactor_Init now) = Some (c, r, acts) ∧ acts_ok (hist0 now) acts ∧
    inv (observe (hist0 now) acts) r ∧ (∀ code, c = Some code → h_quit (observe (hist0 now) acts) = Some code).
Proof.
  intros Hn. assert (rtri (hist0 now) (BReactor_Init now) (reactor_program setup rounds)
    (λ c h' r', inv h' r' ∧ (∀ code, c = Some code → h_quit h' = Some code))) as Hw.
  { apply tri_bind. eapply tri_mono; [apply handler_keeps, init_inv, Hn|]. intros [] h1 r1 H1. by apply exec_run. }
  apply tri_some in Hw as (c & r & acts & E & Hok & Hi & Hq). eauto 7.
Qed.
Lemma program_acts_ok now setup rounds c (r : t T) acts : 0 ≤ now ≤ INT64_MAX →
  reactor_program setup rounds (BReactor_Init now) = Some (c, r, acts) → acts_ok (hist0 now) acts.
Proof. intros Hn E. destruct (program_from_init now setup rounds Hn) as (? & ? & ? & E' & ? & _). by simplify_eq. Qed.

(** What [BReactor_Free] asserts, in terms of the history. *)
Lemma free_iff h r : inv h r → is_Some (BReactor_Free r) ↔
  h_jobs h = [] ∧ h_armed h = ∅ ∧ (∀ l n used, h_limits h !! l = Some (n, used) → used = 0) ∧
  (h_fds h = ∅ ∨ d_fds_counter r = INT_MAX) ∧ (h_limits h = ∅ ∨ d_limits_ctr r = INT_MAX).
Proof.
  intros H. destruct (i_counters h r H) as [Hcf Hcl].
  assert (is_Some (BReactor_Free r) ↔ (pending_jobs r = [] ∧ ix_first (timers_tree r) = None ∧
    timers_expired_list r = [] ∧ active_limits_list r = []) ∧
    (h_fds h = ∅ ∨ d_fds_counter r = INT_MAX) ∧ (h_limits h = ∅ ∨ d_limits_ctr r = INT_MAX)) as ->.
  { rewrite <- (map_size_empty_iff (h_fds h)), <- (map_size_empty_iff (h_limits h)).
    rewrite <- (counts_free _ _ Hcf), <- (counts_free _ _ Hcl).
    unfold BReactor_Free, mbind, M_bind, get, ASSERT. simpl. repeat case_bool_decide; simpl;
      destruct (DebugCounter_Free (d_fds_counter r)), (DebugCounter_Free (d_limits_ctr r)); simpl; split; naive_solver. }
  rewrite (i_jobs h r H). destruct (i_limits h r H) as [El Hc Hin _]. split.
  - intros ((? & Hf & Hx & Ha) & Hrest). split_and!; [done|..|apply Hrest|apply Hrest].
    + apply map_eq. intros p. rewrite lookup_empty. destruct (h_armed h !! p) as [z|] eqn:E; [|done].
      apply (armed_running h r p z H Hx) in E. by destruct (no_timer _ _ _ _ _ (i_timers h r H) Hf p z).
    + intros l n used. rewrite El, lookup_fmap. destruct (limits r !! l) as [[n' c]|] eqn:E; [|done]. intros [= <- <-].
      destruct (Hc l _ E) as [? Hl]. rewrite Ha, elem_of_nil in Hl. simpl in *. destruct (Z.lt_ge_cases 0 c); [tauto|lia].
  - intros (? & Ha & Hl & Hrest). split; [|done]. split_and!; [done|..].
    + destruct (ix_first (timers_tree r)) as [p|] eqn:E; [|done]. destruct (first_run h r p H E) as (z & Ez & _).
      assert (h_armed h !! p = Some z) as Hp by (apply (to_armed _ _ _ _ _ (i_timers h r H)); auto). by rewrite Ha, lookup_empty in Hp.
    + destruct (timers_expired_list r) as [|p ex] eqn:E; [done|].
      destruct (to_ex _ _ _ _ _ (i_timers h r H) p) as (z & Ez & _); [rewrite E; left|].
      assert (h_armed h !! p = Some z) as Hp by (apply (to_armed _ _ _ _ _ (i_timers h r H)); auto). by rewrite Ha, lookup_empty in Hp.
    + destruct (active_limits_list r) as [|p al] eqn:E; [done|]. destruct (Hin p ltac:(left)) as [l Ep].
      pose proof (proj2 (proj2 (Hc p l Ep)) ltac:(left)) as Hgt.
      rewrite (Hl p (limit l) (count l)) in Hgt; [lia|]. by rewrite El, lookup_fmap, Ep.
Qed.

(** Nothing is left: what [BReactor_Free] asks for, as long as no debug counter has
    been full (it then stays at [INT32_MAX] and is not checked any more). *)
Definition nothing_left (h : hist) : Prop := h_jobs h = [] ∧ h_armed h = ∅ ∧ h_fds h = ∅ ∧ h_limits h = ∅.
#[global] Instance nothing_left_dec h : Decision (nothing_left h).
Proof. unfold nothing_left. apply _. Defined.

(** C21: The event loop never fails an assertion, whatever the program and its handlers call
    and whatever [epoll_wait] answers: the timers' states agree with the tree and the
    list they are in, the kernel's registrations with the descriptors, the results
    with the descriptors they name.  It returns only after [BReactor_Quit] and with its
    code.  After any further calls, the reactor can be freed if no job is set, no timer is
    armed, no descriptor is registered and no limit is left, and only then unless one of the
    two debug counters of descriptors and limits has reached [INT32_MAX]; they are otherwise
    the number of descriptors and of limits. *)
Theorem reactor_runs now setup rounds cleanup : 0 ≤ now ≤ INT64_MAX →
  ∃ c r acts r' acts', reactor_program setup rounds (BReactor_Init now) = Some (c, r, acts) ∧
    (∀ code, c = Some code → h_quit (observe (hist0 now) acts) = Some code) ∧
    handler cleanup r = Some ((), r', acts') ∧
    let h := observe (hist0 now) (acts ++ acts') in
    (d_fds_counter r' ≠ INT_MAX → d_fds_counter r' = Z.of_nat (size (h_fds h))) ∧
    (d_limits_ctr r' ≠ INT_MAX → d_limits_ctr r' = Z.of_nat (size (h_limits h))) ∧
    (nothing_left h → is_Some (BReactor_Free r')) ∧
    (is_Some (BReactor_Free r') → d_fds_counter r' ≠ INT_MAX → d_limits_ctr r' ≠ INT_MAX → nothing_left h).
Proof.
  intros Hn. destruct (program_from_init now setup rounds Hn) as (c & r & acts & E & _ & Hi & Hq).
  pose proof (handler_keeps cleanup _ _ Hi) as Hw. apply wp_some in Hw as ([] & r' & acts' & E' & _ & Hi').
  exists c, r, acts, r', acts'. split; [done|]. split; [done|]. split; [done|]. rewrite after_app. cbv zeta.
  pose proof (free_iff _ _ Hi') as Hf. destruct (i_counters _ _ Hi') as [Hcf Hcl]. unfold counts in *.
  unfold nothing_left. split_and!.
  - by destruct Hcf.
  - by destruct Hcl.
  - intros (? & ? & Hfd & Hl). apply Hf. split_and!; [done|done| |auto..]. intros l n used. by rewrite Hl, lookup_empty.
  - intros (? & ? & _ & Hfd & Hl)%Hf ? ?. destruct Hfd, Hl; done.
Qed.



(** A limit is granted at most as often as it allows between two waits. *)
Theorem reactor_limits now setup rounds c (r : t T) before l after : 0 ≤ now ≤ INT64_MAX →
  reactor_program setup rounds (BReactor_Init now) = Some (c, r, before ++ LimitOk l :: after) →
  ∃ n used, h_limits (observe (hist0 now) before) !! l = Some (n, used) ∧ 0 ≤ used < n.
Proof. intros Hn E. by apply program_acts_ok, trace_ok_split in E. Qed.

End Reactor.

(** ** Examples, on the AVL tree of linked nodes *)
Module ReactorRun.
Import BReactor.
#[local] Existing Instance cavl_index.

(** A job sets two timers, registers two descriptors and a limit; then 5 ms pass and both
    descriptors are ready, the first one's handler removes the second; at the end a
    timer's handler quits. *)
Definition setup : list op :=
  [OTimerInit 1; OTimerInit 2; OSetTimer 1 true 10; OSetTimer 2 false 30; ORemoveTimer 2; OFdInit 3; OFdInit 4;
   OAddFd 3 true; OAddFd 4 true; OSetEvents 3 BREACTOR_READ; OSetEvents 4 BREACTOR_WRITE; OLimitInit 5 1; OLimitIncrement 5; OLimitIncrement 5].
Definition rounds0 : list (list op * list wait_answer) :=
  [([], [Interrupted 1; ReadyFds [(3%nat, EPOLLIN); (4%nat, EPOLLOUT)] 4]); ([ORemoveFd 4], []); ([], []); ([], [TimedOut 0]); ([OQuit 7; OLimitFree 5], [])].
Definition run0 : option (option Z * t CAvl.CAvl * list act) := reactor_program setup rounds0 (BReactor_Init 20).
Definition trace0 : list act := match run0 with Some (_, _, acts) => acts | None => [] end.
Definition end0 : t CAvl.CAvl := match run0 with Some (_, r, _) => r | None => BReactor_Init 20 end.
Lemma run0_eq : reactor_program setup rounds0 (BReactor_Init 20) = Some (Some 7, end0, trace0).
Proof.
  assert ((λ x, x.1.1) <$> run0 = Some (Some 7)) as H by (vm_compute; reflexivity).
  unfold end0, trace0. change (reactor_program setup rounds0 (BReactor_Init 20)) with run0.
  destruct run0 as [[[c r] acts]|]; [|discriminate H]. simpl in H. congruence.
Qed.
Definition at0 (k : nat) : list act := take k trace0.
Definition after0 (k : nat) : list act := drop (S k) trace0.
Lemma grants_limit : trace0 = at0 10 ++ LimitOk 5 :: after0 10.
Proof. vm_compute. reflexivity. Qed.
(** The descriptor that was removed is not dispatched, and 10 ms pass before the timer. *)
Lemma trace0_calls : List.filter (λ a, match a with CallFd _ _ | CallTimer _ | LimitOk _ | EpollWait _ => true | _ => false end) trace0 =
  [LimitOk 5; EpollWait 10; EpollWait 9; CallFd 3 1; EpollWait 5; CallTimer 1].
Proof. vm_compute. reflexivity. Qed.

Lemma reactor_runs_witness : ∃ c r acts r' acts', reactor_program setup rounds0 (BReactor_Init 20) = Some (c, r, acts) ∧
  handler [ORemoveFd 3] r = Some ((), r', acts') ∧ is_Some (BReactor_Free (ops := cavl_index) r').
Proof.
  destruct (reactor_runs 20 setup rounds0 [ORemoveFd 3]) as (c & r & acts & r' & acts' & E & _ & E' & _ & _ & Hf & _);
    [unfold INT64_MAX; lia|].
  exists c, r, acts, r', acts'. split; [exact E|]. split; [exact E'|]. apply Hf.
  assert (r = end0 ∧ acts = trace0) as [-> ->] by (pose proof run0_eq; split; congruence).
  assert ((λ x, x.2) <$> handler [ORemoveFd 3] end0 = Some [FdRemoved 3]) as Ha by (vm_compute; reflexivity).
  rewrite E' in Ha. simpl in Ha. assert (acts' = [FdRemoved 3]) as -> by congruence. apply (bool_decide_unpack (nothing_left _)). vm_compute. exact I.
Defined.
Lemma reactor_limits_witness : ∃ n used, h_limits (observe (hist0 20) (at0 10)) !! 5%nat = Some (n, used) ∧ 0 ≤ used < n.
Proof.
  apply (reactor_limits 20 setup rounds0 (Some 7) end0 (at0 10) 5 (after0 10) ltac:(unfold INT64_MAX; lia)).
  rewrite <- grants_limit. exact run0_eq.
Defined.
End ReactorRun.
