(* ===== verification/Connection.v ===== *)
(** * Stream sockets: system/BConnection_unix.c

    A connection sends and receives asynchronously on a non-blocking socket: an
    operation is tried at once, and when it would block or the limit of the reactor is reached
    the connection waits for an event of its file descriptor.  The results of the
    system calls and of the limits, the events of the descriptor and the calls of
    the user are arguments.  The theorems show that no byte is lost, duplicated or
    reported wrongly, that an operation that has not ended always has something
    that will wake it up, and that the connector and the connection release what they hold. *)
From stdpp Require Import base list sets numbers option.
From Stdlib Require Import ZArith Lia.
From S2P Require Import Prelude History Reactor.
#[local] Open Scope Z_scope.

(** ** Sets of events *)
Definition has (events flag : Z) : bool := negb (Z.land events flag =? 0).

Section Flags.
Import BReactor.

Lemma has_bit e k : 0 ≤ k → has e (2 ^ k) = Z.testbit e k.
Proof.
  intros Hk. unfold has. assert (Z.land e (2 ^ k) = if Z.testbit e k then 2 ^ k else 0) as ->.
  { apply Z.bits_inj'. intros n Hn. rewrite Z.land_spec, Z.pow2_bits_eqb by done.
    destruct (Z.eqb_spec k n) as [->|Hne].
    - rewrite andb_true_r. destruct (Z.testbit e n) eqn:E; [by rewrite Z.pow2_bits_true|by rewrite Z.bits_0].
    - rewrite andb_false_r. destruct (Z.testbit e k); [by rewrite Z.pow2_bits_false by lia|by rewrite Z.bits_0]. }
  destruct (Z.testbit e k); [|done]. assert (0 < 2 ^ k) by (apply Z.pow_pos_nonneg; lia). destruct (Z.eqb_spec (2 ^ k) 0); lia.
Qed.
Lemma has_lor e e' k : 0 ≤ k → has (Z.lor e e') (2 ^ k) = has e (2 ^ k) || has e' (2 ^ k).
Proof. intros. by rewrite !has_bit, Z.lor_spec. Qed.
Lemma has_ldiff e e' k : 0 ≤ k → has (Z.ldiff e e') (2 ^ k) = has e (2 ^ k) && negb (has e' (2 ^ k)).
Proof. intros. by rewrite !has_bit, Z.ldiff_spec. Qed.

Lemma has_lor_r e a b : has e (Z.lor a b) = has e a || has e b.
Proof.
  unfold has. rewrite Z.land_lor_distr_r. destruct (Z.eqb_spec (Z.land e a) 0) as [->|Ha]; simpl; [done|].
  destruct (Z.eqb_spec (Z.lor (Z.land e a) (Z.land e b)) 0) as [E|]; [|done]. by apply Z.lor_eq_0_iff in E as [? _].
Qed.

(** Only the events that one can wait for. *)
Definition waitable (e : Z) : bool := Z.ldiff e (Z.lor BREACTOR_READ BREACTOR_WRITE) =? 0.
Lemma waitable_lor e e' : waitable e = true → waitable e' = true → waitable (Z.lor e e') = true.
Proof.
  unfold waitable. rewrite !Z.eqb_eq. intros H H'. apply Z.bits_inj'. intros n Hn.
  assert (∀ x, Z.ldiff x (Z.lor BREACTOR_READ BREACTOR_WRITE) = 0 → Z.testbit x n && negb (Z.testbit (Z.lor BREACTOR_READ BREACTOR_WRITE) n) = false) as Hb.
  { intros x Hx. by rewrite <- Z.ldiff_spec, Hx, Z.bits_0. }
  rewrite Z.ldiff_spec, Z.lor_spec, Z.bits_0. specialize (Hb e H) as H1. specialize (Hb e' H') as H2.
  destruct (Z.testbit e n), (Z.testbit e' n), (Z.testbit _ n); done.
Qed.
Lemma waitable_ldiff e e' : waitable e = true → waitable (Z.ldiff e e') = true.
Proof.
  unfold waitable. rewrite !Z.eqb_eq. intros H. apply Z.bits_inj'. intros n Hn. rewrite !Z.ldiff_spec, Z.bits_0.
  assert (Z.testbit e n && negb (Z.testbit (Z.lor BREACTOR_READ BREACTOR_WRITE) n) = false) as Hb by (by rewrite <- Z.ldiff_spec, H, Z.bits_0).
  destruct (Z.testbit e n), (Z.testbit e' n), (Z.testbit _ n); done.
Qed.

Lemma read_lor e e' : has (Z.lor e e') BREACTOR_READ = has e BREACTOR_READ || has e' BREACTOR_READ.
Proof. exact (has_lor e e' 0 ltac:(done)). Qed.
Lemma write_lor e e' : has (Z.lor e e') BREACTOR_WRITE = has e BREACTOR_WRITE || has e' BREACTOR_WRITE.
Proof. exact (has_lor e e' 1 ltac:(done)). Qed.
Lemma read_ldiff e e' : has (Z.ldiff e e') BREACTOR_READ = has e BREACTOR_READ && negb (has e' BREACTOR_READ).
Proof. exact (has_ldiff e e' 0 ltac:(done)). Qed.
Lemma write_ldiff e e' : has (Z.ldiff e e') BREACTOR_WRITE = has e BREACTOR_WRITE && negb (has e' BREACTOR_WRITE).
Proof. exact (has_ldiff e e' 1 ltac:(done)). Qed.
End Flags.

Module BConnection.
Import BReactor.

Inductive send_state := SEND_STATE_NOT_INITED | SEND_STATE_READY | SEND_STATE_BUSY.
Inductive recv_state := RECV_STATE_NOT_INITED | RECV_STATE_READY | RECV_STATE_BUSY | RECV_STATE_INITED_CLOSED | RECV_STATE_NOT_INITED_CLOSED.
#[global] Instance send_state_eq_dec : EqDecision send_state.
Proof. solve_decision. Defined.
#[global] Instance recv_state_eq_dec : EqDecision recv_state.
Proof. solve_decision. Defined.

(** [bfd]: the descriptor is registered with the reactor, for [bfd_events].  [failed]:
    an error was reported ([d_err]). *)
Record t := mk_t {
  fd_open : bool; close_fd : bool; is_hupd : bool; bfd : bool; bfd_events : Z; wait_events : Z; limits : bool;
  sstate : send_state; send_data : bytes; send_job : bool;
  rstate : recv_state; recv_avail : Z; recv_job : bool; failed : bool
}.
#[global] Instance eta_t : Eta t := λ o,
  mk_t (fd_open o) (close_fd o) (is_hupd o) (bfd o) (bfd_events o) (wait_events o) (limits o) (sstate o) (send_data o)
    (send_job o) (rstate o) (recv_avail o) (recv_job o) (failed o).

Inductive act :=
| Submitted (data : bytes) | Written (data : bytes) | SendDone (n : Z) | SendFreed
| Requested (avail : Z) | Got (data : bytes) | RecvDone (n : Z) | RecvFreed
| ReportError | RecvClosed | Close | FdEvent (waited events : Z).
Abbreviation CM := (M t act).

(** Results of [write] and [read]; no data: the end of the stream. *)
Inductive write_result := Wrote (n : Z) | WriteBlocks | WriteFails.
Inductive read_result := ReadData (data : bytes) | ReadBlocks | ReadFails.

(** [BReactor_SetFileDescriptorEvents(o->reactor, &o->bfd, o->wait_events)] *)
Definition set_events : CM () :=
  o ← get; ASSERT (bfd o);; ASSERT (waitable (wait_events o));; modify (λ o, o <| bfd_events := wait_events o |>).
Definition remove_bfd : CM () := o ← get; ASSERT (bfd o);; modify (λ o, o <| bfd := false |>).
Definition wait_for (flag : Z) : CM () :=
  modify (λ o, o <| wait_events := Z.lor (wait_events o) flag |>);; set_events.

Definition connection_report_error : CM () :=
  o ← get; ASSERT (negb (failed o));; modify (λ o, o <| failed := true |>);; emit ReportError.

(** [lim]: what [BReactorLimit_Increment] returns. *)
Definition connection_send (lim : bool) (w : write_result) : CM () :=
  o ← get;
  ASSERT (negb (failed o));;
  ASSERT (bool_decide (sstate o = SEND_STATE_BUSY));;
  if negb (is_hupd o) && negb lim then wait_for BREACTOR_WRITE
  else match w with
  | WriteBlocks => if negb (is_hupd o) then wait_for BREACTOR_WRITE else connection_report_error
  | WriteFails => connection_report_error
  | Wrote bytes =>
      emit (Written (take (Z.to_nat bytes) (send_data o)));;
      ASSERT (0 <? bytes);;
      ASSERT (bytes <=? zlen (send_data o));;
      modify (λ o, o <| sstate := SEND_STATE_READY |>);;
      emit (SendDone bytes)
  end.

Definition connection_recv (lim : bool) (r : read_result) : CM () :=
  o ← get;
  ASSERT (negb (failed o));;
  ASSERT (bool_decide (rstate o = RECV_STATE_BUSY));;
  if negb (is_hupd o) && negb lim then wait_for BREACTOR_READ
  else match r with
  | ReadBlocks => if negb (is_hupd o) then wait_for BREACTOR_READ else connection_report_error
  | ReadFails => connection_report_error
  | ReadData [] => modify (λ o, o <| rstate := RECV_STATE_INITED_CLOSED |>);; emit RecvClosed
  | ReadData data =>
      emit (Got data);;
      ASSERT (zlen data <=? recv_avail o);;
      modify (λ o, o <| rstate := RECV_STATE_READY |>);;
      emit (RecvDone (zlen data))
  end.

Definition connection_fd_handler (events : Z) (lim : bool) (w : write_result) (r : read_result) : CM () :=
  o ← get;
  ASSERT (negb (failed o));;
  ASSERT (negb (is_hupd o));;
  modify (λ o, o <| wait_events := Z.ldiff (wait_events o) events |>);;
  set_events;;
  when (has events BREACTOR_HUP) (remove_bfd;; modify (λ o, o <| is_hupd := true |>));;
  let err := has events (Z.lor BREACTOR_ERROR BREACTOR_HUP) in
  let have_send := has events BREACTOR_WRITE || err && bool_decide (sstate o = SEND_STATE_BUSY) in
  let have_recv := has events BREACTOR_READ || err && bool_decide (rstate o = RECV_STATE_BUSY) in
  ASSERT (negb have_send || bool_decide (sstate o = SEND_STATE_BUSY));;
  ASSERT (negb have_recv || bool_decide (rstate o = RECV_STATE_BUSY));;
  if have_send then
    when have_recv (modify (λ o, o <| recv_job := true |>));;
    connection_send lim w
  else if have_recv then connection_recv lim r
  else
    o ← get;
    when (negb (is_hupd o)) connection_report_error.

(** The pending job is unset before its handler is called. *)
Definition connection_recv_job_handler (lim : bool) (r : read_result) : CM () :=
  modify (λ o, o <| recv_job := false |>);;
  o ← get;
  ASSERT (negb (failed o));;
  ASSERT (bool_decide (rstate o = RECV_STATE_BUSY));;
  connection_recv lim r.

Definition connection_send_if_handler_send (data : bytes) (lim : bool) (w : write_result) : CM () :=
  o ← get;
  ASSERT (negb (failed o));;
  ASSERT (bool_decide (sstate o = SEND_STATE_READY));;
  ASSERT (0 <? zlen data);;
  emit (Submitted data);;
  modify (λ o, o <| send_data := data |>);;
  modify (λ o, o <| sstate := SEND_STATE_BUSY |>);;
  connection_send lim w.

Definition connection_recv_if_handler_recv (avail : Z) (lim : bool) (r : read_result) : CM () :=
  o ← get;
  ASSERT (negb (failed o));;
  ASSERT (bool_decide (rstate o = RECV_STATE_READY));;
  ASSERT (0 <? avail);;
  emit (Requested avail);;
  modify (λ o, o <| recv_avail := avail |>);;
  modify (λ o, o <| rstate := RECV_STATE_BUSY |>);;
  connection_recv lim r.

(** From a connector, whose socket it takes over.  [added]: the result of
    [BReactor_AddFileDescriptor]; on failure the socket is closed. *)
Definition Init (added : bool) : option t * list act :=
  if added then (Some (mk_t true true false true 0 0 true SEND_STATE_NOT_INITED [] false RECV_STATE_NOT_INITED 0 false false), [])
  else (None, [Close]).

Definition Free : CM () :=
  o ← get;
  ASSERT (bool_decide (sstate o = SEND_STATE_NOT_INITED));;
  ASSERT (bool_decide (rstate o = RECV_STATE_NOT_INITED) || bool_decide (rstate o = RECV_STATE_NOT_INITED_CLOSED));;
  modify (λ o, o <| limits := false |>);;
  when (negb (is_hupd o)) remove_bfd;;
  when (close_fd o) (modify (λ o, o <| fd_open := false |>);; emit Close).

Definition SendAsync_Init : CM () :=
  o ← get;
  ASSERT (negb (failed o));;
  ASSERT (bool_decide (sstate o = SEND_STATE_NOT_INITED));;
  modify (λ o, o <| send_job := false |>);;
  modify (λ o, o <| sstate := SEND_STATE_READY |>).
Definition SendAsync_Free : CM () :=
  o ← get;
  ASSERT (bool_decide (sstate o = SEND_STATE_READY) || bool_decide (sstate o = SEND_STATE_BUSY));;
  when (negb (is_hupd o)) (modify (λ o, o <| wait_events := Z.ldiff (wait_events o) BREACTOR_WRITE |>);; set_events);;
  modify (λ o, o <| send_job := false |>);;
  modify (λ o, o <| sstate := SEND_STATE_NOT_INITED |>);;
  emit SendFreed.

Definition RecvAsync_Init : CM () :=
  o ← get;
  ASSERT (negb (failed o));;
  ASSERT (bool_decide (rstate o = RECV_STATE_NOT_INITED));;
  modify (λ o, o <| recv_job := false |>);;
  modify (λ o, o <| rstate := RECV_STATE_READY |>).
Definition RecvAsync_Free : CM () :=
  o ← get;
  ASSERT (bool_decide (rstate o = RECV_STATE_READY) || bool_decide (rstate o = RECV_STATE_BUSY) || bool_decide (rstate o = RECV_STATE_INITED_CLOSED));;
  when (negb (is_hupd o)) (modify (λ o, o <| wait_events := Z.ldiff (wait_events o) BREACTOR_READ |>);; set_events);;
  modify (λ o, o <| recv_job := false |>);;
  modify (λ o, o <| rstate := RECV_STATE_NOT_INITED |>);;
  emit RecvFreed.

(** ** The user, the reactor and the system *)

Inductive ev :=
| ESendInit | ESendFree | ERecvInit | ERecvFree
| ESend (data : bytes) (lim : bool) (w : write_result) | ERecv (avail : Z) (lim : bool) (r : read_result)
| EFd (events : Z) (lim : bool) (w : write_result) (r : read_result) | ERecvJob (lim : bool) (r : read_result).

Definition step (e : ev) : CM () :=
  match e with
  | ESendInit => SendAsync_Init
  | ESendFree => SendAsync_Free
  | ERecvInit => RecvAsync_Init
  | ERecvFree => RecvAsync_Free
  | ESend data lim w => connection_send_if_handler_send data lim w
  | ERecv avail lim r => connection_recv_if_handler_recv avail lim r
  | EFd events lim w r => o ← get; emit (FdEvent (bfd_events o) events);; connection_fd_handler events lim w r
  | ERecvJob lim r => connection_recv_job_handler lim r
  end.

(** [write] takes a part of the data, [read] gives at most what was asked for. *)
Definition write_ok (data : bytes) (w : write_result) : bool :=
  match w with Wrote n => (0 <? n) && (n <=? zlen data) | _ => true end.
Definition read_ok (avail : Z) (r : read_result) : bool :=
  match r with ReadData d => zlen d <=? avail | _ => true end.

(** The user keeps to the states of the interfaces; after an error it only frees the
    connection, before the reactor calls another handler (BConnection.h).
    The reactor calls the handler of a registered descriptor with events it waits for, an
    error or a hangup, and only when no job is pending. *)
Definition enabled (o : t) (e : ev) : bool :=
  match e with
  | ESendInit => negb (failed o) && bool_decide (sstate o = SEND_STATE_NOT_INITED)
  | ESendFree => negb (bool_decide (sstate o = SEND_STATE_NOT_INITED))
  | ERecvInit => negb (failed o) && bool_decide (rstate o = RECV_STATE_NOT_INITED)
  | ERecvFree => negb (bool_decide (rstate o = RECV_STATE_NOT_INITED))
  | ESend data _ w => negb (failed o) && bool_decide (sstate o = SEND_STATE_READY) && (0 <? zlen data) && write_ok data w
  | ERecv avail _ r => negb (failed o) && bool_decide (rstate o = RECV_STATE_READY) && (0 <? avail) && read_ok avail r
  | EFd events _ w r => bfd o && negb (failed o) && negb (recv_job o) &&
      (negb (has events BREACTOR_READ) || has (bfd_events o) BREACTOR_READ) &&
      (negb (has events BREACTOR_WRITE) || has (bfd_events o) BREACTOR_WRITE) &&
      write_ok (send_data o) w && read_ok (recv_avail o) r
  | ERecvJob _ r => recv_job o && negb (failed o) && read_ok (recv_avail o) r
  end.
(** An event for an operation that is not outstanding: its registration was left behind. *)
Definition stale (o : t) (e : ev) : bool :=
  match e with
  | EFd events _ _ _ => has events BREACTOR_WRITE && negb (bool_decide (sstate o = SEND_STATE_BUSY)) ||
      has events BREACTOR_READ && negb (bool_decide (rstate o = RECV_STATE_BUSY))
  | _ => false
  end.
Fixpoint drive (es : list ev) : CM () :=
  match es with
  | [] => mret ()
  | e :: es => o ← get; when (enabled o e) (step e);; drive es
  end.

(** How a user ends: it frees the interfaces it has initialised, then the connection. *)
Definition release : CM () :=
  o ← get;
  when (negb (bool_decide (sstate o = SEND_STATE_NOT_INITED))) SendAsync_Free;;
  when (negb (bool_decide (rstate o = RECV_STATE_NOT_INITED))) RecvAsync_Free;;
  Free.
End BConnection.

(** ** Connecting *)
Module BConnector.
Import BReactor.

(** [fd]: the socket is open and belongs to the connector.  [job]: initialised, [job_set]: pending. *)
Record t := mk_t { fd : bool; job : bool; job_set : bool; connected : bool; have_bfd : bool; bfd_events : Z }.
#[global] Instance eta_t : Eta t := λ o, mk_t (fd o) (job o) (job_set o) (connected o) (have_bfd o) (bfd_events o).
Definition none : t := mk_t false false false false false 0.

Inductive act := Handler (is_error : bool) | Close.
Abbreviation KM := (M t act).

(** Where to connect: an address, or the path of a Unix socket. *)
Inductive BLisCon_from := FROM_ADDR (supported : bool) | FROM_UNIX (path_len : Z).
Definition MAX_UNIX_SOCKET_PATH : Z := 200.
Inductive connect_result := ConnectOk | ConnectInProgress | ConnectFails.

Definition fail2 : KM bool := modify (λ o, o <| fd := false |>);; emit Close;; modify (λ o, o <| job := false |> <| job_set := false |>);; mret false.
Definition fail1 : KM bool := modify (λ o, o <| job := false |> <| job_set := false |>);; mret false.

(** Results of [socket], [badvpn_set_nonblocking], [connect] and [BReactor_AddFileDescriptor]. *)
Definition InitFrom (from : BLisCon_from) (socket nonblocking : bool) (c : connect_result) (added : bool) : KM bool :=
  if (match from with FROM_UNIX n => MAX_UNIX_SOCKET_PATH <? n | FROM_ADDR supported => negb supported end) then mret false
  else
    modify (λ o, o <| job := true |> <| job_set := false |>);;
    if negb socket then fail1
    else
      modify (λ o, o <| fd := true |>);;
      if negb nonblocking then fail2
      else match c with
      | ConnectFails => fail2
      | ConnectInProgress =>
          modify (λ o, o <| connected := false |> <| have_bfd := false |>);;
          if negb added then fail2
          else
            modify (λ o, o <| bfd_events := BREACTOR_WRITE |>);;
            modify (λ o, o <| have_bfd := true |>);; mret true
      | ConnectOk =>
          modify (λ o, o <| connected := false |> <| have_bfd := false |>);;
          modify (λ o, o <| connected := true |>);;
          modify (λ o, o <| job_set := true |>);; mret true
      end.

(** [so_error]: what [getsockopt] reports; [None] when it fails. *)
Definition connector_fd_handler (so_error : option Z) : KM () :=
  o ← get;
  ASSERT (fd o);; ASSERT (negb (connected o));; ASSERT (have_bfd o);;
  modify (λ o, o <| have_bfd := false |>);;
  (match so_error with
   | Some result => when (result =? 0) (modify (λ o, o <| connected := true |>))
   | None => mret ()
   end);;
  o ← get;
  emit (Handler (negb (connected o))).

Definition connector_job_handler : KM () :=
  modify (λ o, o <| job_set := false |>);;
  o ← get;
  ASSERT (fd o);; ASSERT (connected o);; ASSERT (negb (have_bfd o));;
  emit (Handler false).

Definition Free : KM () :=
  o ← get;
  when (have_bfd o) (modify (λ o, o <| have_bfd := false |>));;
  when (fd o) (modify (λ o, o <| fd := false |>);; emit Close);;
  modify (λ o, o <| job := false |> <| job_set := false |>).

(** [BConnection_Init] from a connector: it takes the socket over. *)
Definition take_fd : KM () :=
  o ← get;
  ASSERT (fd o);; ASSERT (connected o);; ASSERT (negb (have_bfd o));; ASSERT (negb (job_set o));;
  modify (λ o, o <| fd := false |>).
End BConnector.

Section Connector.
Import BReactor BConnector.

(** The calls of the handler so far. *)
Definition calls (l : list act) : list bool := omap (λ a, match a with Handler e => Some e | Close => None end) l.

(** [KFd so_error]: the descriptor is ready and the kernel has this result of the
    connection attempt; [KTake]: the connection takes the socket over. *)
Inductive kev := KFd (so_error : option Z) | KJob | KTake.
#[global] Instance kev_eq_dec : EqDecision kev.
Proof. solve_decision. Defined.
Definition kenabled (o : t) (e : kev) (called : list bool) : bool :=
  match e with
  | KFd _ => have_bfd o
  | KJob => job_set o
  | KTake => fd o && bool_decide (called = [false])
  end.
Definition kstep (e : kev) : KM () :=
  match e with KFd r => connector_fd_handler r | KJob => connector_job_handler | KTake => take_fd end.
Inductive kruns (o : t) : list kev → list act → t → Prop :=
| kruns_nil : kruns o [] [] o
| kruns_step es acts o1 e l o2 : kruns o es acts o1 → kenabled o1 e (calls acts) = true →
    kstep e o1 = Some ((), o2, l) → kruns o (es ++ [e]) (acts ++ l) o2.

(** What the handler has to be told: an error unless the kernel's result is success, or
    [connect] succeeded at once. *)
Definition results (es : list kev) : list bool :=
  omap (λ e, match e with KFd so => Some (negb (bool_decide (so = Some 0))) | KJob => Some false | KTake => None end) es.
Definition address_ok (from : BLisCon_from) : bool :=
  match from with FROM_UNIX n => n <=? MAX_UNIX_SOCKET_PATH | FROM_ADDR supported => supported end.
Definition released (o : t) : Prop := fd o = false ∧ job o = false ∧ job_set o = false ∧ have_bfd o = false.

(** The connection attempt is under way, it has succeeded and will be reported, or
    it was reported. *)
Definition kinv (c : connect_result) (es : list kev) (acts : list act) (o : t) : Prop :=
  job o = true ∧ calls acts = results es ∧ Close ∉ acts ∧
  (c = ConnectInProgress ∧ es = [] ∧ fd o = true ∧ have_bfd o = true ∧ bfd_events o = BREACTOR_WRITE ∧ connected o = false ∧ job_set o = false ∨
   c = ConnectOk ∧ es = [] ∧ fd o = true ∧ have_bfd o = false ∧ connected o = true ∧ job_set o = true ∨
   have_bfd o = false ∧ job_set o = false ∧ results es = [negb (connected o)] ∧ fd o = negb (bool_decide (KTake ∈ es))).

Lemma calls_app l k : calls (l ++ k) = calls l ++ calls k.
Proof. apply omap_app. Qed.
Lemma results_app l k : results (l ++ k) = results l ++ results k.
Proof. apply omap_app. Qed.

Lemma kstep_inv c es acts o e : kinv c es acts o → kenabled o e (calls acts) = true →
  wp (kstep e) o (λ _ o' l, kinv c (es ++ [e]) (acts ++ l) o').
Proof.
  intros (Hj & Hc & Hcl & H) He. destruct o as [f j js cn hb ev]. simpl in *. subst. destruct e as [so| |]; simpl in He.
  - subst. destruct H as [(_ & -> & -> & _ & -> & -> & ->)|[(_ & _ & _ & ? & _)|(? & _)]]; [|done..].
    unfold kstep, connector_fd_handler. wp_pure. do 3 (apply wp_ASSERT; [done|]; wp_pure).
    apply (wp_mono _ _ (λ _ o' l, l = [] ∧ o' = mk_t true true false (bool_decide (so = Some 0)) false BREACTOR_WRITE)).
    { destruct so as [z|]; [|by apply wp_ret]. unfold when. destruct (Z.eqb_spec z 0) as [->|Hz]; [by apply wp_modify|].
      apply wp_ret. rewrite bool_decide_false by congruence. done. }
    intros _ o' l (-> & ->). wp_pure. simpl. split_and!; [done|by rewrite calls_app, Hc|set_solver|].
    right. right. done.
  - subst. destruct H as [(_ & _ & _ & _ & _ & _ & ?)|[(_ & -> & -> & -> & -> & _)|(_ & ? & _)]]; [done| |done].
    unfold kstep, connector_job_handler. wp_pure. do 3 (apply wp_ASSERT; [done|]; wp_pure). simpl.
    split_and!; [done|by rewrite calls_app, Hc|set_solver|]. right. right. done.
  - apply andb_true_iff in He as [-> He%bool_decide_eq_true]. rewrite Hc in He.
    destruct H as [(_ & -> & _)|[(_ & -> & _)|(-> & -> & Hn & Hk)]]; [done..|].
    rewrite Hn in He. destruct cn; [|done]. unfold kstep, take_fd. wp_pure. do 4 (apply wp_ASSERT; [done|]; wp_pure). simpl.
    rewrite app_nil_r. split_and!; [done|by rewrite Hc, results_app, app_nil_r|done|].
    right. right. simpl. rewrite results_app, Hn. split_and!; try done. rewrite bool_decide_true by set_solver. done.
Qed.

Lemma init_kinv from socket nonblocking c added :
  wp (InitFrom from socket nonblocking c added) none (λ ok o l,
    ok = address_ok from && socket && nonblocking &&
      match c with ConnectFails => false | ConnectInProgress => added | ConnectOk => true end ∧
    if ok : bool then l = [] ∧ kinv c [] [] o
    else released o ∧ l = if address_ok from && socket then [Close] else []).
Proof.
  assert ((match from with FROM_UNIX n => MAX_UNIX_SOCKET_PATH <? n | FROM_ADDR supported => negb supported end)
    = negb (address_ok from)) as E by (destruct from; [done|]; simpl; by rewrite Z.leb_antisym, negb_involutive).
  unfold InitFrom, fail1, fail2. rewrite E. destruct (address_ok from); simpl; [|by apply wp_ret].
  destruct socket; simpl; [|by wp_pure]. wp_pure. destruct nonblocking; simpl; [|by wp_pure].
  destruct c; [| |by wp_pure]; wp_pure.
  - split; [done|]. split; [done|]. split_and!; try done; [set_solver|]. right. left. done.
  - destruct added; simpl; wp_pure; [|done]. split; [done|]. split; [done|]. split_and!; try done; [set_solver|]. left. done.
Qed.

(** C26: A connection attempt is reported exactly once, truthfully, and leaves nothing behind.
    Initialisation succeeds exactly if the address is usable and every call succeeds; if it
    fails, the socket is closed if it was opened and the job is freed.  Otherwise no assertion
    fails in any run, and the handler is called at most once: without an error if [connect]
    succeeded at once, and for an attempt in progress with an error exactly if the kernel's
    result ([SO_ERROR]) is not zero or cannot be read.  Until then the descriptor is registered for
    writing or the job is set; and whenever the connector is freed, the socket is closed
    exactly if the connection has not taken it over, and no registration or job is left. *)
Theorem connector_once from socket nonblocking c added :
  match InitFrom from socket nonblocking c added none with
  | None => False
  | Some (ok, o, l) =>
      ok = address_ok from && socket && nonblocking &&
        match c with ConnectFails => false | ConnectInProgress => added | ConnectOk => true end ∧
      if ok : bool then
        l = [] ∧ ∀ es acts o', kruns o es acts o' →
          (∀ e, kenabled o' e (calls acts) = true → is_Some (kstep e o')) ∧
          calls acts = results es ∧ (length (calls acts) ≤ 1)%nat ∧ Close ∉ acts ∧
          (calls acts = [] → c = ConnectInProgress ∧ have_bfd o' = true ∧ bfd_events o' = BREACTOR_WRITE ∨
                             c = ConnectOk ∧ job_set o' = true) ∧
          ∃ o'', Free o' = Some ((), o'', if decide (KTake ∈ es) then [] else [Close]) ∧ released o''
      else released o ∧ l = if address_ok from && socket then [Close] else []
  end.
Proof.
  pose proof (init_kinv from socket nonblocking c added) as Hi. unfold wp in Hi.
  destruct (InitFrom _ _ _ _ _ none) as [[[ok o] l]|]; [|done]. destruct Hi as [Hok Hi]. split; [done|].
  destruct ok; [|done]. destruct Hi as [-> Hi]. split; [done|]. intros es acts o' Hr.
  assert (kinv c es acts o') as Hk.
  { clear -Hi Hr. induction Hr as [|es acts o1 e l o2 Hr IH He E]; [done|].
    pose proof (kstep_inv c es acts o1 e IH He) as Hw. unfold wp in Hw. by rewrite E in Hw. }
  pose proof Hk as (Hj & Hc & Hcl & H). split_and!; [|done|..|done| |].
  - intros e He. pose proof (kstep_inv c es acts o' e Hk He) as Hw. unfold wp in Hw. by destruct (kstep e o') as [[[? ?] ?]|].
  - rewrite Hc. destruct H as [(_ & -> & _)|[(_ & -> & _)|(_ & _ & -> & _)]]; simpl; lia.
  - rewrite Hc. destruct H as [?|[?|(_ & _ & -> & _)]]; naive_solver.
  - assert (fd o' = negb (bool_decide (KTake ∈ es))) as Hf.
    { destruct H as [(_ & -> & -> & _)|[(_ & -> & -> & _)|(_ & _ & _ & ->)]]; done. }
    destruct o' as [f j js cn hb ev]. unfold Free, released. simpl in Hf. subst f.
    destruct hb; case_decide; (rewrite bool_decide_true by done) || (rewrite bool_decide_false by done);
      eexists; (split; [reflexivity|done]).
Qed.
End Connector.

(** ** What was submitted, written and reported *)
Record chist := mk_chist {
  h_cur : option bytes; h_out : bytes; h_sent : bytes;
  h_req : option Z; h_last : bytes; h_in : bytes; h_got : bytes; h_err : bool; h_lone : bool
}.
#[global] Instance eta_chist : Eta chist := λ h,
  mk_chist (h_cur h) (h_out h) (h_sent h) (h_req h) (h_last h) (h_in h) (h_got h) (h_err h) (h_lone h).
Definition chist0 : chist := mk_chist None [] [] None [] [] [] false false.

Section Conn.
Import BReactor BConnection.

(** An error event, without a hangup, that leaves out an event that is waited for. *)
Definition lone_error (waited events : Z) : bool :=
  has events BREACTOR_ERROR && negb (has events BREACTOR_HUP) && negb (Z.ldiff waited events =? 0).

Definition cobs (h : chist) (a : act) : chist :=
  match a with
  | Submitted d => h <| h_cur := Some d |>
  | Written b => h <| h_out := h_out h ++ b |>
  | SendDone n => h <| h_sent := h_sent h ++ take (Z.to_nat n) (default [] (h_cur h)) |> <| h_cur := None |>
  | SendFreed => h <| h_cur := None |>
  | Requested n => h <| h_req := Some n |>
  | Got b => h <| h_in := h_in h ++ b |> <| h_last := b |>
  | RecvDone n => h <| h_got := h_got h ++ take (Z.to_nat n) (h_last h) |> <| h_req := None |>
  | RecvFreed => h <| h_req := None |>
  | ReportError => h <| h_err := true |>
  | FdEvent waited events => h <| h_lone := h_lone h || lone_error waited events |>
  | RecvClosed | Close => h
  end.
(** A completion answers the outstanding operation, with a size in its range; there
    is one operation of each kind at a time and one error. *)
Definition cact_ok (h : chist) (a : act) : Prop :=
  match a with
  | Submitted _ => h_cur h = None ∧ h_err h = false
  | SendDone n => ∃ d, h_cur h = Some d ∧ 0 < n ≤ zlen d
  | Requested _ => h_req h = None ∧ h_err h = false
  | RecvDone n => ∃ m, h_req h = Some m ∧ 0 < n ≤ m
  | RecvClosed => is_Some (h_req h)
  | ReportError => h_err h = false
  | _ => True
  end.
Abbreviation ctri := (tri cobs cact_ok).

(** [ps], [pr]: a send or receive operation is about to be tried, so nothing waits for it
    yet.  Only operations that have not ended are waited for, as long as no error event
    left out an event that is waited for. *)
Record cinv_gen (ps pr : bool) (h : chist) (o : t) : Prop := mk_cinv {
  c_open : fd_open o = true ∧ close_fd o = true ∧ limits o = true;
  c_bfd : bfd o = negb (is_hupd o);
  c_events : is_hupd o = false → bfd_events o = wait_events o;
  c_waitable : waitable (wait_events o) = true;
  c_write : is_hupd o = false → has (wait_events o) BREACTOR_WRITE = true → sstate o ≠ SEND_STATE_NOT_INITED ∧
    (h_lone h = false → ps = false ∧ sstate o = SEND_STATE_BUSY);
  c_read : is_hupd o = false → has (wait_events o) BREACTOR_READ = true → rstate o ≠ RECV_STATE_NOT_INITED ∧
    (h_lone h = false → pr = false ∧ rstate o = RECV_STATE_BUSY ∧ recv_job o = false);
  c_sending : failed o = false → sstate o = SEND_STATE_BUSY →
    ps = true ∨ is_hupd o = false ∧ has (wait_events o) BREACTOR_WRITE = true;
  c_receiving : failed o = false → rstate o = RECV_STATE_BUSY →
    pr = true ∨ recv_job o = true ∨ is_hupd o = false ∧ has (wait_events o) BREACTOR_READ = true;
  c_job : recv_job o = true → rstate o = RECV_STATE_BUSY ∧ pr = false;
  c_cur : h_cur h = if decide (sstate o = SEND_STATE_BUSY) then Some (send_data o) else None;
  c_req : match rstate o with
    | RECV_STATE_BUSY => h_req h = Some (recv_avail o) ∧ 0 < recv_avail o
    | RECV_STATE_INITED_CLOSED => True
    | RECV_STATE_NOT_INITED_CLOSED => False
    | _ => h_req h = None end;
  c_streams : h_out h = h_sent h ∧ h_in h = h_got h;
  c_err : h_err h = failed o
}.
Definition cinv : chist → t → Prop := cinv_gen false false.

(** The fields of an updated state that the update does not touch. *)
Ltac csplit := constructor; simpl in *; try done.

Lemma set_events_tri h o (Q : () → chist → t → Prop) : bfd o = true → waitable (wait_events o) = true →
  Q () h (o <| bfd_events := wait_events o |>) → ctri h o set_events Q.
Proof. intros Hb Hw HQ. unfold set_events. tri_pure. apply tri_ASSERT; [done|]. tri_pure. by apply tri_ASSERT. Qed.

Lemma wait_write_run pr h o : cinv_gen true pr h o → sstate o = SEND_STATE_BUSY → is_hupd o = false →
  ctri h o (wait_for BREACTOR_WRITE) (λ _ h' o', cinv_gen false pr h' o').
Proof.
  intros [] Hs Hh. unfold wait_for. tri_pure. apply set_events_tri; simpl; [by rewrite c_bfd0, Hh|by apply waitable_lor|].
  csplit.
  - by apply waitable_lor.
  - intros _ _. by rewrite Hs.
  - intros _ Hr. rewrite read_lor in Hr. apply orb_true_iff in Hr as [Hr|Hr]; [auto|done].
  - intros _ _. right. split; [done|]. rewrite write_lor. by rewrite orb_true_r.
  - intros Hf Hb. destruct (c_receiving0 Hf Hb) as [?|[?|[? Hr]]]; [auto..|]. right. right. by rewrite read_lor, Hr.
Qed.
Lemma wait_read_run ps h o : cinv_gen ps true h o → rstate o = RECV_STATE_BUSY → is_hupd o = false →
  ctri h o (wait_for BREACTOR_READ) (λ _ h' o', cinv_gen ps false h' o').
Proof.
  intros [] Hs Hh. unfold wait_for. tri_pure. apply set_events_tri; simpl; [by rewrite c_bfd0, Hh|by apply waitable_lor|].
  assert (recv_job o = false) as Hj by (destruct (recv_job o); [by destruct (c_job0 eq_refl)|done]).
  csplit.
  - by apply waitable_lor.
  - intros _ Hr. rewrite write_lor in Hr. apply orb_true_iff in Hr as [Hr|Hr]; [auto|done].
  - intros _ _. by rewrite Hs.
  - intros Hf Hb. destruct (c_sending0 Hf Hb) as [?|[? Hr]]; [auto..|]. right. by rewrite write_lor, Hr.
  - intros _ _. right. right. split; [done|]. rewrite read_lor. by rewrite orb_true_r.
Qed.
Lemma report_error_run ps pr h o : cinv_gen ps pr h o → failed o = false →
  ctri h o connection_report_error (λ _ h' o', cinv_gen false false h' o').
Proof.
  intros [] Hf. unfold connection_report_error. tri_pure. apply tri_ASSERT; [by rewrite Hf|]. tri_pure.
  apply tri_emit; [simpl; by rewrite c_err0|]. csplit.
  - intros ? Hw. destruct (c_write0 ltac:(done) Hw) as [? K]. split; [done|]. intros L. by destruct (K L).
  - intros ? Hw. destruct (c_read0 ltac:(done) Hw) as [? K]. split; [done|]. intros L. by destruct (K L) as (_ & ? & ?).
  - intros Hj. by destruct (c_job0 Hj).
Qed.

Lemma send_try h o lim w : cinv_gen true false h o → failed o = false → sstate o = SEND_STATE_BUSY →
  write_ok (send_data o) w = true → ctri h o (connection_send lim w) (λ _ h' o', cinv h' o').
Proof.
  intros H Hf Hs Hw. unfold connection_send. tri_pure. apply tri_ASSERT; [by rewrite Hf|]. tri_pure.
  apply tri_ASSERT; [by apply bool_decide_true|]. cbv beta.
  destruct (negb (is_hupd o) && negb lim) eqn:El; [apply andb_true_iff in El as [Eh%negb_true_iff _]; by apply wait_write_run|].
  destruct w as [n| |]; [|destruct (is_hupd o) eqn:Eh; simpl; [by eapply report_error_run|by apply wait_write_run]|by eapply report_error_run].
  simpl in Hw. apply andb_true_iff in Hw as [Hn Hle]. pose proof (proj1 (Z.ltb_lt _ _) Hn). pose proof (proj1 (Z.leb_le _ _) Hle).
  destruct H. rewrite decide_True in c_cur0 by done.
  tri_pure. apply tri_emit; [done|]. tri_pure. apply tri_ASSERT; [done|]. tri_pure. apply tri_ASSERT; [done|]. tri_pure.
  apply tri_emit; [simpl; rewrite c_cur0; eauto|]. csplit.
  - intros ? Hx. split; [done|]. intros L. by destruct (proj2 (c_write0 ltac:(done) Hx) L).
  - rewrite c_cur0. simpl. destruct c_streams0 as [-> ->]. done.
Qed.

Lemma recv_try h o lim r : cinv_gen false true h o → failed o = false → rstate o = RECV_STATE_BUSY →
  read_ok (recv_avail o) r = true → ctri h o (connection_recv lim r) (λ _ h' o', cinv h' o').
Proof.
  intros H Hf Hs Hr. unfold connection_recv. tri_pure. apply tri_ASSERT; [by rewrite Hf|]. tri_pure.
  apply tri_ASSERT; [by apply bool_decide_true|]. cbv beta.
  destruct (negb (is_hupd o) && negb lim) eqn:El; [apply andb_true_iff in El as [Eh%negb_true_iff _]; by apply wait_read_run|].
  destruct r as [d| |]; [|destruct (is_hupd o) eqn:Eh; simpl; [by eapply report_error_run|by apply wait_read_run]|by eapply report_error_run].
  destruct H. rewrite Hs in c_req0. destruct c_req0 as [Hreq Hav].
  assert (recv_job o = false) as Hj by (destruct (recv_job o); [by destruct (c_job0 eq_refl)|done]).
  assert (is_hupd o = false → has (wait_events o) BREACTOR_READ = true → h_lone h = false → False) as Hnr
    by (intros Hh Hx L; by destruct (proj2 (c_read0 Hh Hx) L)).
  destruct d as [|b d].
  - tri_pure. apply tri_emit; [simpl; rewrite Hreq; eauto|]. csplit.
    + intros Hh Hx. split; [done|]. intros L. by destruct (Hnr Hh Hx L).
    + by rewrite Hj.
  - tri_pure. apply tri_emit; [done|]. tri_pure. apply tri_ASSERT; [done|]. tri_pure.
    simpl in Hr. apply Z.leb_le in Hr. pose proof (zlen_nonneg d).
    apply tri_emit; [simpl; rewrite Hreq; exists (recv_avail o); split; [done|]; rewrite zlen_cons in *; lia|]. csplit.
    + intros Hh Hx. split; [done|]. intros L. by destruct (Hnr Hh Hx L).
    + by rewrite Hj.
    + destruct c_streams0 as [-> ->]. split; [done|]. unfold zlen. rewrite Nat2Z.id.
      change (S (length d)) with (length (b :: d)). by rewrite firstn_all.
Qed.

(** The handler of the descriptor, up to the operations it tries. *)
Section FdEvent.
Context (h : chist) (o : t) (events : Z).
Hypothesis (Hinv : cinv h o) (Hfail : failed o = false) (Hjob : recv_job o = false) (Hup : is_hupd o = false).
Hypothesis (Hwrite : has events BREACTOR_WRITE = true → sstate o = SEND_STATE_BUSY).
Hypothesis (Hread : has events BREACTOR_READ = true → rstate o = RECV_STATE_BUSY).
Hypothesis (Herr : h_lone h = false → lone_error (wait_events o) events = false).

Let err := has events (Z.lor BREACTOR_ERROR BREACTOR_HUP).
Let hs := has events BREACTOR_WRITE || err && bool_decide (sstate o = SEND_STATE_BUSY).
Let hr := has events BREACTOR_READ || err && bool_decide (rstate o = RECV_STATE_BUSY).

Lemma have_send_busy : hs = true → sstate o = SEND_STATE_BUSY.
Proof. intros [Hw|[_ Hw%bool_decide_eq_true]%andb_true_iff]%orb_true_iff; auto. Qed.
Lemma have_recv_busy : hr = true → rstate o = RECV_STATE_BUSY.
Proof. intros [Hw|[_ Hw%bool_decide_eq_true]%andb_true_iff]%orb_true_iff; auto. Qed.
(** An error without a hangup leaves nothing to wait for, unless it is a lone one. *)
Lemma error_clears flag : h_lone h = false → err = true → has events BREACTOR_HUP = false →
  has (Z.ldiff (wait_events o) events) flag = false.
Proof.
  subst err. rewrite has_lor_r. intros L He Hh. rewrite Hh, orb_false_r in He. specialize (Herr L). unfold lone_error in Herr.
  rewrite He, Hh in Herr. simpl in Herr. apply negb_false_iff, Z.eqb_eq in Herr. by rewrite Herr.
Qed.
Lemma fd_event_inv : cinv_gen hs (hr && negb hs) h
  (o <| wait_events := Z.ldiff (wait_events o) events |> <| bfd_events := Z.ldiff (wait_events o) events |>
     <| bfd := negb (has events BREACTOR_HUP) |> <| is_hupd := has events BREACTOR_HUP |> <| recv_job := hs && hr |>).
Proof.
  pose proof have_send_busy as Hsb. pose proof have_recv_busy as Hrb. pose proof error_clears as Hec. destruct Hinv. csplit.
  - by apply waitable_ldiff.
  - intros Hh Hx. rewrite write_ldiff in Hx. apply andb_true_iff in Hx as [Hx He%negb_true_iff]. destruct (c_write0 Hup Hx) as [Hn K].
    split; [done|]. intros L. split; [|by apply K]. subst hs. rewrite He. simpl. destruct err eqn:E; [|done].
    specialize (Hec BREACTOR_WRITE L eq_refl Hh). by rewrite write_ldiff, Hx, He in Hec.
  - intros Hh Hx. rewrite read_ldiff in Hx. apply andb_true_iff in Hx as [Hx He%negb_true_iff]. destruct (c_read0 Hup Hx) as [Hn K].
    split; [done|]. intros L. destruct (K L) as (_ & Hb & _).
    assert (hr = false) as ->; [|by rewrite andb_false_r]. subst hr. rewrite He. simpl. destruct err eqn:E; [|done].
    specialize (Hec BREACTOR_READ L eq_refl Hh). by rewrite read_ldiff, Hx, He in Hec.
  - intros _ Hb. destruct hs eqn:E; [by left|]. right. subst hs. apply orb_false_iff in E as [Ew Ee]. rewrite bool_decide_true in Ee by done.
    rewrite andb_true_r in Ee. subst err. rewrite has_lor_r in Ee. apply orb_false_iff in Ee as [_ Eh]. split; [done|].
    destruct (c_sending0 Hfail Hb) as [?|[_ Hx]]; [done|]. by rewrite write_ldiff, Hx, Ew.
  - intros _ Hb. destruct hr eqn:E; [destruct hs; simpl; auto|]. right. right. subst hr. apply orb_false_iff in E as [Ew Ee].
    rewrite bool_decide_true in Ee by done.
    rewrite andb_true_r in Ee. subst err. rewrite has_lor_r in Ee. apply orb_false_iff in Ee as [_ Eh]. split; [done|].
    destruct (c_receiving0 Hfail Hb) as [?|[?|[_ Hx]]]; [done|congruence|]. by rewrite read_ldiff, Hx, Ew.
  - intros [Hs Hr]%andb_true_iff. rewrite Hs, Hr. split; [by apply Hrb|done].
Qed.
End FdEvent.

Lemma cinv_lone h o b : cinv h o → cinv (h <| h_lone := h_lone h || b |>) o.
Proof.
  intros []. csplit.
  - intros Hh Hx. destruct (c_write0 Hh Hx) as [? K]. split; [done|]. intros [L _]%orb_false_iff. auto.
  - intros Hh Hx. destruct (c_read0 Hh Hx) as [? K]. split; [done|]. intros [L _]%orb_false_iff. auto.
Qed.

(** A stale event is reported only after a lone error, and fails an assertion. *)
Lemma stale_lone h o e : cinv h o → enabled o e = true → stale o e = true → h_lone h = true.
Proof.
  intros H He Hs. destruct e as [| | | | | |events lim w r|]; try done. simpl in He, Hs. repeat (apply andb_true_iff in He as [He ?]).
  assert (is_hupd o = false) as Hup by (pose proof (c_bfd _ _ _ _ H) as Hb; rewrite He in Hb; by apply negb_true_iff).
  rewrite (c_events _ _ _ _ H Hup) in *. destruct (h_lone h) eqn:L; [done|].
  apply orb_true_iff in Hs as [[E Hs%negb_true_iff%bool_decide_eq_false]%andb_true_iff|[E Hs%negb_true_iff%bool_decide_eq_false]%andb_true_iff].
  - rewrite E in H2. destruct Hs. by apply (c_write _ _ _ _ H Hup H2).
  - rewrite E in H3. destruct Hs. by apply (c_read _ _ _ _ H Hup H3).
Qed.
Lemma stale_fails o e : stale o e = true → step e o = None.
Proof.
  destruct e as [| | | | | |events lim w r|]; try done. intros Hs. simpl in Hs.
  destruct o as [fo cf hu bf be we li ss sd sj rs ra rj fa]. simpl in Hs.
  unfold step, connection_fd_handler, set_events, remove_bfd, mbind, M_bind, get, emit, ASSERT, modify, when, mret, M_ret. simpl.
  destruct fa; [done|]. destruct hu; [done|]. destruct bf; [simpl|done]. destruct (waitable _); [simpl|done].
  apply orb_true_iff in Hs as [[-> ->%negb_true_iff]%andb_true_iff|[-> ->%negb_true_iff]%andb_true_iff].
  - destruct (has events BREACTOR_HUP); reflexivity.
  - destruct (has events BREACTOR_HUP); simpl; by destruct (negb _ || _).
Qed.

Lemma fd_handler_run h o events lim w r : cinv h o → enabled o (EFd events lim w r) = true →
  stale o (EFd events lim w r) = false → (h_lone h = false → lone_error (bfd_events o) events = false) →
  ctri h o (connection_fd_handler events lim w r) (λ _ h' o', cinv h' o').
Proof.
  intros H He Hst Hlone. simpl in He, Hst. repeat (apply andb_true_iff in He as [He ?]).
  apply orb_false_iff in Hst as [Hsw Hsr].
  assert (is_hupd o = false) as Hup by (pose proof (c_bfd _ _ _ _ H) as Hb; rewrite He in Hb; by apply negb_true_iff).
  rewrite (c_events _ _ _ _ H Hup) in *. apply negb_true_iff in H5, H4.
  assert (has events BREACTOR_WRITE = true → sstate o = SEND_STATE_BUSY) as Hwr
    by (intros E; rewrite E in Hsw; by apply negb_false_iff, bool_decide_eq_true in Hsw).
  assert (has events BREACTOR_READ = true → rstate o = RECV_STATE_BUSY) as Hrd
    by (intros E; rewrite E in Hsr; by apply negb_false_iff, bool_decide_eq_true in Hsr).
  pose proof (fd_event_inv h o events H H5 H4 Hup Hwr Hrd Hlone) as Hok.
  pose proof (have_send_busy o events Hwr) as Hsb. pose proof (have_recv_busy o events Hrd) as Hrb.
  pose proof (c_waitable _ _ _ _ H) as Hwt. clear H.
  unfold connection_fd_handler. tri_pure. apply tri_ASSERT; [by rewrite H5|]. tri_pure. apply tri_ASSERT; [by rewrite Hup|]. tri_pure.
  apply set_events_tri; simpl; [done|by apply waitable_ldiff|].
  destruct o as [fo cf hu bf be we li ss sd sj rs ra rj fa]. simpl in *. subst.
  set (hs := has events BREACTOR_WRITE || _) in *. set (hr := has events BREACTOR_READ || _) in *. clearbody hs hr.
  apply tri_bind. match goal with |- ctri _ ?o1 _ _ => apply (tri_mono _ _ _ _ _
    (λ _ h' o', h' = h ∧ o' = o1 <| bfd := negb (has events BREACTOR_HUP) |> <| is_hupd := has events BREACTOR_HUP |>)) end.
  { unfold when. destruct (has events BREACTOR_HUP); [|done]. unfold remove_bfd. tri_pure. apply tri_ASSERT; [done|]. tri_pure. done. }
  intros _ ? ? (-> & ->). tri_pure. apply tri_ASSERT. { destruct hs; [|done]. simpl. apply bool_decide_true. auto. }
  tri_pure. apply tri_ASSERT. { destruct hr; [|done]. simpl. apply bool_decide_true. auto. }
  cbv beta. destruct hs; [|destruct hr]; simpl in Hok |- *.
  - apply tri_bind. destruct hr; unfold when; tri_pure; (apply send_try; [exact Hok|done|auto|done]).
  - apply recv_try; [exact Hok|done|auto|done].
  - tri_pure. unfold when. destruct (has events BREACTOR_HUP); simpl; tri_pure; [exact Hok|]. by eapply (report_error_run false false).
Qed.
Lemma fd_step_run h o events lim w r : cinv h o → enabled o (EFd events lim w r) = true →
  stale o (EFd events lim w r) = false → ctri h o (step (EFd events lim w r)) (λ _ h' o', cinv h' o').
Proof.
  intros H He Hs. cbn [step]. tri_pure. apply tri_emit; [done|]. apply fd_handler_run; try done; [by apply cinv_lone|].
  simpl. by intros [_ L]%orb_false_iff.
Qed.

Lemma recv_job_run h o lim r : cinv h o → enabled o (ERecvJob lim r) = true →
  ctri h o (connection_recv_job_handler lim r) (λ _ h' o', cinv h' o').
Proof.
  intros H He. simpl in He. apply andb_true_iff in He as [[Hj Hf%negb_true_iff]%andb_true_iff Hr].
  destruct (c_job _ _ _ _ H Hj) as [Hb _]. unfold connection_recv_job_handler. tri_pure. apply tri_ASSERT; [simpl; by rewrite Hf|]. tri_pure.
  apply tri_ASSERT; [by apply bool_decide_true|]. apply recv_try; [|done..]. destruct H. csplit.
  - intros Hh Hx. destruct (c_read0 Hh Hx) as [? K]. split; [done|]. intros L. destruct (K L) as (_ & _ & ?). congruence.
  - auto.
Qed.
Lemma send_request_run h o data lim w : cinv h o → enabled o (ESend data lim w) = true →
  ctri h o (connection_send_if_handler_send data lim w) (λ _ h' o', cinv h' o').
Proof.
  intros H He. simpl in He. apply andb_true_iff in He as [[[Hf%negb_true_iff Hs%bool_decide_eq_true]%andb_true_iff Hd]%andb_true_iff Hw].
  unfold connection_send_if_handler_send. tri_pure. apply tri_ASSERT; [by rewrite Hf|]. tri_pure.
  apply tri_ASSERT; [by apply bool_decide_true|]. tri_pure. apply tri_ASSERT; [done|]. tri_pure.
  apply tri_emit. { simpl. rewrite (c_cur _ _ _ _ H), decide_False by (by rewrite Hs). by rewrite (c_err _ _ _ _ H). }
  tri_pure. apply send_try; [|done..]. destruct H. csplit.
  - intros Hh Hx. destruct (c_write0 Hh Hx) as [? K]. split; [done|]. intros L. destruct (K L). congruence.
  - auto.
Qed.
Lemma recv_request_run h o avail lim r : cinv h o → enabled o (ERecv avail lim r) = true →
  ctri h o (connection_recv_if_handler_recv avail lim r) (λ _ h' o', cinv h' o').
Proof.
  intros H He. simpl in He. apply andb_true_iff in He as [[[Hf%negb_true_iff Hs%bool_decide_eq_true]%andb_true_iff Hd]%andb_true_iff Hw].
  unfold connection_recv_if_handler_recv. tri_pure. apply tri_ASSERT; [by rewrite Hf|]. tri_pure.
  apply tri_ASSERT; [by apply bool_decide_true|]. tri_pure. apply tri_ASSERT; [done|]. tri_pure.
  apply tri_emit. { simpl. pose proof (c_req _ _ _ _ H) as Hq. rewrite Hs in Hq. by rewrite (c_err _ _ _ _ H). }
  tri_pure. apply recv_try; [|done..]. apply Z.ltb_lt in Hd. destruct H.
  assert (recv_job o = false) as Hj by (destruct (recv_job o); [destruct (c_job0 eq_refl); congruence|done]). csplit.
  - intros Hh Hx. destruct (c_read0 Hh Hx) as [? K]. split; [done|]. intros L. destruct (K L) as (_ & ? & _). congruence.
  - auto.
  - by rewrite Hj.
Qed.

Lemma send_free_run h o : cinv h o → sstate o ≠ SEND_STATE_NOT_INITED →
  ctri h o SendAsync_Free (λ _ h' o', cinv h' o' ∧ sstate o' = SEND_STATE_NOT_INITED ∧ rstate o' = rstate o).
Proof.
  intros H Hs. unfold SendAsync_Free. tri_pure.
  apply tri_ASSERT. { destruct (sstate o); try done; by rewrite ?orb_true_r. }
  apply tri_bind. destruct H. unfold when. destruct (is_hupd o) eqn:Eh in |- *; simpl; tri_pure.
  - apply tri_emit; [done|]. split_and!; [|done..]. csplit; intros; congruence.
  - apply set_events_tri; [simpl; by rewrite c_bfd0, Eh|by apply waitable_ldiff|]. tri_pure. apply tri_emit; [done|]. split_and!; [|done..]. csplit.
    + by apply waitable_ldiff.
    + intros _ Hx. rewrite write_ldiff in Hx. by rewrite andb_false_r in Hx.
    + intros _ Hx. rewrite read_ldiff, andb_true_r in Hx. auto.
    + intros Hf Hb. rewrite read_ldiff, andb_true_r. auto.
Qed.
Lemma recv_free_run h o : cinv h o → rstate o ≠ RECV_STATE_NOT_INITED →
  ctri h o RecvAsync_Free (λ _ h' o', cinv h' o' ∧ rstate o' = RECV_STATE_NOT_INITED ∧ sstate o' = sstate o).
Proof.
  intros H Hs. unfold RecvAsync_Free. tri_pure. destruct H.
  apply tri_ASSERT. { destruct (rstate o); try done; by rewrite ?orb_true_r. }
  apply tri_bind. unfold when. destruct (is_hupd o) eqn:Eh in |- *; simpl; tri_pure.
  - apply tri_emit; [done|]. split_and!; [|done..]. csplit; intros; congruence.
  - apply set_events_tri; [simpl; by rewrite c_bfd0, Eh|by apply waitable_ldiff|]. tri_pure. apply tri_emit; [done|]. split_and!; [|done..]. csplit.
    + by apply waitable_ldiff.
    + intros _ Hx. rewrite write_ldiff, andb_true_r in Hx. auto.
    + intros _ Hx. rewrite read_ldiff in Hx. by rewrite andb_false_r in Hx.
    + intros Hf Hb. rewrite write_ldiff, andb_true_r. auto.
Qed.

Lemma step_run h o e : cinv h o → enabled o e = true → stale o e = false → ctri h o (step e) (λ _ h' o', cinv h' o').
Proof.
  intros H He Hst. destruct e; simpl in He; cbn [step].
  - apply andb_true_iff in He as [Hf%negb_true_iff Hs]. unfold SendAsync_Init. tri_pure. apply tri_ASSERT; [by rewrite Hf|]. tri_pure.
    apply tri_ASSERT; [done|]. tri_pure. apply bool_decide_eq_true in Hs. destruct H. csplit.
    + intros Hh Hx. by destruct (c_write0 Hh Hx).
    + rewrite c_cur0. by rewrite decide_False by (by rewrite Hs).
  - apply negb_true_iff, bool_decide_eq_false in He. eapply tri_mono; [by apply send_free_run|]. by intros _ ? ? [? _].
  - apply andb_true_iff in He as [Hf%negb_true_iff Hs]. unfold RecvAsync_Init. tri_pure. apply tri_ASSERT; [by rewrite Hf|]. tri_pure.
    apply tri_ASSERT; [done|]. tri_pure. apply bool_decide_eq_true in Hs. destruct H. rewrite Hs in c_req0. csplit.
    intros Hh Hx. by destruct (c_read0 Hh Hx).
  - apply negb_true_iff, bool_decide_eq_false in He. eapply tri_mono; [by apply recv_free_run|]. by intros _ ? ? [? _].
  - by apply send_request_run.
  - by apply recv_request_run.
  - by apply fd_step_run.
  - by apply recv_job_run.
Qed.
(** A step that fails, and the run up to it. *)
Definition stuck (o : t) (es : list ev) : Prop :=
  ∃ es1 e es2 o1 acts1, es = es1 ++ e :: es2 ∧ drive es1 o = Some ((), o1, acts1) ∧
    enabled o1 e = true ∧ stale o1 e = true ∧ h_lone (after cobs chist0 acts1) = true.

Lemma drive_app es1 es2 : ∀ o o1 acts1, drive es1 o = Some ((), o1, acts1) →
  drive (es1 ++ es2) o = match drive es2 o1 with Some (u, o', l) => Some (u, o', acts1 ++ l) | None => None end.
Proof.
  induction es1 as [|e es1 IH]; intros o o1 acts1; simpl.
  - intros [= <- <-]. by destruct (drive es2 o) as [[[? ?] ?]|].
  - unfold mbind, M_bind, get. simpl. destruct (when (enabled o e) (step e) o) as [[[[] o2] l2]|]; [|done].
    destruct (drive es1 o2) as [[[[] o3] l3]|] eqn:E; [|done]. intros [= <- <-]. rewrite (IH _ _ _ E).
    destruct (drive es2 o3) as [[[? ?] ?]|]; [|done]. by rewrite <- !app_assoc.
Qed.

Lemma drive_cases es o : cinv chist0 o →
  match drive es o with
  | Some (_, o', acts) => trace_ok cobs cact_ok chist0 acts ∧ cinv (after cobs chist0 acts) o'
  | None => stuck o es
  end.
Proof.
  intros H. induction es as [|e es IH] using rev_ind; [by split|].
  destruct (drive es o) as [[[[] o1] acts1]|] eqn:E.
  - destruct IH as [Hok H1]. rewrite (drive_app es [e] o o1 acts1 E). simpl. unfold mbind, M_bind, get. simpl. unfold when.
    destruct (enabled o1 e) eqn:He; [|simpl; by rewrite app_nil_r].
    destruct (stale o1 e) eqn:Hs.
    + rewrite (stale_fails _ _ Hs). exists es, e, [], o1, acts1. split_and!; try done. by eapply stale_lone.
    + pose proof (step_run _ _ _ H1 He Hs) as Hw. apply tri_some in Hw as ([] & o2 & acts2 & -> & Hok2 & H2). simpl.
      rewrite app_nil_r. split; [by apply trace_ok_app|]. by rewrite after_app.
  - destruct IH as (es1 & e' & es2 & o1 & acts1 & -> & Hd & Hrest).
    assert (drive ((es1 ++ e' :: es2) ++ [e]) o = None) as ->.
    { rewrite <- app_assoc. rewrite (drive_app es1 _ o o1 acts1 Hd). rewrite (drive_app es1 _ o o1 acts1 Hd) in E.
      destruct Hrest as (He & Hs & _). simpl. unfold mbind, M_bind, get. simpl. unfold when. rewrite He.
      by rewrite (stale_fails _ _ Hs). }
    exists es1, e', (es2 ++ [e]), o1, acts1. split; [by rewrite <- app_assoc|done].
Qed.

Lemma release_run h o : cinv h o →
  ctri h o release (λ _ _ o', fd_open o' = false ∧ bfd o' = false ∧ limits o' = false ∧
    recv_job o' = false).
Proof.
  intros H. unfold release. tri_pure.
  apply (tri_mono _ _ _ _ _ (λ _ h' o', cinv h' o' ∧ sstate o' = SEND_STATE_NOT_INITED ∧ rstate o' = rstate o)).
  { unfold when. case_bool_decide; simpl; [by tri_pure|by apply send_free_run]. }
  intros _ h1 o1 (H1 & Hs1 & Hr1). rewrite <- Hr1. apply tri_bind.
  apply (tri_mono _ _ _ _ _ (λ _ h' o', cinv h' o' ∧ sstate o' = SEND_STATE_NOT_INITED ∧ rstate o' = RECV_STATE_NOT_INITED)).
  { unfold when. case_bool_decide; simpl; [by tri_pure|].
    eapply tri_mono; [by apply recv_free_run|]. intros _ ? ? (? & ? & Hx). split_and!; [done| |done]. by rewrite Hx. }
  intros _ h2 o2 (H2 & Hs2 & Hr2). unfold Free. tri_pure. apply tri_ASSERT; [by apply bool_decide_true|]. tri_pure.
  apply tri_ASSERT; [by rewrite bool_decide_true|]. tri_pure. destruct H2, c_open0 as (? & Hcl & ?).
  assert (recv_job o2 = false) by (destruct (recv_job o2); [destruct (c_job0 eq_refl); congruence|done]).
  unfold remove_bfd, when. rewrite Hcl.
  destruct (is_hupd o2) eqn:Eh in |- *; simpl; tri_pure.
  - apply tri_emit; [done|]. simpl. by rewrite c_bfd0, Eh.
  - apply tri_ASSERT; [simpl; by rewrite c_bfd0, Eh|]. tri_pure. apply tri_emit; [done|]. done.
Qed.

Lemma conn0_inv o acts : Init true = (Some o, acts) → cinv chist0 o.
Proof. intros [= <- <-]. split; done. Qed.

(** C24: What a connection reports is what happens on the socket.  For every sequence of
    calls, descriptor events and results of [write], [read] and the limits: the bytes
    written to the socket are exactly the parts of the submitted data that were reported as
    sent, in order, and the bytes read from it exactly those reported as received; every
    completion answers the one outstanding operation with a size in its range; and at most
    one error is reported.  An assertion fails exactly when the descriptor reports writing or
    reading for an operation that is not outstanding, and that happens only after an error
    event without a hangup that left out an event that was waited for. *)
Theorem conn_streams o acts0 es : Init true = (Some o, acts0) →
  match drive es o with
  | Some (_, o', acts) =>
      trace_ok cobs cact_ok chist0 acts ∧
      (let h := after cobs chist0 acts in h_out h = h_sent h ∧ h_in h = h_got h) ∧
      (∀ e, enabled o' e = true → step e o' = None ↔ stale o' e = true)
  | None => stuck o es
  end.
Proof.
  intros H0. pose proof (drive_cases es o (conn0_inv o acts0 H0)) as H.
  destruct (drive es o) as [[[[] o'] acts]|]; [|done]. destruct H as [Hok Hi]. split; [done|]. split; [apply Hi|].
  intros e He. split; [|apply stale_fails]. intros E. destruct (stale o' e) eqn:Hs; [done|].
  pose proof (step_run _ _ _ Hi He Hs) as Hw. apply tri_some in Hw as (? & ? & ? & E' & _). congruence.
Qed.

(** C25: No wakeup is lost.  After every run, as long as no error was reported, a send
    operation that has not ended is registered with the reactor for writing, and a receive
    operation for reading or has its job set; the descriptor is registered for exactly the
    events that are waited for, unless it was hung up.  Only operations that have not ended
    are waited for, unless an error event left out an event that was waited for.  And at any
    time, also after an error or a hangup, the user can free the interfaces and the
    connection, which leaves no socket, registration, limit or job. *)
Theorem conn_wakeup o acts0 es o' acts : Init true = (Some o, acts0) →
  drive es o = Some ((), o', acts) →
  (failed o' = false → sstate o' = SEND_STATE_BUSY → bfd o' = true ∧ has (bfd_events o') BREACTOR_WRITE = true) ∧
  (failed o' = false → rstate o' = RECV_STATE_BUSY →
     recv_job o' = true ∨ bfd o' = true ∧ has (bfd_events o') BREACTOR_READ = true) ∧
  (bfd o' = true → bfd_events o' = wait_events o') ∧
  (h_lone (after cobs chist0 acts) = false → bfd o' = true →
     (has (bfd_events o') BREACTOR_WRITE = true → sstate o' = SEND_STATE_BUSY) ∧
     (has (bfd_events o') BREACTOR_READ = true → rstate o' = RECV_STATE_BUSY)) ∧
  ∃ o'' acts'', release o' = Some ((), o'', acts'') ∧
    fd_open o'' = false ∧ bfd o'' = false ∧ limits o'' = false ∧ recv_job o'' = false.
Proof.
  intros H0 E. pose proof (drive_cases es o (conn0_inv o acts0 H0)) as Hw. rewrite E in Hw. destruct Hw as [_ H'].
  pose proof (release_run _ _ H') as Hrel. destruct H'. rewrite c_bfd0. split_and!.
  - intros Hf Hb. destruct (c_sending0 Hf Hb) as [?|[Hh Hx]]; [done|]. by rewrite Hh, (c_events0 Hh).
  - intros Hf Hb. destruct (c_receiving0 Hf Hb) as [?|[?|[Hh Hx]]]; [done|by left|]. right. by rewrite Hh, (c_events0 Hh).
  - intros Hh%negb_true_iff. auto.
  - intros L Hh%negb_true_iff. rewrite (c_events0 Hh). split; intros Hx.
    + by destruct (proj2 (c_write0 Hh Hx) L).
    + by destruct (proj2 (c_read0 Hh Hx) L) as (_ & ? & _).
  - apply tri_some in Hrel as ([] & o'' & acts'' & ? & _ & ?). eauto.
Qed.

End Conn.

(** ** Examples *)
Module ConnRun.
Import BReactor BConnection.

(** Five bytes are sent in two parts with a wait in between; three are received. *)
Definition es0 : list ev :=
  [ESendInit; ERecvInit; ERecv 10 true ReadBlocks; ESend [1; 2; 3; 4; 5] true (Wrote 3); ESend [4; 5] true WriteBlocks;
   EFd (Z.lor BREACTOR_READ BREACTOR_WRITE) true (Wrote 2) ReadBlocks; ERecvJob true (ReadData [7; 8; 9]); ERecv 10 false ReadBlocks].
Definition o0 : t := mk_t true true false true 0 0 true SEND_STATE_NOT_INITED [] false RECV_STATE_NOT_INITED 0 false false.
Definition end0 : option (() * t * list act) := drive es0 o0.
Lemma end0_value : (λ x, (sstate x.1.2, bfd_events x.1.2, h_sent (after cobs chist0 x.2), h_got (after cobs chist0 x.2))) <$> end0 =
  Some (SEND_STATE_READY, BREACTOR_READ, [1; 2; 3; 4; 5], [7; 8; 9]).
Proof. vm_compute. reflexivity. Qed.

(** An error event that leaves out the write event for which a send operation waits: the write
    that is then tried succeeds, the registration for writing stays, and the next write
    event fails an assertion. *)
Lemma lone_error_run : let es := [ESendInit; ESend [1; 2] true WriteBlocks; EFd BREACTOR_ERROR true (Wrote 2) ReadBlocks] in
  is_Some (drive es o0) ∧ drive (es ++ [EFd BREACTOR_WRITE true (Wrote 2) ReadBlocks]) o0 = None.
Proof. vm_compute. eauto. Qed.

Lemma conn_streams_witness : is_Some (drive es0 o0) ∧ match drive es0 o0 with
  | Some (_, o', acts) =>
      trace_ok cobs cact_ok chist0 acts ∧
      (let h := after cobs chist0 acts in h_out h = h_sent h ∧ h_in h = h_got h) ∧
      (∀ e, enabled o' e = true → step e o' = None ↔ stale o' e = true)
  | None => stuck o0 es0
  end.
Proof. split; [vm_compute; eauto|]. exact (conn_streams o0 [] es0 eq_refl). Defined.

Definition o1 : t := match drive [ERecvInit; ERecv 10 true ReadBlocks] o0 with Some (_, o, _) => o | None => o0 end.
Definition acts1 : list act := match drive [ERecvInit; ERecv 10 true ReadBlocks] o0 with Some (_, _, acts) => acts | None => [] end.
Lemma conn_wakeup_witness : recv_job o1 = true ∨ bfd o1 = true ∧ has (bfd_events o1) BREACTOR_READ = true.
Proof.
  assert (drive [ERecvInit; ERecv 10 true ReadBlocks] o0 = Some ((), o1, acts1)) as E by (vm_compute; reflexivity).
  destruct (conn_wakeup o0 [] _ o1 acts1 eq_refl E) as (_ & H & _). apply H; vm_compute; reflexivity.
Defined.
End ConnRun.
