(* ===== verification/Datagram.v ===== *)
(** * Datagram sockets: system/BDatagram_unix.c

    Like Connection.v, for datagrams: each operation carries one packet, sending
    waits until the addresses are set, receiving until the socket was bound or has
    sent something.  The theorems show that every submitted packet that completes
    went out once, unchanged and to the address that was set, that received packets
    are reported with their addresses, and that no wakeup is lost; and what happens
    when a user goes on after an error. *)
From stdpp Require Import base list numbers option.
From Stdlib Require Import ZArith Lia.
From S2P Require Import Prelude History ByteOrder Addr Reactor Connection.
#[local] Open Scope Z_scope.

Module BDatagram.
Import BReactor.

(** [struct sockaddr_in] and [struct sockaddr_in6]; other families. *)
Inductive sockaddr := sockaddr_in (port ip : Z) | sockaddr_in6 (port : Z) (ip : bytes) | sockaddr_other (family : Z).

(** [None]: [ASSERT(0)].  Packet sockets are left out. *)
Definition addr_socket_to_sys (a : BAddr) : option sockaddr :=
  match a with
  | BADDR_IPV4 ip port => Some (sockaddr_in port ip)
  | BADDR_IPV6 ip port => Some (sockaddr_in6 port ip)
  | _ => None
  end.
Definition addr_sys_to_socket (a : sockaddr) : BAddr :=
  match a with
  | sockaddr_in port ip => BADDR_IPV4 ip port
  | sockaddr_in6 port ip => BADDR_IPV6 ip port
  | sockaddr_other _ => BADDR_NONE
  end.

(** Control messages: [IP_PKTINFO] and [IPV6_PKTINFO]. *)
Inductive cmsg := IP_PKTINFO (ip : Z) | IPV6_PKTINFO (ip : bytes) | CMSG_OTHER.
Definition control_of (local : BIPAddr) : option cmsg :=
  match local with BIPADDR_IPV4 ip => Some (IP_PKTINFO ip) | BIPADDR_IPV6 ip => Some (IPV6_PKTINFO ip) | BIPADDR_NONE => None end.
(** The loop over the received control messages: the last one counts. *)
Fixpoint local_of (l : list cmsg) (acc : BIPAddr) : BIPAddr :=
  match l with
  | [] => acc
  | IP_PKTINFO ip :: l => local_of l (BIPADDR_IPV4 ip)
  | IPV6_PKTINFO ip :: l => local_of l (BIPADDR_IPV6 ip)
  | CMSG_OTHER :: l => local_of l acc
  end.

Definition AddressFamilySupported (a : BAddr) : bool := match a with BADDR_NONE => false | _ => true end.

Record t := mk_t {
  fd_open : bool; bfd : bool; bfd_events : Z; wait_events : Z; limits : bool;
  s_have_addrs : bool; s_remote : BAddr; s_local : BIPAddr; s_inited : bool; s_mtu : Z; s_job : bool; s_busy : bool; s_data : bytes;
  r_started : bool; r_have_addrs : bool; r_remote : BAddr; r_local : BIPAddr; r_inited : bool; r_mtu : Z; r_job : bool; r_busy : bool;
  failed : bool
}.
#[global] Instance eta_t : Eta t := λ o,
  mk_t (fd_open o) (bfd o) (bfd_events o) (wait_events o) (limits o)
    (s_have_addrs o) (s_remote o) (s_local o) (s_inited o) (s_mtu o) (s_job o) (s_busy o) (s_data o)
    (r_started o) (r_have_addrs o) (r_remote o) (r_local o) (r_inited o) (r_mtu o) (r_job o) (r_busy o) (failed o).

Inductive act :=
| AddrsSet (remote : BAddr) (local : BIPAddr) | Submitted (data : bytes) | SendMsg (name : sockaddr) (control : option cmsg) (data : bytes) | SendDone | SendFreed
| Requested | RecvMsg (name : sockaddr) (control : list cmsg) (data : bytes) | RecvDone (n : Z) | RecvFreed
| ReportError | Close | FdEvent (waited events : Z).
Abbreviation DM := (M t act).

Inductive send_result := Sent (bytes : Z) | SendBlocks | SendFails.
Inductive recv_result := Received (name : sockaddr) (control : list cmsg) (data : bytes) | RecvBlocks | RecvFails.

Definition set_events : DM () :=
  o ← get; ASSERT (bfd o);; ASSERT (waitable (wait_events o));; modify (λ o, o <| bfd_events := wait_events o |>).
Definition wait_for (flag : Z) : DM () :=
  modify (λ o, o <| wait_events := Z.lor (wait_events o) flag |>);; set_events.
Definition report_error : DM () :=
  o ← get; ASSERT (negb (failed o));; modify (λ o, o <| failed := true |>);; emit ReportError.

(** "if recv wasn't started yet, start it" *)
Definition start_recv : DM () :=
  o ← get;
  when (negb (r_started o))
    (modify (λ o, o <| r_started := true |>);;
     when (r_inited o && r_busy o) (modify (λ o, o <| r_job := true |>))).

Definition do_send (lim : bool) (res : send_result) : DM () :=
  o ← get;
  ASSERT (negb (failed o));;
  ASSERT (s_inited o);; ASSERT (s_busy o);; ASSERT (s_have_addrs o);;
  if negb lim then wait_for BREACTOR_WRITE
  else match addr_socket_to_sys (s_remote o) with
  | None => ASSERT false
  | Some sysaddr =>
      match res with
      | SendBlocks => wait_for BREACTOR_WRITE
      | SendFails => report_error
      | Sent bytes =>
          emit (SendMsg sysaddr (control_of (s_local o)) (s_data o));;
          ASSERT (0 <=? bytes);; ASSERT (bytes <=? zlen (s_data o));;
          start_recv;;
          modify (λ o, o <| s_busy := false |>);;
          emit SendDone
      end
  end.

Definition do_recv (lim : bool) (res : recv_result) : DM () :=
  o ← get;
  ASSERT (negb (failed o));;
  ASSERT (r_inited o);; ASSERT (r_busy o);; ASSERT (r_started o);;
  if negb lim then wait_for BREACTOR_READ
  else match res with
  | RecvBlocks => wait_for BREACTOR_READ
  | RecvFails => report_error
  | Received name control data =>
      emit (RecvMsg name control data);;
      ASSERT (zlen data <=? r_mtu o);;
      modify (λ o, o <| r_remote := addr_sys_to_socket name |> <| r_local := local_of control BIPADDR_NONE |>);;
      modify (λ o, o <| r_have_addrs := true |>);;
      modify (λ o, o <| r_busy := false |>);;
      emit (RecvDone (zlen data))
  end.

Definition fd_handler (events : Z) (lim : bool) (s : send_result) (r : recv_result) : DM () :=
  o ← get;
  ASSERT (negb (failed o));;
  modify (λ o, o <| wait_events := Z.ldiff (wait_events o) events |>);;
  set_events;;
  let err := has events (Z.lor BREACTOR_ERROR BREACTOR_HUP) in
  let have_send := has events BREACTOR_WRITE || err && s_inited o && s_busy o && s_have_addrs o in
  let have_recv := has events BREACTOR_READ || err && r_inited o && r_busy o && r_started o in
  ASSERT (negb have_send || s_inited o && s_busy o && s_have_addrs o);;
  ASSERT (negb have_recv || r_inited o && r_busy o && r_started o);;
  if have_send then
    when have_recv (modify (λ o, o <| r_job := true |>));;
    do_send lim s
  else if have_recv then do_recv lim r
  else report_error.

Definition send_job_handler (lim : bool) (s : send_result) : DM () :=
  modify (λ o, o <| s_job := false |>);;
  o ← get;
  ASSERT (negb (failed o));; ASSERT (s_inited o);; ASSERT (s_busy o);; ASSERT (s_have_addrs o);;
  do_send lim s.
Definition recv_job_handler (lim : bool) (r : recv_result) : DM () :=
  modify (λ o, o <| r_job := false |>);;
  o ← get;
  ASSERT (negb (failed o));; ASSERT (r_inited o);; ASSERT (r_busy o);; ASSERT (r_started o);;
  do_recv lim r.

Definition send_if_handler_send (data : bytes) : DM () :=
  o ← get;
  ASSERT (negb (failed o));;
  ASSERT (s_inited o);; ASSERT (negb (s_busy o));; ASSERT (zlen data <=? s_mtu o);;
  emit (Submitted data);;
  modify (λ o, o <| s_data := data |>);;
  modify (λ o, o <| s_busy := true |>);;
  if negb (s_have_addrs o) then mret ()
  else modify (λ o, o <| s_job := true |>).
Definition recv_if_handler_recv : DM () :=
  o ← get;
  ASSERT (negb (failed o));;
  ASSERT (r_inited o);; ASSERT (negb (r_busy o));;
  emit Requested;;
  modify (λ o, o <| r_busy := true |>);;
  if negb (r_started o) then mret ()
  else modify (λ o, o <| r_job := true |>).

(** Results of [socket], [badvpn_set_nonblocking] and [BReactor_AddFileDescriptor]. *)
Definition Init (socket nonblocking added : bool) : option t * list act :=
  if negb socket then (None, [])
  else if negb nonblocking then (None, [Close])
  else if negb added then (None, [Close])
  else (Some (mk_t true true 0 0 true false BADDR_NONE BIPADDR_NONE false 0 false false [] false false BADDR_NONE BIPADDR_NONE false 0 false false false), []).


(** [ok]: whether [bind] succeeds. *)
Definition Bind (a : BAddr) (ok : bool) : DM bool :=
  o ← get;
  ASSERT (negb (failed o));; ASSERT (AddressFamilySupported a);;
  ASSERT (bool_decide (is_Some (addr_socket_to_sys a)));;
  if negb ok then mret false else start_recv;; mret true.

Definition SetSendAddrs (remote : BAddr) (local : BIPAddr) : DM () :=
  o ← get;
  ASSERT (negb (failed o));; ASSERT (AddressFamilySupported remote);;
  emit (AddrsSet remote local);;
  modify (λ o, o <| s_remote := remote |> <| s_local := local |>);;
  when (negb (s_have_addrs o))
    (modify (λ o, o <| s_have_addrs := true |>);;
     when (s_inited o && s_busy o) (modify (λ o, o <| s_job := true |>))).


Definition SendAsync_Init (mtu : Z) : DM () :=
  o ← get;
  ASSERT (negb (failed o));; ASSERT (negb (s_inited o));; ASSERT (0 <=? mtu);;
  modify (λ o, o <| s_mtu := mtu |> <| s_job := false |> <| s_busy := false |> <| s_inited := true |>).
Definition SendAsync_Free : DM () :=
  o ← get;
  ASSERT (s_inited o);;
  modify (λ o, o <| wait_events := Z.ldiff (wait_events o) BREACTOR_WRITE |>);;
  set_events;;
  modify (λ o, o <| s_job := false |>);;
  modify (λ o, o <| s_inited := false |>);;
  emit SendFreed.
Definition RecvAsync_Init (mtu : Z) : DM () :=
  o ← get;
  ASSERT (negb (failed o));; ASSERT (negb (r_inited o));; ASSERT (0 <=? mtu);;
  modify (λ o, o <| r_mtu := mtu |> <| r_job := false |> <| r_busy := false |> <| r_inited := true |>).
Definition RecvAsync_Free : DM () :=
  o ← get;
  ASSERT (r_inited o);;
  modify (λ o, o <| wait_events := Z.ldiff (wait_events o) BREACTOR_READ |>);;
  set_events;;
  modify (λ o, o <| r_job := false |>);;
  modify (λ o, o <| r_inited := false |>);;
  emit RecvFreed.

(** ** The user, the reactor and the system *)

Inductive ev :=
| ESetAddrs (remote : BAddr) (local : BIPAddr) | EBind (a : BAddr) (ok : bool)
| ESendInit (mtu : Z) | ESendFree | ERecvInit (mtu : Z) | ERecvFree
| ESend (data : bytes) | ERecv
| EFd (events : Z) (lim : bool) (s : send_result) (r : recv_result)
| ESendJob (lim : bool) (s : send_result) | ERecvJob (lim : bool) (r : recv_result).

Definition step (e : ev) : DM () :=
  match e with
  | ESetAddrs remote local => SetSendAddrs remote local
  | EBind a ok => _ ← Bind a ok; mret ()
  | ESendInit mtu => SendAsync_Init mtu
  | ESendFree => SendAsync_Free
  | ERecvInit mtu => RecvAsync_Init mtu
  | ERecvFree => RecvAsync_Free
  | ESend data => send_if_handler_send data
  | ERecv => recv_if_handler_recv
  | EFd events lim s r => o ← get; emit (FdEvent (bfd_events o) events);; fd_handler events lim s r
  | ESendJob lim s => send_job_handler lim s
  | ERecvJob lim r => recv_job_handler lim r
  end.

Definition is_ip (a : BAddr) : bool := bool_decide (is_Some (addr_socket_to_sys a)).
(** [sendmsg] takes at most the packet, [recvmsg] gives at most the buffer's size. *)
Definition send_ok (data : bytes) (s : send_result) : bool := match s with Sent n => (0 <=? n) && (n <=? zlen data) | _ => true end.
Definition recv_ok (mtu : Z) (r : recv_result) : bool := match r with Received _ _ d => zlen d <=? mtu | _ => true end.

(** The user keeps to the states of the interfaces; after an error it only frees the object,
    before the reactor calls another handler (BDatagram.h).  The reactor calls the handler of the
    descriptor with events it waits for, an error or a hangup, and only when no job is pending. *)
Definition enabled (o : t) (e : ev) : bool :=
  match e with
  | ESetAddrs remote _ => negb (failed o) && is_ip remote
  | EBind a _ => negb (failed o) && is_ip a
  | ESendInit mtu => negb (failed o) && negb (s_inited o) && (0 <=? mtu)
  | ESendFree => s_inited o
  | ERecvInit mtu => negb (failed o) && negb (r_inited o) && (0 <=? mtu)
  | ERecvFree => r_inited o
  | ESend data => negb (failed o) && s_inited o && negb (s_busy o) && (zlen data <=? s_mtu o)
  | ERecv => negb (failed o) && r_inited o && negb (r_busy o)
  | EFd events _ s r => negb (failed o) && negb (s_job o) && negb (r_job o) &&
      (negb (has events BREACTOR_READ) || has (bfd_events o) BREACTOR_READ) &&
      (negb (has events BREACTOR_WRITE) || has (bfd_events o) BREACTOR_WRITE) &&
      send_ok (s_data o) s && recv_ok (r_mtu o) r
  | ESendJob _ s => s_job o && negb (failed o) && send_ok (s_data o) s
  | ERecvJob _ r => r_job o && negb (failed o) && recv_ok (r_mtu o) r
  end.
(** An event for an operation that is not outstanding: its registration was left behind. *)
Definition stale (o : t) (e : ev) : bool :=
  match e with
  | EFd events _ _ _ => has events BREACTOR_WRITE && negb (s_inited o && s_busy o && s_have_addrs o) ||
      has events BREACTOR_READ && negb (r_inited o && r_busy o && r_started o)
  | _ => false
  end.
Fixpoint drive (es : list ev) : DM () :=
  match es with
  | [] => mret ()
  | e :: es => o ← get; when (enabled o e) (step e);; drive es
  end.

End BDatagram.

(** ** What was submitted, sent and received *)
Record dhist := mk_dhist {
  d_addrs : option (BAddr * BIPAddr); d_cur : option bytes; d_count : nat; d_req : bool;
  d_last : option (BDatagram.sockaddr * list BDatagram.cmsg * bytes); d_errs : bool; d_lone : bool
}.
#[global] Instance eta_dhist : Eta dhist := λ h, mk_dhist (d_addrs h) (d_cur h) (d_count h) (d_req h) (d_last h) (d_errs h) (d_lone h).
Definition dhist0 : dhist := mk_dhist None None 0 false None false false.

Section Dgram.
Import BReactor BDatagram.

(** An error or hangup event that leaves out an event that is waited for. *)
Definition dlone_error (waited events : Z) : bool :=
  has events (Z.lor BREACTOR_ERROR BREACTOR_HUP) && negb (Z.ldiff waited events =? 0).

Definition dobs (h : dhist) (a : act) : dhist :=
  match a with
  | AddrsSet remote local => h <| d_addrs := Some (remote, local) |>
  | Submitted d => h <| d_cur := Some d |> <| d_count := 0%nat |>
  | SendMsg _ _ _ => h <| d_count := S (d_count h) |>
  | SendDone | SendFreed => h <| d_cur := None |>
  | Requested => h <| d_req := true |>
  | RecvMsg name control d => h <| d_last := Some (name, control, d) |>
  | RecvDone _ | RecvFreed => h <| d_req := false |>
  | ReportError => h <| d_errs := true |>
  | FdEvent waited events => h <| d_lone := d_lone h || dlone_error waited events |>
  | Close => h
  end.
(** What goes out is the submitted packet, to the addresses that were set last; it is
    reported as done after it went out exactly once.  What comes in was asked for. *)
Definition dact_ok (h : dhist) (a : act) : Prop :=
  match a with
  | Submitted _ => d_cur h = None ∧ d_errs h = false
  | SendMsg name control d => d_cur h = Some d ∧ d_count h = 0%nat ∧
      ∃ remote local, d_addrs h = Some (remote, local) ∧ addr_socket_to_sys remote = Some name ∧ control = control_of local
  | SendDone => is_Some (d_cur h) ∧ d_count h = 1%nat
  | Requested => d_req h = false ∧ d_errs h = false
  | RecvMsg _ _ _ => d_req h = true
  | RecvDone n => d_req h = true ∧ ∃ name control d, d_last h = Some (name, control, d) ∧ n = zlen d
  | ReportError => d_errs h = false
  | _ => True
  end.
Abbreviation dtri := (tri dobs dact_ok).

(** A send or receive operation that can be tried. *)
Definition sends (o : t) : Prop := s_inited o = true ∧ s_busy o = true ∧ s_have_addrs o = true.
Definition receives (o : t) : Prop := r_inited o = true ∧ r_busy o = true ∧ r_started o = true.

Record dinv_gen (ps pr : bool) (h : dhist) (o : t) : Prop := mk_dinv {
  di_open : fd_open o = true ∧ bfd o = true ∧ limits o = true;
  di_events : bfd_events o = wait_events o;
  di_waitable : waitable (wait_events o) = true;
  di_write : has (wait_events o) BREACTOR_WRITE = true → s_inited o = true ∧ s_have_addrs o = true ∧
    (d_lone h = false → ps = false ∧ s_job o = false ∧ sends o);
  di_read : has (wait_events o) BREACTOR_READ = true → r_inited o = true ∧ r_started o = true ∧
    (d_lone h = false → pr = false ∧ r_job o = false ∧ receives o);
  di_sjob : s_job o = true → ps = false ∧ sends o;
  di_rjob : r_job o = true → pr = false ∧ receives o;
  di_sending : failed o = false → sends o → ps = true ∨ s_job o = true ∨ has (wait_events o) BREACTOR_WRITE = true;
  di_receiving : failed o = false → receives o → pr = true ∨ r_job o = true ∨ has (wait_events o) BREACTOR_READ = true;
  di_cur : d_cur h = if s_inited o && s_busy o then Some (s_data o) else None;
  di_count : s_inited o = true → s_busy o = true → d_count h = 0%nat;
  di_req : d_req h = r_inited o && r_busy o;
  di_addrs : s_have_addrs o = true → d_addrs h = Some (s_remote o, s_local o) ∧ is_Some (addr_socket_to_sys (s_remote o));
  di_last : r_have_addrs o = true → ∃ name control d, d_last h = Some (name, control, d) ∧
    r_remote o = addr_sys_to_socket name ∧ r_local o = local_of control BIPADDR_NONE;
  di_err : d_errs h = failed o
}.
Definition dinv : dhist → t → Prop := dinv_gen false false.

Ltac dsplit := constructor; unfold sends, receives in *; simpl in *; try done.

Lemma dset_events_tri h o (Q : () → dhist → t → Prop) : bfd o = true → waitable (wait_events o) = true →
  Q () h (o <| bfd_events := wait_events o |>) → dtri h o set_events Q.
Proof. intros Hb Hw HQ. unfold set_events. tri_pure. apply tri_ASSERT; [done|]. tri_pure. by apply tri_ASSERT. Qed.

Lemma dwait_write_run pr h o : dinv_gen true pr h o → sends o →
  dtri h o (wait_for BREACTOR_WRITE) (λ _ h' o', dinv_gen false pr h' o').
Proof.
  intros [] Hs. unfold wait_for. tri_pure. apply dset_events_tri; [by apply di_open0|by apply waitable_lor|].
  assert (s_job o = false) as Hj by (destruct (s_job o); [by destruct (di_sjob0 eq_refl)|done]). dsplit.
  - by apply waitable_lor.
  - intros _. destruct Hs as (? & ? & ?). by split_and!.
  - intros Hr. rewrite read_lor in Hr. apply orb_true_iff in Hr as [Hr|Hr]; [auto|done].
  - intros _ _. right. right. by rewrite write_lor, orb_true_r.
  - intros Hf Hb. destruct (di_receiving0 Hf Hb) as [?|[?|Hr]]; [auto..|]. right. right. by rewrite read_lor, Hr.
Qed.
Lemma dwait_read_run ps h o : dinv_gen ps true h o → receives o →
  dtri h o (wait_for BREACTOR_READ) (λ _ h' o', dinv_gen ps false h' o').
Proof.
  intros [] Hs. unfold wait_for. tri_pure. apply dset_events_tri; [by apply di_open0|by apply waitable_lor|].
  assert (r_job o = false) as Hj by (destruct (r_job o); [by destruct (di_rjob0 eq_refl)|done]). dsplit.
  - by apply waitable_lor.
  - intros Hr. rewrite write_lor in Hr. apply orb_true_iff in Hr as [Hr|Hr]; [auto|done].
  - intros _. destruct Hs as (? & ? & ?). by split_and!.
  - intros Hf Hb. destruct (di_sending0 Hf Hb) as [?|[?|Hr]]; [auto..|]. right. right. by rewrite write_lor, Hr.
  - intros _ _. right. right. by rewrite read_lor, orb_true_r.
Qed.
Lemma dreport_error_run ps pr h o : dinv_gen ps pr h o → failed o = false →
  dtri h o report_error (λ _ h' o', dinv h' o').
Proof.
  intros [] Hf. unfold report_error. tri_pure. apply tri_ASSERT; [by rewrite Hf|]. tri_pure.
  apply tri_emit; [simpl; by rewrite di_err0|]. dsplit.
  - intros Hx. destruct (di_write0 Hx) as (? & ? & K). split_and!; [done..|]. intros L. by destruct (K L).
  - intros Hx. destruct (di_read0 Hx) as (? & ? & K). split_and!; [done..|]. intros L. by destruct (K L).
  - intros Hx. by destruct (di_sjob0 Hx).
  - intros Hx. by destruct (di_rjob0 Hx).
Qed.

(** Receiving starts: a receive operation that waits for it gets its job. *)
Lemma start_recv_run ps h h0 o : dinv_gen ps false h o →
  dtri h0 o start_recv (λ _ h' o', h' = h0 ∧ dinv_gen ps false h o' ∧ r_started o' = true ∧
    o' = o <| r_started := true |> <| r_job := r_job o' |>).
Proof.
  intros [] . unfold start_recv. tri_pure. unfold when.
  destruct (r_started o) eqn:Es in |- *; simpl; [tri_pure; split_and!; [done|by split|done|by destruct o; simpl in *; subst]|].
  assert (has (wait_events o) BREACTOR_READ = false) as Hx.
  { destruct (has (wait_events o) BREACTOR_READ) eqn:Ex; [|done]. destruct (di_read0 eq_refl) as (_ & ? & _). congruence. }
  tri_pure. destruct (r_inited o && r_busy o) eqn:Eb in |- *; tri_pure; (split_and!; [done| |done|by destruct o]);
    apply andb_true_iff in Eb || apply andb_false_iff in Eb; dsplit; try (by rewrite Hx).
  - intros _. by destruct Eb.
  - by auto.
  - intros Hj. destruct (di_rjob0 Hj) as (_ & _ & _ & ?). congruence.
  - intros _ (? & ? & _). destruct Eb; congruence.
Qed.
Lemma dsend_try h o lim r : dinv_gen true false h o → failed o = false → sends o → send_ok (s_data o) r = true →
  dtri h o (do_send lim r) (λ _ h' o', dinv h' o').
Proof.
  intros H Hf Hs Hr. destruct (id Hs) as (Hi & Hb & Ha). unfold do_send. tri_pure. apply tri_ASSERT; [by rewrite Hf|]. tri_pure.
  do 3 (apply tri_ASSERT; [done|]; tri_pure). destruct lim; simpl; [|by apply dwait_write_run].
  destruct (di_addrs _ _ _ _ H Ha) as [Had [sys Esys]]. rewrite Esys.
  destruct r as [n| |]; [|by apply dwait_write_run|by eapply dreport_error_run].
  simpl in Hr. apply andb_true_iff in Hr as [Hn Hle].
  tri_pure. apply tri_emit.
  { simpl. rewrite (di_cur _ _ _ _ H), Hi, Hb. simpl. split_and!; [done|by apply (di_count _ _ _ _ H)|]. eauto 6. }
  tri_pure. apply tri_ASSERT; [done|]. tri_pure. apply tri_ASSERT; [done|]. tri_pure.
  eapply tri_mono; [by apply (start_recv_run true h)|]. intros _ h1 o1 (-> & H1 & Hst & Eo). tri_pure.
  assert (is_Some (d_cur h) ∧ d_count h = 0%nat) as [Hc Hcnt].
  { rewrite (di_cur _ _ _ _ H), Hi, Hb. split; [eauto|]. by apply (di_count _ _ _ _ H). }
  apply tri_emit; [simpl; by rewrite Hcnt|]. clear H. destruct H1. dsplit.
  - intros Hx. destruct (di_write0 Hx) as (? & ? & K). split_and!; [done..|]. intros L. by destruct (K L).
  - intros Hx. by destruct (di_sjob0 Hx).
  - intros _ (_ & ? & _). done.
  - by rewrite andb_false_r.
Qed.

Lemma drecv_try h o lim r : dinv_gen false true h o → failed o = false → receives o → recv_ok (r_mtu o) r = true →
  dtri h o (do_recv lim r) (λ _ h' o', dinv h' o').
Proof.
  intros H Hf Hs Hr. destruct (id Hs) as (Hi & Hb & Ha). unfold do_recv. tri_pure. apply tri_ASSERT; [by rewrite Hf|]. tri_pure.
  do 3 (apply tri_ASSERT; [done|]; tri_pure). destruct lim; simpl; [|by apply dwait_read_run].
  destruct r as [name control d| |]; [|by apply dwait_read_run|by eapply dreport_error_run].
  assert (d_req h = true) as Hreq by (by rewrite (di_req _ _ _ _ H), Hi, Hb).
  tri_pure. apply tri_emit; [done|]. tri_pure. apply tri_ASSERT; [done|]. tri_pure.
  apply tri_emit; [simpl; split; [done|]; eauto|]. destruct H. dsplit.
  - intros Hx. destruct (di_read0 Hx) as (? & ? & K). split_and!; [done..|]. intros L. by destruct (K L).
  - intros Hx. by destruct (di_rjob0 Hx).
  - intros _ (_ & ? & _). done.
  - by rewrite andb_false_r.
  - intros _. by exists name, control, d.
Qed.

(** The handler of the descriptor, up to the operations it tries. *)
Section FdEvent.
Context (h : dhist) (o : t) (events : Z).
Hypothesis (Hinv : dinv h o) (Hfail : failed o = false) (Hsj : s_job o = false) (Hrj : r_job o = false).
Hypothesis (Hwrite : has events BREACTOR_WRITE = true → sends o).
Hypothesis (Hread : has events BREACTOR_READ = true → receives o).
Hypothesis (Herr : d_lone h = false → dlone_error (wait_events o) events = false).

Let err := has events (Z.lor BREACTOR_ERROR BREACTOR_HUP).
Let hs := has events BREACTOR_WRITE || err && s_inited o && s_busy o && s_have_addrs o.
Let hr := has events BREACTOR_READ || err && r_inited o && r_busy o && r_started o.

Lemma dhave_send : hs = true → sends o.
Proof. intros [Hw|Hw]%orb_true_iff; [by auto|]. repeat (apply andb_true_iff in Hw as [Hw ?]). done. Qed.
Lemma dhave_recv : hr = true → receives o.
Proof. intros [Hw|Hw]%orb_true_iff; [by auto|]. repeat (apply andb_true_iff in Hw as [Hw ?]). done. Qed.
Lemma derror_clears flag : d_lone h = false → err = true → has (Z.ldiff (wait_events o) events) flag = false.
Proof.
  subst err. intros L He. specialize (Herr L). unfold dlone_error in Herr. rewrite He in Herr. simpl in Herr.
  apply negb_false_iff, Z.eqb_eq in Herr. by rewrite Herr.
Qed.

Lemma dfd_event_inv : dinv_gen hs (hr && negb hs) h
  (o <| wait_events := Z.ldiff (wait_events o) events |> <| bfd_events := Z.ldiff (wait_events o) events |> <| r_job := hs && hr |>).
Proof.
  pose proof dhave_send as Hsb. pose proof dhave_recv as Hrb. pose proof derror_clears as Hec. destruct Hinv. dsplit.
  - by apply waitable_ldiff.
  - intros Hx. pose proof Hx as Hx'. rewrite write_ldiff in Hx. apply andb_true_iff in Hx as [Hx He%negb_true_iff].
    destruct (di_write0 Hx) as (? & ? & K). split_and!; [done..|]. intros L. destruct (K L) as (_ & ? & ?). split; [|done].
    destruct err eqn:E; [by rewrite Hec in Hx'|]. subst hs. by rewrite He.
  - intros Hx. pose proof Hx as Hx'. rewrite read_ldiff in Hx. apply andb_true_iff in Hx as [Hx He%negb_true_iff].
    destruct (di_read0 Hx) as (? & ? & K). split_and!; [done..|]. intros L. destruct (K L) as (_ & ? & ?).
    destruct err eqn:E; [by rewrite Hec in Hx'|].
    assert (hr = false) as -> by (subst hr; by rewrite He). by rewrite andb_false_r.
  - intros Hx. congruence.
  - intros [Hs Hr]%andb_true_iff. rewrite Hs, Hr. split; [done|]. by apply Hrb.
  - intros _ (Hi & Hb & Ha). destruct hs eqn:E; [by left|]. right. right. subst hs. rewrite Hi, Hb, Ha, !andb_true_r in E.
    apply orb_false_iff in E as [Ew _]. destruct (di_sending0 Hfail ltac:(done)) as [?|[?|Hx]]; [done|congruence|]. by rewrite write_ldiff, Hx, Ew.
  - intros _ (Hi & Hb & Ha). destruct hr eqn:E; [destruct hs; simpl; auto|]. right. right. subst hr. rewrite Hi, Hb, Ha, !andb_true_r in E.
    apply orb_false_iff in E as [Ew _]. destruct (di_receiving0 Hfail ltac:(done)) as [?|[?|Hx]]; [done|congruence|]. by rewrite read_ldiff, Hx, Ew.
Qed.
End FdEvent.

Lemma dinv_lone h o b : dinv h o → dinv (h <| d_lone := d_lone h || b |>) o.
Proof.
  intros []. dsplit.
  - intros Hx. destruct (di_write0 Hx) as (? & ? & K). split_and!; [done..|]. intros [L _]%orb_false_iff. auto.
  - intros Hx. destruct (di_read0 Hx) as (? & ? & K). split_and!; [done..|]. intros [L _]%orb_false_iff. auto.
Qed.

(** A stale event is reported only after a lone error, and fails an assertion. *)
Lemma dstale_lone h o e : dinv h o → enabled o e = true → stale o e = true → d_lone h = true.
Proof.
  intros H He Hs. destruct e as [| | | | | | | |events lim s r| |]; try done. simpl in He, Hs. repeat (apply andb_true_iff in He as [He ?]).
  rewrite (di_events _ _ _ _ H) in *. destruct (d_lone h) eqn:L; [done|].
  apply orb_true_iff in Hs as [[E Hs%negb_true_iff]%andb_true_iff|[E Hs%negb_true_iff]%andb_true_iff].
  - rewrite E in H2. destruct (di_write _ _ _ _ H H2) as (_ & _ & K). destruct (K L) as (_ & _ & Hi & Hb & Ha).
    by rewrite Hi, Hb, Ha in Hs.
  - rewrite E in H3. destruct (di_read _ _ _ _ H H3) as (_ & _ & K). destruct (K L) as (_ & _ & Hi & Hb & Ha).
    by rewrite Hi, Hb, Ha in Hs.
Qed.
Lemma dstale_fails o e : stale o e = true → step e o = None.
Proof.
  destruct e as [| | | | | | | |events lim s r| |]; try done. intros Hs. simpl in Hs.
  destruct o as [fo bf be we li sh sr sl si sm sj sb sd rs rh rr rl ri rm rj rb fa]. simpl in Hs.
  unfold step, fd_handler, set_events, mbind, M_bind, get, emit, ASSERT, modify, when, mret, M_ret. simpl.
  destruct fa; [done|]. destruct bf; [simpl|done]. destruct (waitable _); [simpl|done].
  apply orb_true_iff in Hs as [[-> ->%negb_true_iff]%andb_true_iff|[-> ->%negb_true_iff]%andb_true_iff]; [done|].
  simpl. by destruct (negb _ || _).
Qed.

Lemma dfd_handler_run h o events lim s r : dinv h o → enabled o (EFd events lim s r) = true →
  stale o (EFd events lim s r) = false → (d_lone h = false → dlone_error (bfd_events o) events = false) →
  dtri h o (fd_handler events lim s r) (λ _ h' o', dinv h' o').
Proof.
  intros H He Hst Hlone. simpl in He, Hst. repeat (apply andb_true_iff in He as [He ?]). apply orb_false_iff in Hst as [Hsw Hsr].
  rewrite (di_events _ _ _ _ H) in *. apply negb_true_iff in He, H4, H5.
  assert (has events BREACTOR_WRITE = true → sends o) as Hwr.
  { intros E. rewrite E in Hsw. apply negb_false_iff in Hsw. by apply andb_true_iff in Hsw as [[? ?]%andb_true_iff ?]. }
  assert (has events BREACTOR_READ = true → receives o) as Hrd.
  { intros E. rewrite E in Hsr. apply negb_false_iff in Hsr. by apply andb_true_iff in Hsr as [[? ?]%andb_true_iff ?]. }
  pose proof (dfd_event_inv h o events H He H5 H4 Hwr Hrd Hlone) as Hok.
  pose proof (dhave_send o events Hwr) as Hsb. pose proof (dhave_recv o events Hrd) as Hrb.
  destruct (di_open _ _ _ _ H) as (_ & Hbfd & _). pose proof (di_waitable _ _ _ _ H) as Hwt. clear H.
  unfold fd_handler. tri_pure. apply tri_ASSERT; [by rewrite He|]. tri_pure.
  apply dset_events_tri; simpl; [done|by apply waitable_ldiff|]. tri_pure.
  set (hs := has events BREACTOR_WRITE || _) in *. set (hr := has events BREACTOR_READ || _) in *. clearbody hs hr.
  apply tri_ASSERT. { destruct hs; [|done]. destruct Hsb as (-> & -> & ->); done. }
  tri_pure. apply tri_ASSERT. { destruct hr; [|done]. destruct Hrb as (-> & -> & ->); done. }
  cbv beta. destruct o as [fo bf be we li sh sr sl si sm sj sb sd rs rh rr rl ri rm rj rb fa]. simpl in *. subst.
  destruct hs; [|destruct hr]; simpl in Hok |- *.
  - apply tri_bind. destruct hr; unfold when; tri_pure; (apply dsend_try; [exact Hok|done|by apply Hsb|done]).
  - apply drecv_try; [exact Hok|done|by apply Hrb|done].
  - by eapply (dreport_error_run false false).
Qed.
Lemma dfd_step_run h o events lim s r : dinv h o → enabled o (EFd events lim s r) = true →
  stale o (EFd events lim s r) = false → dtri h o (step (EFd events lim s r)) (λ _ h' o', dinv h' o').
Proof.
  intros H He Hs. cbn [step]. tri_pure. apply tri_emit; [done|]. apply dfd_handler_run; try done; [by apply dinv_lone|].
  simpl. by intros [_ L]%orb_false_iff.
Qed.

Lemma set_addrs_run h o remote local : dinv h o → enabled o (ESetAddrs remote local) = true →
  dtri h o (SetSendAddrs remote local) (λ _ h' o', dinv h' o').
Proof.
  intros H He. simpl in He. apply andb_true_iff in He as [Hf%negb_true_iff Hip%bool_decide_eq_true].
  unfold SetSendAddrs. tri_pure. apply tri_ASSERT; [by rewrite Hf|]. tri_pure.
  apply tri_ASSERT; [by destruct remote, Hip|]. tri_pure. apply tri_emit; [done|]. tri_pure. destruct H.
  unfold when. destruct (s_have_addrs o) eqn:Ea in |- *; simpl; tri_pure; [dsplit; by intros _|].
  assert (has (wait_events o) BREACTOR_WRITE = false) as Hx.
  { destruct (has (wait_events o) BREACTOR_WRITE) eqn:Ex; [|done]. destruct (di_write0 eq_refl) as (_ & ? & _). congruence. }
  destruct (s_inited o && s_busy o) eqn:Eb in |- *; tri_pure;
    apply andb_true_iff in Eb || apply andb_false_iff in Eb; dsplit; try (by rewrite Hx).
  - intros _. by destruct Eb.
  - by auto.
  - intros Hj. destruct (di_sjob0 Hj) as (_ & _ & _ & ?). congruence.
  - intros _ (? & ? & _). destruct Eb; congruence.
Qed.
Lemma bind_run h o a ok : dinv h o → enabled o (EBind a ok) = true → dtri h o (step (EBind a ok)) (λ _ h' o', dinv h' o').
Proof.
  intros H He. simpl in He. apply andb_true_iff in He as [Hf%negb_true_iff Hip]. simpl. unfold Bind. tri_pure.
  apply tri_ASSERT; [by rewrite Hf|]. tri_pure. apply tri_ASSERT; [apply bool_decide_eq_true in Hip; by destruct a, Hip|]. tri_pure.
  apply tri_ASSERT; [done|]. destruct ok; simpl; tri_pure; [|done].
  eapply tri_mono; [by apply (start_recv_run false h)|]. by intros _ h1 o1 (-> & H1 & _).
Qed.
Lemma dsend_init_run h o mtu : dinv h o → enabled o (ESendInit mtu) = true → dtri h o (SendAsync_Init mtu) (λ _ h' o', dinv h' o').
Proof.
  intros H He. simpl in He. apply andb_true_iff in He as [[Hf%negb_true_iff Hi%negb_true_iff]%andb_true_iff Hm].
  unfold SendAsync_Init. tri_pure. apply tri_ASSERT; [by rewrite Hf|]. tri_pure. apply tri_ASSERT; [by rewrite Hi|]. tri_pure.
  apply tri_ASSERT; [done|]. tri_pure. destruct H. dsplit.
  - intros Hx. destruct (di_write0 Hx). congruence.
  - intros _ (_ & ? & _). done.
  - by rewrite di_cur0, Hi.
Qed.
Lemma drecv_init_run h o mtu : dinv h o → enabled o (ERecvInit mtu) = true → dtri h o (RecvAsync_Init mtu) (λ _ h' o', dinv h' o').
Proof.
  intros H He. simpl in He. apply andb_true_iff in He as [[Hf%negb_true_iff Hi%negb_true_iff]%andb_true_iff Hm].
  unfold RecvAsync_Init. tri_pure. apply tri_ASSERT; [by rewrite Hf|]. tri_pure. apply tri_ASSERT; [by rewrite Hi|]. tri_pure.
  apply tri_ASSERT; [done|]. tri_pure. destruct H. dsplit.
  - intros Hx. destruct (di_read0 Hx). congruence.
  - intros _ (_ & ? & _). done.
  - by rewrite di_req0, Hi.
Qed.
Lemma dsend_free_run h o : dinv h o → s_inited o = true →
  dtri h o SendAsync_Free (λ _ h' o', dinv h' o' ∧ s_inited o' = false ∧ r_inited o' = r_inited o).
Proof.
  intros H Hi. unfold SendAsync_Free. tri_pure. apply tri_ASSERT; [done|]. tri_pure. destruct H.
  apply dset_events_tri; [by apply di_open0|by apply waitable_ldiff|]. tri_pure. apply tri_emit; [done|]. split_and!; [|done..]. dsplit.
  - by apply waitable_ldiff.
  - intros Hx. rewrite write_ldiff in Hx. by rewrite andb_false_r in Hx.
  - intros Hx. rewrite read_ldiff, andb_true_r in Hx. auto.
  - intros _ (? & _). done.
  - intros Hf Hb. rewrite read_ldiff, andb_true_r. auto.
Qed.
Lemma drecv_free_run h o : dinv h o → r_inited o = true →
  dtri h o RecvAsync_Free (λ _ h' o', dinv h' o' ∧ r_inited o' = false ∧ s_inited o' = s_inited o).
Proof.
  intros H Hi. unfold RecvAsync_Free. tri_pure. apply tri_ASSERT; [done|]. tri_pure. destruct H.
  apply dset_events_tri; [by apply di_open0|by apply waitable_ldiff|]. tri_pure. apply tri_emit; [done|]. split_and!; [|done..]. dsplit.
  - by apply waitable_ldiff.
  - intros Hx. rewrite write_ldiff, andb_true_r in Hx. auto.
  - intros Hx. rewrite read_ldiff in Hx. by rewrite andb_false_r in Hx.
  - intros Hf Hb. rewrite write_ldiff, andb_true_r. auto.
  - intros _ (? & _). done.
Qed.
Lemma submit_packet_run h o data : dinv h o → enabled o (ESend data) = true → dtri h o (send_if_handler_send data) (λ _ h' o', dinv h' o').
Proof.
  intros H He. simpl in He. apply andb_true_iff in He as [[[Hf%negb_true_iff Hi]%andb_true_iff Hb%negb_true_iff]%andb_true_iff Hl].
  unfold send_if_handler_send. tri_pure. apply tri_ASSERT; [by rewrite Hf|]. tri_pure. apply tri_ASSERT; [done|]. tri_pure.
  apply tri_ASSERT; [by rewrite Hb|]. tri_pure. apply tri_ASSERT; [done|]. tri_pure.
  apply tri_emit. { simpl. by rewrite (di_cur _ _ _ _ H), Hi, Hb, (di_err _ _ _ _ H). }
  tri_pure. destruct H.
  assert (has (wait_events o) BREACTOR_WRITE = true → s_inited o = true ∧ s_have_addrs o = true ∧ (d_lone h = false → False)) as Hx.
  { intros Hx. destruct (di_write0 Hx) as (? & ? & K). split_and!; [done..|]. intros L. destruct (K L) as (_ & _ & _ & ? & _). congruence. }
  destruct (s_have_addrs o) eqn:Ea in |- *; simpl; tri_pure; dsplit; rewrite ?Hi; try done.
  - intros H. destruct (Hx H) as (_ & _ & K). split_and!; [done..|]. intros L. by destruct (K L).
  - auto.
  - intros H. destruct (Hx H) as (_ & ? & _). congruence.
  - intros Hj. destruct (di_sjob0 Hj) as (_ & _ & ? & _). congruence.
  - intros _ (_ & _ & ?). congruence.
Qed.
Lemma request_packet_run h o : dinv h o → enabled o ERecv = true → dtri h o recv_if_handler_recv (λ _ h' o', dinv h' o').
Proof.
  intros H He. simpl in He. apply andb_true_iff in He as [[Hf%negb_true_iff Hi]%andb_true_iff Hb%negb_true_iff].
  unfold recv_if_handler_recv. tri_pure. apply tri_ASSERT; [by rewrite Hf|]. tri_pure. apply tri_ASSERT; [done|]. tri_pure.
  apply tri_ASSERT; [by rewrite Hb|]. tri_pure.
  apply tri_emit. { simpl. rewrite (di_req _ _ _ _ H), Hi, Hb, (di_err _ _ _ _ H). done. }
  tri_pure. destruct H.
  assert (has (wait_events o) BREACTOR_READ = true → r_inited o = true ∧ r_started o = true ∧ (d_lone h = false → False)) as Hx.
  { intros Hx. destruct (di_read0 Hx) as (? & ? & K). split_and!; [done..|]. intros L. destruct (K L) as (_ & _ & _ & ? & _). congruence. }
  destruct (r_started o) eqn:Ea in |- *; simpl; tri_pure; dsplit; rewrite ?Hi; try done.
  - intros H. destruct (Hx H) as (_ & _ & K). split_and!; [done..|]. intros L. by destruct (K L).
  - auto.
  - intros H. destruct (Hx H) as (_ & ? & _). congruence.
  - intros Hj. destruct (di_rjob0 Hj) as (_ & _ & ? & _). congruence.
  - intros _ (_ & _ & ?). congruence.
Qed.
Lemma dsend_job_run h o lim s : dinv h o → enabled o (ESendJob lim s) = true → dtri h o (send_job_handler lim s) (λ _ h' o', dinv h' o').
Proof.
  intros H He. simpl in He. apply andb_true_iff in He as [[Hj Hf%negb_true_iff]%andb_true_iff Hr].
  destruct (di_sjob _ _ _ _ H Hj) as [_ (Hi & Hb & Ha)]. unfold send_job_handler. tri_pure. apply tri_ASSERT; [simpl; by rewrite Hf|]. tri_pure.
  do 3 (apply tri_ASSERT; [done|]; tri_pure). apply dsend_try; [|done..]. destruct H. dsplit.
  - intros Hx. destruct (di_write0 Hx) as (? & ? & K). split_and!; [done..|]. intros L. destruct (K L) as (_ & ? & _). congruence.
  - auto.
Qed.
Lemma drecv_job_run h o lim r : dinv h o → enabled o (ERecvJob lim r) = true → dtri h o (recv_job_handler lim r) (λ _ h' o', dinv h' o').
Proof.
  intros H He. simpl in He. apply andb_true_iff in He as [[Hj Hf%negb_true_iff]%andb_true_iff Hr].
  destruct (di_rjob _ _ _ _ H Hj) as [_ (Hi & Hb & Ha)]. unfold recv_job_handler. tri_pure. apply tri_ASSERT; [simpl; by rewrite Hf|]. tri_pure.
  do 3 (apply tri_ASSERT; [done|]; tri_pure). apply drecv_try; [|done..]. destruct H. dsplit.
  - intros Hx. destruct (di_read0 Hx) as (? & ? & K). split_and!; [done..|]. intros L. destruct (K L) as (_ & ? & _). congruence.
  - auto.
Qed.

Lemma dstep_run h o e : dinv h o → enabled o e = true → stale o e = false → dtri h o (step e) (λ _ h' o', dinv h' o').
Proof.
  intros H He Hst. destruct e; cbn [step].
  - by apply set_addrs_run.
  - by apply bind_run.
  - by apply dsend_init_run.
  - eapply tri_mono; [by apply dsend_free_run|]. by intros _ ? ? [? _].
  - by apply drecv_init_run.
  - eapply tri_mono; [by apply drecv_free_run|]. by intros _ ? ? [? _].
  - by apply submit_packet_run.
  - by apply request_packet_run.
  - by apply dfd_step_run.
  - by apply dsend_job_run.
  - by apply drecv_job_run.
Qed.
(** A step that fails, and the run up to it. *)
Definition dstuck (o : t) (es : list ev) : Prop :=
  ∃ es1 e es2 o1 acts1, es = es1 ++ e :: es2 ∧ drive es1 o = Some ((), o1, acts1) ∧
    enabled o1 e = true ∧ stale o1 e = true ∧ d_lone (after dobs dhist0 acts1) = true.

Lemma ddrive_app es1 es2 : ∀ o o1 acts1, drive es1 o = Some ((), o1, acts1) →
  drive (es1 ++ es2) o = match drive es2 o1 with Some (u, o', l) => Some (u, o', acts1 ++ l) | None => None end.
Proof.
  induction es1 as [|e es1 IH]; intros o o1 acts1; simpl.
  - intros [= <- <-]. by destruct (drive es2 o) as [[[? ?] ?]|].
  - unfold mbind, M_bind, get. simpl. destruct (when (enabled o e) (step e) o) as [[[[] o2] l2]|]; [|done].
    destruct (drive es1 o2) as [[[[] o3] l3]|] eqn:E; [|done]. intros [= <- <-]. rewrite (IH _ _ _ E).
    destruct (drive es2 o3) as [[[? ?] ?]|]; [|done]. by rewrite <- !app_assoc.
Qed.

Lemma ddrive_cases es o : dinv dhist0 o →
  match drive es o with
  | Some (_, o', acts) => trace_ok dobs dact_ok dhist0 acts ∧ dinv (after dobs dhist0 acts) o'
  | None => dstuck o es
  end.
Proof.
  intros H. induction es as [|e es IH] using rev_ind; [by split|].
  destruct (drive es o) as [[[[] o1] acts1]|] eqn:E.
  - destruct IH as [Hok H1]. rewrite (ddrive_app es [e] o o1 acts1 E). simpl. unfold mbind, M_bind, get. simpl. unfold when.
    destruct (enabled o1 e) eqn:He; [|simpl; by rewrite app_nil_r].
    destruct (stale o1 e) eqn:Hs.
    + rewrite (dstale_fails _ _ Hs). exists es, e, [], o1, acts1. split_and!; try done. by eapply dstale_lone.
    + pose proof (dstep_run _ _ _ H1 He Hs) as Hw. apply tri_some in Hw as ([] & o2 & acts2 & -> & Hok2 & H2). simpl.
      rewrite app_nil_r. split; [by apply trace_ok_app|]. by rewrite after_app.
  - destruct IH as (es1 & e' & es2 & o1 & acts1 & -> & Hd & Hrest).
    assert (drive ((es1 ++ e' :: es2) ++ [e]) o = None) as ->.
    { rewrite <- app_assoc. rewrite (ddrive_app es1 _ o o1 acts1 Hd). destruct Hrest as (He & Hs & _).
      simpl. unfold mbind, M_bind, get. simpl. unfold when. rewrite He. by rewrite (dstale_fails _ _ Hs). }
    exists es1, e', (es2 ++ [e]), o1, acts1. split; [by rewrite <- app_assoc|done].
Qed.


Lemma dgram0_inv o acts : Init true true true = (Some o, acts) → dinv dhist0 o.
Proof. intros [= <- <-]. dsplit; by intros _ (? & _). Qed.
Lemma driven es o acts0 o' acts : Init true true true = (Some o, acts0) → drive es o = Some ((), o', acts) →
  trace_ok dobs dact_ok dhist0 acts ∧ dinv (after dobs dhist0 acts) o'.
Proof.
  intros H0 E. pose proof (ddrive_cases es _ (dgram0_inv o acts0 H0)) as Hw. by rewrite E in Hw.
Qed.



(** After a receive error the socket receives no more.  When [recvmsg] fails on a
    readable descriptor, the buffer stays provided, but the descriptor is no longer
    registered for reading and no job is set, so nothing will try to receive again
    until the user frees the interface, as the interface requires; a user that only
    logs the error, as [dgram_handler] of the UDP relay does, gets no packets any more. *)
Theorem dgram_error_stalls o acts0 es o' acts events lim : Init true true true = (Some o, acts0) →
  drive es o = Some ((), o', acts) → enabled o' (EFd events lim SendBlocks RecvFails) = true → stale o' (EFd events lim SendBlocks RecvFails) = false →
  has events BREACTOR_READ = true → has events BREACTOR_WRITE = false → has events (Z.lor BREACTOR_ERROR BREACTOR_HUP) = false →
  ∃ o'', fd_handler events true SendBlocks RecvFails o' = Some ((), o'', [ReportError]) ∧
    r_busy o'' = true ∧ r_job o'' = false ∧ has (bfd_events o'') BREACTOR_READ = false.
Proof.
  intros H0 E He Hst Hr Hw Herr. destruct (driven es o acts0 o' acts H0 E) as [_ H].
  cbn [enabled] in He. rewrite !andb_true_iff in He. destruct He as ((((((Hf%negb_true_iff & _) & Hj%negb_true_iff) & Hrd) & _) & _) & _).
  cbn [stale] in Hst. rewrite Hr, Hw in Hst. cbn [andb orb] in Hst. apply negb_false_iff in Hst.
  apply andb_true_iff in Hst as [[Hi Hb]%andb_true_iff Hs]. destruct (di_open _ _ _ _ H) as (_ & Hbfd & _).
  pose proof (waitable_ldiff _ events (di_waitable _ _ _ _ H)) as Hwt.
  exists (o' <| wait_events := Z.ldiff (wait_events o') events |> <| bfd_events := Z.ldiff (wait_events o') events |> <| failed := true |>).
  split; [|split_and!; [done..|]; simpl; by rewrite read_ldiff, Hr, andb_false_r].
  unfold fd_handler, set_events, do_recv, report_error, mbind, M_bind, get, ASSERT, modify, emit, mret, M_ret, when.
  rewrite Hf, Hr, Hw, Herr. simpl. rewrite Hbfd, Hwt, Hi, Hb, Hs. simpl. rewrite Hf. simpl. repeat (rewrite ?Hi, ?Hb, ?Hs, ?Hf; simpl). done.
Qed.
End Dgram.

(** ** Examples *)
Module DgramRun.
Import BReactor BDatagram.

Definition es0 : list ev :=
  [ESetAddrs (BADDR_IPV4 1 2) (BIPADDR_IPV4 0); ESendInit 100; ERecvInit 100; ERecv; ESend [1; 2; 3]; ESendJob true SendBlocks;
   EFd BREACTOR_WRITE true (Sent 3) RecvBlocks; ERecvJob true (Received (sockaddr_in 4 3) [CMSG_OTHER; IP_PKTINFO 9] [7; 8]); ERecv; ERecvJob true RecvBlocks].
Definition o0 : t := match Init true true true with
  | (Some o, _) => o | _ => mk_t true true 0 0 true false BADDR_NONE BIPADDR_NONE false 0 false false [] false false BADDR_NONE BIPADDR_NONE false 0 false false false end.
Definition run0 := drive es0 o0.
Definition o1 : t := match run0 with Some (_, o, _) => o | None => o0 end.
Definition acts1 : list act := match run0 with Some (_, _, acts) => acts | None => [] end.
Lemma dgram_run0 : drive es0 o0 = Some ((), o1, acts1).
Proof. vm_compute. reflexivity. Qed.
Lemma run0_acts : acts1 = [AddrsSet (BADDR_IPV4 1 2) (BIPADDR_IPV4 0); Requested; Submitted [1; 2; 3];
  FdEvent BREACTOR_WRITE BREACTOR_WRITE; SendMsg (sockaddr_in 2 1) (Some (IP_PKTINFO 0)) [1; 2; 3]; SendDone;
  RecvMsg (sockaddr_in 4 3) [CMSG_OTHER; IP_PKTINFO 9] [7; 8]; RecvDone 2; Requested].
Proof. vm_compute. reflexivity. Qed.

(** An error event that leaves out the read event for which a receive operation waits: the packet
    that is then received is reported, the registration stays, and the next read event fails
    an assertion. *)
Lemma lone_error_packet : let es := es0 ++ [EFd BREACTOR_ERROR true SendBlocks (Received (sockaddr_in 4 3) [] [1])] in
  is_Some (drive es o0) ∧ drive (es ++ [EFd BREACTOR_READ true SendBlocks RecvBlocks]) o0 = None.
Proof. vm_compute. eauto. Qed.

Lemma dgram_error_stalls_witness : ∃ o'', fd_handler BREACTOR_READ true SendBlocks RecvFails o1 = Some ((), o'', [ReportError]) ∧
  r_busy o'' = true ∧ r_job o'' = false ∧ has (bfd_events o'') BREACTOR_READ = false.
Proof. exact (dgram_error_stalls o0 [] es0 o1 acts1 BREACTOR_READ true eq_refl dgram_run0 eq_refl eq_refl eq_refl eq_refl eq_refl). Defined.
End DgramRun.
