(* ===== verification/FairQueue.v ===== *)
(** * Fair queue: flow/PacketPassFairQueue.c

    Many flows share one output.  Every flow has a virtual time, which grows with
    what it sends; the queued flow with the smallest time goes next.  The queue
    keeps the queued flows in a search tree (here: any tree that satisfies the
    contract of Index.v, as that of structure/SAvl_impl.h does, see CAvl.v) and all flows in a list, over which it subtracts time when
    the 64-bit times would overflow. *)
From stdpp Require Import base list sets gmap numbers relations.
From Stdlib Require Import ZArith Lia Sorting.Sorted.
From S2P Require Import Prelude ByteOrder Addr Index Avl CAvl.
#[local] Open Scope Z_scope.

Module PacketPassFairQueue.

Definition FAIRQUEUE_MAX_TIME : Z := UINT64_MAX.

(** [data] stands for the pointer to the queued packet. *)
Record flow := mk_flow { time : Z; is_queued : bool; data : nat; data_len : Z; handler_busy : bool }.
#[global] Instance eta_flow : Eta flow := λ f, mk_flow (time f) (is_queued f) (data f) (data_len f) (handler_busy f).

(** The queue and its flows; [mtu] is that of the output, [schedule_job] whether the
    job is set, [d_ctr] the debugging counter. *)
Record t (T : Type) := mk_t {
  use_cancel : bool; packet_weight : Z; mtu : Z;
  sending_flow : option nat; sending_len : Z; previous_flow : option nat;
  queued_tree : T; flows_list : list nat; freeing : bool; schedule_job : bool;
  flows : gmap nat flow; d_ctr : Z
}.
#[global] Arguments mk_t {T}. #[global] Arguments use_cancel {T}. #[global] Arguments packet_weight {T}.
#[global] Arguments mtu {T}. #[global] Arguments sending_flow {T}. #[global] Arguments sending_len {T}.
#[global] Arguments previous_flow {T}. #[global] Arguments queued_tree {T}. #[global] Arguments flows_list {T}.
#[global] Arguments freeing {T}. #[global] Arguments schedule_job {T}. #[global] Arguments flows {T}. #[global] Arguments d_ctr {T}.
#[global] Instance eta_t {T} : Eta (t T) := λ m,
  mk_t (use_cancel m) (packet_weight m) (mtu m) (sending_flow m) (sending_len m) (previous_flow m)
    (queued_tree m) (flows_list m) (freeing m) (schedule_job m) (flows m) (d_ctr m).

Inductive act :=
| Send (flow data : nat) (len : Z)   (** [PacketPassInterface_Sender_Send] on the output, for the packet of [flow] *)
| Done (flow : nat)                  (** [PacketPassInterface_Done] on the input of the flow *)
| CallBusy (flow : nat)              (** the busy handler of the flow *)
| RequestCancel.                     (** [PacketPassInterface_Sender_RequestCancel] on the output *)

(** The key of a flow in the tree: its time and its address. *)
Definition compare_flows (k1 k2 : Z * Z) : Z :=
  let cmp := B_COMPARE k1.1 k2.1 in
  if cmp =? 0 then B_COMPARE k1.2 k2.2 else cmp.

Section Ops.
Context {T : Type} {ops : IndexOps (Z * Z) T}.
Abbreviation FM := (M (t T) act).

Definition key (m : t T) (f : nat) : Z * Z :=
  (match flows m !! f with Some fl => time fl | None => 0 end, Z.of_nat f).

Definition deref (f : nat) : FM flow := λ m, fl ← flows m !! f; Some (fl, m, []).
Definition set_flow (f : nat) (fl : flow) : FM () := modify (λ m, m <| flows := <[f := fl]> (flows m) |>).
Definition first_flow : FM (option nat) := gets (λ m, ix_first (queued_tree m)).

Definition get_current_time : FM Z :=
  m ← get;
  match sending_flow m with
  | Some f => fl ← deref f; mret (time fl)
  | None =>
      first ← first_flow;
      '(time1, have1) ← (match first with
        | Some f => fl ← deref f; ASSERT (is_queued fl);; mret (time fl, true)
        | None => mret (0, false)
        end);
      '(time2, have2) ← (match previous_flow m with
        | Some f => fl ← deref f;
            mret (if negb have1 || (time fl <? time1) then (time fl, true) else (time1, have1))
        | None => mret (time1, have1)
        end);
      mret (if have2 : bool then time2 else 0)
  end.

(** The loop of [increment_sent_flow] over the flows. *)
Fixpoint subtract_loop (l : list nat) (flow : nat) (subtract : Z) : FM () :=
  match l with
  | [] => mret ()
  | someflow :: l =>
      fl ← deref someflow;
      (if (time fl <? subtract) && negb (bool_decide (someflow = flow)) then
         ASSERT (negb (is_queued fl));;
         set_flow someflow (fl <| time := 0 |>)
       else set_flow someflow (fl <| time := u64 (time fl - subtract) |>));;
      subtract_loop l flow subtract
  end.

Definition increment_sent_flow (flow : nat) (amount : Z) : FM () :=
  m ← get;
  ASSERT (amount <=? FAIRQUEUE_MAX_TIME);;
  fl ← deref flow;
  ASSERT (negb (is_queued fl));;
  ASSERT (bool_decide (sending_flow m = None));;
  when (FAIRQUEUE_MAX_TIME - time fl <? amount)
    (first ← first_flow;
     subtract ← (match first with
       | None => mret (time fl)
       | Some f => ffl ← deref f; ASSERT (is_queued ffl);; mret (time ffl)
       end);
     subtract_loop (flows_list m) flow subtract);;
  fl ← deref flow;
  set_flow flow (fl <| time := u64 (time fl + amount) |>).

Definition schedule : FM () :=
  m ← get;
  ASSERT (bool_decide (sending_flow m = None));;
  ASSERT (bool_decide (previous_flow m = None));;
  ASSERT (negb (freeing m));;
  qflow ← first_flow;
  match qflow with
  | None => ASSERT false
  | Some qflow =>
      fl ← deref qflow;
      ASSERT (is_queued fl);;
      modify (λ m, m <| queued_tree := ix_remove qflow (queued_tree m) |>);;
      set_flow qflow (fl <| is_queued := false |>);;
      emit (Send qflow (data fl) (data_len fl));;
      modify (λ m, m <| sending_flow := Some qflow |> <| sending_len := data_len fl |>)
  end.

(** [BPendingGroup_ExecuteJob] unsets the job before it calls the handler. *)
Definition schedule_job_handler : FM () :=
  modify (λ m, m <| schedule_job := false |>);;
  m ← get;
  ASSERT (bool_decide (sending_flow m = None));;
  ASSERT (negb (freeing m));;
  modify (λ m, m <| previous_flow := None |>);;
  first ← first_flow;
  when (bool_decide (is_Some first)) schedule.

Definition input_handler_send (flow : nat) (data' : nat) (len : Z) : FM () :=
  m ← get;
  ASSERT (negb (bool_decide (sending_flow m = Some flow)));;
  fl ← deref flow;
  ASSERT (negb (is_queued fl));;
  ASSERT (negb (freeing m));;
  (if bool_decide (previous_flow m = Some flow) then modify (λ m, m <| previous_flow := None |>)
   else
     now ← get_current_time;
     set_flow flow (fl <| time := Z.max (time fl) now |>));;
  fl ← deref flow;
  set_flow flow (fl <| data := data' |> <| data_len := len |>);;
  m ← get;
  (match ix_insert compare_flows (key m) flow (queued_tree m) with
   | None => ASSERT false
   | Some tr => modify (λ m, m <| queued_tree := tr |>)
   end);;
  fl ← deref flow;
  set_flow flow (fl <| is_queued := true |>);;
  m ← get;
  when (bool_decide (sending_flow m = None) && negb (schedule_job m)) schedule.

Definition output_handler_done : FM () :=
  m ← get;
  match sending_flow m with
  | None => ASSERT false
  | Some flow =>
      ASSERT (bool_decide (previous_flow m = None));;
      ASSERT (negb (schedule_job m));;
      ASSERT (negb (freeing m));;
      fl ← deref flow;
      ASSERT (negb (is_queued fl));;
      modify (λ m, m <| sending_flow := None |>);;
      modify (λ m, m <| previous_flow := Some flow |>);;
      increment_sent_flow flow (packet_weight m + sending_len m);;
      modify (λ m, m <| schedule_job := true |>);;
      emit (Done flow);;
      fl ← deref flow;
      when (handler_busy fl) (set_flow flow (fl <| handler_busy := false |>);; emit (CallBusy flow))
  end.

(** [None]: the result 0.  The contents of the members that are not set are arbitrary. *)
Definition Init (out_mtu : Z) (cancel : bool) (weight : Z) : option (t T) :=
  if negb ((out_mtu <=? FAIRQUEUE_MAX_TIME) && (weight <=? FAIRQUEUE_MAX_TIME - out_mtu)) then None
  else Some (mk_t cancel weight out_mtu None 0 None ix_empty [] false false ∅ 0).

Definition Free : FM () :=
  m ← get;
  ASSERT (bool_decide (flows_list m = []));;
  ASSERT (bool_decide (ix_first (queued_tree m) = None));;
  ASSERT (bool_decide (previous_flow m = None));;
  ASSERT (bool_decide (sending_flow m = None));;
  ASSERT (d_ctr m =? 0);;
  modify (λ m, m <| schedule_job := false |>).

Definition PrepareFree : FM () := modify (λ m, m <| freeing := true |>).

Definition Flow_Init (flow : nat) : FM () :=
  m ← get;
  ASSERT (negb (freeing m));;
  set_flow flow (mk_flow 0 false 0 0 false);;
  modify (λ m, m <| flows_list := flows_list m ++ [flow] |>);;
  modify (λ m, m <| d_ctr := d_ctr m + 1 |>).

(** The memory of the flow goes back to its owner. *)
Definition Flow_Free (flow : nat) : FM () :=
  m ← get;
  ASSERT (freeing m || negb (bool_decide (sending_flow m = Some flow)));;
  modify (λ m, m <| d_ctr := d_ctr m - 1 |>);;
  when (bool_decide (sending_flow m = Some flow)) (modify (λ m, m <| sending_flow := None |>));;
  when (bool_decide (previous_flow m = Some flow)) (modify (λ m, m <| previous_flow := None |>));;
  fl ← deref flow;
  when (is_queued fl) (modify (λ m, m <| queued_tree := ix_remove flow (queued_tree m) |>));;
  modify (λ m, m <| flows_list := filter (λ g, g ≠ flow) (flows_list m) |>);;
  modify (λ m, m <| flows := delete flow (flows m) |>).

Definition Flow_IsBusy (flow : nat) : FM bool :=
  m ← get; ASSERT (negb (freeing m));; mret (bool_decide (sending_flow m = Some flow)).

Definition Flow_RequestCancel (flow : nat) : FM () :=
  m ← get;
  ASSERT (bool_decide (sending_flow m = Some flow));;
  ASSERT (use_cancel m);;
  ASSERT (negb (freeing m));;
  ASSERT (negb (schedule_job m));;
  emit RequestCancel.

Definition Flow_SetBusyHandler (flow : nat) (handler : bool) : FM () :=
  m ← get;
  ASSERT (bool_decide (sending_flow m = Some flow));;
  ASSERT (negb (freeing m));;
  fl ← deref flow;
  set_flow flow (fl <| handler_busy := handler |>).

End Ops.
End PacketPassFairQueue.

(** ** Invariants *)
Section FairQueue.
Import PacketPassFairQueue.
Context {T : Type} {ops : IndexOps (Z * Z) T}.
Abbreviation fq := (t T).

Lemma compare_flows_lt k1 k2 : compare_flows k1 k2 = -1 ↔ k1.1 < k2.1 ∨ k1.1 = k2.1 ∧ k1.2 < k2.2.
Proof.
  unfold compare_flows. pose proof (B_COMPARE_spec k1.1 k2.1) as (? & ? & ?). pose proof (B_COMPARE_spec k1.2 k2.2) as (? & ? & ?).
  destruct (Z.eqb_spec (B_COMPARE k1.1 k2.1) 0); lia.
Qed.
#[global] Instance compare_flows_total : TotalCmp (λ _ : Z * Z, True) compare_flows.
Proof.
  split.
  - intros a b _ _. unfold compare_flows, B_COMPARE. repeat case_match; repeat (destruct (_ <? _)); simpl; lia.
  - intros [a1 a2] [b1 b2] _ _. unfold compare_flows. pose proof (B_COMPARE_spec a1 b1). pose proof (B_COMPARE_spec a2 b2). simpl.
    destruct (Z.eqb_spec (B_COMPARE a1 b1) 0); split; intros E; try (injection E as -> ->); try (f_equal; lia); lia.
  - intros [a1 a2] [b1 b2] _ _. unfold compare_flows, B_COMPARE. simpl.
    destruct (Z.ltb_spec a1 b1), (Z.ltb_spec b1 a1), (Z.ltb_spec a2 b2), (Z.ltb_spec b2 a2); simpl; lia.
  - intros a b c _ _ _. rewrite !compare_flows_lt. lia.
Qed.

Context {laws : IndexLaws ops (λ _, True) compare_flows}.

Definition tm (m : fq) (f : nat) : Z := (key m f).1.
Definition queued (m : fq) (f : nat) : Prop := ∃ fl, flows m !! f = Some fl ∧ is_queued fl = true.
(** A flow that is being sent or was just sent. *)
Definition unqueued (m : fq) (f : nat) : Prop := ∃ fl, flows m !! f = Some fl ∧ is_queued fl = false.
Definition flow_ok (m : fq) (fl : flow) : Prop :=
  0 ≤ time fl ≤ FAIRQUEUE_MAX_TIME ∧ (is_queued fl = true → 0 ≤ data_len fl ≤ mtu m).

Record finv (m : fq) : Prop := mk_finv {
  fi_dom f : f ∈ flows_list m ↔ is_Some (flows m !! f);
  fi_nodup : NoDup (flows_list m);
  fi_wf : ix_wf (key m) (queued_tree m);
  fi_tree f : f ∈ ix_elems (queued_tree m) ↔ queued m f;
  fi_flows f fl : flows m !! f = Some fl → flow_ok m fl;
  fi_sending f : sending_flow m = Some f → unqueued m f ∧ 0 ≤ sending_len m ≤ mtu m;
  fi_previous f : previous_flow m = Some f → unqueued m f;
  fi_ctr : d_ctr m = zlen (flows_list m);
  fi_weight : 0 < packet_weight m ∧ 0 ≤ mtu m ∧ packet_weight m + mtu m ≤ FAIRQUEUE_MAX_TIME
}.
(** ... and until [PrepareFree]: while nothing is being sent and no scheduling is
    due, no flow waits; a waiting flow is not behind the one that is being sent. *)
Record rinv (m : fq) : Prop := mk_rinv {
  ri_freeing : freeing m = false;
  ri_job : schedule_job m = true → sending_flow m = None;
  ri_previous : schedule_job m = false → previous_flow m = None;
  ri_idle f : sending_flow m = None → schedule_job m = false → ¬ queued m f;
  ri_min f g : sending_flow m = Some f → queued m g → tm m f ≤ tm m g
}.

Lemma tm_lookup m f fl : flows m !! f = Some fl → tm m f = time fl.
Proof. intros E. unfold tm, key. by rewrite E. Qed.
Lemma wp_flow_deref f fl (m : fq) Q : flows m !! f = Some fl → Q fl m [] → wp (deref f) m Q.
Proof. intros E HQ. unfold wp, deref. by rewrite E. Qed.
Lemma wp_eq {A} (c : M fq act A) m a m' l Q : c m = Some (a, m', l) → Q a m' l → wp c m Q.
Proof. intros E HQ. unfold wp. by rewrite E. Qed.
Lemma wp_set_flow f fl (m : fq) Q : Q () (m <| flows := <[f := fl]> (flows m) |>) [] → wp (set_flow f fl) m Q.
Proof. done. Qed.

(** The first of the tree has the smallest time. *)
Lemma first_min m f : finv m → ix_first (queued_tree m) = Some f → queued m f ∧ ∀ g, queued m g → tm m f ≤ tm m g.
Proof.
  intros H E. rewrite (ix_first_spec (key m)) in E by apply H. pose proof (ix_ordered _ _ (fi_wf m H)) as [_ Hs].
  destruct (ix_elems (queued_tree m)) as [|f' l] eqn:El; [done|]. injection E as ->. split.
  - apply (fi_tree m H). rewrite El. left.
  - intros g Hg. apply (fi_tree m H) in Hg. rewrite El in Hg. apply elem_of_cons in Hg as [->|Hg]; [done|].
    apply StronglySorted_inv in Hs as [_ Hs]. rewrite list.Forall_forall in Hs. specialize (Hs _ Hg).
    apply compare_flows_lt in Hs. unfold tm. lia.
Qed.
Lemma first_none m f : finv m → ix_first (queued_tree m) = None → ¬ queued m f.
Proof.
  intros H E Hf. rewrite (ix_first_spec (key m)) in E by apply H. apply (fi_tree m H) in Hf.
  destruct (ix_elems (queued_tree m)); [by apply elem_of_nil in Hf|done].
Qed.

Lemma get_current_time_run m : finv m →
  wp get_current_time m (λ n m' acts, m' = m ∧ acts = [] ∧ 0 ≤ n ≤ FAIRQUEUE_MAX_TIME ∧
    ∀ g, sending_flow m = Some g → n = tm m g).
Proof.
  intros H. assert (∀ f fl, flows m !! f = Some fl → 0 ≤ time fl ≤ FAIRQUEUE_MAX_TIME) as Ht by (intros; by eapply (fi_flows m H)).
  unfold get_current_time. apply wp_bind, wp_get. destruct (sending_flow m) as [f|] eqn:Es.
  { destruct (fi_sending m H f Es) as [(fl & Ef & _) _]. apply wp_bind, (wp_flow_deref f fl); [done|]. apply wp_ret.
    split_and!; [done|done|by eapply Ht..|]. intros g [= <-]. by rewrite (tm_lookup m f fl). }
  apply wp_bind, wp_gets, wp_bind.
  apply (wp_mono _ _ (λ r m' acts, m' = m ∧ acts = [] ∧ 0 ≤ r.1 ≤ FAIRQUEUE_MAX_TIME ∧ (r.2 = false → r.1 = 0))).
  { destruct (ix_first (queued_tree m)) as [f|] eqn:Ef; [|by apply wp_ret].
    destruct (first_min m f H Ef) as [(fl & El & Eq) _]. apply wp_bind, (wp_flow_deref f fl); [done|].
    apply wp_bind, wp_ASSERT; [done|]. apply wp_ret. split_and!; [done|done|by eapply Ht..|done]. }
  intros [t1 h1] m1 acts (-> & -> & H1 & H1'). apply wp_bind.
  apply (wp_mono _ _ (λ r m' acts, m' = m ∧ acts = [] ∧ 0 ≤ r.1 ≤ FAIRQUEUE_MAX_TIME)).
  { destruct (previous_flow m) as [f|] eqn:Ef; [|by apply wp_ret]. destruct (fi_previous m H f Ef) as (fl & El & _).
    apply wp_bind, (wp_flow_deref f fl); [done|]. apply wp_ret. split; [done|]. split; [done|].
    pose proof (Ht f fl El). simpl in H1. by destruct (negb h1 || _). }
  intros [t2 h2] m1 acts (-> & -> & H2). apply wp_ret. split_and!; try done; destruct h2; simpl in *; unfold FAIRQUEUE_MAX_TIME, UINT64_MAX in *; lia.
Qed.

(** *** Adding to the time of the flow that has been sent *)

(** All times have moved down by [d], those below it to 0, and [amount] has been
    added to the time of [f]. *)
Definition new_time (d : Z) (f : nat) (amount : Z) (g : nat) (fl : flow) : Z :=
  if decide (g = f) then time fl - d + amount else Z.max 0 (time fl - d).
Definition shifted (d : Z) (f : nat) (amount : Z) (F F' : gmap nat flow) : Prop :=
  ∀ g, F' !! g = (λ fl, fl <| time := new_time d f amount g fl |>) <$> F !! g.

Lemma subtract_loop_run l f d (m : fq) : NoDup l → 0 ≤ d ≤ FAIRQUEUE_MAX_TIME →
  (∀ g, g ∈ l → ∃ fl, flows m !! g = Some fl ∧ 0 ≤ time fl ≤ FAIRQUEUE_MAX_TIME ∧ (is_queued fl = true → d ≤ time fl)) →
  wp (subtract_loop l f d) m (λ _ m' acts, acts = [] ∧ ∃ F', m' = m <| flows := F' |> ∧
    ∀ g, F' !! g = if decide (g ∈ l)
      then (λ fl, fl <| time := if decide (g = f) then u64 (time fl - d) else Z.max 0 (time fl - d) |>) <$> flows m !! g
      else flows m !! g).
Proof.
  intros Hnd Hd. revert m. induction Hnd as [|g l Hg Hnd IH]; intros m Hl; cbn [subtract_loop].
  { apply wp_ret. split; [done|]. exists (flows m). split; [by destruct m|]. intros g. by rewrite decide_False by set_solver. }
  destruct (Hl g) as (fl & Eg & Ht & Hq); [left|]. apply wp_bind, (wp_flow_deref g fl); [done|]. apply wp_bind.
  set (fl' := fl <| time := if decide (g = f) then u64 (time fl - d) else Z.max 0 (time fl - d) |>).
  apply (wp_mono _ _ (λ _ m' acts, acts = [] ∧ m' = m <| flows := <[g := fl']> (flows m) |>)).
  - destruct (Z.ltb_spec (time fl) d) as [Hlt|Hge]; simpl.
    + destruct (bool_decide_reflect (g = f)) as [Hgf|Hgf]; simpl.
      * apply wp_set_flow. split; [done|]. unfold fl'. by rewrite decide_True.
      * apply wp_bind, wp_ASSERT; [destruct (is_queued fl); [specialize (Hq eq_refl); lia|done]|].
        apply wp_set_flow. split; [done|]. unfold fl'. rewrite decide_False by done. rewrite Z.max_l by lia. done.
    + apply wp_set_flow. split; [done|]. unfold fl'. case_decide; [done|]. rewrite Z.max_r by lia.
      unfold u64. rewrite Z.mod_small; [done|]. unfold FAIRQUEUE_MAX_TIME, UINT64_MAX in *. lia.
  - intros _ m1 acts (-> & ->). eapply wp_mono; [apply IH|].
    + intros h Hh. destruct (Hl h) as (flh & Eh & ?); [by right|]. exists flh. split; [|done]. simpl.
      rewrite lookup_insert_ne; [done|]. by intros ->.
    + intros _ m2 acts (-> & F' & -> & HF). split; [done|]. exists F'. split; [done|]. intros h. rewrite HF. simpl.
      destruct (decide (h = g)) as [->|Hne].
      * rewrite decide_False by done. rewrite decide_True by left. rewrite lookup_insert_eq, Eg. done.
      * rewrite lookup_insert_ne by done. destruct (decide (h ∈ l)).
        -- by rewrite decide_True by (by right).
        -- by rewrite decide_False by set_solver.
Qed.

Lemma increment_run m f amount : finv m → sending_flow m = None → unqueued m f → 0 ≤ amount ≤ FAIRQUEUE_MAX_TIME →
  (∀ g, queued m g → tm m f ≤ tm m g) →
  wp (increment_sent_flow f amount) m (λ _ m' acts, acts = [] ∧ ∃ F' d, m' = m <| flows := F' |> ∧
    shifted d f amount (flows m) F' ∧ 0 ≤ d ∧ (∀ g, queued m g → d ≤ tm m g) ∧ 0 ≤ tm m f - d + amount ≤ FAIRQUEUE_MAX_TIME).
Proof.
  intros H Hs (fl & Ef & Hq) Ha Hmin. pose proof (fi_flows m H f fl Ef) as [Ht _]. rewrite (tm_lookup m f fl Ef) in *.
  unfold increment_sent_flow. apply wp_bind, wp_get, wp_bind, wp_ASSERT; [apply Z.leb_le; lia|].
  apply wp_bind, (wp_flow_deref f fl); [done|]. apply wp_bind, wp_ASSERT; [by rewrite Hq|].
  apply wp_bind, wp_ASSERT; [by apply bool_decide_true|]. apply wp_bind, wp_when.
  - intros Ho%Z.ltb_lt. apply wp_bind, wp_gets, wp_bind.
    apply (wp_mono _ _ (λ d m' acts, m' = m ∧ acts = [] ∧ 0 ≤ d ≤ FAIRQUEUE_MAX_TIME ∧ (∀ g, queued m g → d ≤ tm m g) ∧
      0 ≤ time fl - d + amount ≤ FAIRQUEUE_MAX_TIME)).
    { destruct (ix_first (queued_tree m)) as [g|] eqn:Eg.
      - destruct (first_min m g H Eg) as [(flg & Elg & Eqg) Hg]. apply wp_bind, (wp_flow_deref g flg); [done|].
        apply wp_bind, wp_ASSERT; [done|]. apply wp_ret. pose proof (fi_flows m H g flg Elg) as [Htg _].
        rewrite (tm_lookup m g flg Elg) in Hg. split_and!; try done; try lia.
        specialize (Hmin g). rewrite (tm_lookup m g flg Elg) in Hmin. assert (queued m g) as Hqg by (by eexists). specialize (Hmin Hqg). lia.
      - apply wp_ret. split_and!; try done; try lia. }
    intros d m1 acts (-> & -> & Hd & Hdq & Hr).
    eapply wp_mono; [apply subtract_loop_run; [apply H|done|]|].
    { intros g Hg. apply (fi_dom m H) in Hg as [flg Eg]. exists flg. pose proof (fi_flows m H g flg Eg) as [Htg _].
      split_and!; [done|lia|lia|]. intros Eq. rewrite <- (tm_lookup m g flg Eg). apply Hdq. by eexists. }
    intros _ m1 acts (-> & F' & -> & HF). assert (f ∈ flows_list m) as Hfl by (apply (fi_dom m H); eauto).
    apply wp_bind. eapply wp_flow_deref; [simpl; rewrite HF, Ef, decide_True by done; simpl; by rewrite decide_True|].
    apply wp_set_flow. split; [done|]. eexists _, d. split; [done|]. split; [|split_and!; try done; lia].
    intros g. simpl. destruct (decide (g = f)) as [->|Hne].
    + rewrite lookup_insert_eq, Ef. simpl. f_equal. unfold new_time. rewrite decide_True by done.
      assert (u64 (u64 (time fl - d) + amount) = time fl - d + amount) as E.
      { unfold u64. rewrite Zplus_mod_idemp_l. apply Z.mod_small. unfold FAIRQUEUE_MAX_TIME, UINT64_MAX in *. lia. }
      by rewrite E.
    + rewrite lookup_insert_ne, HF by done. unfold new_time. destruct (flows m !! g) as [flg|] eqn:Eg; simpl.
      * rewrite decide_True by (apply (fi_dom m H); eauto). simpl. by rewrite !decide_False by done.
      * by case_decide.
  - intros Ho%Z.ltb_ge. apply wp_bind, (wp_flow_deref f fl); [done|]. apply wp_set_flow. split; [done|].
    exists (<[f := fl <| time := u64 (time fl + amount) |>]> (flows m)), 0. split; [done|]. split_and!; try lia.
    + intros g. destruct (decide (g = f)) as [->|Hne].
      * rewrite lookup_insert_eq, Ef. simpl. unfold new_time. rewrite decide_True by done.
        assert (u64 (time fl + amount) = time fl - 0 + amount) as ->; [|done].
        unfold u64. rewrite Z.mod_small; [lia|]. unfold FAIRQUEUE_MAX_TIME, UINT64_MAX in *. lia.
      * rewrite lookup_insert_ne by done. destruct (flows m !! g) as [flg|] eqn:Eg; [|done]. simpl. f_equal.
        unfold new_time. rewrite decide_False by done. pose proof (fi_flows m H g flg Eg) as [Htg _].
        rewrite Z.max_r by lia. rewrite Z.sub_0_r. by destruct flg.
    + intros g (flg & Eg & _). rewrite (tm_lookup m g flg Eg). pose proof (fi_flows m H g flg Eg) as [Htg _]. lia.
Qed.

Lemma StronglySorted_impl {A} (R R' : A → A → Prop) l : StronglySorted R l →
  (∀ x y, x ∈ l → y ∈ l → R x y → R' x y) → StronglySorted R' l.
Proof.
  induction 1 as [|x l Hs IH Hx]; intros HR; constructor.
  - apply IH. intros y z ??. apply HR; by right.
  - rewrite list.Forall_forall in Hx |- *. intros y Hy. apply HR; [left|by right|by apply Hx].
Qed.

Lemma shifted_queued d f a (m : fq) F' g : shifted d f a (flows m) F' → queued (m <| flows := F' |>) g ↔ queued m g.
Proof.
  intros Hs. unfold queued. simpl. rewrite (Hs g). split.
  - intros (fl & E & Hq). destruct (flows m !! g) as [fl0|]; [|done]. simpl in E. injection E as <-. eauto.
  - intros (fl & E & Hq). rewrite E. simpl. eauto.
Qed.
Lemma shifted_unqueued d f a (m : fq) F' g : shifted d f a (flows m) F' → unqueued m g → unqueued (m <| flows := F' |>) g.
Proof. intros Hs (fl & E & Hq). unfold unqueued. simpl. rewrite (Hs g), E. simpl. eauto. Qed.
Lemma shifted_tm d f a (m : fq) F' g : shifted d f a (flows m) F' → is_Some (flows m !! g) →
  tm (m <| flows := F' |>) g = if decide (g = f) then tm m g - d + a else Z.max 0 (tm m g - d).
Proof. intros Hs [fl E]. unfold tm, key. simpl. rewrite (Hs g), E. done. Qed.

Lemma shifted_finv d f a m F' : finv m → unqueued m f → shifted d f a (flows m) F' → 0 ≤ d →
  (∀ g, queued m g → d ≤ tm m g) → 0 ≤ tm m f - d + a ≤ FAIRQUEUE_MAX_TIME → finv (m <| flows := F' |>).
Proof.
  intros H Hf Hs Hd Hq Hr. pose proof (fi_tree m H) as Htree.
  assert (∀ g, queued m g → tm (m <| flows := F' |>) g = tm m g - d) as Hshift.
  { intros g Hg. pose proof Hg as (fl & E & Eq). rewrite (shifted_tm d f a) by eauto. case_decide as Hgf.
    - subst g. destruct Hf as (fl' & E' & Eq'). congruence.
    - specialize (Hq g Hg). lia. }
  split; simpl; try apply H.
  - intros g. rewrite (fi_dom m H g), (Hs g). by rewrite fmap_is_Some.
  - apply (ix_rekey (key m)); [apply H|]. destruct (ix_ordered _ _ (fi_wf m H)) as [Hok Hsort]. split; [done|].
    eapply StronglySorted_impl; [exact Hsort|]. intros x y Hx%Htree Hy%Htree.
    apply Hshift in Hx, Hy. unfold tm, key in Hx, Hy. rewrite !compare_flows_lt. simpl in *. rewrite Hx, Hy. lia.
  - intros g. rewrite Htree. symmetry. by apply (shifted_queued d f a).
  - intros g fl'. rewrite (Hs g). destruct (flows m !! g) as [fl|] eqn:Eg; [|done]. simpl. intros [= <-].
    destruct (fi_flows m H g fl Eg) as [Ht Hl]. split; [|done]. simpl. unfold new_time. case_decide as Hgf; [|lia].
    subst g. by rewrite (tm_lookup m f fl Eg) in Hr.
  - intros g Hg. destruct (fi_sending m H g Hg). split; [|done]. by eapply shifted_unqueued.
  - intros g Hg. eapply shifted_unqueued; [done|]. by apply (fi_previous m H).
Qed.

(** *** Choosing the next flow *)

Definition scheduled (m : fq) (q : nat) (fl : flow) : fq :=
  m <| queued_tree := ix_remove q (queued_tree m) |> <| flows := <[q := fl <| is_queued := false |>]> (flows m) |>
    <| sending_flow := Some q |> <| sending_len := data_len fl |>.

Lemma insert_same_time (m : fq) q fl fl' g : flows m !! q = Some fl → time fl' = time fl →
  key (m <| flows := <[q := fl']> (flows m) |>) g = key m g.
Proof.
  intros E Et. unfold key. simpl. destruct (decide (g = q)) as [->|]; [|by rewrite lookup_insert_ne].
  by rewrite lookup_insert_eq, E, Et.
Qed.
Lemma insert_dom (F : gmap nat flow) q fl g : is_Some (F !! q) → is_Some (<[q := fl]> F !! g) ↔ is_Some (F !! g).
Proof. intros [x E]. rewrite lookup_insert_is_Some. destruct (decide (q = g)) as [->|]; [rewrite E|]; naive_solver. Qed.
Lemma queued_insert (m : fq) q fl g :
  queued (m <| flows := <[q := fl]> (flows m) |>) g ↔ (g = q ∧ is_queued fl = true) ∨ (g ≠ q ∧ queued m g).
Proof.
  unfold queued. simpl. destruct (decide (g = q)) as [->|Hne].
  - rewrite lookup_insert_eq. naive_solver.
  - rewrite lookup_insert_ne by done. naive_solver.
Qed.
Lemma unqueued_insert (m : fq) q fl g : g ≠ q → unqueued m g → unqueued (m <| flows := <[q := fl]> (flows m) |>) g.
Proof. intros Hne (flg & E & Hq). exists flg. simpl. by rewrite lookup_insert_ne. Qed.

Lemma scheduled_finv m q fl : finv m → flows m !! q = Some fl → is_queued fl = true → previous_flow m = None →
  finv (scheduled m q fl).
Proof.
  intros H E Hq Hp. assert (queued m q) as Hqq by (by eexists). pose proof (proj2 (fi_tree m H q) Hqq) as Hin.
  destruct (ix_remove_spec (key m) q (queued_tree m) (fi_wf m H) Hin) as [Hw Hperm].
  pose proof (ix_NoDup _ _ (fi_wf m H)) as Hnd. rewrite Hperm in Hnd. apply list.NoDup_cons in Hnd as [Hnq _].
  destruct (fi_flows m H q fl E) as [Ht Hl]. split; simpl; try apply H.
  - intros g. rewrite (fi_dom m H g). symmetry. apply insert_dom. eauto.
  - eapply ix_wf_ext; [|exact Hw]. intros g _. symmetry.
    pose (fl' := fl <| is_queued := false |>). exact (insert_same_time m q fl fl' g E eq_refl).
  - intros g. change (queued (scheduled m q fl) g) with (queued (m <| flows := <[q := fl <| is_queued := false |>]> (flows m) |>) g).
    rewrite queued_insert. simpl. rewrite <- (fi_tree m H g), Hperm, elem_of_cons.
    destruct (decide (g = q)) as [->|]; naive_solver.
  - intros g flg. destruct (decide (g = q)) as [->|Hne].
    + rewrite lookup_insert_eq. intros [= <-]. by split.
    + rewrite lookup_insert_ne by done. apply (fi_flows m H).
  - intros g [= <-]. split; [|auto]. exists (fl <| is_queued := false |>). simpl. by rewrite lookup_insert_eq.
  - rewrite Hp. done.
Qed.

Lemma schedule_run m q : finv m → sending_flow m = None → previous_flow m = None → freeing m = false →
  ix_first (queued_tree m) = Some q →
  wp schedule m (λ _ m' acts, ∃ fl, flows m !! q = Some fl ∧ is_queued fl = true ∧ (∀ g, queued m g → tm m q ≤ tm m g) ∧
    acts = [Send q (data fl) (data_len fl)] ∧ m' = scheduled m q fl ∧ finv m').
Proof.
  intros H Hs Hp Hf Eq. destruct (first_min m q H Eq) as [(fl & E & Hq) Hmin]. unfold schedule.
  apply wp_bind, wp_get, wp_bind, wp_ASSERT; [by apply bool_decide_true|].
  apply wp_bind, wp_ASSERT; [by apply bool_decide_true|]. apply wp_bind, wp_ASSERT; [by rewrite Hf|].
  apply wp_bind, wp_gets. rewrite Eq. apply wp_bind, (wp_flow_deref q fl); [done|]. apply wp_bind, wp_ASSERT; [done|].
  apply wp_bind, wp_modify, wp_bind, wp_set_flow, wp_bind, wp_emit, wp_modify.
  exists fl. split_and!; try done. exact (scheduled_finv m q fl H E Hq Hp).
Qed.

(** *** A packet of a flow *)

Lemma insert_tree m f kf : finv m → ¬ queued m f → (∀ g, g ≠ f → kf g = key m g) → (kf f).2 = Z.of_nat f →
  ∃ tr, ix_insert compare_flows kf f (queued_tree m) = Some tr ∧ ix_wf kf tr ∧
    ix_elems tr ≡ₚ f :: ix_elems (queued_tree m).
Proof.
  intros H Hq Hk Hf. assert (f ∉ ix_elems (queued_tree m)) as Hn by (by rewrite (fi_tree m H)).
  apply (ix_insert_spec kf f).
  - apply (ix_wf_ext (key m)); [|apply H]. intros g Hg. symmetry. apply Hk. by intros ->.
  - done.
  - intros g Hg E. assert (g ≠ f) as Hne by (by intros ->). rewrite Hk in E by done. rewrite <- E in Hf. simpl in Hf. lia.
Qed.

Definition enqueued (m : fq) (p : option nat) (tr : T) (f : nat) (fl : flow) : fq :=
  m <| previous_flow := p |> <| flows := <[f := fl]> (flows m) |> <| queued_tree := tr |>.

Lemma enqueued_finv m p tr f fl fl1 : finv m → flows m !! f = Some fl → is_queued fl = false →
  sending_flow m ≠ Some f → (∀ g, p = Some g → g ≠ f ∧ previous_flow m = Some g) →
  flow_ok m fl1 → is_queued fl1 = true → ix_wf (key (enqueued m p tr f fl1)) tr →
  ix_elems tr ≡ₚ f :: ix_elems (queued_tree m) → finv (enqueued m p tr f fl1).
Proof.
  intros H E Hq Hs Hp Hok Hq1 Hw Hperm. split; simpl; try apply H.
  - intros g. rewrite (fi_dom m H g). symmetry. apply insert_dom. eauto.
  - done.
  - intros g. change (queued (enqueued m p tr f fl1) g) with (queued (m <| flows := <[f := fl1]> (flows m) |>) g).
    rewrite queued_insert, Hperm, elem_of_cons, (fi_tree m H g). destruct (decide (g = f)); naive_solver.
  - intros g flg. destruct (decide (g = f)) as [->|Hne].
    + rewrite lookup_insert_eq. by intros [= <-].
    + rewrite lookup_insert_ne by done. apply (fi_flows m H).
  - intros g Hg. destruct (fi_sending m H g Hg) as [Hu ?]. split; [|done].
    apply (unqueued_insert m f fl1 g); [|done]. by intros ->.
  - intros g Hg. destruct (Hp g Hg) as [Hne Hg']. apply (unqueued_insert m f fl1 g Hne). by apply (fi_previous m H).
Qed.

(** The state of the flow and of the queue before the decision to send. *)
Record accepts (m : fq) (f d : nat) (l : Z) (fl1 : flow) (m1 : fq) : Prop := mk_accepts {
  ac_flow : data fl1 = d ∧ data_len fl1 = l ∧ is_queued fl1 = true;
  ac_now g : sending_flow m = Some g → tm m g ≤ time fl1;
  ac_time : tm m f ≤ time fl1;
  ac_flows : flows m1 = <[f := fl1]> (flows m);
  ac_rest : sending_flow m1 = sending_flow m ∧ schedule_job m1 = schedule_job m ∧ freeing m1 = freeing m ∧
            flows_list m1 = flows_list m ∧ mtu m1 = mtu m;
  ac_previous : previous_flow m = None → previous_flow m1 = None;
  ac_finv : finv m1
}.

Lemma input_accepts m f d l fl : finv m → rinv m → flows m !! f = Some fl → is_queued fl = false →
  sending_flow m ≠ Some f → 0 ≤ l ≤ mtu m →
  ∃ fl1 m1, accepts m f d l fl1 m1 ∧
    ∀ Q, wp (when (bool_decide (sending_flow m = None) && negb (schedule_job m)) schedule) m1 Q →
      wp (input_handler_send f d l) m Q.
Proof.
  intros H Hr E Hq Hs Hl. pose proof (fi_flows m H f fl E) as [Ht _].
  assert (∃ p t', (∀ g, p = Some g → g ≠ f ∧ previous_flow m = Some g) ∧ (previous_flow m = None → p = None) ∧
    time fl ≤ t' ≤ FAIRQUEUE_MAX_TIME ∧ (∀ g, sending_flow m = Some g → tm m g ≤ t') ∧
    (if bool_decide (previous_flow m = Some f) then modify (λ m, m <| previous_flow := None |>)
     else now ← get_current_time; set_flow f (fl <| time := Z.max (time fl) now |>)) m =
    Some ((), m <| previous_flow := p |> <| flows := <[f := fl <| time := t' |>]> (flows m) |>, @nil act)) as (p & t' & Hp & Hpn & Ht' & Hnow & E1).
  { destruct (bool_decide_reflect (previous_flow m = Some f)) as [Hpf|Hpf].
    - exists None, (time fl). split_and!; try done; try lia.
      + intros g Hg. destruct (schedule_job m) eqn:Ej; [by rewrite (ri_job m Hr Ej) in Hg|]. by rewrite (ri_previous m Hr Ej) in Hpf.
      + unfold modify. rewrite insert_id; [by destruct m|]. rewrite E. f_equal. by destruct fl.
    - pose proof (get_current_time_run m H) as Hn. apply wp_some in Hn as (n & m' & acts & En & -> & -> & Hn & Hng).
      exists (previous_flow m), (Z.max (time fl) n). split_and!; try done; try lia.
      + intros g Hg. split; [|done]. by intros ->.
      + intros g Hg. rewrite <- (Hng g Hg). lia.
      + unfold mbind, M_bind. rewrite En. simpl. by destruct m. }
  set (fl1 := mk_flow t' true d l (handler_busy fl)). set (F1 := <[f := mk_flow t' (is_queued fl) d l (handler_busy fl)]> (flows m)).
  destruct (insert_tree m f (key (m <| flows := F1 |>)) H) as (tr & Etr & Hw & Hperm).
  { intros (fl' & E' & Hq'). congruence. }
  { intros g Hg. unfold key, F1. simpl. by rewrite lookup_insert_ne. }
  { done. }
  exists fl1, (enqueued m p tr f fl1). split.
  - split; try done; [rewrite (tm_lookup m f fl E); simpl; lia|]. eapply enqueued_finv; try done; [split; simpl; [lia|done]|].
    eapply ix_wf_ext; [|exact Hw]. intros g _. unfold key, F1. simpl.
    destruct (decide (g = f)) as [->|]; [by rewrite !lookup_insert_eq|by rewrite !lookup_insert_ne].
  - intros Q HQ. unfold input_handler_send. apply wp_bind, wp_get, wp_bind, wp_ASSERT; [by rewrite bool_decide_false|].
    apply wp_bind, (wp_flow_deref f fl); [done|]. apply wp_bind, wp_ASSERT; [by rewrite Hq|].
    apply wp_bind, wp_ASSERT; [by rewrite (ri_freeing m Hr)|]. apply wp_bind, (wp_eq _ _ _ _ _ _ E1).
    apply wp_bind. eapply wp_flow_deref; [apply lookup_insert_eq|]. apply wp_bind, wp_set_flow. simpl. rewrite insert_insert_eq.
    apply wp_bind, wp_get, wp_bind. match goal with |- wp (match ?x with _ => _ end) _ _ => change x with
      (ix_insert compare_flows (key (m <| flows := F1 |>)) f (queued_tree m)) end.
    rewrite Etr. apply wp_modify, wp_bind. eapply wp_flow_deref; [apply lookup_insert_eq|]. apply wp_bind, wp_set_flow. simpl.
    rewrite insert_insert_eq. apply wp_bind, wp_get. exact HQ.
Qed.

(** What the other components see of a flow: whether it is queued and its packet. *)
Definition view (m : fq) (f : nat) : option (bool * nat * Z) :=
  (λ fl, (is_queued fl, data fl, data_len fl)) <$> flows m !! f.
Lemma view_queued m f : queued m f ↔ ∃ d l, view m f = Some (true, d, l).
Proof.
  unfold queued, view. destruct (flows m !! f) as [fl|]; simpl; split.
  - intros (? & [= <-] & Hq). rewrite Hq. eauto.
  - intros (d & l & [= Hq _ _]). eauto.
  - by intros (? & ? & _).
  - by intros (? & ? & ?).
Qed.

(** The flows after [f] got a packet, or its packet was sent. *)
Definition only_flow (m m' : fq) (f : nat) : Prop := ∀ g, g ≠ f → flows m' !! g = flows m !! g.
Lemma only_flow_view m m' f g : only_flow m m' f → g ≠ f → view m' g = view m g.
Proof. intros H Hne. unfold view. by rewrite (H g Hne). Qed.
Lemma only_flow_tm m m' f g : only_flow m m' f → g ≠ f → tm m' g = tm m g.
Proof. intros H Hne. unfold tm, key. by rewrite (H g Hne). Qed.
Lemma only_flow_queued m m' f g : only_flow m m' f → g ≠ f → queued m' g ↔ queued m g.
Proof. intros H Hne. unfold queued. by rewrite (H g Hne). Qed.

Lemma send_run m f d l fl : finv m → rinv m → flows m !! f = Some fl → is_queued fl = false →
  sending_flow m ≠ Some f → 0 ≤ l ≤ mtu m →
  wp (input_handler_send f d l) m (λ _ m' acts, finv m' ∧ rinv m' ∧ only_flow m m' f ∧ tm m f ≤ tm m' f ∧
    flows_list m' = flows_list m ∧ mtu m' = mtu m ∧
    ((acts = [Send f d l] ∧ sending_flow m = None ∧ sending_flow m' = Some f ∧ view m' f = Some (false, d, l)) ∨
     (acts = [] ∧ sending_flow m' = sending_flow m ∧ view m' f = Some (true, d, l)))).
Proof.
  intros H Hr E Hq Hs Hl. destruct (input_accepts m f d l fl H Hr E Hq Hs Hl) as (fl1 & m1 & Ha & Hwp). apply Hwp. clear Hwp.
  destruct Ha as [(Hd & Hl1 & Hq1) Hnow Ht EF (Es & Ej & Efr & Efl & Em) Hp H1].
  assert (only_flow m m1 f) as Ho by (intros g Hg; rewrite EF; by apply lookup_insert_ne).
  assert (flows m1 !! f = Some fl1) as E1 by (rewrite EF; apply lookup_insert_eq).
  assert (view m1 f = Some (true, d, l)) as Hv by (unfold view; rewrite E1; simpl; by rewrite Hq1, Hd, Hl1).
  assert (queued m1 f) as Hqf by (by eexists).
  assert (∀ g, queued m1 g → g = f ∨ queued m g) as Hqs.
  { intros g Hg. destruct (decide (g = f)); [by left|right]. by apply (only_flow_queued m m1 f g). }
  apply wp_when.
  - intros [Hsn Hjn]%andb_true_iff. apply bool_decide_eq_true in Hsn. apply negb_true_iff in Hjn.
    assert (ix_first (queued_tree m1) = Some f) as Ef.
    { destruct (ix_first (queued_tree m1)) as [q|] eqn:Eq; [|by destruct (first_none m1 f H1 Eq)].
      destruct (first_min m1 q H1 Eq) as [Hqq _]. destruct (Hqs q Hqq) as [->|Hqm]; [done|].
      by destruct (ri_idle m Hr q Hsn Hjn). }
    eapply wp_mono; [apply (schedule_run m1 f); [done|congruence|apply Hp; by apply (ri_previous m Hr)|rewrite Efr; by apply Hr|done]|].
    intros _ m2 acts (fl2 & E2 & Hq2 & Hmin & -> & -> & H2). assert (fl2 = fl1) as -> by congruence.
    assert (∀ g, queued (scheduled m1 f fl1) g → False) as Hnone.
    { intros g Hg. change (queued (m1 <| flows := <[f := fl1 <| is_queued := false |>]> (flows m1) |>) g) in Hg.
      apply queued_insert in Hg as [[_ ?]|[Hne Hg]]; [done|]. destruct (Hqs g Hg) as [|Hgm]; [done|]. by destruct (ri_idle m Hr g Hsn Hjn). }
    split; [done|]. split; [split; simpl|].
    + rewrite Efr. apply Hr.
    + rewrite Ej, Hjn. done.
    + intros _. apply Hp. by apply (ri_previous m Hr).
    + done.
    + intros f' g _ Hg. by destruct (Hnone g).
    + split; [intros g Hg; simpl; rewrite lookup_insert_ne by done; by apply Ho|].
      split; [unfold tm at 2, key; simpl; by rewrite lookup_insert_eq|].
      split; [done|]. split; [done|]. left. rewrite Hd, Hl1. split_and!; try done.
      unfold view. simpl. rewrite lookup_insert_eq. simpl. by rewrite Hd, Hl1.
  - intros Hc. assert (sending_flow m = None → schedule_job m = false → False) as Hc'.
    { intros ??. rewrite bool_decide_true in Hc by done. by destruct (schedule_job m). }
    split; [done|]. split; [split|].
    + rewrite Efr. apply Hr.
    + rewrite Es, Ej. apply Hr.
    + rewrite Ej. intros Hj. apply Hp. by apply Hr.
    + intros g. rewrite Es, Ej. intros ??. by destruct Hc'.
    + intros g h. rewrite Es. intros Hg Hh. assert (g ≠ f) as Hgf by (by intros ->).
      rewrite (only_flow_tm m m1 f g Ho Hgf). destruct (decide (h = f)) as [->|Hhf].
      * rewrite (tm_lookup m1 f fl1 E1). by apply Hnow.
      * rewrite (only_flow_tm m m1 f h Ho Hhf). apply (ri_min m Hr g h Hg). by apply (only_flow_queued m m1 f h).
    + split; [done|]. split; [by rewrite (tm_lookup m1 f fl1 E1)|]. split; [done|]. split; [done|]. right. done.
Qed.

(** *** The schedule job *)
Lemma job_run m : finv m → rinv m → schedule_job m = true →
  wp schedule_job_handler m (λ _ m' acts, finv m' ∧ rinv m' ∧ schedule_job m' = false ∧
    flows_list m' = flows_list m ∧ mtu m' = mtu m ∧
    ((acts = [] ∧ sending_flow m' = None ∧ flows m' = flows m ∧ ∀ f, ¬ queued m f) ∨
     ∃ q d l, acts = [Send q d l] ∧ sending_flow m' = Some q ∧ only_flow m m' q ∧ view m q = Some (true, d, l) ∧
       view m' q = Some (false, d, l) ∧ tm m' q = tm m q ∧ ∀ g, queued m g → tm m q ≤ tm m g)).
Proof.
  intros H Hr Hj. pose proof (ri_job m Hr Hj) as Hs. unfold schedule_job_handler. apply wp_bind, wp_modify, wp_bind, wp_get.
  apply wp_bind, wp_ASSERT; [by apply bool_decide_true|]. apply wp_bind, wp_ASSERT; [by simpl; rewrite (ri_freeing m Hr)|].
  apply wp_bind, wp_modify, wp_bind, wp_gets.
  set (m1 := m <| schedule_job := false |> <| previous_flow := None |>).
  assert (finv m1) as H1 by (destruct H; by split).
  apply wp_when; simpl.
  - intros [q Eq]%bool_decide_eq_true.
    eapply wp_mono; [by apply (schedule_run m1 q H1 Hs eq_refl (ri_freeing m Hr))|].
    intros _ m2 acts (fl & E & Hq & Hmin & -> & -> & H2).
    assert (∀ g, queued (scheduled m1 q fl) g → g ≠ q ∧ queued m g) as Hqs.
    { intros g Hg. change (queued (m <| flows := <[q := fl <| is_queued := false |>]> (flows m) |>) g) in Hg.
      apply queued_insert in Hg as [[_ ?]|Hg]; done. }
    assert (only_flow m (scheduled m1 q fl) q) as Ho by (intros g Hg; simpl; by rewrite lookup_insert_ne).
    assert (tm (scheduled m1 q fl) q = tm m q) as Et.
    { unfold tm, key. simpl. rewrite lookup_insert_eq. simpl in E. by rewrite E. }
    split; [done|]. split; [split; simpl; try done|].
    + apply Hr.
    + intros f g [= <-] Hg. destruct (Hqs g Hg) as [Hne Hgm]. rewrite Et, (only_flow_tm m _ q g Ho Hne). by apply Hmin.
    + split; [done|]. split; [done|]. split; [done|]. right. exists q, (data fl), (data_len fl). split_and!; try done.
      * unfold view. simpl in E. by rewrite E; simpl; rewrite Hq.
      * unfold view. simpl. by rewrite lookup_insert_eq.
  - intros Hn%bool_decide_eq_false. assert (∀ f, ¬ queued m f) as Hno.
    { intros f. apply (first_none m1 f H1). by apply eq_None_not_Some. }
    split; [done|]. split; [split; simpl; try done|].
    + apply Hr.
    + intros f. exact (λ _ _, Hno f).
    + intros f g Hf. rewrite Hs in Hf. done.
    + split; [done|]. split; [done|]. split; [done|]. left. done.
Qed.

(** A change of a flow that leaves its time, its state and its packet. *)
Lemma flag_finv m f fl fl' : finv m → flows m !! f = Some fl → time fl' = time fl → is_queued fl' = is_queued fl →
  data_len fl' = data_len fl → finv (m <| flows := <[f := fl']> (flows m) |>).
Proof.
  intros H E Et Eq El. assert (∀ g, queued (m <| flows := <[f := fl']> (flows m) |>) g ↔ queued m g) as Hq.
  { intros g. rewrite queued_insert, Eq. unfold queued. destruct (decide (g = f)) as [->|]; [rewrite E|]; naive_solver. }
  assert (∀ g, unqueued m g → unqueued (m <| flows := <[f := fl']> (flows m) |>) g) as Hu.
  { intros g Hg. destruct (decide (g = f)) as [->|]; [|by apply unqueued_insert].
    exists fl'. simpl. rewrite lookup_insert_eq. destruct Hg as (fl0 & E0 & Hq0). split; [done|]. congruence. }
  split; simpl; try apply H.
  - intros g. rewrite (fi_dom m H g). symmetry. apply insert_dom. eauto.
  - eapply ix_wf_ext; [|apply H]. intros g _. symmetry. exact (insert_same_time m f fl fl' g E Et).
  - intros g. rewrite (fi_tree m H g). symmetry. apply Hq.
  - intros g flg. destruct (decide (g = f)) as [->|Hne].
    + rewrite lookup_insert_eq. intros [= <-]. unfold flow_ok. simpl. rewrite Et, Eq, El. by apply (fi_flows m H f fl).
    + rewrite lookup_insert_ne by done. apply (fi_flows m H).
  - intros g Hg. destruct (fi_sending m H g Hg). auto.
  - intros g Hg. apply Hu. by apply (fi_previous m H).
Qed.

(** *** The output has sent the packet *)
Lemma done_run m f : finv m → rinv m → sending_flow m = Some f →
  wp output_handler_done m (λ _ m' acts, finv m' ∧ rinv m' ∧ (acts = [Done f] ∨ acts = [Done f; CallBusy f]) ∧
    sending_flow m' = None ∧ flows_list m' = flows_list m ∧ mtu m' = mtu m ∧ schedule_job m' = true ∧
    (∀ g, view m' g = view m g) ∧
    ∃ d a, 0 ≤ d ∧ 0 < a ∧ (∀ g, queued m g → d ≤ tm m g) ∧
      ∀ g, g ∈ flows_list m → tm m' g = if decide (g = f) then tm m g - d + a else Z.max 0 (tm m g - d)).
Proof.
  intros H Hr Hs. pose proof (fi_sending m H f Hs) as [Hu Hlen]. pose proof Hu as (fl & E & Hq).
  assert (schedule_job m = false) as Hj.
  { destruct (schedule_job m) eqn:Ej; [|done]. by rewrite (ri_job m Hr Ej) in Hs. }
  unfold output_handler_done. apply wp_bind, wp_get. rewrite Hs.
  apply wp_bind, wp_ASSERT; [apply bool_decide_true; by apply (ri_previous m Hr)|].
  apply wp_bind, wp_ASSERT; [by rewrite Hj|]. apply wp_bind, wp_ASSERT; [by rewrite (ri_freeing m Hr)|].
  apply wp_bind, (wp_flow_deref f fl); [done|]. apply wp_bind, wp_ASSERT; [by rewrite Hq|].
  apply wp_bind, wp_modify, wp_bind, wp_modify. set (m1 := m <| sending_flow := None |> <| previous_flow := Some f |>).
  assert (finv m1) as H1.
  { destruct H. split; simpl; try done. by intros g [= <-]. }
  pose proof (fi_weight m H) as (Hw0 & Hmt & Hw). apply wp_bind.
  eapply wp_mono; [apply (increment_run m1 f (packet_weight m + sending_len m) H1 eq_refl Hu); [lia|]|].
  { intros g Hg. exact (ri_min m Hr f g Hs Hg). }
  intros _ m2 acts (-> & F' & d & -> & Hsh & Hd & Hdq & Hrange). apply wp_bind, wp_modify, wp_bind, wp_emit.
  assert (F' !! f = Some (fl <| time := new_time d f (packet_weight m + sending_len m) f fl |>)) as Ef.
  { rewrite (Hsh f). simpl. by rewrite E. }
  apply wp_bind. eapply wp_flow_deref; [exact Ef|].
  pose proof (shifted_finv d f _ m1 F' H1 Hu Hsh Hd Hdq Hrange) as H2.
  set (m3 := m1 <| flows := F' |> <| schedule_job := true |>).
  assert (finv m3) as H3 by (destruct H2; by split).
  assert (rinv m3) as Hr3 by (split; simpl; try done; apply Hr).
  assert (∀ g, view m3 g = view m g) as Hv3.
  { intros g. unfold view. simpl. rewrite (Hsh g). simpl. by destruct (flows m !! g). }
  assert (∀ g, g ∈ flows_list m → tm m3 g = if decide (g = f) then tm m g - d + (packet_weight m + sending_len m) else Z.max 0 (tm m g - d)) as Ht3.
  { intros g Hg. apply (shifted_tm d f _ m1 F' g Hsh). by apply (fi_dom m H). }
  apply wp_when; simpl.
  - intros Hb. apply wp_bind, wp_set_flow, wp_emit.
    set (fl4 := fl <| time := new_time d f (packet_weight m + sending_len m) f fl |> <| handler_busy := false |>).
    change (flows m3 !! f = Some (fl <| time := new_time d f (packet_weight m + sending_len m) f fl |>)) in Ef.
    assert (∀ g, view (m3 <| flows := <[f := fl4]> (flows m3) |>) g = view m3 g) as Hv4.
    { intros g. unfold view. simpl. destruct (decide (g = f)) as [->|Hne].
      - rewrite lookup_insert_eq. simpl in Ef. rewrite Ef. done.
      - by rewrite lookup_insert_ne. }
    assert (∀ g, tm (m3 <| flows := <[f := fl4]> (flows m3) |>) g = tm m3 g) as Ht4.
    { intros g. unfold tm. by rewrite (insert_same_time m3 f _ fl4 g Ef). }
    split; [by apply (flag_finv m3 f _ fl4 H3 Ef)|]. split; [split; simpl; try done; apply Hr|].
    split; [by right|]. split_and!; try done; [intros g; by rewrite <- Hv3, <- (Hv4 g)|].
    exists d, (packet_weight m + sending_len m). split_and!; try done; try lia.
    intros g Hg. rewrite <- (Ht3 g Hg), <- (Ht4 g). done.
  - intros _. split; [done|]. split; [done|]. split; [by left|]. split_and!; try done.
    exists d, (packet_weight m + sending_len m). split_and!; try done. lia.
Qed.

(** *** Flows come and go *)
Lemma Flow_Init_run m f : finv m → freeing m = false → f ∉ flows_list m →
  wp (Flow_Init f) m (λ _ m' acts, finv m' ∧ acts = [] ∧ only_flow m m' f ∧ view m' f = Some (false, 0%nat, 0) ∧
    flows_list m' = flows_list m ++ [f] ∧ sending_flow m' = sending_flow m ∧ previous_flow m' = previous_flow m ∧
    schedule_job m' = schedule_job m ∧ freeing m' = false ∧ mtu m' = mtu m).
Proof.
  intros H Hfr Hf. assert (flows m !! f = None) as En by (apply eq_None_not_Some; by rewrite <- (fi_dom m H)).
  assert (∀ g, is_Some (flows m !! g) → g ≠ f) as Hne by (intros g [? ?] ->; congruence).
  unfold Flow_Init. apply wp_bind, wp_get, wp_bind, wp_ASSERT; [by rewrite Hfr|].
  apply wp_bind, wp_set_flow, wp_bind, wp_modify, wp_modify.
  assert (∀ g, unqueued m g → unqueued (m <| flows := <[f := mk_flow 0 false 0 0 false]> (flows m) |>) g) as Hu.
  { intros g Hg. apply unqueued_insert; [|done]. apply Hne. destruct Hg as (fl & -> & _). eauto. }
  split; [split; simpl; try apply H|split_and!; try done].
  - intros g. rewrite elem_of_app, list_elem_of_singleton, (fi_dom m H g), lookup_insert_is_Some.
    destruct (decide (f = g)); naive_solver.
  - apply list.NoDup_app. split; [apply H|]. split; [|apply list.NoDup_singleton].
    intros g Hg ->%list_elem_of_singleton. done.
  - eapply ix_wf_ext; [|apply H]. intros g Hg%(fi_tree m H). unfold key. simpl. rewrite lookup_insert_ne; [done|].
    intros ->. destruct Hg as (fl & ? & _). congruence.
  - intros g. change (queued _ g) with (queued (m <| flows := <[f := mk_flow 0 false 0 0 false]> (flows m) |>) g).
    rewrite queued_insert, (fi_tree m H g). simpl. split; [|naive_solver]. intros Hg. right. split; [|done].
    apply Hne. destruct Hg as (fl & -> & _). eauto.
  - intros g fl. destruct (decide (g = f)) as [->|].
    + rewrite lookup_insert_eq. intros [= <-]. split; simpl; [unfold FAIRQUEUE_MAX_TIME, UINT64_MAX; lia|done].
    + rewrite lookup_insert_ne by done. apply (fi_flows m H).
  - intros g Hg. destruct (fi_sending m H g Hg). split; [by apply Hu|done].
  - intros g Hg. by apply Hu, (fi_previous m H).
  - rewrite zlen_app, (fi_ctr m H). done.
  - intros g Hg. simpl. by rewrite lookup_insert_ne.
  - unfold view. simpl. by rewrite lookup_insert_eq.
Qed.

Definition clear (f : nat) (o : option nat) : option nat := if bool_decide (o = Some f) then None else o.
Lemma clear_some f o g : clear f o = Some g ↔ o = Some g ∧ g ≠ f.
Proof. unfold clear. destruct (bool_decide_reflect (o = Some f)); naive_solver. Qed.

Lemma Flow_Free_run m f : finv m → f ∈ flows_list m → (freeing m = false → sending_flow m ≠ Some f) →
  wp (Flow_Free f) m (λ _ m' acts, finv m' ∧ acts = [] ∧ only_flow m m' f ∧
    flows_list m' = filter (λ g, g ≠ f) (flows_list m) ∧ flows m' !! f = None ∧
    sending_flow m' = clear f (sending_flow m) ∧ previous_flow m' = clear f (previous_flow m) ∧
    schedule_job m' = schedule_job m ∧ freeing m' = freeing m ∧ mtu m' = mtu m).
Proof.
  intros H Hf Hs. pose proof (proj1 (fi_dom m H f) Hf) as [fl E].
  unfold Flow_Free. apply wp_bind, wp_get, wp_bind, wp_ASSERT.
  { destruct (freeing m); [done|]. simpl. rewrite bool_decide_false by auto. done. }
  set (tr := if is_queued fl then ix_remove f (queued_tree m) else queued_tree m).
  set (m' := m <| d_ctr := d_ctr m - 1 |> <| sending_flow := clear f (sending_flow m) |>
    <| previous_flow := clear f (previous_flow m) |> <| queued_tree := tr |>
    <| flows_list := filter (λ g, g ≠ f) (flows_list m) |> <| flows := delete f (flows m) |>).
  apply (wp_mono _ _ (λ _ x acts, x = m' ∧ acts = [])).
  - apply wp_bind, wp_modify, wp_bind. unfold m', clear, tr.
    destruct (bool_decide (sending_flow m = Some f)); [apply wp_modify|apply wp_ret];
      (apply wp_bind; destruct (bool_decide (previous_flow m = Some f)); [apply wp_modify|apply wp_ret]);
      (apply wp_bind, (wp_flow_deref f fl); [done|]); (apply wp_bind; destruct (is_queued fl); [apply wp_modify|apply wp_ret]);
      apply wp_bind, wp_modify, wp_modify; done.
  - intros _ x acts (-> & ->). assert (∀ g, g ∈ ix_elems tr ↔ g ≠ f ∧ queued m g) as Htr.
    { intros g. unfold tr. destruct (is_queued fl) eqn:Eq.
      - assert (queued m f) as Hqf by (by eexists).
        destruct (ix_remove_spec (key m) f (queued_tree m) (fi_wf m H)) as [_ Hperm]; [by apply (fi_tree m H)|].
        pose proof (ix_NoDup _ _ (fi_wf m H)) as Hnd. rewrite Hperm in Hnd. apply list.NoDup_cons in Hnd as [Hn _].
        rewrite <- (fi_tree m H g), Hperm, elem_of_cons. destruct (decide (g = f)) as [->|]; naive_solver.
      - rewrite (fi_tree m H g). split; [|naive_solver]. intros Hg. split; [|done]. intros ->. destruct Hg as (? & ? & ?). congruence. }
    assert (∀ g, g ≠ f → unqueued m g → unqueued m' g) as Hu.
    { intros g Hne (flg & Eg & Hq). exists flg. simpl. by rewrite lookup_delete_ne. }
    split; [split; simpl; try apply H|split_and!; try done].
    + intros g. rewrite list_elem_of_filter, (fi_dom m H g), lookup_delete_is_Some. naive_solver.
    + apply list.NoDup_filter, H.
    + assert (ix_wf (key m) tr) as Hw.
      { unfold tr. destruct (is_queued fl) eqn:Eq; [|apply H]. apply ix_remove_spec; [apply H|]. apply (fi_tree m H). by eexists. }
      eapply ix_wf_ext; [|exact Hw]. intros g [Hne _]%Htr. unfold key. simpl. by rewrite lookup_delete_ne.
    + intros g. rewrite Htr. unfold queued. simpl. destruct (decide (g = f)) as [->|Hne].
      * rewrite lookup_delete_eq. naive_solver.
      * rewrite lookup_delete_ne by done. naive_solver.
    + intros g flg [Hne Eg]%lookup_delete_Some. by apply (fi_flows m H g).
    + intros g [Hg Hne]%clear_some. destruct (fi_sending m H g Hg). split; [by apply Hu|done].
    + intros g [Hg Hne]%clear_some. by apply Hu, (fi_previous m H).
    + rewrite (fi_ctr m H). pose proof (remove_filter_perm f _ (fi_nodup m H) Hf) as Hp%Permutation_length.
      unfold zlen. simpl in Hp. lia.
    + intros g Hne. simpl. by rewrite lookup_delete_ne.
    + simpl. apply lookup_delete_eq.
Qed.

(** ** The queue between its flows and its output *)

(** [busy]: the flows whose input has an operation in progress; [out_busy]: the
    output has one; [subs] and [sent]: the packets submitted by each flow, and those
    of each flow given to the output. *)
Record sys := mk_sys {
  qu : fq; busy : gset nat; out_busy : bool; subs : gmap nat (list (nat * Z)); sent : gmap nat (list (nat * Z))
}.
#[local] Instance eta_sys : Eta sys := λ s, mk_sys (qu s) (busy s) (out_busy s) (subs s) (sent s).
Definition hist (h : gmap nat (list (nat * Z))) (f : nat) : list (nat * Z) := default [] (h !! f).
Definition record (h : gmap nat (list (nat * Z))) (f : nat) (p : nat * Z) : gmap nat (list (nat * Z)) :=
  <[f := hist h f ++ [p]]> h.

(** The assertions of the interfaces: one packet at a time, within the MTU; only an
    operation in progress is finished or cancelled. *)
Definition perform (s : sys) (a : act) : option sys :=
  match a with
  | Send f d l => if negb (out_busy s) && (0 <=? l) && (l <=? mtu (qu s))
                  then Some (s <| out_busy := true |> <| sent := record (sent s) f (d, l) |>) else None
  | Done f => if decide (f ∈ busy s) then Some (s <| busy := busy s ∖ {[f]} |>) else None
  | CallBusy _ => Some s
  | RequestCancel => if out_busy s then Some s else None
  end.
Fixpoint performs (s : sys) (l : list act) : option sys :=
  match l with [] => Some s | a :: l => s ← perform s a; performs s l end.
Definition call (c : M fq act ()) (s : sys) : option sys :=
  match c (qu s) with Some (_, m, acts) => performs (s <| qu := m |>) acts | None => None end.

Inductive ev :=
| ESend (f d : nat) (l : Z)      (** a flow submits a packet *)
| EOutDone                       (** the output has finished *)
| EJob                           (** the schedule job runs *)
| EInit (f : nat) | EFree (f : nat) | ECancel (f : nat) | ESetBusy (f : nat) (h : bool) | EPrepareFree.
Definition enabled (s : sys) (e : ev) : bool :=
  let m := qu s in
  match e with
  | ESend f d l => negb (freeing m) && bool_decide (f ∈ flows_list m) && bool_decide (f ∉ busy s) && (0 <=? l) && (l <=? mtu m)
  | EOutDone => negb (freeing m) && out_busy s
  | EJob => negb (freeing m) && schedule_job m
  | EInit f => negb (freeing m) && bool_decide (f ∉ flows_list m)
  | EFree f => bool_decide (f ∈ flows_list m) && (freeing m || bool_decide (sending_flow m ≠ Some f))
  | ECancel f => negb (freeing m) && bool_decide (sending_flow m = Some f) && use_cancel m
  | ESetBusy f _ => negb (freeing m) && bool_decide (sending_flow m = Some f)
  | EPrepareFree => true
  end.
Definition sys_step (s : sys) (e : ev) : option sys :=
  match e with
  | ESend f d l =>
      call (input_handler_send f d l) (s <| busy := {[f]} ∪ busy s |> <| subs := record (subs s) f (d, l) |>)
  | EOutDone => call output_handler_done (s <| out_busy := false |>)
  | EJob => call schedule_job_handler s
  | EInit f => call (Flow_Init f) (s <| busy := busy s ∖ {[f]} |> <| subs := delete f (subs s) |> <| sent := delete f (sent s) |>)
  | EFree f => call (Flow_Free f) (s <| busy := busy s ∖ {[f]} |>)
  | ECancel f => call (Flow_RequestCancel f) s
  | ESetBusy f h => call (Flow_SetBusyHandler f h) s
  | EPrepareFree => call PrepareFree s
  end.
Definition boot (out_mtu : Z) (cancel : bool) (weight : Z) : option sys :=
  m ← Init out_mtu cancel weight; Some (mk_sys m ∅ false ∅ ∅).
Definition sys_moves (s s' : sys) : Prop := ∃ e, enabled s e = true ∧ sys_step s e = Some s'.

(** The packet of a flow that waits. *)
Definition waiting (v : option (bool * nat * Z)) : list (nat * Z) :=
  match v with Some (true, d, l) => [(d, l)] | _ => [] end.
Record linked (s : sys) : Prop := mk_linked {
  ln_rinv : rinv (qu s);
  ln_out : out_busy s = bool_decide (is_Some (sending_flow (qu s)));
  ln_busy f : f ∈ busy s ↔ queued (qu s) f ∨ sending_flow (qu s) = Some f;
  ln_hist f : f ∈ flows_list (qu s) → hist (subs s) f = hist (sent s) f ++ waiting (view (qu s) f)
}.
Definition sys_inv (s : sys) : Prop := finv (qu s) ∧ (freeing (qu s) = false → linked s).

Lemma hist_record h f p g : hist (record h f p) g = if decide (g = f) then hist h f ++ [p] else hist h g.
Proof. unfold record, hist at 1. case_decide; [subst; by rewrite lookup_insert_eq|by rewrite lookup_insert_ne]. Qed.
Lemma call_run c s Q : wp c (qu s) (λ _ m acts, ∃ s', performs (s <| qu := m |>) acts = Some s' ∧ Q s') →
  ∃ s', call c s = Some s' ∧ Q s'.
Proof. intros (x & m & acts & E & s' & E' & HQ)%wp_some. exists s'. unfold call. by rewrite E. Qed.

Lemma not_queued_view m f : ¬ queued m f → waiting (view m f) = [].
Proof.
  intros H. destruct (view m f) as [[[b d] l]|] eqn:E; [|done]. destruct b; [|done]. destruct H. apply view_queued. eauto.
Qed.
(** A flow whose input is idle is not queued. *)
Lemma idle_flow s f : finv (qu s) → linked s → f ∈ flows_list (qu s) → f ∉ busy s →
  ∃ fl, flows (qu s) !! f = Some fl ∧ is_queued fl = false ∧ sending_flow (qu s) ≠ Some f ∧ waiting (view (qu s) f) = [].
Proof.
  intros H Hl Hf Hb. apply (fi_dom _ H) in Hf as [fl E]. rewrite (ln_busy s Hl f) in Hb. exists fl.
  assert (¬ queued (qu s) f) as Hq by auto. split_and!; [done| |auto|by apply not_queued_view].
  destruct (is_queued fl) eqn:Eq; [|done]. destruct Hq. by eexists.
Qed.

Lemma step_send s f d l : sys_inv s → enabled s (ESend f d l) = true →
  ∃ s', sys_step s (ESend f d l) = Some s' ∧ sys_inv s'.
Proof.
  intros [H Hl] He. simpl in He. apply andb_true_iff in He as [[[[Hfr Hf]%andb_true_iff Hb]%andb_true_iff ?]%andb_true_iff ?].
  apply negb_true_iff in Hfr. apply bool_decide_eq_true in Hf, Hb. specialize (Hl Hfr).
  destruct (idle_flow s f H Hl Hf Hb) as (fl & E & Hq & Hs & Hw). apply call_run.
  eapply wp_mono; [apply (send_run (qu s) f d l fl H (ln_rinv s Hl) E Hq Hs); lia|].
  intros _ m' acts (H' & Hr' & Ho & _ & Efl & Em & Hcase).
  assert (∀ g, g ≠ f → view m' g = view (qu s) g) as Hv by (intros; by eapply only_flow_view).
  destruct Hcase as [(-> & Hsn & Hs' & Hvf)|(-> & Hs' & Hvf)]; simpl.
  - rewrite (ln_out s Hl), Hsn, Em. simpl. rewrite (proj2 (Z.leb_le 0 l)), (proj2 (Z.leb_le l _)) by lia. simpl.
    eexists. split; [done|]. split; [done|]. intros _. split; simpl; [done|by rewrite Hs'| |].
    + intros g. rewrite elem_of_union, elem_of_singleton, (ln_busy s Hl g), Hs', Hsn.
      destruct (decide (g = f)) as [->|Hne]; [naive_solver|]. rewrite (only_flow_queued (qu s) m' f g Ho Hne). naive_solver.
    + rewrite Efl. intros g Hg. rewrite !hist_record. case_decide as Hgf.
      * subst g. rewrite Hvf, (ln_hist s Hl f Hg), Hw. simpl. by rewrite !app_nil_r.
      * rewrite (Hv g Hgf). by apply (ln_hist s Hl).
  - eexists. split; [done|]. split; [done|]. intros _. split; simpl; [done|by rewrite Hs'; apply Hl| |].
    + intros g. rewrite elem_of_union, elem_of_singleton, (ln_busy s Hl g), Hs'.
      destruct (decide (g = f)) as [->|Hne]; [|rewrite (only_flow_queued (qu s) m' f g Ho Hne); naive_solver].
      assert (queued m' f) by (apply view_queued; eauto). naive_solver.
    + rewrite Efl. intros g Hg. rewrite !hist_record. case_decide as Hgf.
      * subst g. rewrite Hvf, (ln_hist s Hl f Hg), Hw. simpl. by rewrite !app_nil_r.
      * rewrite (Hv g Hgf). by apply (ln_hist s Hl).
Qed.

Lemma step_done s : sys_inv s → enabled s EOutDone = true → ∃ s', sys_step s EOutDone = Some s' ∧ sys_inv s'.
Proof.
  intros [H Hl] He. simpl in He. apply andb_true_iff in He as [Hfr Hob]. apply negb_true_iff in Hfr. specialize (Hl Hfr).
  rewrite (ln_out s Hl) in Hob. apply bool_decide_eq_true in Hob as [f Hs]. apply call_run.
  eapply wp_mono; [by apply (done_run (qu s) f H (ln_rinv s Hl))|].
  intros _ m' acts (H' & Hr' & Hacts & Hs' & Efl & Em & Ej & Hv & _).
  assert (performs (s <| out_busy := false |> <| qu := m' |>) acts =
    Some (s <| out_busy := false |> <| qu := m' |> <| busy := busy s ∖ {[f]} |>)) as ->.
  { assert (f ∈ busy s) as Hb by (apply Hl; by right). destruct Hacts as [-> | ->]; simpl; by rewrite decide_True. }
  eexists. split; [done|]. split; [done|]. intros _. split; simpl; [done|by rewrite Hs'| |].
  - intros g. rewrite elem_of_difference, elem_of_singleton, (ln_busy s Hl g), Hs, Hs', !view_queued, (Hv g).
    destruct (fi_sending _ H f Hs) as [(fl & E & Hq) _]. split; [naive_solver|]. intros [Hg|]; [|done]. split; [by left|].
    intros ->. destruct Hg as (d & l & Ev). unfold view in Ev. rewrite E in Ev. simpl in Ev. congruence.
  - intros g Hg. rewrite Efl in Hg. rewrite (Hv g). by apply (ln_hist s Hl).
Qed.

Lemma step_job s : sys_inv s → enabled s EJob = true → ∃ s', sys_step s EJob = Some s' ∧ sys_inv s'.
Proof.
  intros [H Hl] He. simpl in He. apply andb_true_iff in He as [Hfr Hj]. apply negb_true_iff in Hfr. specialize (Hl Hfr).
  apply call_run. eapply wp_mono; [by apply (job_run (qu s) H (ln_rinv s Hl))|].
  pose proof (ri_job _ (ln_rinv s Hl) Hj) as Hs. pose proof (ln_out s Hl) as Hout. rewrite Hs in Hout.
  intros _ m' acts (H' & Hr' & Hj' & Efl & Em & [(-> & Hs' & EF & Hno)|(q & d & l & -> & Hs' & Ho & Hvq & Hvq' & _)]); simpl.
  - eexists. split; [done|]. split; [done|]. intros _. split; simpl; [done|by rewrite Hs'| |].
    + intros g. rewrite (ln_busy s Hl g), Hs, Hs'. unfold queued. by rewrite EF.
    + intros g Hg. rewrite Efl in Hg. rewrite (ln_hist s Hl g Hg). unfold view. by rewrite EF.
  - assert (queued (qu s) q) as Hqq by (apply view_queued; eauto). pose proof Hqq as (fl & E & Eq).
    destruct (fi_flows _ H q fl E) as [_ Hlen]. specialize (Hlen Eq).
    assert (data_len fl = l) as <- by (unfold view in Hvq; rewrite E in Hvq; simpl in Hvq; congruence).
    rewrite Hout, Em. simpl. rewrite (proj2 (Z.leb_le 0 _)), (proj2 (Z.leb_le (data_len fl) _)) by lia. simpl.
    eexists. split; [done|]. split; [done|]. intros _. split; simpl; [done|by rewrite Hs'| |].
    + intros g. rewrite (ln_busy s Hl g), Hs, Hs'. destruct (decide (g = q)) as [->|Hne]; [naive_solver|].
      rewrite (only_flow_queued (qu s) m' q g Ho Hne). naive_solver.
    + intros g Hg. rewrite Efl in Hg. rewrite hist_record, (ln_hist s Hl g Hg). case_decide as Hgq.
      * subst g. rewrite Hvq, Hvq'. simpl. by rewrite app_nil_r.
      * by rewrite (only_flow_view (qu s) m' q g Ho Hgq).
Qed.

(** Adding and removing a flow that is neither queued nor sending keeps the rest. *)
Lemma other_rinv (m m' : fq) f : rinv m → only_flow m m' f → ¬ queued m' f → sending_flow m ≠ Some f →
  sending_flow m' = sending_flow m → schedule_job m' = schedule_job m → freeing m' = false →
  (previous_flow m = None → previous_flow m' = None) → rinv m'.
Proof.
  intros Hr Ho Hq Hs Es Ej Ef Hp. assert (∀ g, queued m' g → g ≠ f ∧ queued m g) as Hqs.
  { intros g Hg. destruct (decide (g = f)) as [->|Hne]; [done|]. split; [done|]. by apply (only_flow_queued m m' f g). }
  split; rewrite ?Es, ?Ej.
  - done.
  - apply Hr.
  - intros Hj. apply Hp. by apply Hr.
  - intros g ?? [_ Hg]%Hqs. by apply (ri_idle m Hr g).
  - intros h g Hh [Hne Hg]%Hqs. rewrite (only_flow_tm m m' f g Ho Hne), (only_flow_tm m m' f h Ho) by (by intros ->).
    by apply (ri_min m Hr).
Qed.

Lemma step_flow_init s f : sys_inv s → enabled s (EInit f) = true → ∃ s', sys_step s (EInit f) = Some s' ∧ sys_inv s'.
Proof.
  intros [H Hl] He. simpl in He. apply andb_true_iff in He as [Hfr Hf]. apply negb_true_iff in Hfr. specialize (Hl Hfr).
  apply bool_decide_eq_true in Hf. assert (flows (qu s) !! f = None) as En by (apply eq_None_not_Some; by rewrite <- (fi_dom _ H)).
  assert (sending_flow (qu s) ≠ Some f) as Hs by (intros Hs; destruct (fi_sending _ H f Hs) as [(? & ? & _) _]; congruence).
  apply call_run. eapply wp_mono; [by apply (Flow_Init_run (qu s) f H)|].
  intros _ m' acts (H' & -> & Ho & Hv & Efl & Es & Ep & Ej & Ef & Em). simpl. eexists. split; [done|]. split; [done|]. intros _.
  assert (¬ queued m' f) as Hq by (rewrite view_queued, Hv; naive_solver). split; simpl.
  - eapply (other_rinv (qu s) m' f); try done; [apply Hl|congruence].
  - rewrite Es. apply Hl.
  - intros g. rewrite elem_of_difference, elem_of_singleton, (ln_busy s Hl g), Es.
    destruct (decide (g = f)) as [->|Hne]; [naive_solver|]. rewrite (only_flow_queued (qu s) m' f g Ho Hne). naive_solver.
  - intros g. rewrite Efl, elem_of_app, list_elem_of_singleton. unfold hist. destruct (decide (g = f)) as [->|Hne].
    + intros _. by rewrite !lookup_delete_eq, Hv.
    + intros [Hg|]; [|done]. rewrite !lookup_delete_ne by done. rewrite (only_flow_view (qu s) m' f g Ho Hne). by apply (ln_hist s Hl g).
Qed.

Lemma step_flow_free s f : sys_inv s → enabled s (EFree f) = true → ∃ s', sys_step s (EFree f) = Some s' ∧ sys_inv s'.
Proof.
  intros [H Hl] He. simpl in He. apply andb_true_iff in He as [Hf Hc]. apply bool_decide_eq_true in Hf.
  assert (freeing (qu s) = false → sending_flow (qu s) ≠ Some f) as Hs.
  { intros Hfr. rewrite Hfr in Hc. by apply bool_decide_eq_true in Hc. }
  apply call_run. eapply wp_mono; [by apply (Flow_Free_run (qu s) f H)|].
  intros _ m' acts (H' & -> & Ho & Efl & En & Es & Ep & Ej & Ef & Em). simpl. eexists. split; [done|]. split; [done|].
  simpl. rewrite Ef. intros Hfr. specialize (Hl Hfr). specialize (Hs Hfr).
  assert (sending_flow m' = sending_flow (qu s)) as Es'. { rewrite Es. unfold clear. by rewrite bool_decide_false. }
  assert (¬ queued m' f) as Hq by (intros (? & ? & _); congruence). split; simpl.
  - eapply (other_rinv (qu s) m' f); try done; [apply Hl|congruence|]. intros Hp. rewrite Ep, Hp. done.
  - rewrite Es'. apply Hl.
  - intros g. rewrite elem_of_difference, elem_of_singleton, (ln_busy s Hl g), Es'.
    destruct (decide (g = f)) as [->|Hne]; [naive_solver|]. rewrite (only_flow_queued (qu s) m' f g Ho Hne). naive_solver.
  - intros g. rewrite Efl. intros [Hne Hg]%list_elem_of_filter. rewrite (only_flow_view (qu s) m' f g Ho Hne). by apply (ln_hist s Hl g).
Qed.

Lemma step_cancel s f : sys_inv s → enabled s (ECancel f) = true → ∃ s', sys_step s (ECancel f) = Some s' ∧ sys_inv s'.
Proof.
  intros [H Hl] He. simpl in He. apply andb_true_iff in He as [[Hfr Hs]%andb_true_iff Hc]. apply negb_true_iff in Hfr.
  specialize (Hl Hfr). apply bool_decide_eq_true in Hs. pose proof (ri_job _ (ln_rinv s Hl)) as Hj. apply call_run.
  unfold Flow_RequestCancel. apply wp_bind, wp_get, wp_bind, wp_ASSERT; [by apply bool_decide_true|].
  apply wp_bind, wp_ASSERT; [done|]. apply wp_bind, wp_ASSERT; [by rewrite Hfr|].
  apply wp_bind, wp_ASSERT; [destruct (schedule_job (qu s)); [rewrite Hj in Hs; done|done]|].
  apply wp_emit. simpl. rewrite (ln_out s Hl), Hs. simpl. eexists. split; [done|]. split; [done|]. intros _. by destruct Hl.
Qed.

Lemma SetBusy_run (m : fq) f h fl : flows m !! f = Some fl → sending_flow m = Some f → freeing m = false →
  wp (Flow_SetBusyHandler f h) m (λ _ m' acts, m' = m <| flows := <[f := fl <| handler_busy := h |>]> (flows m) |> ∧ acts = []).
Proof.
  intros E Hs Hfr. unfold Flow_SetBusyHandler. apply wp_bind, wp_get, wp_bind, wp_ASSERT; [by apply bool_decide_true|].
  apply wp_bind, wp_ASSERT; [by rewrite Hfr|]. apply wp_bind, (wp_flow_deref f fl); [done|]. by apply wp_set_flow.
Qed.
Lemma step_set_busy s f h : sys_inv s → enabled s (ESetBusy f h) = true →
  ∃ s', sys_step s (ESetBusy f h) = Some s' ∧ sys_inv s'.
Proof.
  intros [H Hl] He. simpl in He. apply andb_true_iff in He as [Hfr Hs]. apply negb_true_iff in Hfr.
  specialize (Hl Hfr). apply bool_decide_eq_true in Hs. destruct (fi_sending _ H f Hs) as [(fl & E & Hq) _]. apply call_run.
  eapply wp_mono; [by apply (SetBusy_run (qu s) f h fl)|]. intros _ m acts (-> & ->).
  set (fl' := fl <| handler_busy := h |>). set (m' := qu s <| flows := <[f := fl']> (flows (qu s)) |>).
  assert (∀ g, view m' g = view (qu s) g) as Hv.
  { intros g. unfold view. simpl. destruct (decide (g = f)) as [->|]; [by rewrite lookup_insert_eq, E|by rewrite lookup_insert_ne]. }
  assert (∀ g, queued m' g ↔ queued (qu s) g) as Hqs by (intros g; by rewrite !view_queued, Hv).
  simpl. eexists. split; [done|]. split; [by apply (flag_finv (qu s) f fl fl' H E)|]. intros _.
  destruct Hl as [[]]. split; simpl; try done; [split; simpl; try done|..].
  - intros g. rewrite Hqs. auto.
  - intros g k Hg Hk%Hqs. unfold tm. rewrite !(insert_same_time (qu s) f fl fl' _ E eq_refl). by apply ri_min0.
  - intros g. rewrite Hqs. auto.
  - intros g Hg. rewrite Hv. auto.
Qed.

Lemma fair_step_ok s e : sys_inv s → enabled s e = true → ∃ s', sys_step s e = Some s' ∧ sys_inv s'.
Proof.
  destruct e; intros.
  - by apply step_send.
  - by apply step_done.
  - by apply step_job.
  - by apply step_flow_init.
  - by apply step_flow_free.
  - by apply step_cancel.
  - by apply step_set_busy.
  - eexists. split; [done|]. destruct H as [H _]. split; [by destruct H|done].
Qed.

Lemma fair_boot_ok out_mtu cancel weight s : 0 ≤ out_mtu → 0 < weight → boot out_mtu cancel weight = Some s → sys_inv s.
Proof.
  intros Hm Hw. unfold boot, Init. destruct (_ && _) eqn:E; [|done]. simpl. intros [= <-].
  apply andb_true_iff in E as [E1 E2]. split.
  - split; simpl; try done.
    + intros f. rewrite lookup_empty. split; [by intros ?%elem_of_nil|by intros [? ?]].
    + constructor.
    + apply ix_empty_wf.
    + intros f. rewrite ix_empty_elems. unfold queued. simpl. setoid_rewrite lookup_empty. split; [by intros ?%elem_of_nil|naive_solver].
    + lia.
  - intros _. split; simpl; try done.
    + split; simpl; try done. intros f _ _. unfold queued. simpl. setoid_rewrite lookup_empty. naive_solver.
    + intros f. unfold queued. simpl. setoid_rewrite lookup_empty. set_solver.
Qed.

Lemma fair_reach_inv s s' : sys_inv s → rtc sys_moves s s' → sys_inv s'.
Proof.
  intros H Hr. induction Hr as [|s s1 s2 (e & He & E) _ IH]; [done|]. apply IH.
  destruct (fair_step_ok s e H He) as (s1' & E' & H1). by rewrite E' in E; injection E as <-.
Qed.

Lemma Free_ok s : sys_inv s → flows_list (qu s) = [] → ∃ m, Free (qu s) = Some ((), m, []).
Proof.
  intros [H _] Hn. assert (∀ f, flows (qu s) !! f = None) as Hnone.
  { intros f. apply eq_None_not_Some. rewrite <- (fi_dom _ H), Hn. by intros ?%elem_of_nil. }
  enough (wp Free (qu s) (λ _ _ acts, acts = [])) as (x & m & acts & E & ->)%wp_some by (destruct x; eauto).
  unfold Free. apply wp_bind, wp_get, wp_bind, wp_ASSERT; [by apply bool_decide_true|]. apply wp_bind, wp_ASSERT.
  { apply bool_decide_true. destruct (ix_first (queued_tree (qu s))) as [q|] eqn:Eq; [|done].
    destruct (first_min _ q H Eq) as [(fl & E & _) _]. by rewrite Hnone in E. }
  apply wp_bind, wp_ASSERT.
  { apply bool_decide_true. destruct (previous_flow (qu s)) as [q|] eqn:Eq; [|done].
    destruct (fi_previous _ H q Eq) as (fl & E & _). by rewrite Hnone in E. }
  apply wp_bind, wp_ASSERT.
  { apply bool_decide_true. destruct (sending_flow (qu s)) as [q|] eqn:Eq; [|done].
    destruct (fi_sending _ H q Eq) as [(fl & E & _) _]. by rewrite Hnone in E. }
  apply wp_bind, wp_ASSERT; [rewrite (fi_ctr _ H), Hn; done|]. by apply wp_modify.
Qed.

(** C35: Every run of the fair queue is sound.  For every sequence of flows coming
    and going, packets submitted to idle flows, sends finished or cancelled by the
    output, scheduling jobs and the final release: no assertion of the queue or of
    the interfaces fails (the output gets one packet at a time, only flows with a
    packet in progress are finished), each flow's packets go to the output in the
    order submitted, all but at most the last one, which waits; a packet waits only
    while the output is busy or scheduling is due; and when the flows are gone the
    queue can be freed. *)
Theorem fair_queue_runs out_mtu cancel weight s0 s :
  0 ≤ out_mtu → 0 < weight → boot out_mtu cancel weight = Some s0 → rtc sys_moves s0 s →
  (∀ e, enabled s e = true → is_Some (sys_step s e)) ∧
  (freeing (qu s) = false → ∀ f, f ∈ flows_list (qu s) →
     hist (subs s) f = hist (sent s) f ++ waiting (view (qu s) f) ∧
     (waiting (view (qu s) f) ≠ [] → out_busy s = true ∨ schedule_job (qu s) = true)) ∧
  (flows_list (qu s) = [] → ∃ m, Free (qu s) = Some ((), m, [])).
Proof.
  intros Hm Hw Hb Hr. pose proof (fair_reach_inv s0 s (fair_boot_ok _ _ _ s0 Hm Hw Hb) Hr) as H. split_and!.
  - intros e He. destruct (fair_step_ok s e H He) as (s' & -> & _). eauto.
  - destruct H as [_ Hl]. intros Hfr f Hf. specialize (Hl Hfr). split; [by apply (ln_hist s Hl)|]. intros Hwait.
    rewrite (ln_out s Hl). destruct (sending_flow (qu s)) eqn:Es; [by left|]. destruct (schedule_job (qu s)) eqn:Ej; [by right|].
    destruct Hwait. apply not_queued_view. by apply (ri_idle _ (ln_rinv s Hl)).
  - by apply Free_ok.
Qed.

(** ** No flow starves *)

(** The lead of the other flows: what they may still send before [f], in units of
    virtual time. *)
Definition sumz (h : nat → Z) (l : list nat) : Z := foldr (λ g acc, h g + acc) 0 l.
Definition lead (m : fq) (f g : nat) : Z := if decide (g = f) then 0 else Z.max 0 (tm m f + 1 - tm m g).
Definition debt (m : fq) (f : nat) : Z := sumz (lead m f) (flows_list m).

Lemma sumz_nonneg h l : (∀ g, 0 ≤ h g) → 0 ≤ sumz h l.
Proof. intros H. induction l as [|g l IH]; simpl; [done|]. specialize (H g). unfold sumz in *. lia. Qed.
Lemma sumz_le h h' l : (∀ g, g ∈ l → h' g ≤ h g) → sumz h' l ≤ sumz h l.
Proof.
  induction l as [|g l IH]; simpl; intros H; [lia|]. pose proof (H g ltac:(left)).
  assert (sumz h' l ≤ sumz h l) by (apply IH; intros; apply H; by right). unfold sumz in *. lia.
Qed.
Lemma sumz_lt h h' l q : (∀ g, g ∈ l → h' g ≤ h g) → q ∈ l → h' q + 1 ≤ h q → sumz h' l + 1 ≤ sumz h l.
Proof.
  induction l as [|g l IH]; simpl; intros H Hq Hlt; [by apply elem_of_nil in Hq|].
  assert (∀ g, g ∈ l → h' g ≤ h g) as H' by (intros; apply H; by right). pose proof (sumz_le h h' l H').
  unfold sumz in *. apply elem_of_cons in Hq as [->|Hq]; [lia|]. pose proof (H g ltac:(left)). specialize (IH H' Hq Hlt). lia.
Qed.
Lemma debt_le (m m' : fq) f : flows_list m' = flows_list m → tm m' f = tm m f →
  (∀ g, g ∈ flows_list m → g ≠ f → tm m g ≤ tm m' g) → debt m' f ≤ debt m f.
Proof.
  intros Efl Ef Hg. unfold debt. rewrite Efl. apply sumz_le. intros g Hin. unfold lead. case_decide; [done|].
  specialize (Hg g Hin). lia.
Qed.
Lemma debt_done (m m' : fq) f q d a : flows_list m' = flows_list m → q ∈ flows_list m → q ≠ f → f ∈ flows_list m →
  0 < a → d ≤ tm m f → tm m q ≤ tm m f →
  (∀ g, g ∈ flows_list m → tm m' g = if decide (g = q) then tm m g - d + a else Z.max 0 (tm m g - d)) →
  debt m' f + 1 ≤ debt m f.
Proof.
  intros Efl Hq Hne Hf Ha Hd Hqf Ht. unfold debt. rewrite Efl.
  assert (tm m' f = tm m f - d) as Ef by (rewrite (Ht f Hf), decide_False by done; lia). apply (sumz_lt _ _ _ q).
  - intros g Hg. unfold lead. case_decide; [done|]. rewrite (Ht g Hg), Ef. case_decide; lia.
  - done.
  - unfold lead. rewrite !decide_False by done. rewrite (Ht q Hq), decide_True, Ef by done. lia.
Qed.

Lemma performs_qu s l s' : performs s l = Some s' → qu s' = qu s ∧ ∀ f, hist (sent s) f `prefix_of` hist (sent s') f.
Proof.
  revert s. induction l as [|a l IH]; simpl; intros s; [by intros [= <-]|].
  destruct (perform s a) as [s1|] eqn:E; [|done]. simpl. intros [Eq Hp]%IH. destruct a; simpl in E; repeat case_match; simplify_eq/=; try done.
  split; [done|]. intros g. etrans; [|apply Hp]. rewrite hist_record. case_decide; [|done]. subst. by eexists.
Qed.
Lemma call_inv c s s1 m0 P : call c s = Some s1 → qu s = m0 → wp c m0 P →
  ∃ x m acts, P x m acts ∧ performs (s <| qu := m |>) acts = Some s1 ∧ qu s1 = m.
Proof.
  intros Ec <- (x & m & acts & E & HP)%wp_some. unfold call in Ec. rewrite E in Ec. exists x, m, acts. split_and!; [done..|].
  by apply performs_qu in Ec as [-> _].
Qed.

(** Everything but flows coming and going. *)
Definition stays (e : ev) : bool := match e with EInit _ | EFree _ | EPrepareFree => false | _ => true end.
Definition is_done (e : ev) : bool := match e with EOutDone => true | _ => false end.

Lemma stays_sent s e s1 f : stays e = true → sys_step s e = Some s1 → hist (sent s) f `prefix_of` hist (sent s1) f.
Proof.
  intros Hst E. destruct e; simpl in *; try done; unfold call in E;
    match type of E with match ?x with _ => _ end = _ => destruct x as [[[? ?] ?]|] end; try done;
    by apply performs_qu in E as [_ E]; apply (E f).
Qed.

Lemma stays_step s e s1 f : sys_inv s → freeing (qu s) = false → enabled s e = true → stays e = true →
  sys_step s e = Some s1 → queued (qu s) f →
  freeing (qu s1) = false ∧
  ((queued (qu s1) f ∧ debt (qu s1) f + Z.b2z (is_done e) ≤ debt (qu s) f) ∨
   (length (hist (sent s) f) < length (hist (sent s1) f))%nat).
Proof.
  intros [H Hl] Hfr He Hst E Hqf. specialize (Hl Hfr). pose proof (ln_rinv s Hl) as Hr.
  assert (f ∈ flows_list (qu s)) as Hf by (apply (fi_dom _ H); destruct Hqf as (fl & -> & _); eauto).
  assert (f ∈ busy s) as Hb by (apply Hl; by left). destruct e as [g d l| | | | |g|g h|]; simpl in *; try done.
  - apply andb_true_iff in He as [[[[_ Hg]%andb_true_iff Hgb]%andb_true_iff ?]%andb_true_iff ?].
    apply bool_decide_eq_true in Hg, Hgb. assert (f ≠ g) as Hne by (by intros ->).
    destruct (idle_flow s g H Hl Hg Hgb) as (fl & Eg & Hq & Hs & _).
    destruct (call_inv _ _ _ (qu s) _ E eq_refl (send_run (qu s) g d l fl H Hr Eg Hq Hs ltac:(lia))) as (x & m & acts & HP & _ & ->).
    destruct HP as (_ & Hr' & Ho & Htg & Efl & _). split; [apply Hr'|]. left. split; [by apply (only_flow_queued (qu s) m g f Ho)|].
    rewrite Z.add_0_r. apply debt_le; [done|by apply (only_flow_tm _ _ g)|]. intros h Hh Hhf.
    destruct (decide (h = g)) as [->|]; [done|]. by rewrite (only_flow_tm (qu s) m g h Ho).
  - apply andb_true_iff in He as [_ Hob]. rewrite (ln_out s Hl) in Hob. apply bool_decide_eq_true in Hob as [q Hs].
    destruct (call_inv _ _ _ (qu s) _ E eq_refl (done_run (qu s) q H Hr Hs)) as (x & m & acts & HP & _ & ->).
    destruct HP as (_ & Hr' & _ & _ & Efl & _ & _ & Hv & d & a & Hd & Ha & Hdq & Ht). split; [apply Hr'|]. left. split.
    + apply view_queued. rewrite Hv. by apply view_queued.
    + destruct (fi_sending _ H q Hs) as [(fl & Eq & Hq) _].
      apply (debt_done (qu s) m f q d a); try done; [apply (fi_dom _ H); eauto| |by apply Hdq|by apply (ri_min _ Hr)].
      intros ->. destruct Hqf as (? & ? & ?). congruence.
  - apply andb_true_iff in He as [_ Hj].
    destruct (call_inv _ _ _ (qu s) _ E eq_refl (job_run (qu s) H Hr Hj)) as (x & m & acts & HP & Ep & ->).
    destruct HP as (_ & Hr' & _ & Efl & _ & [(_ & _ & EF & Hno)|(q & d & l & -> & _ & Ho & _ & _ & Etq & _)]); [by destruct (Hno f)|].
    split; [apply Hr'|]. destruct (decide (f = q)) as [->|Hne].
    + right. simpl in Ep. case_match; [|done]. simpl in Ep. injection Ep as <-. simpl. rewrite hist_record, decide_True by done.
      rewrite length_app. simpl. lia.
    + left. split; [by apply (only_flow_queued (qu s) m q f Ho)|]. rewrite Z.add_0_r.
      apply debt_le; [done|by apply (only_flow_tm _ _ q)|]. intros h Hh _.
      destruct (decide (h = q)) as [->|]; [by rewrite Etq|]. by rewrite (only_flow_tm (qu s) m q h Ho).
  - assert (qu s1 = qu s) as ->; [|split; [done|]; left; split; [done|lia]].
    unfold call in E. destruct (Flow_RequestCancel g (qu s)) as [[[x m] acts]|] eqn:Ec; [|done].
    apply performs_qu in E as [-> _]. simpl.
    unfold Flow_RequestCancel, mbind, M_bind, get, ASSERT, emit in Ec. repeat case_match; by simplify_eq/=.
  - apply andb_true_iff in He as [_ Hs]. apply bool_decide_eq_true in Hs.
    destruct (fi_sending _ H g Hs) as [(fl & Eg & Hq) _]. set (fl' := fl <| handler_busy := h |>).
    assert (qu s1 = qu s <| flows := <[g := fl']> (flows (qu s)) |>) as ->.
    { by destruct (call_inv _ _ _ (qu s) _ E eq_refl (SetBusy_run (qu s) g h fl Eg Hs Hfr)) as (x & m & acts & [Em _] & _ & ->). }
    split; [done|]. left. split.
    + apply queued_insert. right. split; [|done]. intros ->. destruct Hqf as (? & ? & ?). congruence.
    + rewrite Z.add_0_r. apply debt_le; [done|..]; intros; unfold tm; by rewrite (insert_same_time (qu s) g fl fl' _ Eg eq_refl).
Qed.

Fixpoint drive (es : list ev) (s : sys) : option sys :=
  match es with
  | [] => Some s
  | e :: es => if enabled s e then s ← sys_step s e; drive es s else None
  end.
Lemma drive_reaches_fair es s s' : drive es s = Some s' → rtc sys_moves s s'.
Proof.
  revert s. induction es as [|e es IH]; simpl; intros s; [by intros [= ->]; constructor|].
  destruct (enabled s e) eqn:He; [|done]. destruct (sys_step s e) as [s1|] eqn:E; [|done]. simpl. intros H.
  eapply rtc_l; [by exists e|]. by apply IH.
Qed.
Fixpoint dones (es : list ev) : Z := match es with [] => 0 | e :: es => Z.b2z (is_done e) + dones es end.

Lemma drive_sent es s s' f : forallb stays es = true → drive es s = Some s' → hist (sent s) f `prefix_of` hist (sent s') f.
Proof.
  revert s. induction es as [|e es IH]; simpl; intros s; [by intros _ [= ->]|]. intros [Hst Hes]%andb_true_iff.
  destruct (enabled s e); [|done]. destruct (sys_step s e) as [s1|] eqn:E; [|done]. simpl. intros H.
  etrans; [by eapply stays_sent|]. by apply IH.
Qed.

Lemma drive_served es s s' f : sys_inv s → freeing (qu s) = false → queued (qu s) f → forallb stays es = true →
  drive es s = Some s' → debt (qu s) f < dones es → (length (hist (sent s) f) < length (hist (sent s') f))%nat.
Proof.
  revert s. induction es as [|e es IH]; simpl; intros s H Hfr Hq Hst Hd Hn.
  { assert (0 ≤ debt (qu s) f); [|lia]. apply sumz_nonneg. intros g. unfold lead. case_decide; lia. }
  apply andb_true_iff in Hst as [He Hes]. destruct (enabled s e) eqn:Een; [|done].
  destruct (sys_step s e) as [s1|] eqn:E; [|done]. simpl in Hd.
  destruct (fair_step_ok s e H Een) as (s1' & E' & H1). rewrite E in E'. injection E' as <-.
  destruct (stays_step s e s1 f H Hfr Een He E Hq) as [Hfr1 [[Hq1 Hdebt]|Hsent]].
  - assert (length (hist (sent s) f) ≤ length (hist (sent s1) f))%nat by (eapply prefix_length, stays_sent; done).
    assert (length (hist (sent s1) f) < length (hist (sent s') f))%nat; [|lia]. apply IH; try done. lia.
  - pose proof (prefix_length _ _ (drive_sent es s1 s' f Hes Hd)). lia.
Qed.

(** C34: No flow starves.  Once a flow has a packet waiting, then whatever the other
    flows submit and however long their packets are, the output does not finish more
    packets than the other flows' virtual times lag behind that of the flow before
    the waiting packet is sent, as long as no flows are added or removed.  This holds
    across the reduction of the times when they would overflow 64 bits. *)
Theorem fair_queue_no_starvation out_mtu cancel weight s0 s es s' f :
  0 ≤ out_mtu → 0 < weight → boot out_mtu cancel weight = Some s0 → rtc sys_moves s0 s →
  freeing (qu s) = false → queued (qu s) f → forallb stays es = true → drive es s = Some s' →
  debt (qu s) f < dones es →
  (length (hist (sent s) f) < length (hist (sent s') f))%nat.
Proof.
  intros Hm Hw Hb Hr. apply drive_served. exact (fair_reach_inv s0 s (fair_boot_ok _ _ _ s0 Hm Hw Hb) Hr).
Qed.

End FairQueue.












(** ** Examples, on the AVL tree of linked nodes *)
Section Examples.
Import PacketPassFairQueue.
#[local] Existing Instance savl_index.
Abbreviation ex_sys := (sys (T := CAvl.CAvl)).

Definition ex_boot : option ex_sys := boot 100 true 1.
Definition drive_from (b : option ex_sys) (es : list ev) : option ex_sys :=
  match b with Some s => drive es s | None => None end.
Lemma drive_from_reached b es s : drive_from b es = Some s → ∃ s0, b = Some s0 ∧ rtc sys_moves s0 s.
Proof. destruct b as [s0|]; simpl; [|done]. intros H%drive_reaches_fair. eauto. Qed.

(** Two flows; the first one submits again as soon as it can. *)
Definition ex_start : list ev := [EInit 1; EInit 2; ESend 1 10 100; ESend 2 20 50].
Definition ex_rest : list ev := [EOutDone; ESend 1 11 100; EJob; ESetBusy 2 true; EOutDone; EJob].
Definition ex_end : option ex_sys := drive_from ex_boot (ex_start ++ ex_rest).
Lemma ex_end_ok : (λ s, (freeing (qu s), flows_list (qu s), (hist (sent s) 1, hist (sent s) 2))) <$> ex_end =
  Some (false, [1%nat; 2%nat], ([(10%nat, 100); (11%nat, 100)], [(20%nat, 50)])).
Proof. vm_compute. reflexivity. Qed.

Lemma fair_queue_runs_witness :
  match ex_end with
  | Some s => hist (sent s) 1 = [(10%nat, 100); (11%nat, 100)] ∧
      hist (subs s) 1 = hist (sent s) 1 ++ waiting (view (qu s) 1) ∧
      (∀ e, enabled s e = true → is_Some (sys_step s e))
  | None => False
  end.
Proof.
  pose proof ex_end_ok as Hf. destruct ex_end as [s|] eqn:Es; [|discriminate Hf]. injection Hf as Hfr Hfl H1 H2.
  destruct (drive_from_reached _ _ _ Es) as (s0 & E0 & Hr).
  destruct (fair_queue_runs 100 true 1 s0 s ltac:(lia) ltac:(lia) E0 Hr) as (Hsafe & Hh & _).
  split; [exact H1|]. split; [|exact Hsafe]. apply (Hh Hfr 1%nat). rewrite Hfl. left.
Defined.

Definition ex_mid : option ex_sys := drive_from ex_boot ex_start.
Definition ex_queued (s : ex_sys) : bool :=
  negb (freeing (qu s)) && bool_decide (view (qu s) 2 = Some (true, 20%nat, 50)) && (debt (qu s) 2 =? 1) &&
  bool_decide (is_Some (drive ex_rest s)).
Lemma ex_mid_ok : ex_queued <$> ex_mid = Some true.
Proof. vm_compute. reflexivity. Qed.

(** The second flow waits behind the first; of the next two packets the output
    finishes, one is its own. *)
Lemma fair_queue_no_starvation_witness :
  match ex_mid with
  | Some s => debt (qu s) 2 = 1 ∧
      match drive ex_rest s with
      | Some s' => (length (hist (sent s) 2) < length (hist (sent s') 2))%nat
      | None => False
      end
  | None => False
  end.
Proof.
  pose proof ex_mid_ok as Hf. destruct ex_mid as [s|] eqn:Es; [|discriminate Hf]. injection Hf as Hf. unfold ex_queued in Hf.
  apply andb_true_iff in Hf as [[[Hfr Hv]%andb_true_iff Hd]%andb_true_iff Hs].
  apply negb_true_iff in Hfr. apply bool_decide_eq_true in Hv, Hs. apply Z.eqb_eq in Hd.
  destruct (drive_from_reached _ _ _ Es) as (s0 & E0 & Hr). split; [exact Hd|].
  destruct (drive ex_rest s) as [s'|] eqn:Ed; [|destruct Hs; discriminate].
  apply (fair_queue_no_starvation 100 true 1 s0 s ex_rest s' 2 ltac:(lia) ltac:(lia) E0 Hr Hfr).
  - apply view_queued. eauto.
  - reflexivity.
  - exact Ed.
  - rewrite Hd. reflexivity.
Defined.
End Examples.
