(* ===== verification/UdpGwProto.v ===== *)
(** * Messages of the UDP relay protocols: protocol/udpgw_proto.h

    The headers and addresses that precede the data of a relayed datagram, as
    [memcpy] of the packed structures writes and reads them, and the size of the
    largest message. *)
From stdpp Require Import base list numbers.
From Stdlib Require Import ZArith Lia.
From S2P Require Import Prelude ByteOrder Addr.
#[local] Open Scope Z_scope.

Definition UDPGW_CLIENT_FLAG_KEEPALIVE : Z := 1.
Definition UDPGW_CLIENT_FLAG_REBIND : Z := 2.
Definition UDPGW_CLIENT_FLAG_DNS : Z := 4.
Definition UDPGW_CLIENT_FLAG_IPV6 : Z := 8.

Record socks_udp_header := mk_socks_udp_header { rsv : Z; frag : Z; atyp : Z }.
Record udpgw_header := mk_udpgw_header { flags : Z; conid : Z }.

Definition SIZEOF_socks_udp_header : Z := 4.
Definition SIZEOF_udpgw_header : Z := 3.
Definition SIZEOF_udpgw_addr_ipv4 : Z := 6.
Definition SIZEOF_udpgw_addr_ipv6 : Z := 18.

Definition socks_udp_header_bytes (h : socks_udp_header) : bytes :=
  store16 (rsv h) ++ [u8 (frag h); u8 (atyp h)].
Definition socks_udp_header_load (l : bytes) : socks_udp_header :=
  mk_socks_udp_header (load16 l 0) (byte_at l 2) (byte_at l 3).
Definition udpgw_header_bytes (h : udpgw_header) : bytes := u8 (flags h) :: store16 (conid h).
Definition udpgw_header_load (l : bytes) : udpgw_header :=
  mk_udpgw_header (byte_at l 0) (load16 l 1).

(** [struct udpgw_addr_ipv4] and [struct udpgw_addr_ipv6]; address and port are
    kept in network byte order. *)
Definition udpgw_addr_ipv4_bytes (ip port : Z) : bytes := store32 ip ++ store16 port.
Definition udpgw_addr_ipv6_bytes (ip : bytes) (port : Z) : bytes := take 16 ip ++ store16 port.
Definition udpgw_addr_ipv4_load (l : bytes) : BAddr := BAddr_MakeIPv4 (load32 l 0) (load16 l 4).
Definition udpgw_addr_ipv6_load (l : bytes) : BAddr := BAddr_MakeIPv6 (read_at 0 16 l) (load16 l 16).

(** The largest message for datagrams of [dgram_mtu] bytes, -1 on overflow; the
    header is the SOCKS one on Android and the udpgw one elsewhere. *)
Definition udpgw_compute_mtu (android : bool) (dgram_mtu : Z) : Z :=
  let bs := bsize_add
    (bsize_fromsize (if android then SIZEOF_socks_udp_header else SIZEOF_udpgw_header))
    (bsize_add
       (bsize_max (bsize_fromsize SIZEOF_udpgw_addr_ipv4) (bsize_fromsize SIZEOF_udpgw_addr_ipv6))
       (bsize_fromint dgram_mtu)) in
  match bsize_toint bs with Some s => s | None => -1 end.

#[global] Arguments socks_udp_header_bytes : simpl never.
#[global] Arguments udpgw_header_bytes : simpl never.

(** ** Layout *)

Lemma load16_app_at l k x : is_u16 x → load16 (l ++ store16 x ++ k) (zlen l) = x.
Proof.
  intros Hx. rewrite <- (load16_store16 x Hx) at 2. unfold load16, byte_at, zlen.
  rewrite Z2Nat.inj_add, Nat2Z.id by lia. simpl.
  rewrite !app_nth2 by lia. rewrite Nat.sub_diag.
  replace (length l + Z.to_nat 1 - length l)%nat with 1%nat by lia. done.
Qed.

Lemma addr_ipv4_roundtrip ip port rest : is_u32 ip → is_u16 port →
  udpgw_addr_ipv4_load (udpgw_addr_ipv4_bytes ip port ++ rest) = BADDR_IPV4 ip port.
Proof.
  intros Hi Hp. unfold udpgw_addr_ipv4_load, udpgw_addr_ipv4_bytes, BAddr_MakeIPv4. f_equal.
  - etrans; [|by apply load32_store32]. reflexivity.
  - etrans; [|by apply load16_store16]. reflexivity.
Qed.

Lemma addr_ipv6_roundtrip ip port rest : length ip = 16%nat → is_u16 port →
  udpgw_addr_ipv6_load (udpgw_addr_ipv6_bytes ip port ++ rest) = BADDR_IPV6 ip port.
Proof.
  intros Hl Hp. unfold udpgw_addr_ipv6_load, udpgw_addr_ipv6_bytes, BAddr_MakeIPv6, read_at.
  rewrite (take_ge ip) by lia. rewrite <- app_assoc. simpl. rewrite drop_0.
  rewrite (take_app_length' ip) by done. rewrite take_ge by lia.
  f_equal. replace 16 with (zlen ip) by (unfold zlen; lia). by apply load16_app_at.
Qed.

Lemma zlen_addr_ipv6 ip port : length ip = 16%nat → zlen (udpgw_addr_ipv6_bytes ip port) = 18.
Proof. intros H. unfold udpgw_addr_ipv6_bytes, zlen. rewrite length_app, length_take, H. reflexivity. Qed.

Lemma socks_udp_header_roundtrip h rest : is_u16 (rsv h) → is_u8 (frag h) → is_u8 (atyp h) →
  socks_udp_header_load (socks_udp_header_bytes h ++ rest) = h.
Proof.
  destruct h as [r f a]. simpl. intros Hr Hf Ha. unfold socks_udp_header_load. f_equal.
  - etrans; [|by apply load16_store16]. reflexivity.
  - by apply u8_id.
  - by apply u8_id.
Qed.

Lemma udpgw_header_roundtrip h rest : is_u8 (flags h) → is_u16 (conid h) →
  udpgw_header_load (udpgw_header_bytes h ++ rest) = h.
Proof.
  destruct h as [f c]. simpl. intros Hf Hc. unfold udpgw_header_load. f_equal.
  - by apply u8_id.
  - etrans; [|by apply load16_store16]. reflexivity.
Qed.

(** The computed size is the exact one whenever it fits an [int]. *)
Lemma udpgw_compute_mtu_spec android n : 0 ≤ n → n + 22 ≤ INT_MAX →
  udpgw_compute_mtu android n = (if android then 22 else 21) + n.
Proof.
  intros H0 H1. unfold udpgw_compute_mtu, bsize_fromint, bsize_fromsize, INT_MAX in *.
  rewrite (proj2 (Z.ltb_ge n 0)), (proj2 (Z.ltb_ge SIZE_MAX n)) by (unfold SIZE_MAX; lia). simpl.
  rewrite size_t_id by (unfold SIZE_MAX; lia).
  rewrite bsize_max_ok, bsize_add_ok by (unfold SIZE_MAX, SIZEOF_udpgw_addr_ipv4, SIZEOF_udpgw_addr_ipv6; lia).
  rewrite bsize_add_ok by (destruct android; unfold SIZE_MAX, SIZEOF_udpgw_addr_ipv4, SIZEOF_udpgw_addr_ipv6,
    SIZEOF_socks_udp_header, SIZEOF_udpgw_header; lia).
  unfold bsize_toint, INT_MAX. simpl.
  unfold SIZEOF_udpgw_addr_ipv4, SIZEOF_udpgw_addr_ipv6, SIZEOF_socks_udp_header, SIZEOF_udpgw_header.
  destruct android; rewrite (proj2 (Z.ltb_ge _ _)) by lia; lia.
Qed.

(** ** Reading and writing back *)

Lemma read_at_cons l off n : 0 ≤ off → 0 < n → off + n ≤ zlen l →
  read_at off n l = byte_at l off :: read_at (off + 1) (n - 1) l.
Proof.
  intros. unfold read_at, byte_at, zlen in *.
  replace (Z.to_nat n) with (S (Z.to_nat (n - 1))) by lia.
  replace (Z.to_nat (off + 1)) with (S (Z.to_nat off)) by lia.
  rewrite (drop_S l (nth (Z.to_nat off) l 0) (Z.to_nat off)); [done|].
  destruct (lookup_lt_is_Some_2 l (Z.to_nat off)) as [x Hx]; [lia|]. rewrite Hx. f_equal.
  symmetry. by apply nth_lookup_Some.
Qed.
Lemma store16_at l off : bytes_ok l → 0 ≤ off → off + 2 ≤ zlen l →
  store16 (load16 l off) = read_at off 2 l.
Proof.
  intros Hl H0 H1. rewrite (store16_load16 l off _ _ Hl eq_refl eq_refl).
  rewrite !read_at_cons by lia. done.
Qed.
Lemma store32_at l off : bytes_ok l → 0 ≤ off → off + 4 ≤ zlen l →
  store32 (load32 l off) = read_at off 4 l.
Proof.
  intros Hl H0 H1. rewrite load32_eq, store32_bytes by eauto using byte_at_ok.
  rewrite 4!read_at_cons by lia. by rewrite <- !Z.add_assoc.
Qed.
Lemma read_at_drop {A} off n (l : list A) : 0 ≤ off → 0 ≤ n →
  read_at off n l ++ drop (Z.to_nat (off + n)) l = drop (Z.to_nat off) l.
Proof.
  intros. unfold read_at. rewrite Z2Nat.inj_add by lia.
  rewrite <- (drop_drop (A := A)). apply take_drop.
Qed.

Lemma socks_udp_header_decode l : bytes_ok l → 4 ≤ zlen l →
  socks_udp_header_bytes (socks_udp_header_load l) ++ drop 4 l = l.
Proof.
  intros Hl H. unfold socks_udp_header_bytes, socks_udp_header_load. cbn [rsv frag atyp].
  rewrite store16_at, !u8_id by (try apply byte_at_ok; done || lia).
  replace [byte_at l 2; byte_at l 3] with (read_at 2 2 l) by (rewrite 2!read_at_cons by lia; done).
  rewrite <- app_assoc. change (drop 4 l) with (drop (Z.to_nat (2 + 2)) l).
  rewrite (read_at_drop 2), (read_at_drop 0) by lia. done.
Qed.

Lemma udpgw_header_decode l : bytes_ok l → 3 ≤ zlen l →
  udpgw_header_bytes (udpgw_header_load l) ++ drop 3 l = l.
Proof.
  intros Hl H. unfold udpgw_header_bytes, udpgw_header_load. cbn [flags conid].
  rewrite store16_at, u8_id by (try apply byte_at_ok; done || lia).
  replace (byte_at l 0 :: read_at 1 2 l) with (read_at 0 3 l) by (rewrite (read_at_cons l 0 3) by lia; done).
  change (drop 3 l) with (drop (Z.to_nat (0 + 3)) l). rewrite (read_at_drop 0) by lia. done.
Qed.

Lemma addr_ipv4_decode l : bytes_ok l → 6 ≤ zlen l →
  udpgw_addr_ipv4_bytes (load32 l 0) (load16 l 4) ++ drop 6 l = l.
Proof.
  intros Hl H. unfold udpgw_addr_ipv4_bytes. rewrite store32_at, store16_at by (done || lia).
  rewrite <- app_assoc. change (drop 6 l) with (drop (Z.to_nat (4 + 2)) l).
  rewrite (read_at_drop 4), (read_at_drop 0) by lia. done.
Qed.
Lemma addr_ipv6_decode l : bytes_ok l → 18 ≤ zlen l →
  udpgw_addr_ipv6_bytes (take 16 (read_at 0 16 l)) (load16 l 16) ++ drop 18 l = l.
Proof.
  intros Hl H. unfold udpgw_addr_ipv6_bytes. rewrite store16_at by (done || lia).
  rewrite <- app_assoc. change (drop 18 l) with (drop (Z.to_nat (16 + 2)) l).
  rewrite (read_at_drop 16) by lia.
  assert (length (read_at 0 16 l) = 16%nat) as Hlen.
  { apply Nat2Z.inj. change (zlen (read_at 0 16 l) = 16). apply zlen_read_at; lia. }
  rewrite !take_ge by (rewrite ?length_take; lia).
  rewrite (read_at_drop 0) by lia. done.
Qed.

(** Addresses read from a message are well-formed. *)
Lemma load32_range l off : bytes_ok l → is_u32 (load32 l off).
Proof.
  intros Hl. rewrite load32_eq by done.
  pose proof (byte_at_ok l off Hl). pose proof (byte_at_ok l (off + 1) Hl).
  pose proof (byte_at_ok l (off + 2) Hl). pose proof (byte_at_ok l (off + 3) Hl).
  unfold is_u8, is_u32 in *. lia.
Qed.
Lemma addr_ipv4_load_ok l : bytes_ok l → BAddr_ok (udpgw_addr_ipv4_load l).
Proof. intros. split; [by apply load32_range|by apply load16_range]. Qed.
Lemma addr_ipv6_load_ok l : bytes_ok l → 18 ≤ zlen l → BAddr_ok (udpgw_addr_ipv6_load l).
Proof.
  intros Hl H. split_and!; [auto with badvpn| |by apply load16_range].
  assert (zlen (read_at 0 16 l) = 16) as Hlen by (apply zlen_read_at; lia).
  unfold zlen in Hlen. rewrite length_take. lia.
Qed.
