(* ===== verification/SocksUdpGw.v ===== *)
(** * The UDP relay of the Android build: tun2socks/SocksUdpGwClient.c

    Every pair of addresses has a connection with its own UDP socket; datagrams
    are sent to the SOCKS server with a SOCKS5 UDP header, or as they are to the
    DNS gateway.  The connections are in a search tree by their addresses and in
    a list with the least recently used one first.  The second part of the file
    is the code of the other builds, which keeps one udpgw connection through
    the SOCKS server. *)
From stdpp Require Import base list sets gmap numbers.
From Stdlib Require Import ZArith Lia.
From S2P Require Import Prelude ByteOrder Addr Index Avl CAvl BAvl UdpGwProto SocksClient.
#[local] Open Scope Z_scope.

Module SocksUdpGwClient.

Record conaddr := mk_conaddr { local_addr : BAddr; remote_addr : BAddr }.

(** The members of a connection that have to be released. *)
Inductive resource :=
| FirstJob | UdpDgram | SendAsync | RecvAsync | UdpSendWriter | UdpSendBuffer | UdpRecvIf | UdpRecvBuffer.
#[export] Instance resource_eq_dec : EqDecision resource.
Proof. solve_decision. Defined.

(** [first_job_set]: whether [first_job] is pending; [send_addr]: the address set
    with [BDatagram_SetSendAddrs]; [held]: the members that are initialised.
    [first_data] are the bytes the pointer of the source designates; the pending
    jobs run before the device buffer they are in is reused (Pending.v). *)
Record connection := mk_connection {
  con_addr : conaddr; first_data : bytes; first_job_set : bool; is_dns : bool;
  send_addr : BAddr; held : list resource
}.
#[global] Instance eta_connection : Eta connection := λ c,
  mk_connection (con_addr c) (first_data c) (first_job_set c) (is_dns c) (send_addr c) (held c).

Inductive act :=
| RecvDone (con : nat)                                  (** [PacketPassInterface_Done(&o->udp_recv_if)] *)
| EndPacket (con : nat) (to : BAddr) (msg : bytes)      (** [BufferWriter_EndPacket] *)
| HandlerReceived (local_addr remote_addr : BAddr) (data : bytes)
| FreeMem (con : nat) (held : list resource) (first_job_set : bool).  (** [free(o)] *)

(** What the calls of [connection_init] return. *)
Record env := mk_env {
  e_malloc : option nat; e_dgram : bool; e_reuse_addr : bool; e_send_buffer : bool; e_recv_buffer : bool
}.

Definition conaddr_comparator (v1 v2 : conaddr) : Z :=
  let r := BAddr_CompareOrder (remote_addr v1) (remote_addr v2) in
  if negb (r =? 0) then r else BAddr_CompareOrder (local_addr v1) (local_addr v2).

(** [struct SocksUdpGwClient], with the connection objects in [heap].  The
    objects are shared by the tree and the list, which hold pointers. *)
Record t {T : Type} := mk_t {
  udp_mtu : Z; socks_server_addr : BAddr; dnsgw : BAddr; udpgw_mtu : Z;
  num_connections : Z; max_connections : Z;
  connections_tree : T; connections_list : list nat; heap : gmap nat connection
}.
#[global] Arguments t : clear implicits.
#[global] Instance eta_t {T} : Eta (t T) := λ o,
  mk_t T (udp_mtu o) (socks_server_addr o) (dnsgw o) (udpgw_mtu o) (num_connections o)
    (max_connections o) (connections_tree o) (connections_list o) (heap o).

Section Model.
Context {T : Type} {ops : IndexOps conaddr T}.
Abbreviation CM := (M (t T) act).

Definition no_conaddr : conaddr := mk_conaddr BADDR_NONE BADDR_NONE.
(** The key of a tree node: the [conaddr] of the object it is in. *)
Definition key (o : t T) (p : nat) : conaddr :=
  match heap o !! p with Some c => con_addr c | None => no_conaddr end.

(** Reading and writing through a pointer; a freed object is an error. *)
Definition deref (p : nat) : CM connection := λ o, c ← heap o !! p; Some (c, o, []).
Definition set_con (p : nat) (f : connection → connection) : CM () :=
  c ← deref p; modify (λ o, o <| heap := <[p := f c]> (heap o) |>).
Definition init_res (p : nat) (r : resource) : CM () := set_con p (λ c, c <| held := r :: held c |>).
Definition free_res (p : nat) (r : resource) : CM () :=
  c ← deref p;
  ASSERT (bool_decide (r ∈ held c));;
  set_con p (λ c, c <| held := filter (λ x, x ≠ r) (held c) |>
                    <| first_job_set := first_job_set c && negb (bool_decide (r = FirstJob)) |>).
Definition free (p : nat) : CM () :=
  c ← deref p;
  emit (FreeMem p (held c) (first_job_set c));;
  modify (λ o, o <| heap := delete p (heap o) |>).

Definition find_connection (ca : conaddr) : CM (option nat) :=
  gets (λ o, ix_lookup conaddr_comparator (key o) ca (connections_tree o)).

(** [ASSERT_EXECUTE(BAVL_Insert(&o->connections_tree, ...))] *)
Definition tree_insert (p : nat) : CM () :=
  o ← get;
  match ix_insert conaddr_comparator (key o) p (connections_tree o) with
  | None => ASSERT false
  | Some tr => modify (λ o, o <| connections_tree := tr |>)
  end.
Definition tree_remove (p : nat) : CM () :=
  modify (λ o, o <| connections_tree := ix_remove p (connections_tree o) |>).
Definition list_append (p : nat) : CM () :=
  modify (λ o, o <| connections_list := connections_list o ++ [p] |>).
Definition list_remove (p : nat) : CM () :=
  modify (λ o, o <| connections_list := filter (λ q, q ≠ p) (connections_list o) |>).

Definition reuse_connection (ca : conaddr) : CM nat :=
  con ← find_connection ca;
  ASSERT (bool_decide (con = None));;
  o ← get;
  ASSERT (0 <? num_connections o);;
  match head (connections_list o) with
  | None => ASSERT false;; mret 0%nat
  | Some p =>
      tree_remove p;;
      set_con p (λ c, c <| con_addr := ca |>);;
      tree_insert p;;
      mret p
  end.

(** [memcpy(out + out_pos, src, ...)] inside the buffer that the writer gave. *)
Definition put (out : bytes) (out_pos : Z) (src : bytes) : CM bytes :=
  ASSERT (out_pos + zlen src <=? zlen out);; mret (write_at out_pos src out).

(** [out]: the location that [BufferWriter_StartPacket] gives, a block of the
    writer's MTU, or [None] when the packet buffer is full. *)
Definition connection_send (p : nat) (data : bytes) (out : option bytes) : CM () :=
  c ← deref p;
  match out with
  | None => mret ()
  | Some out =>
      '(out, out_pos) ←
        (if negb (is_dns c) then
           let remote_addr := remote_addr (con_addr c) in
           let header := mk_socks_udp_header 0 0
             (if addr_type remote_addr =? BADDR_TYPE_IPV4 then SOCKS_ATYP_IPV4 else SOCKS_ATYP_IPV6) in
           out ← put out 0 (socks_udp_header_bytes header);
           match remote_addr with
           | BADDR_IPV4 ip port =>
               out ← put out SIZEOF_socks_udp_header (udpgw_addr_ipv4_bytes ip port);
               mret (out, SIZEOF_socks_udp_header + SIZEOF_udpgw_addr_ipv4)
           | BADDR_IPV6 ip port =>
               out ← put out SIZEOF_socks_udp_header (udpgw_addr_ipv6_bytes ip port);
               mret (out, SIZEOF_socks_udp_header + SIZEOF_udpgw_addr_ipv6)
           | _ => mret (out, SIZEOF_socks_udp_header)
           end
         else mret (out, 0));
      out ← put out out_pos data;
      emit (EndPacket p (send_addr c) (read_at 0 (out_pos + zlen data) out))
  end.

Definition connection_first_job_handler (p : nat) (out : option bytes) : CM () :=
  c ← deref p; connection_send p (first_data c) out.
(** The reactor takes the job off its list and calls the handler. *)
Definition run_first_job (p : nat) (out : option bytes) : CM () :=
  set_con p (λ c, c <| first_job_set := false |>);; connection_first_job_handler p out.

Definition fail0 (p : nat) : CM (option nat) := free_res p FirstJob;; free p;; mret None.
Definition fail1 (p : nat) : CM (option nat) := free_res p UdpDgram;; fail0 p.
Definition fail2 (p : nat) : CM (option nat) :=
  free_res p UdpSendWriter;; free_res p RecvAsync;; free_res p SendAsync;; fail1 p.
Definition fail3 (p : nat) : CM (option nat) := free_res p UdpRecvIf;; free_res p UdpSendBuffer;; fail2 p.

Definition connection_init (e : env) (ca : conaddr) (data : bytes) (dns : bool) : CM (option nat) :=
  match e_malloc e with
  | None => mret None
  | Some p =>
      modify (λ o, o <| heap := <[p := mk_connection ca data false dns BADDR_NONE []]> (heap o) |>);;
      init_res p FirstJob;;
      set_con p (λ c, c <| first_job_set := true |>);;
      if negb (e_dgram e) then fail0 p else
      init_res p UdpDgram;;
      if negb (e_reuse_addr e) then fail1 p else
      o ← get;
      set_con p (λ c, c <| send_addr := if dns then dnsgw o else socks_server_addr o |>);;
      init_res p SendAsync;;
      init_res p RecvAsync;;
      init_res p UdpSendWriter;;
      if negb (e_send_buffer e) then fail2 p else
      init_res p UdpSendBuffer;;
      init_res p UdpRecvIf;;
      if negb (e_recv_buffer e) then fail3 p else
      init_res p UdpRecvBuffer;;
      tree_insert p;;
      list_append p;;
      modify (λ o, o <| num_connections := num_connections o + 1 |>);;
      mret (Some p)
  end.

Definition connection_free (p : nat) : CM () :=
  _ ← deref p;
  modify (λ o, o <| num_connections := num_connections o - 1 |>);;
  list_remove p;;
  tree_remove p;;
  free_res p UdpRecvBuffer;;
  free_res p UdpRecvIf;;
  free_res p UdpSendBuffer;;
  free_res p UdpSendWriter;;
  free_res p RecvAsync;;
  free_res p SendAsync;;
  free_res p UdpDgram;;
  free p.

(** The address after a SOCKS UDP header, and the data after the address. *)
Definition parse_address (at_ : Z) (data : bytes) : option (BAddr * bytes) :=
  if at_ =? SOCKS_ATYP_IPV6 then
    if zlen data <? SIZEOF_udpgw_addr_ipv6 then None
    else Some (udpgw_addr_ipv6_load data, drop (Z.to_nat SIZEOF_udpgw_addr_ipv6) data)
  else
    if zlen data <? SIZEOF_udpgw_addr_ipv4 then None
    else Some (udpgw_addr_ipv4_load data, drop (Z.to_nat SIZEOF_udpgw_addr_ipv4) data).

(** The part under [!o->is_dns]: the data after the header, if it is accepted. *)
Definition strip_header (expected : BAddr) (data : bytes) : option bytes :=
  if zlen data <? SIZEOF_socks_udp_header then None else
  let header := socks_udp_header_load data in
  let data := drop (Z.to_nat SIZEOF_socks_udp_header) data in
  if negb (frag header =? 0) then None else
  match parse_address (atyp header) data with
  | None => None
  | Some (remote_addr, data) =>
      if negb (BAddr_Compare remote_addr expected) then None else Some data
  end.

Definition dgram_handler_received (p : nat) (data : bytes) : CM () :=
  c ← deref p;
  o ← get;
  ASSERT (zlen data <=? udpgw_mtu o);;
  emit (RecvDone p);;
  match (if negb (is_dns c) then strip_header (remote_addr (con_addr c)) data else Some data) with
  | None => mret ()
  | Some data =>
      if udp_mtu o <? zlen data then mret ()
      else emit (HandlerReceived (local_addr (con_addr c)) (remote_addr (con_addr c)) data)
  end.

(** An error of the socket is only logged. *)
Definition dgram_handler (p : nat) : CM () := _ ← deref p; mret ().

(** [num_connections] is not set: the object is zero-initialised. *)
Definition Init (mtu max_conns : Z) (server dns : BAddr) : CM () :=
  ASSERT (negb (BAddr_IsInvalid server));;
  modify (λ o, o <| udp_mtu := mtu |> <| socks_server_addr := server |> <| dnsgw := dns |>
    <| udpgw_mtu := udpgw_compute_mtu true mtu |>
    <| max_connections := if UINT16_MAX + 1 <? max_conns then UINT16_MAX + 1 else max_conns |>
    <| connections_tree := ix_empty |> <| connections_list := [] |>).

(** The loop of [SocksUdpGwClient_Free]; [fuel] bounds the iterations. *)
Fixpoint free_loop (fuel : nat) : CM () :=
  o ← get;
  match head (connections_list o) with
  | None => mret ()
  | Some p => match fuel with
              | O => ASSERT false
              | S fuel => connection_free p;; free_loop fuel
              end
  end.
Definition Free : CM () := o ← get; free_loop (length (connections_list o)).

Definition SubmitPacket (e : env) (out : option bytes) (local_addr remote_addr : BAddr) (dns : bool)
    (data : bytes) : CM () :=
  ASSERT (addr_is_ip local_addr);;
  ASSERT (addr_is_ip remote_addr);;
  o ← get;
  ASSERT (zlen data <=? udp_mtu o);;
  let ca := mk_conaddr local_addr remote_addr in
  con ← find_connection ca;
  con ← (if bool_decide (con = None) && (num_connections o =? max_connections o)
         then p ← reuse_connection ca; mret (Some p) else mret con);
  match con with
  | None => _ ← connection_init e ca data dns; mret ()
  | Some p => list_remove p;; list_append p;; connection_send p data out
  end.

End Model.
End SocksUdpGwClient.

(** ** The order of the connections *)
Section Relay.
Import SocksUdpGwClient.

Definition conaddr_ok (ca : conaddr) : Prop :=
  BAddr_ok (local_addr ca) ∧ BAddr_ok (remote_addr ca) ∧
  addr_is_ip (local_addr ca) = true ∧ addr_is_ip (remote_addr ca) = true.

#[global] Instance conaddr_ok_dec ca : Decision (conaddr_ok ca).
Proof. unfold conaddr_ok. apply _. Defined.
#[global] Instance conaddr_eq_dec : EqDecision conaddr.
Proof. solve_decision. Defined.

(** The comparator of the connection tree satisfies the contract of trees. *)
#[global] Instance conaddr_comparator_total : TotalCmp conaddr_ok conaddr_comparator.
Proof.
  pose proof BAddr_CompareOrder_total as HT. split.
  - intros a b (?&?&_) (?&?&_). unfold conaddr_comparator.
    destruct (Z.eqb_spec (BAddr_CompareOrder (remote_addr a) (remote_addr b)) 0); simpl; by apply cmp_range.
  - intros [la ra] [lb rb] (?&?&_) (?&?&_). unfold conaddr_comparator. simpl in *.
    destruct (Z.eqb_spec (BAddr_CompareOrder ra rb) 0) as [E|E]; simpl.
    + apply cmp_eq in E as ->; [|done..]. rewrite cmp_eq by done. naive_solver.
    + split; [done|]. intros [= -> ->]. destruct E. by apply cmp_eq.
  - intros a b (?&?&_) (?&?&_). unfold conaddr_comparator.
    rewrite (cmp_antisym (remote_addr a)) by done.
    destruct (Z.eqb_spec (BAddr_CompareOrder (remote_addr a) (remote_addr b)) 0) as [E|E]; simpl.
    + rewrite E. simpl. by apply cmp_antisym.
    + rewrite (proj2 (Z.eqb_neq _ _)) by lia. done.
  - intros [la ra] [lb rb] [lc rc] (?&?&_) (?&?&_) (?&?&_). unfold conaddr_comparator. simpl in *.
    destruct (Z.eqb_spec (BAddr_CompareOrder ra rb) 0) as [E|E]; simpl.
    + apply cmp_eq in E as ->; [|done..].
      destruct (Z.eqb_spec (BAddr_CompareOrder rb rc) 0); simpl; [by apply cmp_trans|done].
    + intros E1. destruct (Z.eqb_spec (BAddr_CompareOrder rb rc) 0) as [E2|E2]; simpl.
      * apply cmp_eq in E2 as <-; [|done..]. intros _. rewrite E1. done.
      * intros E3. rewrite (cmp_trans ra rb rc) by done. done.
Qed.

(** ** One connection: the messages *)
Context {T : Type} {ops : IndexOps conaddr T}.

Definition atyp_of (a : BAddr) : Z :=
  if addr_type a =? BADDR_TYPE_IPV4 then SOCKS_ATYP_IPV4 else SOCKS_ATYP_IPV6.
Definition addr_field (a : BAddr) : bytes :=
  match a with
  | BADDR_IPV4 ip port => udpgw_addr_ipv4_bytes ip port
  | BADDR_IPV6 ip port => udpgw_addr_ipv6_bytes ip port
  | _ => []
  end.
(** A SOCKS5 UDP request: RSV, FRAG and ATYP, the address and the data. *)
Definition socks_message (a : BAddr) (data : bytes) : bytes :=
  socks_udp_header_bytes (mk_socks_udp_header 0 0 (atyp_of a)) ++ addr_field a ++ data.
Definition message (c : connection) (data : bytes) : bytes :=
  if is_dns c then data else socks_message (remote_addr (con_addr c)) data.

Definition addr_field_len (a : BAddr) : Z :=
  match a with
  | BADDR_IPV4 _ _ => SIZEOF_udpgw_addr_ipv4 | BADDR_IPV6 _ _ => SIZEOF_udpgw_addr_ipv6 | _ => 0
  end.
Lemma zlen_addr_field a : BAddr_ok a → zlen (addr_field a) = addr_field_len a.
Proof. destruct a; simpl; try done. intros (_ & Hl & _). by apply zlen_addr_ipv6. Qed.

Lemma zlen_socks_message a data : BAddr_ok a →
  zlen (socks_message a data) = 4 + addr_field_len a + zlen data.
Proof. intros. unfold socks_message. rewrite !zlen_app, zlen_addr_field by done. change (zlen (socks_udp_header_bytes _)) with 4. lia. Qed.

Lemma put_run out pos src (o : t T) :
  put out pos src o = if pos + zlen src <=? zlen out then Some (write_at pos src out, o, []) else None.
Proof. unfold put, ASSERT, mbind, M_bind, mret, M_ret. by destruct (_ <=? _). Qed.

(** [connection_send] queues exactly the message if it fits the buffer that the
    writer gave, and overruns the buffer otherwise. *)
Lemma connection_send_run p c data out (o : t T) :
  heap o !! p = Some c → BAddr_ok (remote_addr (con_addr c)) → addr_is_ip (remote_addr (con_addr c)) = true →
  connection_send p data (Some out) o =
    if zlen (message c data) <=? zlen out then Some ((), o, [EndPacket p (send_addr c) (message c data)])
    else None.
Proof.
  intros Hp Ha Hip. unfold connection_send, deref, message.
  unfold mbind at 1, M_bind at 1. rewrite Hp. simpl. pose proof (zlen_nonneg data).
  pose proof (zlen_nonneg out).
  destruct (is_dns c); simpl.
  - unfold mbind, M_bind, mret, M_ret. simpl. rewrite put_run. simpl.
    destruct (Z.leb_spec (zlen data) (zlen out)); [|done]. simpl.
    by rewrite read_at_write_at by lia.
  - set (a := remote_addr (con_addr c)) in *.
    set (h := socks_udp_header_bytes _). assert (zlen h = 4) as Hh by reflexivity.
    transitivity ((o1 ← put out 0 h; o2 ← put o1 4 (addr_field a);
      o3 ← put o2 (4 + addr_field_len a) data;
      emit (EndPacket p (send_addr c) (read_at 0 (4 + addr_field_len a + zlen data) o3))) o).
    { unfold mbind, M_bind, mret, M_ret, emit. rewrite !put_run. destruct (0 + zlen h <=? zlen out); [|done].
      simpl. destruct a; try done; simpl; rewrite !put_run; simpl;
      unfold SIZEOF_socks_udp_header;
      repeat (match goal with |- context [if ?b then _ else _] => destruct b end; try done; simpl; rewrite ?put_run); done. }
    rewrite zlen_socks_message by done. pose proof (zlen_addr_field a Ha) as Hl.
    pose proof (zlen_nonneg (addr_field a)).
    unfold mbind, M_bind, emit. rewrite put_run.
    destruct (Z.leb_spec (0 + zlen h) (zlen out)); [|by rewrite (proj2 (Z.leb_gt _ _)) by lia]. simpl.
    rewrite put_run, zlen_write_at by lia.
    destruct (Z.leb_spec (4 + zlen (addr_field a)) (zlen out)); [|by rewrite (proj2 (Z.leb_gt _ _)) by lia]. simpl.
    rewrite put_run, !zlen_write_at by (rewrite ?zlen_write_at; lia). rewrite <- Hl.
    destruct (Z.leb_spec (4 + zlen (addr_field a) + zlen data) (zlen out)); [|done]. simpl.
    replace 4 with (0 + zlen h) by lia.
    rewrite (write_at_app 0 h (addr_field a) out) by lia.
    replace (0 + zlen h + zlen (addr_field a)) with (0 + zlen (h ++ addr_field a)) by (rewrite zlen_app; lia).
    rewrite (write_at_app 0 (h ++ addr_field a) data out) by (rewrite ?zlen_app; lia).
    replace (0 + zlen (h ++ addr_field a) + zlen data) with (zlen ((h ++ addr_field a) ++ data))
      by (rewrite zlen_app; lia).
    rewrite read_at_write_at by (rewrite ?zlen_app; lia).
    unfold socks_message. by rewrite app_assoc.
Qed.

(** ** The table: an object under construction or destruction *)

(** [o] with the object [c] at [p]. *)
Definition with_con (o : t T) (p : nat) (c : connection) : t T := o <| heap := <[p := c]> (heap o) |>.

Lemma with_con_lookup o p c : heap (with_con o p c) !! p = Some c.
Proof. apply lookup_insert_eq. Qed.
Lemma with_con_twice o p c c' : with_con (with_con o p c) p c' = with_con o p c'.
Proof. unfold with_con. destruct o. simpl. unfold upd_field. simpl. by rewrite insert_insert_eq. Qed.
Lemma with_con_id o p c : heap o !! p = Some c → with_con o p c = o.
Proof. intros H. unfold with_con, upd_field. destruct o. simpl in *. by rewrite insert_id. Qed.

Lemma wp_deref p c (o : t T) Q : heap o !! p = Some c → Q c o [] → wp (deref p) o Q.
Proof. intros H HQ. unfold wp, deref. by rewrite H. Qed.
Lemma wp_set_con p c f o Q : Q () (with_con o p (f c)) [] → wp (set_con p f) (with_con o p c) Q.
Proof.
  intros HQ. unfold set_con. apply wp_bind, (wp_deref p c); [apply with_con_lookup|].
  apply wp_modify. simpl. rewrite <- (with_con_twice o p c (f c)) in HQ. exact HQ.
Qed.
Lemma wp_init_res p c r o Q :
  Q () (with_con o p (c <| held := r :: held c |>)) [] → wp (init_res p r) (with_con o p c) Q.
Proof. intros HQ. by apply wp_set_con. Qed.
Lemma wp_free_res p c r o Q : r ∈ held c →
  Q () (with_con o p (c <| held := filter (λ x, x ≠ r) (held c) |>
    <| first_job_set := first_job_set c && negb (bool_decide (r = FirstJob)) |>)) [] →
  wp (free_res p r) (with_con o p c) Q.
Proof.
  intros Hr HQ. unfold free_res. apply wp_bind, (wp_deref p c); [apply with_con_lookup|].
  apply wp_bind, wp_ASSERT; [by apply bool_decide_eq_true|]. by apply wp_set_con.
Qed.
Lemma wp_free p c o Q : heap o !! p = None →
  Q () o [FreeMem p (held c) (first_job_set c)] → wp (free p) (with_con o p c) Q.
Proof.
  intros Hp HQ. unfold free. apply wp_bind, (wp_deref p c); [apply with_con_lookup|].
  apply wp_bind, wp_emit, wp_modify. simpl.
  replace (_ <| heap := _ |>) with o; [done|]. unfold with_con, upd_field. destruct o. simpl in *.
  by rewrite delete_insert_id.
Qed.

Lemma wp_tree_insert p (tr : T) o Q :
  ix_insert conaddr_comparator (key o) p (connections_tree o) = Some tr →
  Q () (o <| connections_tree := tr |>) [] → wp (tree_insert p) o Q.
Proof. intros H HQ. unfold tree_insert. apply wp_bind, wp_get. rewrite H. by apply wp_modify. Qed.

(** A step of [connection_init] or [connection_free] on the object at hand. *)
Ltac res_step :=
  lazymatch goal with
  | |- wp (_ ≫= _) _ _ => apply wp_bind
  | |- wp (init_res _ _) (with_con _ _ _) _ => apply wp_init_res
  | |- wp (set_con _ _) (with_con _ _ _) _ => apply wp_set_con
  | |- wp (free_res _ _) (with_con _ _ _) _ => apply wp_free_res; [set_solver|]
  | |- wp get _ _ => apply wp_get
  | |- wp (mret _) _ _ => apply wp_ret
  end; cbn [held first_job_set upd_field].

Definition all_resources : list resource :=
  [UdpRecvBuffer; UdpRecvIf; UdpSendBuffer; UdpSendWriter; RecvAsync; SendAsync; UdpDgram; FirstJob].

Context {laws : IndexLaws ops conaddr_ok conaddr_comparator}.

Definition con_ok (o : t T) (c : connection) : Prop :=
  held c = all_resources ∧ conaddr_ok (con_addr c) ∧ zlen (first_data c) ≤ udp_mtu o ∧
  send_addr c = (if is_dns c then dnsgw o else socks_server_addr o).

(** The table: tree, list, counter and heap hold the same connections. *)
Record inv (o : t T) : Prop := mk_inv {
  inv_ix : indexed (key o) (connections_tree o) (connections_list o);
  inv_heap p : is_Some (heap o !! p) ↔ p ∈ connections_list o;
  inv_num : num_connections o = zlen (connections_list o);
  inv_max : num_connections o ≤ max_connections o ∧ 0 < max_connections o ≤ 65536;
  inv_con p c : heap o !! p = Some c → con_ok o c;
  inv_mtu : 0 ≤ udp_mtu o ∧ udp_mtu o + 22 ≤ INT_MAX ∧ udpgw_mtu o = udp_mtu o + 22
}.

Lemma inv_NoDup o : inv o → NoDup (connections_list o).
Proof. intros H. eapply indexed_NoDup, H. Qed.
Lemma inv_lookup o p : inv o → p ∈ connections_list o →
  ∃ c, heap o !! p = Some c ∧ con_ok o c ∧ key o p = con_addr c.
Proof.
  intros H Hp. apply (inv_heap o H) in Hp as [c Hc]. exists c. split; [done|].
  split; [by eapply inv_con|]. unfold key. by rewrite Hc.
Qed.
Lemma key_with_con o p c q : key (with_con o p c) q = if decide (q = p) then con_addr c else key o q.
Proof.
  unfold key. simpl. case_decide as E; [subst; by rewrite lookup_insert_eq|].
  by rewrite lookup_insert_ne.
Qed.

(** Every failure of [connection_init] leaves the table as it was and the object
    freed with all its members released; success appends one connection. *)
Definition new_con (o : t T) (ca : conaddr) (data : bytes) (dns : bool) : connection :=
  mk_connection ca data true dns (if dns then dnsgw o else socks_server_addr o) all_resources.
Definition inserted (o : t T) (p : nat) (c : connection) (o' : t T) : Prop :=
  ∃ tr, indexed (key (with_con o p c)) tr (p :: connections_list o) ∧
  o' = with_con o p c <| connections_tree := tr |> <| connections_list := connections_list o ++ [p] |>
         <| num_connections := num_connections o + 1 |>.

Definition init_ok (e : env) : bool :=
  match e_malloc e with
  | None => false
  | Some _ => e_dgram e && e_reuse_addr e && e_send_buffer e && e_recv_buffer e
  end.

Lemma connection_init_run e ca data dns o :
  inv o → conaddr_ok ca → (∀ p, p ∈ connections_list o → key o p ≠ ca) →
  (∀ p, e_malloc e = Some p → heap o !! p = None) →
  wp (connection_init e ca data dns) o (λ r o' acts,
    if init_ok e then ∃ p, r = Some p ∧ e_malloc e = Some p ∧ inserted o p (new_con o ca data dns) o' ∧ acts = []
    else r = None ∧ o' = o ∧ acts = match e_malloc e with Some p => [FreeMem p [] false] | None => [] end).
Proof.
  intros Hinv Hca Hne Hfresh. unfold connection_init, init_ok. destruct (e_malloc e) as [p|]; [|by apply wp_ret].
  specialize (Hfresh p eq_refl). apply wp_bind, wp_modify. cbv beta.
  change (o <| heap := _ |>) with (with_con o p (mk_connection ca data false dns BADDR_NONE [])).
  repeat res_step.
  destruct (e_dgram e); cbn [negb]; [|unfold fail0; repeat res_step; by apply wp_free; [done|]].
  repeat res_step.
  destruct (e_reuse_addr e); cbn [negb]; [|unfold fail1, fail0; repeat res_step; by apply wp_free; [done|]].
  repeat res_step.
  destruct (e_send_buffer e); cbn [negb]; [|unfold fail2, fail1, fail0; repeat res_step; by apply wp_free; [done|]].
  repeat res_step.
  destruct (e_recv_buffer e); cbn [negb];
    [|unfold fail3, fail2, fail1, fail0; repeat res_step; by apply wp_free; [done|]].
  repeat res_step.
  match goal with |- wp _ (with_con o p ?c) _ => change c with (new_con o ca data dns) end.
  set (c := new_con o ca data dns). set (o1 := with_con o p c).
  assert (p ∉ connections_list o) as Hp.
  { intros Hq%(inv_heap o Hinv). destruct Hq. congruence. }
  destruct (indexed_insert (key o1) (connections_tree o1) (connections_list o) p) as (tr & Htr & Hix).
  { apply (indexed_ext (key o)); [|apply Hinv]. intros q Hq. unfold o1. rewrite key_with_con.
    rewrite decide_False; [done|]. by intros ->. }
  { unfold o1. rewrite key_with_con, decide_True by done. done. }
  { intros q Hq. unfold o1. rewrite !key_with_con, (decide_True (P := p = p)) by done.
    rewrite decide_False by (by intros ->). by apply Hne. }
  apply (wp_tree_insert p tr); [done|]. apply wp_bind, wp_modify, wp_bind, wp_modify, wp_ret.
  exists p. split_and!; [done|done| |done]. exists tr. done.
Qed.

Lemma inserted_inv o p ca data dns o' : inv o → heap o !! p = None → conaddr_ok ca →
  zlen data ≤ udp_mtu o → num_connections o < max_connections o →
  inserted o p (new_con o ca data dns) o' → inv o'.
Proof.
  intros H Hp Hca Hd Hn (tr & Hix & ->). destruct H as [Hi Hh Hnum Hmax Hcon Hmtu].
  split; simpl; try done.
  - eapply indexed_perm; [|exact Hix]. by rewrite (Permutation_app_comm _ [p]).
  - intros q. rewrite elem_of_app, list_elem_of_singleton, <- Hh.
    destruct (decide (q = p)) as [->|Hqp]; [rewrite lookup_insert_eq; naive_solver|].
    rewrite lookup_insert_ne by done. naive_solver.
  - rewrite zlen_app, Hnum. unfold zlen. simpl. lia.
  - lia.
  - intros q c. destruct (decide (q = p)) as [->|Hqp].
    + rewrite lookup_insert_eq. intros [= <-]. unfold con_ok. simpl. split_and!; try done; apply Hca.
    + rewrite lookup_insert_ne by done. apply Hcon.
Qed.

(** ** Least recently used first *)

(** The addresses of the connections, the least recently used first. *)
Definition lru (o : t T) : list conaddr := key o <$> connections_list o.

Lemma find_connection_run ca o : inv o → conaddr_ok ca →
  match ix_lookup conaddr_comparator (key o) ca (connections_tree o) with
  | Some p => p ∈ connections_list o ∧ key o p = ca
  | None => ∀ p, p ∈ connections_list o → key o p ≠ ca
  end.
Proof. intros H. apply indexed_lookup, H. Qed.

Lemma lru_elem o ca : ca ∈ lru o ↔ ∃ p, p ∈ connections_list o ∧ key o p = ca.
Proof. unfold lru. rewrite list_elem_of_fmap. naive_solver. Qed.

(** The state after a use of [p]: the list has it last. *)
Definition touched (o : t T) (p : nat) : t T :=
  o <| connections_list := move_last p (connections_list o) |>.

Lemma touched_inv o p : inv o → p ∈ connections_list o → inv (touched o p).
Proof.
  intros H Hp. pose proof (move_last_perm p _ (inv_NoDup o H) Hp) as Hperm.
  destruct H as [Hi Hh Hnum Hmax Hcon Hmtu].
  split; try done.
  - by eapply indexed_perm.
  - intros q. simpl. by rewrite Hperm.
  - unfold zlen. simpl. by rewrite Hperm.
Qed.


Lemma reuse_connection_run ca o : inv o → conaddr_ok ca → ca ∉ lru o → 0 < num_connections o →
  wp (reuse_connection ca) o (λ p o' acts, inv o' ∧ acts = [] ∧ head (connections_list o) = Some p ∧
    ∃ c tr, heap o !! p = Some c ∧ o' = with_con o p (c <| con_addr := ca |>) <| connections_tree := tr |>).
Proof.
  intros H Hca Hnin Hn. unfold reuse_connection, find_connection. wp_pure.
  pose proof (find_connection_run ca o H Hca) as Hf. destruct (ix_lookup _ _ _ _) as [q|].
  { destruct Hnin. apply lru_elem. eauto. }
  wp_assert. wp_assert; [by apply Z.ltb_lt|].
  destruct (connections_list o) as [|p rest] eqn:El; simpl.
  { rewrite (inv_num o H), El in Hn. unfold zlen in Hn. simpl in Hn. lia. }
  assert (p ∈ connections_list o) as Hp by (rewrite El; left).
  destruct (inv_lookup o p H Hp) as (c & Hc & Hok & Hk).
  set (o1 := o <| connections_tree := ix_remove p (connections_tree o) |>).
  apply wp_bind, wp_modify. fold o1. rewrite <- (with_con_id o1 p c) by done. apply wp_bind, wp_set_con.
  set (c' := c <| con_addr := ca |>). set (o2 := with_con o1 p c').
  assert (key o2 p = ca) as Hkp by (unfold o2; by rewrite key_with_con, decide_True).
  destruct (indexed_rekey (key o) (key o2) (connections_tree o) (connections_list o) p) as (tr & Htr & Hix).
  - apply H.
  - done.
  - by rewrite Hkp.
  - intros q Hq. unfold o2. rewrite key_with_con, decide_False by done. done.
  - intros q Hq _. rewrite Hkp. apply Hf. by rewrite <- El.
  - apply wp_bind, (wp_tree_insert p tr); [done|]. apply wp_ret.
    split_and!; [|done|done|exists c, tr; done].
    destruct H as [Hi Hh Hnum Hmax Hcon Hmtu]. split; simpl; try done.
    + intros q. rewrite <- Hh. destruct (decide (q = p)) as [->|]; [|by rewrite lookup_insert_ne].
      rewrite lookup_insert_eq, Hc. naive_solver.
    + intros q d. destruct (decide (q = p)) as [->|]; [|rewrite lookup_insert_ne by done; apply Hcon].
      rewrite lookup_insert_eq. intros [= <-]. unfold con_ok in *. simpl. naive_solver.
Qed.

(** ** Sending *)

(** The writer's block is as long as its MTU, and the message fits it. *)
Definition out_ok (o : t T) (remote : BAddr) (data : bytes) (out : option bytes) : Prop :=
  match out with
  | None => True
  | Some b => zlen b = udp_mtu o ∧ 4 + addr_field_len remote + zlen data ≤ udp_mtu o
  end.
Definition sent (out : option bytes) (p : nat) (c : connection) (data : bytes) : list act :=
  match out with None => [] | Some _ => [EndPacket p (send_addr c) (message c data)] end.

Lemma addr_field_len_nonneg a : 0 ≤ addr_field_len a.
Proof. by destruct a. Qed.

Lemma zlen_message_le c data : BAddr_ok (remote_addr (con_addr c)) →
  zlen (message c data) ≤ 4 + addr_field_len (remote_addr (con_addr c)) + zlen data.
Proof.
  intros. unfold message. pose proof (addr_field_len_nonneg (remote_addr (con_addr c))).
  destruct (is_dns c); [|rewrite zlen_socks_message by done]; lia.
Qed.

Lemma message_bytes_ok c data : BAddr_ok (remote_addr (con_addr c)) → bytes_ok data →
  bytes_ok (message c data).
Proof.
  intros Ha Hd. unfold message. destruct (is_dns c); [done|]. unfold socks_message.
  apply bytes_ok_app; [|apply bytes_ok_app; [|done]; destruct (remote_addr (con_addr c)) as [|ip port|ip port|]].
  - unfold socks_udp_header_bytes. apply bytes_ok_app; [auto with badvpn|]. repeat constructor; apply u8_range.
  - constructor.
  - apply bytes_ok_app; auto with badvpn.
  - destruct Ha as (Hip & _ & _). apply bytes_ok_app; auto with badvpn.
  - constructor.
Qed.

Lemma connection_send_ok p c data out o : inv o → heap o !! p = Some c →
  out_ok o (remote_addr (con_addr c)) data out →
  wp (connection_send p data out) o (λ _ o' acts, o' = o ∧ acts = sent out p c data).
Proof.
  intros H Hc Ho. destruct (inv_con o H p c Hc) as (_ & (_ & Hr & _ & Hip) & _). destruct out as [b|].
  - unfold wp. rewrite (connection_send_run p c) by done. destruct Ho as [Hb Hl].
    pose proof (zlen_message_le c data Hr).
    rewrite (proj2 (Z.leb_le _ _)) by lia. done.
  - unfold connection_send. apply wp_bind, (wp_deref p c); [done|]. by apply wp_ret.
Qed.


Lemma zlen_lru o : inv o → zlen (lru o) = num_connections o.
Proof. intros H. rewrite (inv_num o H). unfold zlen, lru. by rewrite length_fmap. Qed.



Lemma send_existing_run o p ca data out : inv o → p ∈ connections_list o → key o p = ca →
  out_ok o (remote_addr ca) data out →
  wp (list_remove p;; list_append p;; connection_send p data out) o (λ _ o' acts,
    inv o' ∧ o' = touched o p ∧ ∃ c, heap o' !! p = Some c ∧ con_addr c = ca ∧ acts = sent out p c data).
Proof.
  intros H Hp Hk Ho. apply wp_bind, wp_modify, wp_bind, wp_modify. cbv beta.
  change (upd_field _ _) with (touched o p).
  pose proof (touched_inv o p H Hp) as H'. destruct (inv_lookup o p H Hp) as (c & Hc & _ & Hkc).
  eapply wp_mono; [apply (connection_send_ok p c data out (touched o p) H')|].
  - done.
  - by rewrite <- Hkc, Hk.
  - intros _ o' acts [-> ->]. split_and!; [done|done|]. exists c. split_and!; [done|congruence|done].
Qed.

(** What no operation changes. *)
Definition same_config (o o' : t T) : Prop :=
  udp_mtu o' = udp_mtu o ∧ dnsgw o' = dnsgw o ∧ socks_server_addr o' = socks_server_addr o ∧
  max_connections o' = max_connections o.


(** ** Receiving *)

(** [d] is the payload that the peer sent in [data]: all of it on a DNS
    connection, the rest after a SOCKS UDP header without fragmentation that
    names the remote address otherwise. *)
Definition peer_payload (dns : bool) (remote : BAddr) (data d : bytes) : Prop :=
  if dns then d = data
  else ∃ r a, is_u16 r ∧ is_u8 a ∧
    (a = SOCKS_ATYP_IPV6 ↔ addr_type remote = BADDR_TYPE_IPV6) ∧
    data = socks_udp_header_bytes (mk_socks_udp_header r 0 a) ++ addr_field remote ++ d.
Definition from_peer (c : connection) (data d : bytes) : Prop :=
  peer_payload (is_dns c) (remote_addr (con_addr c)) data d.

Lemma parse_address_complete a remote d : BAddr_ok remote → addr_is_ip remote = true →
  (a = SOCKS_ATYP_IPV6 ↔ addr_type remote = BADDR_TYPE_IPV6) →
  parse_address a (addr_field remote ++ d) = Some (remote, d).
Proof.
  intros Hr Hip Ha. unfold parse_address. pose proof (zlen_nonneg d). destruct remote as [|ip port|ip port|]; try done.
  - destruct Hr as [Hi Hp]. rewrite (proj2 (Z.eqb_neq a _)) by (intros E; apply Ha in E; done).
    rewrite zlen_app, (proj2 (Z.ltb_ge _ _)).
    + simpl addr_field. rewrite addr_ipv4_roundtrip by done. done.
    + change (zlen (addr_field (BADDR_IPV4 ip port))) with 6. unfold SIZEOF_udpgw_addr_ipv4. lia.
  - destruct Hr as (Hb & Hl & Hp). rewrite (proj2 (Z.eqb_eq a _)) by (by apply Ha). simpl addr_field.
    rewrite zlen_app, zlen_addr_ipv6 by done.
    rewrite (proj2 (Z.ltb_ge _ _)) by (unfold SIZEOF_udpgw_addr_ipv6; lia).
    rewrite addr_ipv6_roundtrip by done. do 2 f_equal.
    apply drop_app_length'. pose proof (zlen_addr_ipv6 ip port Hl) as E. unfold zlen in E.
    change (Z.to_nat SIZEOF_udpgw_addr_ipv6) with 18%nat. lia.
Qed.

Lemma parse_address_sound a data remote d : bytes_ok data → parse_address a data = Some (remote, d) →
  BAddr_ok remote ∧ addr_is_ip remote = true ∧ data = addr_field remote ++ d ∧
  (a = SOCKS_ATYP_IPV6 ↔ addr_type remote = BADDR_TYPE_IPV6).
Proof.
  intros Hd. unfold parse_address. destruct (Z.eqb_spec a SOCKS_ATYP_IPV6) as [->|Hne].
  - destruct (Z.ltb_spec (zlen data) SIZEOF_udpgw_addr_ipv6) as [|Hl]; [done|]. intros [= <- <-].
    split_and!; [by apply addr_ipv6_load_ok|done| |done]. symmetry. by apply addr_ipv6_decode.
  - destruct (Z.ltb_spec (zlen data) SIZEOF_udpgw_addr_ipv4) as [|Hl]; [done|]. intros [= <- <-].
    split_and!; [by apply addr_ipv4_load_ok|done| |done]. symmetry. by apply addr_ipv4_decode.
Qed.

Lemma strip_header_spec c data d : conaddr_ok (con_addr c) → bytes_ok data → is_dns c = false →
  strip_header (remote_addr (con_addr c)) data = Some d ↔ from_peer c data d.
Proof.
  intros (_ & Hr & _ & Hip) Hd Hdns. unfold from_peer, peer_payload. rewrite Hdns. unfold strip_header. split.
  - destruct (Z.ltb_spec (zlen data) SIZEOF_socks_udp_header) as [|Hl]; [done|].
    destruct (Z.eqb_spec (frag (socks_udp_header_load data)) 0) as [Hf|]; [simpl|done].
    destruct (parse_address _ _) as [[remote rest]|] eqn:Ep; [|done].
    destruct (BAddr_Compare remote _) eqn:Ec; simpl; [|done]. intros [= ->].
    apply parse_address_sound in Ep as (Hok & _ & Hrest & Ha); [|auto with badvpn].
    apply BAddr_Compare_eq in Ec as [-> _]; [|done..].
    exists (load16 data 0), (byte_at data 3). split_and!; [by apply load16_range|by apply byte_at_ok|exact Ha|].
    rewrite <- Hrest. etrans; [symmetry; by apply socks_udp_header_decode|]. f_equal.
    unfold socks_udp_header_load in *. simpl in Hf. by rewrite Hf.
  - intros (r & a & Hu & Ha & Hat & ->).
    rewrite zlen_app. change (zlen (socks_udp_header_bytes _)) with 4.
    pose proof (zlen_nonneg (addr_field (remote_addr (con_addr c)) ++ d)).
    rewrite (proj2 (Z.ltb_ge _ _)) by (unfold SIZEOF_socks_udp_header; lia).
    rewrite socks_udp_header_roundtrip by done. simpl negb. cbv iota.
    rewrite drop_app_length' by done. simpl atyp.
    rewrite parse_address_complete by done.
    rewrite (proj2 (BAddr_Compare_eq _ _ Hr Hr)) by done. done.
Qed.

Lemma received_run p c data o : inv o → heap o !! p = Some c → bytes_ok data → zlen data ≤ udpgw_mtu o →
  wp (dgram_handler_received p data) o (λ _ o' acts, o' = o ∧
    match (if is_dns c then Some data else strip_header (remote_addr (con_addr c)) data) with
    | Some d => acts = RecvDone p :: (if udp_mtu o <? zlen d then [] else
                  [HandlerReceived (local_addr (con_addr c)) (remote_addr (con_addr c)) d])
    | None => acts = [RecvDone p]
    end).
Proof.
  intros H Hc Hd Hl. unfold dgram_handler_received. apply wp_bind, (wp_deref p c); [done|].
  wp_assert; [by apply Z.leb_le|].
  destruct (is_dns c); simpl; [|destruct (strip_header _ data) as [d|]; [|by apply wp_ret]];
    (destruct (udp_mtu o <? _); [by apply wp_ret|by apply wp_emit]).
Qed.

(** ** Releasing *)

(** [o] without the connection [p]. *)
Definition without (o : t T) (p : nat) : t T :=
  o <| num_connections := num_connections o - 1 |>
    <| connections_list := filter (λ q, q ≠ p) (connections_list o) |>
    <| connections_tree := ix_remove p (connections_tree o) |> <| heap := delete p (heap o) |>.

Lemma connection_free_run p c o : heap o !! p = Some c → held c = all_resources →
  wp (connection_free p) o (λ _ o' acts, o' = without o p ∧ acts = [FreeMem p [FirstJob] (first_job_set c)]).
Proof.
  intros Hc Hh. unfold connection_free. apply wp_bind, (wp_deref p c); [done|].
  do 3 (apply wp_bind, wp_modify). cbv beta. match goal with |- wp _ ?x _ => set (o3 := x) end.
  replace o3 with (with_con (without o p) p c).
  2:{ unfold o3, with_con, without, upd_field. destruct o. simpl in *. by rewrite insert_delete_id. }
  destruct c as [ca fd js dns sa h]. simpl in Hh. subst h. unfold all_resources. repeat res_step.
  apply wp_free; [apply lookup_delete_eq|]. split; [done|]. destruct js; done.
Qed.

Lemma without_inv o p : inv o → p ∈ connections_list o → inv (without o p).
Proof.
  intros H Hp. pose proof (inv_NoDup o H) as Hnd.
  pose proof (remove_filter_perm p _ Hnd Hp) as Hperm.
  destruct H as [Hi Hh Hnum Hmax Hcon Hmtu]. split; simpl; try done.
  - apply (indexed_ext (key o)); [|by apply indexed_remove]. intros q [Hq _]%list_elem_of_filter.
    unfold key. simpl. by rewrite lookup_delete_ne by done.
  - intros q. rewrite list_elem_of_filter, <- Hh. destruct (decide (q = p)) as [->|Hq].
    + rewrite lookup_delete_eq. split; [by intros []|by intros []].
    + rewrite lookup_delete_ne by done. naive_solver.
  - rewrite Hnum. unfold zlen. rewrite Hperm at 1. simpl. lia.
  - lia.
  - intros q d. destruct (decide (q = p)) as [->|Hq]; [by rewrite lookup_delete_eq|].
    rewrite lookup_delete_ne by done. apply Hcon.
Qed.

Definition pending (o : t T) (p : nat) : bool :=
  match heap o !! p with Some c => first_job_set c | None => false end.

Lemma free_loop_run fuel o : inv o → (length (connections_list o) ≤ fuel)%nat →
  wp (free_loop fuel) o (λ _ o' acts, inv o' ∧ connections_list o' = [] ∧
    acts = (λ p, FreeMem p [FirstJob] (pending o p)) <$> connections_list o).
Proof.
  revert o. induction fuel as [|fuel IH]; intros o H Hl; simpl;
    apply wp_bind, wp_get; destruct (connections_list o) as [|p rest] eqn:El; try (simpl in Hl; lia);
    try (apply wp_ret; by rewrite El).
  assert (p ∈ connections_list o) as Hp by (rewrite El; left).
  destruct (inv_lookup o p H Hp) as (c & Hc & (Hh & _) & _). simpl.
  assert (connections_list (without o p) = rest) as Hrest.
  { pose proof (inv_NoDup o H) as Hnd. simpl. rewrite El in Hnd |- *. apply list.NoDup_cons in Hnd as [Hn _].
    rewrite filter_cons, decide_False by naive_solver. by apply filter_neq_notin. }
  apply wp_bind. eapply wp_mono; [by apply (connection_free_run p c)|]. intros _ o1 acts1 [-> ->].
  eapply wp_mono; [apply IH; [by apply without_inv|rewrite Hrest; simpl in Hl; lia]|].
  intros _ o2 acts2 (H2 & E2 & ->). split_and!; [done|done|]. rewrite Hrest. simpl. f_equal.
  - unfold pending. by rewrite Hc.
  - apply list_fmap_ext. intros i q Hq%list_elem_of_lookup_2. f_equal. unfold pending. simpl.
    rewrite lookup_delete_ne; [done|]. intros <-. pose proof (inv_NoDup o H) as Hnd. rewrite El in Hnd.
    by apply list.NoDup_cons in Hnd as [Hn _].
Qed.

(** ** The abstract relay *)

(** A connection as the specification sees it: its name, its pair of addresses,
    whether it goes to the DNS gateway, and the datagram of its first job while
    that is pending. *)
Record entry := mk_entry { ent_name : nat; ent_addr : conaddr; ent_dns : bool; ent_first : option bytes }.
#[global] Instance entry_eq_dec : EqDecision entry.
Proof. solve_decision. Defined.
#[global] Instance eta_entry : Eta entry := λ x, mk_entry (ent_name x) (ent_addr x) (ent_dns x) (ent_first x).

(** What the device and the reactor call. *)
Inductive call :=
| CSubmit (e : env) (out : option bytes) (local remote : BAddr) (dns : bool) (data : bytes)
| CFirstJob (p : nat) (out : option bytes)
| CReceived (p : nat) (data : bytes)
| CError (p : nat).
Definition do_call (c : call) : M (t T) act () :=
  match c with
  | CSubmit e out local remote dns data => SubmitPacket e out local remote dns data
  | CFirstJob p out => run_first_job p out
  | CReceived p data => dgram_handler_received p data
  | CError p => dgram_handler p
  end.

(** [data] sent on the connection [x]: to the DNS gateway as it is, or to the SOCKS
    server with the SOCKS header that names the remote address; dropped without a
    block, and [None] when it does not fit the block. *)
Definition sends (cfg : t T) (x : entry) (data : bytes) (out : option bytes) : option (list act) :=
  let to := if ent_dns x then dnsgw cfg else socks_server_addr cfg in
  let msg := if ent_dns x then data else socks_message (remote_addr (ent_addr x)) data in
  match out with
  | None => Some []
  | Some b => if zlen msg <=? zlen b then Some [EndPacket (ent_name x) to msg] else None
  end.

(** The effect of a call on the table [tab], the least recently used connection
    first: the new table and the actions, or [None] when a block is overrun.
    A replaced connection keeps its name and its way out. *)
Definition relay_spec (cfg : t T) (tab : list entry) (c : call) (res : option (list entry * list act)) : Prop :=
  match c with
  | CSubmit e out local remote dns data =>
      let ca := mk_conaddr local remote in
      match list_find (λ x, ent_addr x = ca) tab with
      | Some (_, x) => res = (pair (filter (λ y, y ≠ x) tab ++ [x])) <$> sends cfg x data out
      | None =>
          if decide (zlen tab = max_connections cfg) then
            ∃ x rest, tab = x :: rest ∧
              res = (pair (rest ++ [x <| ent_addr := ca |>])) <$> sends cfg (x <| ent_addr := ca |>) data out
          else match e_malloc e with
          | None => res = Some (tab, [])
          | Some p =>
              if init_ok e then res = Some (tab ++ [mk_entry p ca dns (Some data)], [])
              else res = Some (tab, [FreeMem p [] false])
          end
      end
  | CFirstJob p out =>
      ∃ x d, x ∈ tab ∧ ent_name x = p ∧ ent_first x = Some d ∧
        res = (pair ((λ y, if decide (y = x) then x <| ent_first := None |> else y) <$> tab)) <$> sends cfg x d out
  | CReceived p data =>
      ∃ x acts, x ∈ tab ∧ ent_name x = p ∧ res = Some (tab, RecvDone p :: acts) ∧ (length acts ≤ 1)%nat ∧
        ∀ a, a ∈ acts ↔ ∃ d, a = HandlerReceived (local_addr (ent_addr x)) (remote_addr (ent_addr x)) d ∧
          peer_payload (ent_dns x) (remote_addr (ent_addr x)) data d ∧ zlen d ≤ udp_mtu cfg
  | CError p => res = Some (tab, [])
  end.

Lemma relay_spec_config cfg cfg' tab c res : same_config cfg cfg' →
  relay_spec cfg' tab c res → relay_spec cfg tab c res.
Proof.
  intros (E1 & E2 & E3 & E4). destruct c; simpl; unfold sends; by rewrite ?E1, ?E2, ?E3, ?E4.
Qed.

Inductive relay_runs (cfg : t T) : list entry → list call → list act → list entry → Prop :=
| relay_nil tab : relay_runs cfg tab [] [] tab
| relay_cons tab c tab1 acts cs acts' tab2 :
    relay_spec cfg tab c (Some (tab1, acts)) → relay_runs cfg tab1 cs acts' tab2 →
    relay_runs cfg tab (c :: cs) (acts ++ acts') tab2.

(** ** The relay implements it *)

Definition entry_at (o : t T) (p : nat) : entry :=
  match heap o !! p with
  | Some c => mk_entry p (con_addr c) (is_dns c) (if first_job_set c then Some (first_data c) else None)
  | None => mk_entry p no_conaddr false None
  end.
Definition table (o : t T) : list entry := entry_at o <$> connections_list o.
Definition result (r : option (() * t T * list act)) : option (list entry * list act) :=
  (λ '(_, o', acts), (table o', acts)) <$> r.

(** What may be called: datagrams between IP addresses up to the MTU with a block
    of the writer's MTU and fresh memory, pending first jobs, datagrams and
    errors of live connections. *)
Definition call_ok (o : t T) (c : call) : Prop :=
  match c with
  | CSubmit e out local remote dns data =>
      conaddr_ok (mk_conaddr local remote) ∧ zlen data ≤ udp_mtu o ∧
      (∀ b, out = Some b → zlen b = udp_mtu o) ∧ (∀ p, e_malloc e = Some p → heap o !! p = None)
  | CFirstJob p out =>
      ent_name (entry_at o p) ∈ connections_list o ∧ is_Some (ent_first (entry_at o p)) ∧
      (∀ b, out = Some b → zlen b = udp_mtu o)
  | CReceived p data => p ∈ connections_list o ∧ bytes_ok data ∧ zlen data ≤ udpgw_mtu o
  | CError p => p ∈ connections_list o
  end.

Inductive runs : t T → list call → list act → t T → Prop :=
| runs_nil o : runs o [] [] o
| runs_cons o c acts o1 cs acts' o2 :
    call_ok o c → do_call c o = Some ((), o1, acts) → runs o1 cs acts' o2 → runs o (c :: cs) (acts ++ acts') o2.

Lemma ent_name_at o p : ent_name (entry_at o p) = p.
Proof. unfold entry_at. by destruct (heap o !! p). Qed.
Lemma ent_addr_at o p : ent_addr (entry_at o p) = key o p.
Proof. unfold entry_at, key. by destruct (heap o !! p). Qed.
Lemma entry_at_inj o p q : entry_at o p = entry_at o q → p = q.
Proof. intros E%(f_equal ent_name). by rewrite !ent_name_at in E. Qed.
Lemma entry_at_some o p c : heap o !! p = Some c → entry_at o p =
  mk_entry p (con_addr c) (is_dns c) (if first_job_set c then Some (first_data c) else None).
Proof. intros H. unfold entry_at. by rewrite H. Qed.
Lemma zlen_table o : inv o → zlen (table o) = num_connections o.
Proof. intros H. rewrite (inv_num o H). unfold zlen, table. by rewrite length_fmap. Qed.

(** A prefix of a computation that changes nothing outside. *)
Lemma bind_quiet {A B} (m : M (t T) act A) (f : A → M (t T) act B) o a o' :
  m o = Some (a, o', []) → (m ≫= f) o = f a o'.
Proof. intros E. unfold mbind, M_bind. rewrite E. by destruct (f a o') as [[[? ?] ?]|]. Qed.

Lemma send_result p c data out o : inv o → heap o !! p = Some c → connection_send p data out o =
  (λ acts, ((), o, acts)) <$> sends o (entry_at o p) data out.
Proof.
  intros H Hc. destruct (inv_con o H p c Hc) as (_ & Hca & _ & Hs).
  rewrite (entry_at_some o p c) by done. unfold sends. simpl.
  destruct out as [b|].
  - rewrite (connection_send_run p c) by (done || apply Hca). unfold message. rewrite Hs.
    by destruct (is_dns c); destruct (_ <=? _).
  - unfold connection_send. by rewrite (bind_quiet _ _ o c o) by (unfold deref; by rewrite Hc).
Qed.

Lemma touched_table o p : inv o → table (touched o p) = filter (λ y, y ≠ entry_at o p) (table o) ++ [entry_at o p].
Proof.
  intros H. unfold table, touched, move_last. simpl. rewrite fmap_app. simpl.
  change (entry_at (o <| connections_list := _ |>)) with (entry_at o). f_equal.
  apply fmap_filter_key. intros q _. apply entry_at_inj.
Qed.

(** The datagram of a connection of the table. *)
Lemma send_existing_result o p data out : inv o → p ∈ connections_list o →
  let r := (list_remove p;; list_append p;; connection_send p data out) o in
  result r = (pair (filter (λ y, y ≠ entry_at o p) (table o) ++ [entry_at o p])) <$> sends o (entry_at o p) data out ∧
  ∀ o' acts, r = Some ((), o', acts) → inv o' ∧ same_config o o'.
Proof.
  intros H Hp. cbv zeta. unfold list_remove, list_append.
  rewrite (bind_quiet _ _ o () _) by done. rewrite (bind_quiet _ _ _ () _) by done. cbv beta.
  change (upd_field _ _) with (touched o p).
  pose proof (touched_inv o p H Hp) as H'. destruct (inv_lookup o p H Hp) as (c & Hc & _ & Hkc).
  rewrite (send_result p c) by done. rewrite <- touched_table by done.
  change (sends (touched o p) (entry_at (touched o p) p)) with (sends o (entry_at o p)).
  destruct (sends o (entry_at o p) data out) as [acts|]; simpl; [|done].
  split; [done|]. intros o' acts' [= <- <-]. done.
Qed.

Lemma list_find_table o ca p : inv o → p ∈ connections_list o → key o p = ca →
  ∃ i, list_find (λ x, ent_addr x = ca) (table o) = Some (i, entry_at o p).
Proof.
  intros H Hp Hk. unfold table. rewrite list_find_fmap.
  destruct (list_find ((λ x, ent_addr x = ca) ∘ entry_at o) (connections_list o)) as [[i q]|] eqn:E; simpl.
  - apply list_find_Some in E as (Hi & Hq & _). simpl in Hq. rewrite ent_addr_at in Hq. exists i. do 3 f_equal.
    eapply indexed_inj; [apply H|by eapply list_elem_of_lookup_2|done|congruence].
  - apply list_find_None in E. rewrite list.Forall_forall in E. destruct (E p Hp). simpl. by rewrite ent_addr_at.
Qed.
Lemma list_find_table_none o ca : (∀ p, p ∈ connections_list o → key o p ≠ ca) →
  list_find (λ x, ent_addr x = ca) (table o) = None.
Proof.
  intros H. apply list_find_None. unfold table. apply Forall_fmap, list.Forall_forall.
  intros p Hp. simpl. rewrite ent_addr_at. by apply H.
Qed.

(** The replaced connection: its entry with the new addresses. *)
Lemma reused_table o p c ca tr : inv o → head (connections_list o) = Some p → heap o !! p = Some c →
  let o1 := with_con o p (c <| con_addr := ca |>) <| connections_tree := tr |> in
  entry_at o1 p = entry_at o p <| ent_addr := ca |> ∧
  ∃ rest, table o = entry_at o p :: rest ∧
    filter (λ y, y ≠ entry_at o1 p) (table o1) ++ [entry_at o1 p] = rest ++ [entry_at o1 p].
Proof.
  intros H Hh Hc o1.
  assert (∀ q, q ≠ p → entry_at o1 q = entry_at o q) as Ho.
  { intros q Hq. unfold entry_at, o1. simpl. by rewrite lookup_insert_ne. }
  split. { unfold entry_at at 1. simpl. rewrite lookup_insert_eq. by rewrite (entry_at_some o p c). }
  destruct (connections_list o) as [|p' l] eqn:El; simplify_eq/=. pose proof (inv_NoDup o H) as Hnd.
  rewrite El in Hnd. apply list.NoDup_cons in Hnd as [Hp _].
  exists (entry_at o <$> l). unfold table. rewrite El. split; [done|]. f_equal.
  change (connections_list o1) with (connections_list o). rewrite El, fmap_cons.
  rewrite filter_cons, decide_False by naive_solver.
  assert (entry_at o1 <$> l = entry_at o <$> l) as ->.
  { apply list_fmap_ext. intros i q Hq%list_elem_of_lookup_2. apply Ho. by intros ->. }
  apply filter_neq_notin. intros (q & E & Hq)%list_elem_of_fmap.
  apply (f_equal ent_name) in E. rewrite !ent_name_at in E. by subst.
Qed.

Lemma inserted_table o p c o' : inv o → heap o !! p = None → inserted o p c o' →
  table o' = table o ++ [mk_entry p (con_addr c) (is_dns c) (if first_job_set c then Some (first_data c) else None)].
Proof.
  intros H Hp (tr & _ & ->). unfold table. simpl. rewrite fmap_app. simpl. f_equal.
  - apply list_fmap_ext. intros i q Hq%list_elem_of_lookup_2. unfold entry_at. simpl.
    rewrite lookup_insert_ne; [done|]. intros ->. apply (inv_heap o H) in Hq as [? ?]. congruence.
  - f_equal. apply entry_at_some. apply lookup_insert_eq.
Qed.

Lemma submit_refines e out local remote dns data o : inv o → call_ok o (CSubmit e out local remote dns data) →
  relay_spec o (table o) (CSubmit e out local remote dns data) (result (SubmitPacket e out local remote dns data o)) ∧
  ∀ o' acts, SubmitPacket e out local remote dns data o = Some ((), o', acts) → inv o' ∧ same_config o o'.
Proof.
  intros H (Hca & Hd & _ & Hm). pose proof Hca as (_ & _ & Hli & Hri). simpl in Hli, Hri.
  set (ca := mk_conaddr local remote) in *. unfold SubmitPacket.
  rewrite (bind_quiet _ _ o () o) by (unfold ASSERT; by rewrite Hli).
  rewrite (bind_quiet _ _ o () o) by (unfold ASSERT; by rewrite Hri).
  rewrite (bind_quiet _ _ o o o) by done.
  rewrite (bind_quiet _ _ o () o) by (unfold ASSERT; by rewrite (proj2 (Z.leb_le _ _))).
  cbv zeta. fold ca. rewrite (bind_quiet _ _ o (ix_lookup conaddr_comparator (key o) ca (connections_tree o)) o) by done.
  pose proof (find_connection_run ca o H Hca) as Hf. pose proof (zlen_table o H) as Hl.
  simpl relay_spec. fold ca. destruct (ix_lookup _ _ _ _) as [p|]; simpl bool_decide; cbn [andb].
  - destruct Hf as [Hp Hk]. rewrite (bind_quiet _ _ o (Some p) o) by done.
    destruct (list_find_table o ca p H Hp Hk) as [i ->]. by apply send_existing_result.
  - rewrite list_find_table_none by done.
    destruct (Z.eqb_spec (num_connections o) (max_connections o)) as [E|E].
    + rewrite decide_True by lia.
      assert (ca ∉ lru o) as Hnin by (rewrite lru_elem; naive_solver).
      pose proof (reuse_connection_run ca o H Hca Hnin ltac:(destruct (inv_max o H); lia)) as Hr.
      apply wp_some in Hr as (p & o1 & acts & Er & H1 & -> & Hh & c & tr & Hc & ->).
      set (o1 := with_con o p (c <| con_addr := ca |>) <| connections_tree := tr |>) in *.
      rewrite (bind_quiet _ _ o (Some p) o1) by (by rewrite (bind_quiet _ _ o p o1) by exact Er).
      assert (p ∈ connections_list o1) as Hp by (simpl; destruct (connections_list o); simplify_eq/=; left).
      destruct (send_existing_result o1 p data out H1 Hp) as [Es Hs].
      destruct (reused_table o p c ca tr H Hh Hc) as (Ee & rest & Et & Ef). fold o1 in Ee, Ef.
      split; [|done]. exists (entry_at o p), rest. split; [done|]. rewrite Es, Ef, Ee. done.
    + rewrite decide_False by lia. rewrite (bind_quiet _ _ o None o) by done.
      pose proof (connection_init_run e ca data dns o H Hca Hf Hm) as Hi.
      apply wp_some in Hi as (r & o' & acts & Ei & Hi).
      assert ((_ ← connection_init e ca data dns; mret ()) o = Some ((), o', acts)) as ->.
      { unfold mbind, M_bind. rewrite Ei. unfold mret, M_ret. by rewrite app_nil_r. }
      unfold init_ok in Hi |- *. destruct (e_malloc e) as [p|].
      * destruct (_ && _ && _ && _).
        -- destruct Hi as (p' & -> & [= <-] & Hins & ->). split.
           { simpl. by rewrite (inserted_table o p _ o' H (Hm p eq_refl) Hins). }
           intros o2 acts2 [= <- <-]. split; [|by destruct Hins as (tr & _ & ->)].
           eapply inserted_inv; eauto. destruct (inv_max o H). lia.
        -- destruct Hi as (-> & -> & ->). split; [done|]. by intros o2 acts2 [= <- <-].
      * destruct Hi as (-> & -> & ->). split; [done|]. by intros o2 acts2 [= <- <-].
Qed.

Lemma first_job_refines p out o : inv o → call_ok o (CFirstJob p out) →
  relay_spec o (table o) (CFirstJob p out) (result (run_first_job p out o)) ∧
  ∀ o' acts, run_first_job p out o = Some ((), o', acts) → inv o' ∧ same_config o o'.
Proof.
  intros H (Hp & [d Hd] & _). rewrite ent_name_at in Hp. destruct (inv_lookup o p H Hp) as (c & Hc & _ & _).
  pose proof Hd as Hd'. rewrite (entry_at_some o p c Hc) in Hd'. simpl in Hd'.
  destruct (first_job_set c) eqn:Ej; [|done]. injection Hd' as <-.
  set (c' := c <| first_job_set := false |>). set (o1 := with_con o p c').
  assert (run_first_job p out o = connection_send p (first_data c) out o1) as ->.
  { unfold run_first_job. rewrite (bind_quiet _ _ o () o1).
    - unfold connection_first_job_handler. rewrite (bind_quiet _ _ o1 c' o1); [done|].
      unfold deref. by rewrite (with_con_lookup o p c' : heap o1 !! p = Some c').
    - unfold set_con. rewrite (bind_quiet _ _ o c o) by (unfold deref; by rewrite Hc). done. }
  assert (∀ q, key o1 q = key o q) as Hk.
  { intros q. unfold o1. rewrite key_with_con. case_decide as E; [|done]. subst. unfold key. by rewrite Hc. }
  assert (inv o1) as H1.
  { destruct H as [Hi Hh Hnum Hmax Hcon Hmtu]. split; try done.
    - apply (indexed_ext (key o)); [|done]. intros q _. apply Hk.
    - intros q. simpl. rewrite <- Hh. destruct (decide (q = p)) as [->|]; [|by rewrite lookup_insert_ne].
      rewrite lookup_insert_eq, Hc. naive_solver.
    - intros q e. simpl. destruct (decide (q = p)) as [->|]; [|rewrite lookup_insert_ne by done; apply Hcon].
      rewrite lookup_insert_eq. intros [= <-]. apply (Hcon p c Hc). }
  rewrite (send_result p c') by (done || apply with_con_lookup).
  assert (entry_at o1 p = entry_at o p <| ent_first := None |>) as Ee
    by (rewrite (entry_at_some o1 p c') by apply with_con_lookup; by rewrite (entry_at_some o p c)).
  assert (sends o1 (entry_at o1 p) (first_data c) out = sends o (entry_at o p) (first_data c) out) as ->
    by (by rewrite Ee).
  assert (table o1 = (λ y, if decide (y = entry_at o p) then entry_at o p <| ent_first := None |> else y) <$> table o) as Et.
  { unfold table. rewrite <- list_fmap_compose. apply list_fmap_ext. intros i q Hq. simpl.
    destruct (decide (q = p)) as [->|Hne]; [by rewrite decide_True, Ee by done|].
    rewrite decide_False by (intros E%entry_at_inj; done). unfold entry_at, o1. simpl. by rewrite lookup_insert_ne. }
  split.
  - exists (entry_at o p), (first_data c). split_and!; [apply list_elem_of_fmap; eauto|apply ent_name_at|done|].
    rewrite <- Et. by destruct (sends o _ _ out).
  - destruct (sends o _ _ out); simpl; [|done]. by intros o' acts [= <- <-].
Qed.

Lemma received_refines p data o : inv o → call_ok o (CReceived p data) →
  relay_spec o (table o) (CReceived p data) (result (dgram_handler_received p data o)) ∧
  ∀ o' acts, dgram_handler_received p data o = Some ((), o', acts) → inv o' ∧ same_config o o'.
Proof.
  intros H (Hp & Hb & Hl). destruct (inv_lookup o p H Hp) as (c & Hc & (_ & Hca & _) & _).
  pose proof (received_run p c data o H Hc Hb Hl) as Hr.
  apply wp_some in Hr as ([] & o' & acts & E & -> & Ha). rewrite E.
  split; [|by intros o' acts' [= <- <-]]. 
  assert (∀ d', (if is_dns c then Some data else strip_header (remote_addr (con_addr c)) data) = Some d' ↔
    peer_payload (is_dns c) (remote_addr (con_addr c)) data d') as Hpp.
  { intros d'. unfold peer_payload. destruct (is_dns c) eqn:Ed; [naive_solver|].
    rewrite strip_header_spec by done. unfold from_peer, peer_payload. by rewrite Ed. }
  assert (∃ acts', acts = RecvDone p :: acts' ∧ (length acts' ≤ 1)%nat ∧ ∀ a, a ∈ acts' ↔
    ∃ d, a = HandlerReceived (local_addr (con_addr c)) (remote_addr (con_addr c)) d ∧
      peer_payload (is_dns c) (remote_addr (con_addr c)) data d ∧ zlen d ≤ udp_mtu o) as (acts' & -> & Hlen & Hacts).
  { destruct (if is_dns c then _ else _) as [d|]; subst acts; eexists; (split; [done|]).
    - destruct (Z.ltb_spec (udp_mtu o) (zlen d)); (split; [simpl; lia|]); intros a.
      + split; [by intros ?%elem_of_nil|]. intros (d' & -> & Hd'%Hpp & ?). simplify_eq. lia.
      + rewrite list_elem_of_singleton. split; [intros ->; exists d; split_and!; [done|by apply Hpp|done]|].
        intros (d' & -> & Hd'%Hpp & ?). by simplify_eq.
    - split; [simpl; lia|]. intros a. split; [by intros ?%elem_of_nil|]. by intros (d' & -> & Hd'%Hpp & ?). }
  exists (entry_at o p), acts'. rewrite (entry_at_some o p c) by done.
  split_and!; [|done..]. rewrite <- (entry_at_some o p c) by done. apply list_elem_of_fmap. eauto.
Qed.

Lemma call_refines c o : inv o → call_ok o c →
  relay_spec o (table o) c (result (do_call c o)) ∧
  ∀ o' acts, do_call c o = Some ((), o', acts) → inv o' ∧ same_config o o'.
Proof.
  intros H Hc. destruct c as [e out local remote dns data|p out|p data|p].
  - by apply submit_refines.
  - by apply first_job_refines.
  - by apply received_refines.
  - destruct (inv_lookup o p H Hc) as (c & E & _). simpl. unfold dgram_handler.
    rewrite (bind_quiet _ _ o c o) by (unfold deref; by rewrite E). split; [done|]. by intros o' acts [= <- <-].
Qed.

Lemma runs_refine o cs acts o' : runs o cs acts o' → inv o →
  inv o' ∧ same_config o o' ∧ relay_runs o (table o) cs acts (table o').
Proof.
  intros Hr H. assert (∀ cfg, same_config cfg o → inv o' ∧ same_config cfg o' ∧ relay_runs cfg (table o) cs acts (table o')) as K;
    [|by apply K]. revert H.
  induction Hr as [o|o c acts o1 cs acts' o2 Hc Hm Hr IH]; intros H cfg Hcfg; [split_and!; [done|done|constructor]|].
  destruct (call_refines c o H Hc) as [Hs Hi]. rewrite Hm in Hs. destruct (Hi o1 acts Hm) as [H1 Hc1].
  destruct (IH H1 cfg) as (H2 & Hc2 & Hr2).
  { unfold same_config in *. destruct_and!. split_and!; congruence. }
  split_and!; [done|done|]. eapply relay_cons; [|exact Hr2]. eapply relay_spec_config; [exact Hcfg|exact Hs].
Qed.

(** The zero-initialised object after [SocksUdpGwClient_Init]. *)
Lemma Init_run mtu maxc server dns o : 0 ≤ mtu → mtu + 22 ≤ INT_MAX → 0 < maxc →
  BAddr_IsInvalid server = false → num_connections o = 0 → heap o = ∅ →
  wp (Init mtu maxc server dns) o (λ _ o' acts, inv o' ∧ lru o' = [] ∧ udp_mtu o' = mtu ∧
    dnsgw o' = dns ∧ socks_server_addr o' = server ∧ max_connections o' = Z.min maxc 65536 ∧ acts = []).
Proof.
  intros Hm0 Hm1 Hmax Hs Hn Hh. unfold Init. wp_assert; [by rewrite Hs|]. split_and!; try done.
  2: { simpl. change (Z.pos (65535 + 1)) with 65536. destruct (Z.ltb_spec 65536 maxc); lia. }
  split; simpl; try done.
  - apply indexed_empty.
  - intros p. rewrite Hh, lookup_empty. split; [by intros []|by intros ?%elem_of_nil].
  - change (Z.pos (65535 + 1)) with 65536. rewrite Hn. destruct (Z.ltb_spec 65536 maxc); lia.
  - intros p c. by rewrite Hh, lookup_empty.
  - rewrite udpgw_compute_mtu_spec by lia. lia.
Qed.

(** ** Properties *)

(** C10: The relay implements an abstract table.  From initialisation on, for every
    sequence of submitted datagrams, first jobs, received datagrams and socket
    errors, with any results of the allocations and any blocks of the writer, the
    state is consistent (tree, list, counter and objects describe the same
    connections, at most [max_connections], one per pair of addresses), the run is
    a run of the abstract relay with the same actions, and the next call does what
    the abstract relay says: a datagram goes out on the connection of its pair of
    addresses, to the DNS gateway unchanged if that connection was created for a
    datagram marked as DNS and to the SOCKS server with its SOCKS header
    otherwise; a new pair over a full table takes over the least recently used
    connection with its way out, whatever its own mark; and the only way a call
    can fail is a message that does not fit the block of the writer. *)
Theorem relay_refines_table mtu maxc server dns o :
  0 ≤ mtu → mtu + 22 ≤ INT_MAX → 0 < maxc → BAddr_IsInvalid server = false →
  num_connections o = 0 → heap o = ∅ →
  ∃ o0, Init mtu maxc server dns o = Some ((), o0, []) ∧ table o0 = [] ∧
    udp_mtu o0 = mtu ∧ dnsgw o0 = dns ∧ socks_server_addr o0 = server ∧
    max_connections o0 = Z.min maxc 65536 ∧
    ∀ cs acts o', runs o0 cs acts o' →
      inv o' ∧ relay_runs o0 [] cs acts (table o') ∧
      ∀ c, call_ok o' c → relay_spec o0 (table o') c (result (do_call c o')).
Proof.
  intros Hm0 Hm1 Hmax Hs Hn Hh.
  pose proof (Init_run mtu maxc server dns o Hm0 Hm1 Hmax Hs Hn Hh) as HI.
  apply wp_some in HI as ([] & o0 & t0 & E & Hinv & Hlru & Em & Ed & Es & Ex & ->).
  assert (table o0 = []) as Et.
  { unfold table, lru in *. by rewrite (fmap_nil_inv _ _ Hlru). }
  exists o0. split_and!; try done. intros cs acts o' Hr.
  destruct (runs_refine _ _ _ _ Hr Hinv) as (H' & Hc & Ha). rewrite Et in Ha. split_and!; [done|done|].
  intros c Hok. eapply relay_spec_config; [done|]. by apply call_refines.
Qed.


(** C12: Exactly the datagrams of the peer are delivered: on a connection through
    the SOCKS server those with a well-formed, unfragmented header that names the
    remote address (of the right family), on a DNS connection all; each with the
    addresses of the connection, without the header, and only up to the MTU. *)
Theorem received_exactly p c data o :
  inv o → heap o !! p = Some c → bytes_ok data → zlen data ≤ udpgw_mtu o →
  wp (dgram_handler_received p data) o (λ _ o' acts, o' = o ∧
    ∀ l r d, HandlerReceived l r d ∈ acts ↔
      mk_conaddr l r = con_addr c ∧ from_peer c data d ∧ zlen d ≤ udp_mtu o).
Proof.
  intros H Hc Hd Hl. destruct (inv_con o H p c Hc) as (_ & Hca & _).
  eapply wp_mono; [by apply received_run|]. intros _ o' acts [-> Ha]. split; [done|]. intros l r d.
  assert (∀ d', (if is_dns c then Some data else strip_header (remote_addr (con_addr c)) data) = Some d' ↔
    from_peer c data d') as Hp.
  { intros d'. unfold from_peer, peer_payload. destruct (is_dns c) eqn:E; [naive_solver|].
    rewrite strip_header_spec by done. unfold from_peer, peer_payload. by rewrite E. }
  rewrite <- Hp. destruct (con_addr c) as [lc rc]; simpl in *.
  destruct (if is_dns c then _ else _) as [d'|]; subst acts; rewrite ?elem_of_cons; [|set_solver].
  destruct (Z.ltb_spec (udp_mtu o) (zlen d')) as [Hgt|Hle].
  - split; [set_solver|]. intros (_ & [= ->] & ?). lia.
  - rewrite list_elem_of_singleton. naive_solver.
Qed.

(** C13: A datagram sent through the SOCKS server and returned by it as it was
    sent is delivered with the same data, from the remote to the local address. *)
Theorem relay_roundtrip p c data out o :
  inv o → heap o !! p = Some c → bytes_ok data → zlen out = udp_mtu o → zlen (message c data) ≤ zlen out →
  ∃ msg, connection_send p data (Some out) o = Some ((), o, [EndPacket p (send_addr c) msg]) ∧
    dgram_handler_received p msg o = Some ((), o,
      [RecvDone p; HandlerReceived (local_addr (con_addr c)) (remote_addr (con_addr c)) data]).
Proof.
  intros H Hc Hd Hout Hlen. destruct (inv_con o H p c Hc) as (_ & Hca & _). exists (message c data).
  destruct (inv_mtu o H) as (_ & _ & Hmtu). pose proof (zlen_nonneg data).
  rewrite (connection_send_run p c) by (done || apply Hca). rewrite (proj2 (Z.leb_le _ _)) by lia.
  split; [done|]. assert (bytes_ok (message c data)) as Hb by (apply message_bytes_ok; [apply Hca|done]).
  assert (if is_dns c then True else strip_header (remote_addr (con_addr c)) (message c data) = Some data) as Hs.
  { destruct (is_dns c) eqn:E; [done|]. apply strip_header_spec; [done..|]. unfold from_peer, peer_payload, message. rewrite E.
    exists 0, (atyp_of (remote_addr (con_addr c))). split_and!; [done| | |done].
    - unfold atyp_of. by destruct (_ =? _).
    - destruct Hca as (_ & _ & _ & Hip). by destruct (remote_addr (con_addr c)). }
  assert (zlen data ≤ udp_mtu o) as Hle.
  { destruct (is_dns c) eqn:E; unfold message in Hlen; rewrite E in Hlen; [lia|].
    rewrite zlen_socks_message in Hlen by apply Hca.
    pose proof (addr_field_len_nonneg (remote_addr (con_addr c))). lia. }
  pose proof (received_run p c (message c data) o H Hc Hb) as Hr.
  destruct (wp_some (dgram_handler_received p (message c data)) o
    (λ _ o' acts, o' = o ∧ acts = [RecvDone p; HandlerReceived (local_addr (con_addr c)) (remote_addr (con_addr c)) data])) as [Hf _].
  destruct Hf as ([] & ? & ? & E & -> & ->); [|done].
  eapply wp_mono; [apply Hr; lia|]. intros _ o' acts [-> Ha]. split; [done|].
  destruct (is_dns c) eqn:E; [unfold message in Ha; rewrite E in Ha|rewrite Hs in Ha];
    by rewrite (proj2 (Z.ltb_ge _ _)) in Ha by lia.
Qed.

(** C14: The buffer that [connection_send] writes to has the length [udp_mtu], the
    largest datagram, without room for the SOCKS header: the writes stay inside
    it exactly when the header and the data together fit, so that a datagram
    accepted by [SubmitPacket] whose length is within a header of the MTU overruns
    it (10 bytes for IPv4, 22 for IPv6). *)
Theorem send_overrun p c data out o :
  inv o → heap o !! p = Some c → zlen out = udp_mtu o → zlen data ≤ udp_mtu o →
  connection_send p data (Some out) o = None ↔
    is_dns c = false ∧ udp_mtu o - (4 + addr_field_len (remote_addr (con_addr c))) < zlen data.
Proof.
  intros H Hc Ho Hd. destruct (inv_con o H p c Hc) as (_ & Hca & _).
  rewrite (connection_send_run p c) by (done || apply Hca). unfold message.
  destruct (is_dns c).
  - rewrite (proj2 (Z.leb_le _ _)) by lia. naive_solver.
  - rewrite zlen_socks_message by apply Hca.
    destruct (Z.leb_spec (4 + addr_field_len (remote_addr (con_addr c)) + zlen data) (zlen out)); [|naive_solver lia].
    split; [done|]. intros [_ ?]. lia.
Qed.

(** When the table is full, the datagram of a new pair of addresses is sent
    the way of the connection that is replaced: its destination and the presence
    of a SOCKS header are those of the old connection, whatever the DNS flag of
    the new datagram. *)
Theorem reuse_ignores_dns e out local remote dns data o p c :
  inv o → conaddr_ok (mk_conaddr local remote) → zlen data ≤ udp_mtu o →
  out_ok o remote data (Some out) → mk_conaddr local remote ∉ lru o → zlen (lru o) = max_connections o →
  head (connections_list o) = Some p → heap o !! p = Some c →
  wp (SubmitPacket e (Some out) local remote dns data) o (λ _ o' acts,
    acts = [EndPacket p (send_addr c) (if is_dns c then data else socks_message remote data)]).
Proof.
  intros H Hca Hd Ho Hnin Hfull Hh Hc. set (ca := mk_conaddr local remote) in *. unfold SubmitPacket.
  wp_assert; [apply Hca|]. wp_assert; [apply Hca|]. wp_assert; [by apply Z.leb_le|]. fold ca.
  unfold find_connection. apply wp_gets. pose proof (find_connection_run ca o H Hca) as Hf.
  destruct (ix_lookup _ _ _ _) as [q|]; [destruct Hnin; apply lru_elem; eauto|]. simpl.
  rewrite zlen_lru in Hfull by done. rewrite Hfull, Z.eqb_refl. apply wp_bind, wp_bind.
  eapply wp_mono; [apply reuse_connection_run; try done; destruct (inv_max o H); lia|].
  intros p' o1 acts (H1 & -> & Hh' & c' & tr & Hc' & Ho1). simplify_eq. apply wp_ret.
  assert (p ∈ connections_list o) as Hp by (destruct (connections_list o); simplify_eq/=; left).
  set (o1 := with_con o p (c <| con_addr := ca |>) <| connections_tree := tr |>) in *.
  eapply wp_mono; [apply (send_existing_run o1 p ca data (Some out) H1 Hp); [|done]|].
  { etrans; [apply key_with_con|]. by rewrite decide_True. }
  intros _ o' acts (_ & -> & d & Hd' & _ & ->). simpl in Hd'. rewrite lookup_insert_eq in Hd'.
  injection Hd' as <-. done.
Qed.

(** C15: [SocksUdpGwClient_Free] ends and frees every connection once, in list
    order, with every member released except the first job, which stays in the
    reactor's list if it is still pending. *)
Theorem relay_free o : inv o →
  wp Free o (λ _ o' acts, connections_list o' = [] ∧ heap o' = ∅ ∧ num_connections o' = 0 ∧
    acts = (λ p, FreeMem p [FirstJob] (pending o p)) <$> connections_list o).
Proof.
  intros H. unfold Free. apply wp_bind, wp_get.
  eapply wp_mono; [by apply free_loop_run|]. intros _ o' acts (H' & E & ->). split_and!; [done| | |done].
  - apply map_empty. intros p. apply eq_None_not_Some. rewrite (inv_heap o' H'), E. by intros ?%elem_of_nil.
  - by rewrite (inv_num o' H'), E.
Qed.

End Relay.

(** ** Witnesses: a table of one connection *)
Section Witnesses.
Import SocksUdpGwClient.

Definition final {St Ev A} (m : M St Ev A) (s : St) : St := match m s with Some (_, s', _) => s' | None => s end.
Lemma wp_final {St Ev A} (m : M St Ev A) s Q : wp m s Q → ∃ a acts, Q a (final m s) acts.
Proof. unfold wp, final. destruct (m s) as [[[a s'] acts]|]; [eauto|done]. Qed.

#[local] Existing Instance bavl_index.
Definition gw_zero : t CAvl.CAvl := mk_t _ 0 BADDR_NONE BADDR_NONE 0 0 0 (BAVL.BAVL_Init ∅) [] ∅.
Definition ex_server : BAddr := BADDR_IPV4 16777343 (hton16 1080).
Definition ex_dnsgw : BAddr := BADDR_IPV4 16777343 (hton16 5353).
Definition ex_local : BAddr := BADDR_IPV4 33554442 (hton16 40000).
Definition ex_remote : BAddr := BADDR_IPV4 134744072 (hton16 443).
Definition ex_remote2 : BAddr := BADDR_IPV4 134744072 (hton16 53).
Definition ex_env : env := mk_env (Some 7%nat) true true true true.
Definition ex_out : bytes := replicate 100 0.

Definition gw0 : t CAvl.CAvl := final (Init 100 1 ex_server ex_dnsgw) gw_zero.
Definition gw1 : t CAvl.CAvl := final (SubmitPacket ex_env None ex_local ex_remote false [1; 2; 3]) gw0.
Definition gw2 : t CAvl.CAvl := final (run_first_job 7 (Some ex_out)) gw1.

Lemma gw0_inv : inv gw0.
Proof. destruct (wp_final _ _ _ (Init_run 100 1 ex_server ex_dnsgw gw_zero ltac:(lia) ltac:(done) ltac:(lia) eq_refl eq_refl eq_refl)) as (? & ? & ? & _). done. Qed.

Ltac conc := first [apply (bool_decide_unpack _); vm_compute; exact I | vm_compute; intuition congruence | done].

Definition ex_call1 : call := CSubmit ex_env None ex_local ex_remote false [1; 2; 3].
Definition ex_call2 : call := CFirstJob 7 (Some ex_out).
Lemma gw1_ok : call_ok gw0 ex_call1.
Proof. split_and!; [conc|conc|done|]. intros p [= <-]. reflexivity. Qed.
Lemma gw1_inv : inv gw1.
Proof.
  destruct (call_refines ex_call1 gw0 gw0_inv gw1_ok) as [_ H].
  eapply H. unfold gw1, final. vm_compute. reflexivity.
Qed.

Definition ex_con : connection := new_con gw0 (mk_conaddr ex_local ex_remote) [1; 2; 3] false.
Lemma gw1_con : heap gw1 !! 7%nat = Some ex_con.
Proof. vm_compute. reflexivity. Qed.
Lemma gw2_ok : call_ok gw1 ex_call2.
Proof. split_and!; [conc|vm_compute; eauto|]. intros b [= <-]. reflexivity. Qed.
Lemma gw2_runs : ∃ acts, runs gw0 [ex_call1; ex_call2] acts gw2.
Proof.
  eexists. eapply runs_cons; [apply gw1_ok|vm_compute; reflexivity|].
  eapply runs_cons; [apply gw2_ok|vm_compute; reflexivity|]. apply runs_nil.
Qed.

Lemma relay_refines_table_witness : ∃ acts, runs gw0 [ex_call1; ex_call2] acts gw2 ∧
  inv gw2 ∧ relay_runs gw0 [] [ex_call1; ex_call2] acts (table gw2).
Proof.
  destruct (relay_refines_table 100 1 ex_server ex_dnsgw gw_zero) as (o0 & E & _ & _ & _ & _ & _ & H);
    [lia|done|lia|reflexivity|reflexivity|reflexivity|].
  assert (o0 = gw0) as -> by (unfold gw0, final; rewrite E; reflexivity).
  destruct gw2_runs as [acts Hr]. destruct (H _ acts gw2 Hr) as (? & ? & _). eauto.
Defined.


Lemma received_exactly_witness :
  wp (dgram_handler_received 7 (socks_message ex_remote [9; 9])) gw1 (λ _ o' acts, o' = gw1 ∧
    ∀ l r d, HandlerReceived l r d ∈ acts ↔ mk_conaddr l r = con_addr ex_con ∧
      from_peer ex_con (socks_message ex_remote [9; 9]) d ∧ zlen d ≤ udp_mtu gw1).
Proof. apply received_exactly; [apply gw1_inv|apply gw1_con|conc|conc]. Defined.

Lemma relay_roundtrip_witness :
  ∃ msg, connection_send 7 [5; 6] (Some ex_out) gw1 = Some ((), gw1, [EndPacket 7 (send_addr ex_con) msg]) ∧
    dgram_handler_received 7 msg gw1 = Some ((), gw1,
      [RecvDone 7; HandlerReceived (local_addr (con_addr ex_con)) (remote_addr (con_addr ex_con)) [5; 6]]).
Proof. apply relay_roundtrip; [apply gw1_inv|apply gw1_con|conc|conc|conc]. Defined.

(** A datagram of 95 bytes with an MTU of 100. *)
Lemma send_overrun_witness :
  connection_send 7 (replicate 95 0) (Some ex_out) gw1 = None ↔
    is_dns ex_con = false ∧ udp_mtu gw1 - (4 + addr_field_len (remote_addr (con_addr ex_con))) < zlen (replicate 95 0).
Proof. apply send_overrun; [apply gw1_inv|apply gw1_con|conc|conc]. Defined.

(** A DNS query over the full table goes to the SOCKS server. *)
Lemma reuse_ignores_dns_witness :
  wp (SubmitPacket ex_env (Some ex_out) ex_local ex_remote2 true [8]) gw1 (λ _ o' acts,
    acts = [EndPacket 7 (send_addr ex_con) (if is_dns ex_con then [8] else socks_message ex_remote2 [8])]).
Proof.
  apply reuse_ignores_dns; [apply gw1_inv|conc|conc|conc|conc|conc|reflexivity|apply gw1_con].
Defined.

Lemma relay_free_witness :
  wp Free gw1 (λ _ o' acts, connections_list o' = [] ∧ heap o' = ∅ ∧ num_connections o' = 0 ∧
    acts = (λ p, FreeMem p [FirstJob] (pending gw1 p)) <$> connections_list gw1).
Proof. apply relay_free, gw1_inv. Defined.
End Witnesses.
