(* ===== verification/UdpGw.v ===== *)
(** * The udpgw client: udpgw_client/UdpGwClient.c

    All connections share one stream to a udpgw server; a connection is known to
    the server by a 16-bit number, its conid.  The connections are in two search
    trees, by addresses and by conid, and in a list with the least recently used
    one first. *)
From stdpp Require Import base list sets gmap numbers.
From Stdlib Require Import ZArith Lia.
From S2P Require Import Prelude ByteOrder Addr Index Avl CAvl BAvl UdpGwProto PacketProto SocksClient SocksUdpGw.
#[local] Open Scope Z_scope.

Module UdpGwClient.
Import SocksUdpGwClient(conaddr, mk_conaddr, local_addr, remote_addr).

(** The members of a connection and of the client that have to be released. *)
Inductive con_resource := FirstJob | SendQFlow | SendPPFlow.
Inductive resource :=
| SendConnector | SendMonitor | SendQueue | KeepaliveQFlow | RecvIf | RecvDecoder | SendSender | ConnectorOutput.
#[export] Instance con_resource_eq_dec : EqDecision con_resource.
Proof. solve_decision. Defined.
#[export] Instance resource_eq_dec : EqDecision resource.
Proof. solve_decision. Defined.

Record connection := mk_connection {
  con_addr : conaddr; first_flags : Z; first_data : bytes; con_id : Z;
  first_job_set : bool; con_held : list con_resource
}.
#[global] Instance eta_connection : Eta connection := λ c,
  mk_connection (con_addr c) (first_flags c) (first_data c) (con_id c) (first_job_set c) (con_held c).

Inductive act :=
| RecvDone                                         (** [PacketPassInterface_Done(&o->recv_if)] *)
| EndPacket (con : nat) (msg : bytes)              (** [BufferWriter_EndPacket(con->send_if, ...)] *)
| SendKeepalive (packet : bytes)                   (** [PacketPassInterface_Sender_Send(o->keepalive_if, ...)] *)
| HandlerReceived (local_addr remote_addr : BAddr) (data : bytes)
| HandlerServerError
| FreeMem (con : nat) (held : list con_resource).

(** What [malloc] and [PacketProtoFlow_Init] return. *)
Record env := mk_env { e_malloc : option nat; e_ppflow : bool }.

Definition uint16_comparator (v1 v2 : Z) : Z := B_COMPARE v1 v2.
(** The same function as in SocksUdpGwClient.c. *)
Definition conaddr_comparator (v1 v2 : conaddr) : Z :=
  let r := BAddr_CompareOrder (remote_addr v1) (remote_addr v2) in
  if negb (r =? 0) then r else BAddr_CompareOrder (local_addr v1) (local_addr v2).

(** [struct UdpGwClient], with the connection objects in [heap]; [held]: the
    members that are initialised; [queue_freeing]: [send_queue.freeing], set by
    [PacketPassFairQueue_PrepareFree]. *)
Record t {TA TI : Type} := mk_t {
  udp_mtu : Z; max_connections : Z; send_buffer_size : Z; udpgw_mtu : Z; pp_mtu : Z;
  connections_tree_by_conaddr : TA; connections_tree_by_conid : TI; connections_list : list nat;
  num_connections : Z; next_conid : Z; keepalive_packet : bytes; keepalive_sending : bool;
  have_server : bool; held : list resource; heap : gmap nat connection; queue_freeing : bool
}.
#[global] Arguments t : clear implicits.
#[global] Instance eta_t {TA TI} : Eta (t TA TI) := λ o,
  mk_t TA TI (udp_mtu o) (max_connections o) (send_buffer_size o) (udpgw_mtu o) (pp_mtu o)
    (connections_tree_by_conaddr o) (connections_tree_by_conid o) (connections_list o)
    (num_connections o) (next_conid o) (keepalive_packet o) (keepalive_sending o) (have_server o)
    (held o) (heap o) (queue_freeing o).

Section Model.
Context {TA TI : Type} {opsA : IndexOps conaddr TA} {opsI : IndexOps Z TI}.
Abbreviation CM := (M (t TA TI) act).

Definition key_addr (o : t TA TI) (p : nat) : conaddr :=
  match heap o !! p with Some c => con_addr c | None => mk_conaddr BADDR_NONE BADDR_NONE end.
Definition key_id (o : t TA TI) (p : nat) : Z :=
  match heap o !! p with Some c => con_id c | None => 0 end.

Definition deref (p : nat) : CM connection := λ o, c ← heap o !! p; Some (c, o, []).
Definition set_con (p : nat) (f : connection → connection) : CM () :=
  c ← deref p; modify (λ o, o <| heap := <[p := f c]> (heap o) |>).
Definition con_init (p : nat) (r : con_resource) : CM () :=
  set_con p (λ c, c <| con_held := r :: con_held c |>).
Definition con_release (p : nat) (r : con_resource) : CM () :=
  c ← deref p; ASSERT (bool_decide (r ∈ con_held c));;
  set_con p (λ c, c <| con_held := filter (λ x, x ≠ r) (con_held c) |>).
Definition free (p : nat) : CM () :=
  c ← deref p; emit (FreeMem p (con_held c));; modify (λ o, o <| heap := delete p (heap o) |>).
Definition init (r : resource) : CM () :=
  o ← get; ASSERT (bool_decide (r ∉ held o));; modify (λ o, o <| held := r :: held o |>).
Definition release (r : resource) : CM () :=
  o ← get; ASSERT (bool_decide (r ∈ held o));;
  modify (λ o, o <| held := filter (λ x, x ≠ r) (held o) |>).

(** [PacketPassFairQueueFlow_AssertFree] and the assertion of
    [PacketPassFairQueueFlow_Free]: the flow may be the one that is being sent, so
    the queue must be prepared for freeing. *)
Definition assert_flow_free : CM () := o ← get; ASSERT (queue_freeing o).

Definition free_server : CM () :=
  release ConnectorOutput;; release SendSender;; release RecvDecoder;; release RecvIf.

Definition decoder_handler_error : CM () :=
  o ← get; ASSERT (have_server o);; emit HandlerServerError.

Definition find_connection_by_conaddr (ca : conaddr) : CM (option nat) :=
  gets (λ o, ix_lookup conaddr_comparator (key_addr o) ca (connections_tree_by_conaddr o)).
Definition find_connection_by_conid (id : Z) : CM (option nat) :=
  gets (λ o, ix_lookup uint16_comparator (key_id o) id (connections_tree_by_conid o)).

Definition list_append (p : nat) : CM () :=
  modify (λ o, o <| connections_list := connections_list o ++ [p] |>).
Definition list_remove (p : nat) : CM () :=
  modify (λ o, o <| connections_list := filter (λ q, q ≠ p) (connections_list o) |>).
Definition insert_by_conaddr (p : nat) : CM () :=
  o ← get;
  match ix_insert conaddr_comparator (key_addr o) p (connections_tree_by_conaddr o) with
  | None => ASSERT false
  | Some tr => modify (λ o, o <| connections_tree_by_conaddr := tr |>)
  end.
Definition insert_by_conid (p : nat) : CM () :=
  o ← get;
  match ix_insert uint16_comparator (key_id o) p (connections_tree_by_conid o) with
  | None => ASSERT false
  | Some tr => modify (λ o, o <| connections_tree_by_conid := tr |>)
  end.

(** The address after the header, and the data after the address. *)
Definition parse_address (fl : Z) (data : bytes) : option (BAddr * bytes) :=
  if negb (Z.land fl UDPGW_CLIENT_FLAG_IPV6 =? 0) then
    if zlen data <? SIZEOF_udpgw_addr_ipv6 then None
    else Some (udpgw_addr_ipv6_load data, drop (Z.to_nat SIZEOF_udpgw_addr_ipv6) data)
  else
    if zlen data <? SIZEOF_udpgw_addr_ipv4 then None
    else Some (udpgw_addr_ipv4_load data, drop (Z.to_nat SIZEOF_udpgw_addr_ipv4) data).

Definition recv_interface_handler_send (data : bytes) : CM () :=
  o ← get;
  ASSERT (have_server o);;
  ASSERT (zlen data <=? udpgw_mtu o);;
  emit RecvDone;;
  if zlen data <? SIZEOF_udpgw_header then mret () else
  let header := udpgw_header_load data in
  let data := drop (Z.to_nat SIZEOF_udpgw_header) data in
  let flags := ltoh8 (flags header) in
  let conid := ltoh16 (conid header) in
  match parse_address flags data with
  | None => mret ()
  | Some (remote_addr, data) =>
      if udp_mtu o <? zlen data then mret () else
      con ← find_connection_by_conid conid;
      match con with
      | None => mret ()
      | Some p =>
          c ← deref p;
          if negb (BAddr_CompareOrder (SocksUdpGwClient.remote_addr (con_addr c)) remote_addr =? 0) then mret () else
          list_remove p;; list_append p;;
          emit (HandlerReceived (local_addr (con_addr c)) (SocksUdpGwClient.remote_addr (con_addr c)) data)
      end
  end.

Definition send_monitor_handler : CM () :=
  o ← get;
  if keepalive_sending o then mret () else
  emit (SendKeepalive (keepalive_packet o));;
  modify (λ o, o <| keepalive_sending := true |>).
Definition keepalive_if_handler_done : CM () :=
  o ← get; ASSERT (keepalive_sending o);; modify (λ o, o <| keepalive_sending := false |>).

(** The search for a conid; [fuel] bounds the iterations of [while (1)]. *)
Fixpoint find_conid_loop (fuel : nat) : CM Z :=
  match fuel with
  | O => ASSERT false;; mret 0
  | S fuel =>
      o ← get;
      con ← find_connection_by_conid (u16 (next_conid o));
      match con with
      | None => mret (u16 (next_conid o))
      | Some _ =>
          modify (λ o, o <| next_conid :=
            if next_conid o =? max_connections o - 1 then 0 else next_conid o + 1 |>);;
          find_conid_loop fuel
      end
  end.
Definition find_unused_conid : CM Z :=
  o ← get;
  ASSERT (num_connections o <? max_connections o);;
  find_conid_loop (Z.to_nat (max_connections o)).

Definition connection_init (e : env) (ca : conaddr) (flags : Z) (data : bytes) : CM () :=
  o ← get;
  ASSERT (num_connections o <? max_connections o);;
  con ← find_connection_by_conaddr ca;
  ASSERT (bool_decide (con = None));;
  ASSERT (zlen data <=? udp_mtu o);;
  match e_malloc e with
  | None => mret ()
  | Some p =>
      id ← find_unused_conid;
      modify (λ o, o <| heap := <[p := mk_connection ca flags data id false []]> (heap o) |>);;
      con_init p FirstJob;;
      set_con p (λ c, c <| first_job_set := true |>);;
      con_init p SendQFlow;;
      if negb (e_ppflow e) then
        con_release p SendQFlow;; con_release p FirstJob;; free p
      else
      con_init p SendPPFlow;;
      insert_by_conaddr p;;
      insert_by_conid p;;
      list_append p;;
      modify (λ o, o <| num_connections := num_connections o + 1 |>)
  end.

Definition connection_free (p : nat) : CM () :=
  _ ← deref p;
  assert_flow_free;;
  modify (λ o, o <| num_connections := num_connections o - 1 |>);;
  list_remove p;;
  modify (λ o, o <| connections_tree_by_conid := ix_remove p (connections_tree_by_conid o) |>);;
  modify (λ o, o <| connections_tree_by_conaddr := ix_remove p (connections_tree_by_conaddr o) |>);;
  con_release p SendPPFlow;;
  assert_flow_free;;
  con_release p SendQFlow;;
  con_release p FirstJob;;
  free p.

Definition put (out : bytes) (out_pos : Z) (src : bytes) : CM bytes :=
  ASSERT (out_pos + zlen src <=? zlen out);; mret (write_at out_pos src out).

(** [out]: the block of [udpgw_mtu] bytes that [BufferWriter_StartPacket] gives,
    or [None] when the buffer is full. *)
Definition connection_send (p : nat) (flags : Z) (data : bytes) (out : option bytes) : CM () :=
  c ← deref p;
  o ← get;
  ASSERT (zlen data <=? udp_mtu o);;
  match out with
  | None => mret ()
  | Some out =>
      let remote_addr := remote_addr (con_addr c) in
      let flags := if addr_type remote_addr =? BADDR_TYPE_IPV6 then Z.lor flags UDPGW_CLIENT_FLAG_IPV6 else flags in
      out ← put out 0 (udpgw_header_bytes (mk_udpgw_header (ltoh8 flags) (ltoh16 (con_id c))));
      '(out, out_pos) ←
        (match remote_addr with
         | BADDR_IPV4 ip port =>
             out ← put out SIZEOF_udpgw_header (udpgw_addr_ipv4_bytes ip port);
             mret (out, SIZEOF_udpgw_header + SIZEOF_udpgw_addr_ipv4)
         | BADDR_IPV6 ip port =>
             out ← put out SIZEOF_udpgw_header (udpgw_addr_ipv6_bytes ip port);
             mret (out, SIZEOF_udpgw_header + SIZEOF_udpgw_addr_ipv6)
         | _ => mret (out, SIZEOF_udpgw_header)
         end);
      out ← put out out_pos data;
      emit (EndPacket p (read_at 0 (out_pos + zlen data) out))
  end.

Definition connection_first_job_handler (p : nat) (out : option bytes) : CM () :=
  c ← deref p;
  connection_send p (Z.lor UDPGW_CLIENT_FLAG_REBIND (first_flags c)) (first_data c) out.
Definition run_first_job (p : nat) (out : option bytes) : CM () :=
  set_con p (λ c, c <| first_job_set := false |>);; connection_first_job_handler p out.

Definition reuse_connection (ca : conaddr) : CM nat :=
  con ← find_connection_by_conaddr ca;
  ASSERT (bool_decide (con = None));;
  o ← get;
  ASSERT (0 <? num_connections o);;
  match head (connections_list o) with
  | None => ASSERT false;; mret 0%nat
  | Some p =>
      modify (λ o, o <| connections_tree_by_conaddr := ix_remove p (connections_tree_by_conaddr o) |>);;
      set_con p (λ c, c <| con_addr := ca |>);;
      insert_by_conaddr p;;
      mret p
  end.

(** [queue]: the result of [PacketPassFairQueue_Init].  [android] selects the
    header counted by [udpgw_compute_mtu]. *)
Definition Init (android : bool) (mtu max_conns buffer_size : Z) (queue : bool) : CM bool :=
  ASSERT (0 <=? mtu);;
  ASSERT (0 <=? udpgw_compute_mtu android mtu);;
  ASSERT (udpgw_compute_mtu android mtu <=? PACKETPROTO_MAXPAYLOAD);;
  ASSERT (0 <? max_conns);;
  ASSERT (0 <? buffer_size);;
  modify (λ o, o <| udp_mtu := mtu |>
    <| max_connections := if UINT16_MAX + 1 <? max_conns then UINT16_MAX + 1 else max_conns |>
    <| send_buffer_size := buffer_size |>
    <| udpgw_mtu := udpgw_compute_mtu android mtu |>
    <| pp_mtu := udpgw_compute_mtu android mtu + SIZEOF_packetproto_header |>
    <| connections_tree_by_conaddr := ix_empty |> <| connections_tree_by_conid := ix_empty |>
    <| connections_list := [] |> <| num_connections := 0 |> <| next_conid := 0 |>);;
  init SendConnector;;
  init SendMonitor;;
  if negb queue then release SendMonitor;; release SendConnector;; mret false else
  init SendQueue;;
  modify (λ o, o <| queue_freeing := false |>);;
  modify (λ o, o <| keepalive_packet :=
    store16 SIZEOF_udpgw_header ++ udpgw_header_bytes (mk_udpgw_header UDPGW_CLIENT_FLAG_KEEPALIVE 0) |>);;
  init KeepaliveQFlow;;
  modify (λ o, o <| keepalive_sending := false |> <| have_server := false |>);;
  mret true.

Fixpoint free_loop (fuel : nat) : CM () :=
  o ← get;
  match head (connections_list o) with
  | None => mret ()
  | Some p => match fuel with
              | O => ASSERT false
              | S fuel => connection_free p;; free_loop fuel
              end
  end.
Definition Free : CM () :=
  modify (λ o, o <| queue_freeing := true |>);;
  o ← get;
  free_loop (length (connections_list o));;
  o ← get;
  when (have_server o) free_server;;
  assert_flow_free;;
  release KeepaliveQFlow;;
  release SendQueue;;
  release SendMonitor;;
  release SendConnector.

Definition SubmitPacket (e : env) (out : option bytes) (local_addr remote_addr : BAddr) (is_dns : bool)
    (data : bytes) : CM () :=
  ASSERT (addr_is_ip local_addr);;
  ASSERT (addr_is_ip remote_addr);;
  o ← get;
  ASSERT (zlen data <=? udp_mtu o);;
  let ca := mk_conaddr local_addr remote_addr in
  con ← find_connection_by_conaddr ca;
  let flags := if is_dns then Z.lor 0 UDPGW_CLIENT_FLAG_DNS else 0 in
  '(con, flags) ←
    (if bool_decide (con = None) && (num_connections o =? max_connections o)
     then p ← reuse_connection ca; mret (Some p, Z.lor flags UDPGW_CLIENT_FLAG_REBIND)
     else mret (con, flags));
  match con with
  | None => connection_init e ca flags data
  | Some p => list_remove p;; list_append p;; connection_send p flags data out
  end.

(** [decoder]: the result of [PacketProtoDecoder_Init]. *)
Definition ConnectServer (decoder : bool) : CM bool :=
  o ← get;
  ASSERT (negb (have_server o));;
  init RecvIf;;
  if negb decoder then release RecvIf;; mret false else
  init RecvDecoder;;
  init SendSender;;
  init ConnectorOutput;;
  modify (λ o, o <| have_server := true |>);;
  mret true.
Definition DisconnectServer : CM () :=
  o ← get;
  ASSERT (have_server o);;
  free_server;;
  modify (λ o, o <| have_server := false |>).

End Model.
End UdpGwClient.

(** ** The order of the conids *)
Section Client.
Import UdpGwClient.
Import SocksUdpGwClient(conaddr, mk_conaddr, local_addr, remote_addr).

#[global] Instance uint16_comparator_total : TotalCmp is_u16 uint16_comparator.
Proof.
  unfold uint16_comparator, B_COMPARE. split; intros;
    repeat match goal with H : context [?x <? ?y] |- _ => destruct (Z.ltb_spec x y)
           | |- context [?x <? ?y] => destruct (Z.ltb_spec x y) end; simpl in *; lia.
Qed.
#[global] Instance udpgw_conaddr_comparator_total : TotalCmp conaddr_ok conaddr_comparator.
Proof. exact conaddr_comparator_total. Qed.

Context {TA TI : Type} {opsA : IndexOps conaddr TA} {opsI : IndexOps Z TI}.
Context {lawsA : IndexLaws opsA conaddr_ok conaddr_comparator} {lawsI : IndexLaws opsI is_u16 uint16_comparator}.
Abbreviation St := (t TA TI).

(** ** The invariant *)

Definition con_resources : list con_resource := [SendPPFlow; SendQFlow; FirstJob].
Definition base_resources : list resource := [KeepaliveQFlow; SendQueue; SendMonitor; SendConnector].
Definition server_resources : list resource := [ConnectorOutput; SendSender; RecvDecoder; RecvIf].

Definition ucon_ok (o : St) (c : connection) : Prop :=
  con_held c = con_resources ∧ 0 ≤ con_id c < max_connections o ∧ zlen (first_data c) ≤ udp_mtu o ∧
  (first_flags c = 0 ∨ first_flags c = UDPGW_CLIENT_FLAG_DNS).

Record uinv (o : St) : Prop := mk_uinv {
  uinv_addr : indexed (key_addr o) (connections_tree_by_conaddr o) (connections_list o);
  uinv_id : indexed (key_id o) (connections_tree_by_conid o) (connections_list o);
  uinv_heap p : is_Some (heap o !! p) ↔ p ∈ connections_list o;
  uinv_num : num_connections o = zlen (connections_list o);
  uinv_max : num_connections o ≤ max_connections o ∧ 0 < max_connections o ≤ 65536;
  uinv_next : 0 ≤ next_conid o < max_connections o;
  uinv_con p c : heap o !! p = Some c → ucon_ok o c;
  uinv_mtu : 0 ≤ udp_mtu o ∧ udp_mtu o + 21 ≤ udpgw_mtu o;
  uinv_held : held o = if have_server o then server_resources ++ base_resources else base_resources
}.

Lemma uinv_lookup o p : uinv o → p ∈ connections_list o →
  ∃ c, heap o !! p = Some c ∧ ucon_ok o c ∧ key_addr o p = con_addr c ∧ key_id o p = con_id c ∧ conaddr_ok (con_addr c).
Proof.
  intros H Hp. pose proof (indexed_ok _ _ _ p (uinv_addr o H) Hp) as Hok.
  apply (uinv_heap o H) in Hp as [c Hc]. exists c. split; [done|].
  split; [by eapply uinv_con|]. unfold key_addr, key_id in *. by rewrite Hc in *.
Qed.

(** ** Choosing a conid *)

Lemma free_conid_exists o : uinv o → num_connections o < max_connections o →
  ∃ id, 0 ≤ id < max_connections o ∧ ∀ p, p ∈ connections_list o → key_id o p ≠ id.
Proof.
  intros H Hn. set (used := key_id o <$> connections_list o).
  destruct (decide (Forall (λ id, id ∈ used) (seqZ 0 (max_connections o)))) as [Hall|Hex].
  - exfalso. rewrite list.Forall_forall in Hall.
    assert (length (seqZ 0 (max_connections o)) ≤ length used)%nat as Hle.
    { apply submseteq_length, NoDup_submseteq; [apply NoDup_seqZ|done]. }
    unfold used in Hle. rewrite length_seqZ, length_fmap in Hle. rewrite (uinv_num o H) in Hn. unfold zlen in Hn. lia.
  - apply not_Forall_Exists in Hex; [|apply _]. apply list.Exists_exists in Hex as (id & Hid & Hnin).
    apply elem_of_seqZ in Hid. exists id. split; [lia|]. intros p Hp E. apply Hnin, list_elem_of_fmap. eauto.
Qed.

(** Each unsuccessful step comes one closer to a free conid, cyclically. *)
Lemma cyclic_step m x y : 0 < m → 0 ≤ x < m → 0 ≤ y < m → x ≠ y →
  let x' := if x =? m - 1 then 0 else x + 1 in
  0 ≤ x' < m ∧ (y - x') mod m < (y - x) mod m.
Proof.
  intros Hm Hx Hy Hne x'. subst x'.
  assert (∀ a, 0 ≤ a < m → (y - a) mod m = if a <=? y then y - a else y - a + m) as Hmod.
  { intros a Ha. destruct (Z.leb_spec a y); [apply Z.mod_small; lia|].
    rewrite <- (Z.mod_add _ 1) by lia. rewrite Z.mul_1_l. apply Z.mod_small. lia. }
  destruct (Z.eqb_spec x (m - 1)); (split; [lia|]); rewrite !Hmod by lia;
    repeat match goal with |- context [?a <=? ?b] => destruct (Z.leb_spec a b) end; lia.
Qed.

Lemma uinv_set_next o n : uinv o → 0 ≤ n < max_connections o → uinv (o <| next_conid := n |>).
Proof. intros [] Hn. by split. Qed.

Lemma find_conid_loop_run fuel id o : uinv o → 0 ≤ id < max_connections o →
  (∀ p, p ∈ connections_list o → key_id o p ≠ id) → (id - next_conid o) mod max_connections o < Z.of_nat fuel →
  wp (find_conid_loop fuel) o (λ r o' acts, acts = [] ∧ o' = o <| next_conid := r |> ∧
    0 ≤ r < max_connections o ∧ ∀ p, p ∈ connections_list o → key_id o p ≠ r).
Proof.
  revert o. induction fuel as [|fuel IH]; intros o H Hid Hfree Hlt.
  { destruct (uinv_max o H). pose proof (Z.mod_pos_bound (id - next_conid o) (max_connections o)). lia. }
  pose proof (uinv_max o H). pose proof (uinv_next o H) as Hn.
  assert (u16 (next_conid o) = next_conid o) as Eu by (apply u16_id; unfold is_u16; lia).
  simpl. apply wp_bind, wp_get, wp_bind. unfold find_connection_by_conid. apply wp_gets. rewrite Eu.
  pose proof (indexed_lookup (key_id o) _ _ (next_conid o) (uinv_id o H)) as Hl.
  destruct (ix_lookup _ _ _ _) as [p|].
  - destruct Hl as [Hp Hk]; [unfold is_u16; lia|].
    destruct (cyclic_step (max_connections o) (next_conid o) id) as [Hn' Hlt']; [lia..| |].
    { intros E. apply (Hfree p Hp). congruence. }
    apply wp_bind, wp_modify. eapply wp_mono; [apply IH; [by apply uinv_set_next|done|done|simpl; lia]|].
    intros r o' acts (-> & -> & ? & ?). done.
  - apply wp_ret. split_and!; [done|by destruct o|lia|lia|]. apply Hl. unfold is_u16. lia.
Qed.

Lemma find_unused_conid_run o : uinv o → num_connections o < max_connections o →
  wp find_unused_conid o (λ r o' acts, acts = [] ∧ o' = o <| next_conid := r |> ∧
    0 ≤ r < max_connections o ∧ ∀ p, p ∈ connections_list o → key_id o p ≠ r).
Proof.
  intros H Hn. destruct (free_conid_exists o H Hn) as (id & Hid & Hfree).
  unfold find_unused_conid. wp_assert; [by apply Z.ltb_lt|].
  eapply wp_mono; [apply (find_conid_loop_run _ id); try done|].
  - pose proof (Z.mod_pos_bound (id - next_conid o) (max_connections o)). lia.
  - done.
Qed.

(** ** Objects *)

Definition uwith (o : St) (p : nat) (c : connection) : St := o <| heap := <[p := c]> (heap o) |>.

Lemma uwith_lookup o p c : heap (uwith o p c) !! p = Some c.
Proof. apply lookup_insert_eq. Qed.
Lemma uwith_twice o p c c' : uwith (uwith o p c) p c' = uwith o p c'.
Proof. unfold uwith, upd_field. destruct o. simpl. by rewrite insert_insert_eq. Qed.
Lemma uwith_id o p c : heap o !! p = Some c → uwith o p c = o.
Proof. intros H. unfold uwith, upd_field. destruct o. simpl in *. by rewrite insert_id. Qed.
Lemma key_addr_uwith o p c q : key_addr (uwith o p c) q = if decide (q = p) then con_addr c else key_addr o q.
Proof. unfold key_addr. simpl. case_decide as E; [subst; by rewrite lookup_insert_eq|by rewrite lookup_insert_ne]. Qed.
Lemma key_id_uwith o p c q : key_id (uwith o p c) q = if decide (q = p) then con_id c else key_id o q.
Proof. unfold key_id. simpl. case_decide as E; [subst; by rewrite lookup_insert_eq|by rewrite lookup_insert_ne]. Qed.

Lemma wp_uderef p c (o : St) Q : heap o !! p = Some c → Q c o [] → wp (deref p) o Q.
Proof. intros H HQ. unfold wp, deref. by rewrite H. Qed.
Lemma wp_uset p c f o Q : Q () (uwith o p (f c)) [] → wp (set_con p f) (uwith o p c) Q.
Proof.
  intros HQ. unfold set_con. apply wp_bind, (wp_uderef p c); [apply uwith_lookup|].
  apply wp_modify. simpl. rewrite <- (uwith_twice o p c (f c)) in HQ. exact HQ.
Qed.
Lemma wp_con_release p c r o Q : r ∈ con_held c →
  Q () (uwith o p (c <| con_held := filter (λ x, x ≠ r) (con_held c) |>)) [] →
  wp (con_release p r) (uwith o p c) Q.
Proof.
  intros Hr HQ. unfold con_release. apply wp_bind, (wp_uderef p c); [apply uwith_lookup|].
  apply wp_bind, wp_ASSERT; [by apply bool_decide_eq_true|]. by apply wp_uset.
Qed.
Lemma wp_ufree p c o Q : heap o !! p = None → Q () o [FreeMem p (con_held c)] → wp (free p) (uwith o p c) Q.
Proof.
  intros Hp HQ. unfold free. apply wp_bind, (wp_uderef p c); [apply uwith_lookup|].
  apply wp_bind, wp_emit, wp_modify. simpl.
  replace (_ <| heap := _ |>) with o; [done|]. unfold uwith, upd_field. destruct o. simpl in *.
  by rewrite delete_insert_id.
Qed.

Ltac con_step :=
  lazymatch goal with
  | |- wp (_ ≫= _) _ _ => apply wp_bind
  | |- wp (con_init _ _) (uwith _ _ _) _ => unfold con_init; apply wp_uset
  | |- wp (set_con _ _) (uwith _ _ _) _ => apply wp_uset
  | |- wp (con_release _ _) (uwith _ _ _) _ => apply wp_con_release; [set_solver|]
  end; cbn [con_held upd_field].

(** ** Messages *)

Definition wire_flags (a : BAddr) (fl : Z) : Z :=
  u8 (if addr_type a =? BADDR_TYPE_IPV6 then Z.lor fl UDPGW_CLIENT_FLAG_IPV6 else fl).
Definition udpgw_message (id : Z) (a : BAddr) (fl : Z) (data : bytes) : bytes :=
  udpgw_header_bytes (mk_udpgw_header (wire_flags a fl) (u16 id)) ++ addr_field a ++ data.
Definition umessage (c : connection) (fl : Z) (data : bytes) : bytes :=
  udpgw_message (con_id c) (remote_addr (con_addr c)) fl data.

Lemma zlen_udpgw_message id a fl data : BAddr_ok a →
  zlen (udpgw_message id a fl data) = 3 + addr_field_len a + zlen data.
Proof.
  intros. unfold udpgw_message. rewrite !zlen_app, zlen_addr_field by done.
  change (zlen (udpgw_header_bytes _)) with 3. lia.
Qed.
Lemma addr_field_len_le a : addr_field_len a ≤ 18.
Proof. destruct a; simpl; unfold SIZEOF_udpgw_addr_ipv4, SIZEOF_udpgw_addr_ipv6; lia. Qed.

Definition usent (out : option bytes) (p : nat) (c : connection) (fl : Z) (data : bytes) : list act :=
  match out with None => [] | Some _ => [EndPacket p (umessage c fl data)] end.

Lemma wp_put out pos src (o : St) Q : pos + zlen src ≤ zlen out → Q (write_at pos src out) o [] →
  wp (put out pos src) o Q.
Proof. intros Hl HQ. unfold put. apply wp_bind, wp_ASSERT; [by apply Z.leb_le|]. by apply wp_ret. Qed.

(** Every datagram within the MTU fits the writer's block. *)
Lemma usend_run p c fl data out o : uinv o → heap o !! p = Some c → zlen data ≤ udp_mtu o →
  (∀ b, out = Some b → zlen b = udpgw_mtu o) →
  wp (connection_send p fl data out) o (λ _ o' acts, o' = o ∧ acts = usent out p c fl data).
Proof.
  intros H Hc Hd Hout. unfold connection_send. apply wp_bind, (wp_uderef p c); [done|].
  wp_assert; [by apply Z.leb_le|]. destruct out as [b|]; [|by apply wp_ret].
  specialize (Hout b eq_refl). assert (p ∈ connections_list o) as Hp by (apply uinv_heap; eauto).
  destruct (uinv_lookup o p H Hp) as (c' & Hc' & _ & _ & _ & Hca). simplify_eq.
  destruct (uinv_mtu o H) as [_ Hmtu]. destruct Hca as (_ & Ha & _ & Hip).
  unfold usent, umessage, udpgw_message. set (a := remote_addr (con_addr c)) in *.
  pose proof (zlen_addr_field a Ha) as Hl. pose proof (addr_field_len_le a). pose proof (zlen_nonneg data).
  pose proof (addr_field_len_nonneg a).
  change (ltoh16 (con_id c)) with (u16 (con_id c)).
  match goal with |- context [ltoh8 ?f] => change (ltoh8 f) with (wire_flags a fl) end.
  set (h := udpgw_header_bytes _). assert (zlen h = 3) as Hh by reflexivity.
  apply wp_bind, wp_put; [lia|]. apply wp_bind.
  apply (wp_mono _ _ (λ r s acts, acts = [] ∧ s = o ∧ r = (write_at 3 (addr_field a) (write_at 0 h b), 3 + addr_field_len a))).
  { destruct a; try done; simpl addr_field in *; simpl addr_field_len in *;
      (apply wp_bind, wp_put; [rewrite zlen_write_at by lia; unfold SIZEOF_udpgw_header; lia|by apply wp_ret]). }
  intros [out pos] s acts (-> & -> & [= -> ->]). simpl. rewrite <- Hl.
  replace 3 with (0 + zlen h) at 1 by lia. rewrite (write_at_app 0 h (addr_field a) b) by lia.
  replace (3 + zlen (addr_field a)) with (0 + zlen (h ++ addr_field a)) by (rewrite zlen_app; lia).
  apply wp_bind, wp_put.
  { rewrite zlen_write_at by (rewrite ?zlen_app; lia). rewrite zlen_app. lia. }
  apply wp_emit. split; [done|].
  rewrite (write_at_app 0 (h ++ addr_field a) data b) by (rewrite ?zlen_app; lia).
  replace (0 + zlen (h ++ addr_field a) + zlen data) with (zlen ((h ++ addr_field a) ++ data))
    by (rewrite (zlen_app _ data); lia).
  rewrite read_at_write_at by (rewrite ?zlen_app; lia). by rewrite <- app_assoc.
Qed.

(** ** Receiving *)

Definition flag_ipv6 (fl : Z) : bool := negb (Z.land fl UDPGW_CLIENT_FLAG_IPV6 =? 0).

Lemma uparse_address fl data : parse_address fl data =
  SocksUdpGwClient.parse_address (if flag_ipv6 fl then SOCKS_ATYP_IPV6 else SOCKS_ATYP_IPV4) data.
Proof. unfold parse_address, flag_ipv6. by destruct (Z.land fl _ =? 0). Qed.
Lemma flag_atyp fl a : ((if flag_ipv6 fl then SOCKS_ATYP_IPV6 else SOCKS_ATYP_IPV4) = SOCKS_ATYP_IPV6 ↔ addr_type a = BADDR_TYPE_IPV6) ↔
  flag_ipv6 fl = (addr_type a =? BADDR_TYPE_IPV6).
Proof. destruct (flag_ipv6 fl), (Z.eqb_spec (addr_type a) BADDR_TYPE_IPV6); naive_solver. Qed.

(** [data] is a message with the conid and remote address of [c] and payload [d]. *)
Definition from_server (c : connection) (data d : bytes) : Prop :=
  ∃ fl, is_u8 fl ∧ flag_ipv6 fl = (addr_type (remote_addr (con_addr c)) =? BADDR_TYPE_IPV6) ∧
    data = udpgw_header_bytes (mk_udpgw_header fl (con_id c)) ++ addr_field (remote_addr (con_addr c)) ++ d.

Definition utouched (o : St) (p : nat) : St := o <| connections_list := move_last p (connections_list o) |>.

Lemma utouched_inv o p : uinv o → p ∈ connections_list o → uinv (utouched o p).
Proof.
  intros H Hp. pose proof (move_last_perm p _ (indexed_NoDup _ _ _ (uinv_id o H)) Hp) as Hperm.
  destruct H as [Ha Hi Hh Hnum Hmax Hnext Hcon Hmtu Hheld]. split; try done.
  - by eapply indexed_perm.
  - by eapply indexed_perm.
  - intros q. simpl. by rewrite Hperm.
  - unfold zlen. simpl. by rewrite Hperm.
Qed.

Lemma con_id_u16 o c : uinv o → ucon_ok o c → is_u16 (con_id c).
Proof. intros H (_ & ? & _). pose proof (uinv_max o H). unfold is_u16. lia. Qed.

(** What a message from the server does: it is delivered and refreshes the
    connection exactly when it names a connection and its remote address. *)
Definition recv_spec (data : bytes) (o o' : St) (acts : list act) : Prop :=
  (o' = o ∧ acts = [RecvDone] ∧
     ∀ p c d, heap o !! p = Some c → zlen d ≤ udp_mtu o → ¬ from_server c data d) ∨
  (∃ p c d, heap o !! p = Some c ∧ from_server c data d ∧ zlen d ≤ udp_mtu o ∧ o' = utouched o p ∧
     acts = [RecvDone; HandlerReceived (local_addr (con_addr c)) (remote_addr (con_addr c)) d]).

(** The fields of a message determine how it is parsed. *)
Lemma from_server_parse o p c data d : uinv o → heap o !! p = Some c → from_server c data d →
  (zlen data <? SIZEOF_udpgw_header) = false ∧
  ltoh16 (conid (udpgw_header_load data)) = con_id c ∧
  parse_address (ltoh8 (flags (udpgw_header_load data))) (drop (Z.to_nat SIZEOF_udpgw_header) data)
    = Some (remote_addr (con_addr c), d).
Proof.
  intros H Hc (fl & Hfl & Hv6 & ->).
  assert (p ∈ connections_list o) as Hp by (apply uinv_heap; eauto).
  destruct (uinv_lookup o p H Hp) as (c' & Hc' & Hok & _ & _ & _ & Hr & _ & Hip). simplify_eq.
  pose proof (con_id_u16 o c H Hok) as Hid.
  rewrite udpgw_header_roundtrip by done. cbn [conid flags].
  pose proof (zlen_nonneg (addr_field (remote_addr (con_addr c)) ++ d)). split_and!.
  - apply Z.ltb_ge. rewrite zlen_app. change (zlen (udpgw_header_bytes _)) with 3. unfold SIZEOF_udpgw_header. lia.
  - by apply u16_id.
  - rewrite drop_app_length' by done. change (ltoh8 fl) with (u8 fl). rewrite u8_id by done.
    rewrite uparse_address. apply parse_address_complete; [done|done|]. by apply flag_atyp.
Qed.

Lemma recv_run data o : uinv o → have_server o = true → bytes_ok data → zlen data ≤ udpgw_mtu o →
  wp (recv_interface_handler_send data) o (λ _ o' acts, uinv o' ∧ recv_spec data o o' acts).
Proof.
  intros H Hs Hd Hl. unfold recv_interface_handler_send. wp_assert. wp_assert; [by apply Z.leb_le|].
  destruct (zlen data <? SIZEOF_udpgw_header) eqn:El.
  { apply wp_ret. split; [done|]. left. split_and!; [done|done|]. intros p c d Hc _ Hf.
    destruct (from_server_parse o p c data d H Hc Hf) as [E _]. congruence. }
  bool_prop. set (hd := udpgw_header_load data).
  assert (bytes_ok (drop (Z.to_nat SIZEOF_udpgw_header) data)) as Hdd by auto with badvpn.
  match goal with |- context [parse_address ?f ?l] => change (parse_address f l) with
    (parse_address (ltoh8 (flags hd)) (drop (Z.to_nat SIZEOF_udpgw_header) data)) end.
  destruct (parse_address _ _) as [[ra d]|] eqn:Ep.
  2:{ apply wp_ret. split; [done|]. left. split_and!; [done|done|]. intros p c d Hc _ Hf.
      pose proof (from_server_parse o p c data d H Hc Hf) as (_ & _ & E). fold hd in E. congruence. }
  destruct (Z.ltb_spec (udp_mtu o) (zlen d)) as [Hgt|Hle].
  { apply wp_ret. split; [done|]. left. split_and!; [done|done|]. intros p c d' Hc Hd' Hf.
    pose proof (from_server_parse o p c data d' H Hc Hf) as (_ & _ & E). fold hd in E.
    rewrite Ep in E. simplify_eq. lia. }
  apply wp_bind. unfold find_connection_by_conid. apply wp_gets.
  match goal with |- context [ix_lookup uint16_comparator _ ?k _] => change k with (ltoh16 (conid hd)) end.
  assert (is_u16 (ltoh16 (conid hd))) as Hu by apply u16_range.
  pose proof (indexed_lookup (key_id o) _ _ _ (uinv_id o H) Hu) as Hk.
  rewrite uparse_address in Ep.
  destruct (parse_address_sound _ _ _ _ Hdd Ep) as (Hra & Hip & Hdata & Hat%flag_atyp).
  destruct (ix_lookup _ _ _ _) as [p|].
  2:{ apply wp_ret. split; [done|]. left. split_and!; [done|done|]. intros p c d' Hc Hd' Hf.
      pose proof (from_server_parse o p c data d' H Hc Hf) as (_ & E & _). fold hd in E.
      apply (Hk p); [apply uinv_heap; eauto|]. unfold key_id. by rewrite Hc. }
  destruct Hk as [Hp Hk]. destruct (uinv_lookup o p H Hp) as (c & Hc & Hok & _ & Hki & _ & Hr & _ & _).
  apply wp_bind, (wp_uderef p c); [done|].
  destruct (Z.eqb_spec (BAddr_CompareOrder (remote_addr (con_addr c)) ra) 0) as [E|E]; simpl.
  - apply (proj1 (cmp_eq _ _ Hr Hra)) in E. subst ra. apply wp_bind, wp_modify, wp_bind, wp_modify, wp_emit.
    split; [exact (utouched_inv o p H Hp)|]. right. exists p, c, d. split_and!; try done.
    exists (ltoh8 (flags hd)). split_and!; [apply u8_range|done|]. rewrite <- Hki, Hk.
    etrans; [symmetry; by apply udpgw_header_decode|]. fold hd. rewrite <- Hdata. f_equal.
    unfold udpgw_header_bytes. cbn [flags conid].
    rewrite u8_id by (by apply byte_at_ok). change (ltoh8 (flags hd)) with (u8 (flags hd)).
    change (ltoh16 (conid hd)) with (u16 (conid hd)). rewrite !(u8_id (flags hd)) by (by apply byte_at_ok).
    by rewrite u16_id by (by apply load16_range).
  - apply wp_ret. split; [done|]. left. split_and!; [done|done|]. intros p' c' d' Hc' Hd' Hf.
    pose proof (from_server_parse o p' c' data d' H Hc' Hf) as (_ & E1 & E2). fold hd in E1, E2.
    assert (p' = p) as ->.
    { apply (indexed_inj _ _ _ p' p (uinv_id o H)); [apply uinv_heap; eauto|done|].
      rewrite Hk. unfold key_id. by rewrite Hc'. }
    simplify_eq. rewrite uparse_address, Ep in E2. simplify_eq. apply E. by apply (proj2 (cmp_eq _ _ Hr Hr)).
Qed.

(** ** Submitting *)

Definition ulru (o : St) : list conaddr := key_addr o <$> connections_list o.
Definition dns_flags (is_dns : bool) : Z := if is_dns then UDPGW_CLIENT_FLAG_DNS else 0.

Lemma ulru_elem o ca : ca ∈ ulru o ↔ ∃ p, p ∈ connections_list o ∧ key_addr o p = ca.
Proof. unfold ulru. rewrite list_elem_of_fmap. naive_solver. Qed.
Lemma zlen_ulru o : uinv o → zlen (ulru o) = num_connections o.
Proof. intros H. rewrite (uinv_num o H). unfold zlen, ulru. by rewrite length_fmap. Qed.

Lemma wp_insert_by_conaddr p tr (o : St) Q :
  ix_insert conaddr_comparator (key_addr o) p (connections_tree_by_conaddr o) = Some tr →
  Q () (o <| connections_tree_by_conaddr := tr |>) [] → wp (insert_by_conaddr p) o Q.
Proof. intros H HQ. unfold insert_by_conaddr. apply wp_bind, wp_get. rewrite H. by apply wp_modify. Qed.
Lemma wp_insert_by_conid p tr (o : St) Q :
  ix_insert uint16_comparator (key_id o) p (connections_tree_by_conid o) = Some tr →
  Q () (o <| connections_tree_by_conid := tr |>) [] → wp (insert_by_conid p) o Q.
Proof. intros H HQ. unfold insert_by_conid. apply wp_bind, wp_get. rewrite H. by apply wp_modify. Qed.

Lemma ureuse_run ca o : uinv o → conaddr_ok ca → ca ∉ ulru o → 0 < num_connections o →
  wp (reuse_connection ca) o (λ p o' acts, uinv o' ∧ acts = [] ∧ head (connections_list o) = Some p ∧
    ∃ c tr, heap o !! p = Some c ∧
      o' = uwith o p (c <| con_addr := ca |>) <| connections_tree_by_conaddr := tr |>).
Proof.
  intros H Hca Hnin Hn. unfold reuse_connection, find_connection_by_conaddr. wp_pure.
  pose proof (indexed_lookup _ _ _ ca (uinv_addr o H) Hca) as Hf. destruct (ix_lookup _ _ _ _) as [q|].
  { destruct Hnin. apply ulru_elem. eauto. }
  wp_assert. wp_assert; [by apply Z.ltb_lt|].
  destruct (connections_list o) as [|p rest] eqn:El; simpl.
  { rewrite (uinv_num o H), El in Hn. unfold zlen in Hn. simpl in Hn. lia. }
  assert (p ∈ connections_list o) as Hp by (rewrite El; left).
  destruct (uinv_lookup o p H Hp) as (c & Hc & Hok & _ & _ & _).
  set (o1 := o <| connections_tree_by_conaddr := ix_remove p (connections_tree_by_conaddr o) |>).
  apply wp_bind, wp_modify. fold o1. rewrite <- (uwith_id o1 p c) by done. apply wp_bind, wp_uset.
  set (c' := c <| con_addr := ca |>). set (o2 := uwith o1 p c').
  assert (key_addr o2 p = ca) as Hkp by (unfold o2; by rewrite key_addr_uwith, decide_True).
  destruct (indexed_rekey (key_addr o) (key_addr o2) (connections_tree_by_conaddr o) (connections_list o) p)
    as (tr & Htr & Hix).
  - apply H.
  - done.
  - by rewrite Hkp.
  - intros q Hq. unfold o2. rewrite key_addr_uwith, decide_False by done. done.
  - intros q Hq _. rewrite Hkp. apply Hf. by rewrite <- El.
  - apply wp_bind, (wp_insert_by_conaddr p tr); [done|]. apply wp_ret.
    split_and!; [|done|done|exists c, tr; done].
    destruct H as [Ha Hi Hh Hnum Hmax Hnext Hcon Hmtu Hheld]. split; simpl; try done.
    + eapply indexed_ext; [|exact Hi]. intros q _. etrans; [apply key_id_uwith|].
      case_decide as E; [|done]. rewrite E. unfold key_id. by rewrite Hc.
    + intros q. rewrite <- Hh. destruct (decide (q = p)) as [->|]; [|by rewrite lookup_insert_ne].
      rewrite lookup_insert_eq, Hc. naive_solver.
    + intros q d. destruct (decide (q = p)) as [->|]; [|rewrite lookup_insert_ne by done; apply Hcon].
      rewrite lookup_insert_eq. intros [= <-]. apply (Hcon p c Hc).
Qed.

Definition unew (ca : conaddr) (fl : Z) (data : bytes) (id : Z) : connection :=
  mk_connection ca fl data id true con_resources.
Definition uinit_ok (e : env) : bool := match e_malloc e with None => false | Some _ => e_ppflow e end.

(** The members of the object are initialised and released in order; on success
    it has an unused conid and is in both trees and last in the list. *)
Lemma uinit_run e ca is_dns data o :
  uinv o → conaddr_ok ca → ca ∉ ulru o → num_connections o < max_connections o → zlen data ≤ udp_mtu o →
  (∀ p, e_malloc e = Some p → heap o !! p = None) →
  wp (connection_init e ca (dns_flags is_dns) data) o (λ _ o' acts, uinv o' ∧ have_server o' = have_server o ∧
    if uinit_ok e then ∃ p id, e_malloc e = Some p ∧ acts = [] ∧
      heap o' !! p = Some (unew ca (dns_flags is_dns) data id) ∧
      (∀ q, q ∈ connections_list o → key_id o q ≠ id) ∧
      connections_list o' = connections_list o ++ [p] ∧ (∀ q, q ≠ p → heap o' !! q = heap o !! q)
    else (∃ n, o' = o <| next_conid := n |>) ∧ acts = match e_malloc e with Some p => [FreeMem p []] | None => [] end).
Proof.
  intros H Hca Hnin Hn Hd Hm. unfold connection_init, find_connection_by_conaddr, uinit_ok.
  wp_assert; [by apply Z.ltb_lt|]. pose proof (indexed_lookup _ _ _ ca (uinv_addr o H) Hca) as Hf.
  destruct (ix_lookup _ _ _ _) as [q|]; [destruct Hnin; apply ulru_elem; eauto|].
  wp_assert. wp_assert; [by apply Z.leb_le|].
  destruct (e_malloc e) as [p|]; [|apply wp_ret; split_and!; [done|done|by exists (next_conid o); destruct o|done]].
  specialize (Hm p eq_refl). apply wp_bind. eapply wp_mono; [by apply find_unused_conid_run|].
  intros id o' acts (-> & -> & Hid & Hfree). apply wp_bind, wp_modify. cbv beta.
  set (o1 := o <| next_conid := id |>).
  change (o1 <| heap := _ |>) with (uwith o1 p (mk_connection ca (dns_flags is_dns) data id false [])).
  do 6 con_step. destruct (e_ppflow e); cbn [negb].
  2:{ repeat con_step. apply wp_ufree; [done|]. split_and!; [by apply uinv_set_next|done| |done]. by exists id. }
  do 2 con_step. match goal with |- wp _ (uwith o1 p ?c) _ => change c with (unew ca (dns_flags is_dns) data id) end.
  set (c := unew _ _ _ _). set (o2 := uwith o1 p c).
  assert (p ∉ connections_list o) as Hp. { intros Hq%(uinv_heap o H). destruct Hq. congruence. }
  destruct (indexed_insert (key_addr o2) (connections_tree_by_conaddr o2) (connections_list o) p) as (tra & Ha & Hia).
  { apply (indexed_ext (key_addr o)); [|apply H]. intros q Hq. unfold o2. rewrite key_addr_uwith.
    rewrite decide_False; [done|]. by intros ->. }
  { unfold o2. rewrite key_addr_uwith, decide_True by done. done. }
  { intros q Hq. unfold o2. rewrite !key_addr_uwith, (decide_True (P := p = p)) by done.
    rewrite decide_False by (by intros ->). by apply Hf. }
  destruct (indexed_insert (key_id o2) (connections_tree_by_conid o2) (connections_list o) p) as (tri & Hi & Hii).
  { apply (indexed_ext (key_id o)); [|apply H]. intros q Hq. unfold o2. rewrite key_id_uwith.
    rewrite decide_False; [done|]. by intros ->. }
  { unfold o2. rewrite key_id_uwith, decide_True by done. pose proof (uinv_max o H). simpl. unfold is_u16. lia. }
  { intros q Hq. unfold o2. rewrite !key_id_uwith, (decide_True (P := p = p)) by done.
    rewrite decide_False by (by intros ->). by apply Hfree. }
  apply wp_bind, (wp_insert_by_conaddr p tra); [done|]. apply wp_bind, (wp_insert_by_conid p tri); [done|].
  apply wp_bind, wp_modify, wp_modify. split.
  - destruct H as [Ia Ii Hh Hnum Hmax Hnext Hcon Hmtu Hheld]. split; simpl; try done.
    + eapply indexed_perm; [|exact Hia]. by rewrite (Permutation_app_comm _ [p]).
    + eapply indexed_perm; [|exact Hii]. by rewrite (Permutation_app_comm _ [p]).
    + intros q. rewrite elem_of_app, list_elem_of_singleton, <- Hh.
      destruct (decide (q = p)) as [->|Hqp]; [rewrite lookup_insert_eq; naive_solver|].
      rewrite lookup_insert_ne by done. naive_solver.
    + rewrite zlen_app, Hnum. unfold zlen. simpl. lia.
    + lia.
    + intros q d. destruct (decide (q = p)) as [->|Hqp]; [|rewrite lookup_insert_ne by done; apply Hcon].
      rewrite lookup_insert_eq. intros [= <-]. unfold ucon_ok. simpl. split_and!; try done; try lia.
      destruct is_dns; [by right|by left].
  - split; [done|]. exists p, id. split_and!; try done; [apply lookup_insert_eq|].
    intros q Hq. by apply lookup_insert_ne.
Qed.

(** The abstract effect of [UdpGwClient_SubmitPacket]: the connections are a
    least-recently-used table; the first message of a conid for new addresses
    carries the REBIND flag. *)
Definition usubmit_spec (e : env) (out : option bytes) (ca : conaddr) (is_dns : bool) (data : bytes)
    (o o' : St) (acts : list act) : Prop :=
  if decide (ca ∈ ulru o) then
    ulru o' = lru_touch (max_connections o) ca (ulru o) ∧
    ∃ p c, heap o' !! p = Some c ∧ con_addr c = ca ∧ acts = usent out p c (dns_flags is_dns) data
  else if zlen (ulru o) =? max_connections o then
    ulru o' = lru_touch (max_connections o) ca (ulru o) ∧
    ∃ p c, heap o' !! p = Some c ∧ con_addr c = ca ∧
      acts = usent out p c (Z.lor (dns_flags is_dns) UDPGW_CLIENT_FLAG_REBIND) data
  else if uinit_ok e then
    ulru o' = lru_touch (max_connections o) ca (ulru o) ∧ acts = [] ∧
    ∃ p id, e_malloc e = Some p ∧ heap o' !! p = Some (unew ca (dns_flags is_dns) data id) ∧
      ∀ q, q ∈ connections_list o → key_id o q ≠ id
  else ulru o' = ulru o ∧ acts = match e_malloc e with Some p => [FreeMem p []] | None => [] end.

Lemma usend_existing o p ca fl data out : uinv o → p ∈ connections_list o → key_addr o p = ca →
  zlen data ≤ udp_mtu o → (∀ b, out = Some b → zlen b = udpgw_mtu o) →
  wp (list_remove p;; list_append p;; connection_send p fl data out) o (λ _ o' acts,
    uinv o' ∧ o' = utouched o p ∧ ∃ c, heap o' !! p = Some c ∧ con_addr c = ca ∧ acts = usent out p c fl data).
Proof.
  intros H Hp Hk Hd Ho. apply wp_bind, wp_modify, wp_bind, wp_modify. cbv beta.
  change (upd_field _ _) with (utouched o p).
  pose proof (utouched_inv o p H Hp) as H'. destruct (uinv_lookup o p H Hp) as (c & Hc & _ & Hkc & _).
  eapply wp_mono; [by apply (usend_run p c fl data out (utouched o p) H')|].
  intros _ o' acts [-> ->]. split_and!; [done|done|]. exists c. split_and!; [done|congruence|done].
Qed.

Lemma usubmit_run e out local remote is_dns data o :
  uinv o → conaddr_ok (mk_conaddr local remote) → zlen data ≤ udp_mtu o →
  (∀ b, out = Some b → zlen b = udpgw_mtu o) → (∀ p, e_malloc e = Some p → heap o !! p = None) →
  wp (SubmitPacket e out local remote is_dns data) o (λ _ o' acts,
    uinv o' ∧ have_server o' = have_server o ∧ usubmit_spec e out (mk_conaddr local remote) is_dns data o o' acts).
Proof.
  intros H Hca Hd Ho Hm. set (ca := mk_conaddr local remote) in *. unfold SubmitPacket.
  wp_assert; [apply Hca|]. wp_assert; [apply Hca|]. wp_assert; [by apply Z.leb_le|]. fold ca.
  unfold find_connection_by_conaddr. apply wp_gets.
  pose proof (indexed_lookup _ _ _ ca (uinv_addr o H) Hca) as Hf. pose proof (zlen_ulru o H) as Hl.
  change (if is_dns then _ else 0) with (dns_flags is_dns). unfold usubmit_spec.
  destruct (ix_lookup _ _ _ _) as [p|]; simpl.
  - destruct Hf as [Hp Hk]. apply wp_bind, wp_ret. cbv iota.
    eapply wp_mono; [by apply (usend_existing o p ca)|]. intros _ o' acts (? & -> & c & ? & ? & ->).
    split_and!; [done|done|]. rewrite decide_True by (apply ulru_elem; eauto).
    split; [|eauto]. rewrite <- Hk. apply move_last_touch; [done|]. intros q Hq.
    by eapply indexed_inj; [apply H|..].
  - assert (ca ∉ ulru o) as Hnin. { rewrite ulru_elem. naive_solver. }
    destruct (Z.eqb_spec (num_connections o) (max_connections o)) as [E|E].
    + apply wp_bind, wp_bind. eapply wp_mono.
      { apply ureuse_run; try done. destruct (uinv_max o H). lia. }
      intros p o1 acts (H1 & -> & Hh & c & tr & Hc & Ho1). apply wp_ret. cbv iota.
      assert (p ∈ connections_list o1) as Hp.
      { rewrite Ho1. simpl. destruct (connections_list o); simplify_eq/=. left. }
      assert (∀ q, key_addr o1 q = if decide (q = p) then ca else key_addr o q) as Hk.
      { intros q. rewrite Ho1. apply key_addr_uwith. }
      assert (key_addr o1 p = ca) as Hkp by (by rewrite Hk, decide_True).
      eapply wp_mono; [apply (usend_existing o1 p ca _ data out H1 Hp Hkp); by rewrite Ho1|].
      intros _ o' acts (? & -> & c' & ? & ? & ->).
      split_and!; [done|by rewrite Ho1|]. rewrite decide_False by done. rewrite Hl, (proj2 (Z.eqb_eq _ _) E).
      split; [|eauto]. unfold ulru in *.
      change (key_addr (utouched o1 p)) with (key_addr o1). simpl connections_list.
      rewrite <- Hkp in Hnin |- *. rewrite <- E, (uinv_num o H).
      replace (connections_list o1) with (connections_list o) by (by rewrite Ho1).
      apply rekey_touch; [by eapply indexed_NoDup, H|done|done|]. intros q Hq. by rewrite Hk, decide_False.
    + apply wp_bind, wp_ret. cbv iota. destruct (uinv_max o H).
      eapply wp_mono; [apply uinit_run; try done; lia|].
      intros _ o' acts (H' & Hsv & Hr). split_and!; [done|done|].
      rewrite decide_False by done. rewrite Hl, (proj2 (Z.eqb_neq _ _) E). destruct (uinit_ok e).
      * destruct Hr as (p & id & He & -> & Hc & Hfree & Hlist & Hother). split_and!; [|done|eauto 10].
        assert (key_addr o' p = ca) as Hkp by (unfold key_addr; by rewrite Hc).
        unfold ulru in *. rewrite Hlist. rewrite <- Hkp in Hnin |- *.
        apply append_touch; [|done| |].
        -- intros Hq%(uinv_heap o H). rewrite (Hm p He) in Hq. by destruct Hq.
        -- rewrite <- (uinv_num o H). done.
        -- intros q Hq. unfold key_addr. by rewrite Hother.
      * destruct Hr as [[n ->] ->]. done.
Qed.

Lemma ufirst_job_run p c out o : uinv o → heap o !! p = Some c →
  (∀ b, out = Some b → zlen b = udpgw_mtu o) →
  wp (run_first_job p out) o (λ _ o' acts, uinv o' ∧ have_server o' = have_server o ∧ ulru o' = ulru o ∧
    acts = usent out p c (Z.lor UDPGW_CLIENT_FLAG_REBIND (first_flags c)) (first_data c)).
Proof.
  intros H Hc Ho. unfold run_first_job. rewrite <- (uwith_id o p c) at 1 by done.
  apply wp_bind, wp_uset. set (c' := c <| first_job_set := false |>). set (o1 := uwith o p c').
  assert (∀ q, key_addr o1 q = key_addr o q) as Hka.
  { intros q. unfold o1. rewrite key_addr_uwith. case_decide as E; [|done]. subst. unfold key_addr. by rewrite Hc. }
  assert (∀ q, key_id o1 q = key_id o q) as Hki.
  { intros q. unfold o1. rewrite key_id_uwith. case_decide as E; [|done]. subst. unfold key_id. by rewrite Hc. }
  assert (uinv o1) as H1.
  { destruct H as [Ha Hi Hh Hnum Hmax Hnext Hcon Hmtu Hheld]. split; try done.
    - eapply indexed_ext; [|exact Ha]. intros q _. apply Hka.
    - eapply indexed_ext; [|exact Hi]. intros q _. apply Hki.
    - intros q. simpl. rewrite <- Hh. destruct (decide (q = p)) as [->|]; [|by rewrite lookup_insert_ne].
      rewrite lookup_insert_eq, Hc. naive_solver.
    - intros q d. simpl. destruct (decide (q = p)) as [->|]; [|rewrite lookup_insert_ne by done; apply Hcon].
      rewrite lookup_insert_eq. intros [= <-]. apply (Hcon p c Hc). }
  unfold connection_first_job_handler. apply wp_bind, (wp_uderef p c'); [apply uwith_lookup|].
  destruct (uinv_con o H p c Hc) as (_ & _ & Hfd & _).
  eapply wp_mono; [by apply (usend_run p c' _ _ out o1 H1); [apply uwith_lookup|..]|].
  intros _ o' acts [-> ->]. split_and!; try done. unfold ulru. apply list_fmap_ext. intros; apply Hka.
Qed.

(** ** Members of the client *)

Lemma wp_init r (o : St) Q : r ∉ held o → Q () (o <| held := r :: held o |>) [] → wp (init r) o Q.
Proof.
  intros Hr HQ. unfold init. apply wp_bind, wp_get, wp_bind, wp_ASSERT; [by apply bool_decide_eq_true|].
  by apply wp_modify.
Qed.
Lemma wp_release r (o : St) Q : r ∈ held o → Q () (o <| held := filter (λ x, x ≠ r) (held o) |>) [] →
  wp (release r) o Q.
Proof.
  intros Hr HQ. unfold release. apply wp_bind, wp_get, wp_bind, wp_ASSERT; [by apply bool_decide_eq_true|].
  by apply wp_modify.
Qed.

Ltac member_step :=
  lazymatch goal with
  | |- wp (_ ≫= _) _ _ => apply wp_bind
  | |- wp (init _) _ _ => apply wp_init; [cbn [held upd_field]; set_solver|]
  | |- wp (release _) _ _ => apply wp_release; [cbn [held upd_field]; set_solver|]
  | |- wp (modify _) _ _ => apply wp_modify
  | |- wp (mret _) _ _ => apply wp_ret
  end; cbn [held upd_field].

Lemma uinv_members (o : St) (server : bool) l : uinv o → l = (if server then server_resources ++ base_resources else base_resources) →
  uinv (o <| held := l |> <| have_server := server |>).
Proof. intros [] Hl. by split. Qed.

Lemma connect_run decoder o : uinv o → have_server o = false →
  wp (ConnectServer decoder) o (λ r o' acts, uinv o' ∧ r = decoder ∧ have_server o' = decoder ∧
    ulru o' = ulru o ∧ acts = []).
Proof.
  intros H Hs. pose proof (uinv_held o H) as Hh. rewrite Hs in Hh. unfold ConnectServer.
  wp_assert; [by rewrite Hs|]. apply wp_init; [rewrite Hh; set_solver|]. rewrite Hh.
  destruct decoder; cbn [negb].
  - repeat member_step. split_and!; try done. exact (uinv_members o true _ H eq_refl).
  - repeat member_step. split_and!; try done.
    destruct o; simpl in *. subst. exact H.
Qed.

Lemma free_server_run o : uinv o → have_server o = true →
  wp free_server o (λ _ o' acts, o' = o <| held := base_resources |> ∧ acts = []).
Proof.
  intros H Hs. pose proof (uinv_held o H) as Hh. rewrite Hs in Hh.
  destruct o; simpl in *. subst. unfold free_server. by repeat member_step.
Qed.

Lemma disconnect_run o : uinv o → have_server o = true →
  wp DisconnectServer o (λ _ o' acts, uinv o' ∧ have_server o' = false ∧ ulru o' = ulru o ∧ acts = []).
Proof.
  intros H Hs. unfold DisconnectServer. wp_assert. eapply wp_mono; [by apply free_server_run|].
  intros _ o' acts [-> ->]. apply wp_modify. split_and!; try done. by apply (uinv_members o false).
Qed.

Lemma uinv_keepalive (o : St) b : uinv o → uinv (o <| keepalive_sending := b |>).
Proof. intros []. by split. Qed.

Lemma UInit_run android mtu maxc size queue (o : St) :
  0 ≤ mtu → mtu + 22 ≤ 65535 → 0 < maxc → 0 < size → heap o = ∅ → held o = [] →
  wp (Init android mtu maxc size queue) o (λ r o' acts, r = queue ∧ acts = [] ∧
    if queue then uinv o' ∧ ulru o' = [] ∧ udp_mtu o' = mtu ∧ have_server o' = false else held o' = []).
Proof.
  intros Hm0 Hm1 Hmax Hsize Hheap Hheld.
  pose proof (udpgw_compute_mtu_spec android mtu Hm0) as Hmtu. unfold Init.
  assert (udpgw_compute_mtu android mtu = (if android then 22 else 21) + mtu) as Hu by (apply Hmtu; unfold INT_MAX; lia).
  wp_assert; [by apply Z.leb_le|]. wp_assert; [apply Z.leb_le; destruct android; lia|].
  wp_assert; [apply Z.leb_le; unfold PACKETPROTO_MAXPAYLOAD, UINT16_MAX; destruct android; lia|].
  wp_assert; [by apply Z.ltb_lt|]. wp_assert; [by apply Z.ltb_lt|].
  apply wp_init; [cbn [held upd_field]; rewrite Hheld; set_solver|]. cbn [held upd_field]. rewrite Hheld.
  repeat member_step. destruct queue; cbn [negb]; repeat member_step; split_and!; try done.
  split; simpl; try done.
  - apply indexed_empty.
  - apply indexed_empty.
  - intros p. rewrite Hheap, lookup_empty. split; [by intros []|by intros ?%elem_of_nil].
  - change (Z.pos (65535 + 1)) with 65536. destruct (Z.ltb_spec 65536 maxc); lia.
  - change (Z.pos (65535 + 1)) with 65536. destruct (Z.ltb_spec 65536 maxc); lia.
  - intros p c. by rewrite Hheap, lookup_empty.
  - rewrite Hu. destruct android; lia.
Qed.

(** ** Releasing *)

Definition uwithout (o : St) (p : nat) : St :=
  o <| num_connections := num_connections o - 1 |>
    <| connections_list := filter (λ q, q ≠ p) (connections_list o) |>
    <| connections_tree_by_conid := ix_remove p (connections_tree_by_conid o) |>
    <| connections_tree_by_conaddr := ix_remove p (connections_tree_by_conaddr o) |>
    <| heap := delete p (heap o) |>.

Lemma uwith_delete (x : St) p c h : heap x = h → h !! p = Some c → uwith (x <| heap := delete p h |>) p c = x.
Proof. intros <- Hc. unfold uwith, upd_field. destruct x. simpl in *. by rewrite insert_delete_id. Qed.

Lemma ucon_free_run p c o : queue_freeing o = true → heap o !! p = Some c → con_held c = con_resources →
  wp (connection_free p) o (λ _ o' acts, o' = uwithout o p ∧ acts = [FreeMem p []]).
Proof.
  intros Hq Hc Hh. unfold connection_free, assert_flow_free. apply wp_bind, (wp_uderef p c); [done|].
  apply wp_bind, wp_bind, wp_get, wp_ASSERT; [done|].
  do 4 (apply wp_bind, wp_modify). cbv beta. match goal with |- wp _ ?x _ => set (o3 := x) end.
  replace o3 with (uwith (uwithout o p) p c).
  2:{ by apply (uwith_delete o3 p c (heap o)). }
  destruct c as [ca ff fd id js h]. simpl in Hh. subst h. unfold con_resources. con_step.
  con_step. apply wp_bind, wp_bind, wp_get, wp_ASSERT; [done|]. repeat con_step.
  by apply wp_ufree; [apply lookup_delete_eq|].
Qed.

Lemma uwithout_inv o p : uinv o → p ∈ connections_list o → uinv (uwithout o p).
Proof.
  intros H Hp. pose proof (indexed_NoDup _ _ _ (uinv_id o H)) as Hnd.
  pose proof (remove_filter_perm p _ Hnd Hp) as Hperm.
  destruct H as [Ha Hi Hh Hnum Hmax Hnext Hcon Hmtu Hheld]. split; simpl; try done.
  - apply (indexed_ext (key_addr o)); [|by apply indexed_remove]. intros q [Hq _]%list_elem_of_filter.
    unfold key_addr. simpl. by rewrite lookup_delete_ne by done.
  - apply (indexed_ext (key_id o)); [|by apply indexed_remove]. intros q [Hq _]%list_elem_of_filter.
    unfold key_id. simpl. by rewrite lookup_delete_ne by done.
  - intros q. rewrite list_elem_of_filter, <- Hh. destruct (decide (q = p)) as [->|Hq].
    + rewrite lookup_delete_eq. split; [by intros []|by intros []].
    + rewrite lookup_delete_ne by done. naive_solver.
  - rewrite Hnum. unfold zlen. rewrite Hperm at 1. simpl. lia.
  - lia.
  - intros q d. destruct (decide (q = p)) as [->|Hq]; [by rewrite lookup_delete_eq|].
    rewrite lookup_delete_ne by done. apply Hcon.
Qed.

Lemma ufree_loop_run fuel o : uinv o → queue_freeing o = true → (length (connections_list o) ≤ fuel)%nat →
  wp (free_loop fuel) o (λ _ o' acts, uinv o' ∧ queue_freeing o' = true ∧
    connections_list o' = [] ∧ have_server o' = have_server o ∧
    acts = (λ p, FreeMem p []) <$> connections_list o).
Proof.
  revert o. induction fuel as [|fuel IH]; intros o H Hq Hl; simpl;
    apply wp_bind, wp_get; destruct (connections_list o) as [|p rest] eqn:El; try (simpl in Hl; lia);
    try (apply wp_ret; by rewrite El).
  assert (p ∈ connections_list o) as Hp by (rewrite El; left).
  destruct (uinv_lookup o p H Hp) as (c & Hc & (Hh & _) & _). simpl.
  assert (connections_list (uwithout o p) = rest) as Hrest.
  { pose proof (indexed_NoDup _ _ _ (uinv_id o H)) as Hnd. simpl. rewrite El in Hnd |- *.
    apply list.NoDup_cons in Hnd as [Hn _].
    rewrite filter_cons, decide_False by naive_solver. by apply filter_neq_notin. }
  apply wp_bind. eapply wp_mono; [by apply (ucon_free_run p c)|]. intros _ o1 acts1 [-> ->].
  eapply wp_mono; [apply IH; [by apply uwithout_inv|done|rewrite Hrest; simpl in Hl; lia]|].
  intros _ o2 acts2 (H2 & Eq & E2 & E3 & ->). split_and!; [done..|]. by rewrite Hrest.
Qed.

Lemma uinv_queue_freeing o b : uinv o → uinv (o <| queue_freeing := b |>).
Proof. intros [Ha Hi Hh Hnum Hmax Hnext Hcon Hmtu Hheld]. by split. Qed.

(** ** All runs *)

(** Calls by the device, the reactor and the interfaces... *)
Inductive uevent (o : St) : M St act () → Prop :=
| uev_submit e out local remote is_dns data :
    conaddr_ok (mk_conaddr local remote) → zlen data ≤ udp_mtu o →
    (∀ b, out = Some b → zlen b = udpgw_mtu o) → (∀ p, e_malloc e = Some p → heap o !! p = None) →
    uevent o (SubmitPacket e out local remote is_dns data)
| uev_first_job p c out :
    heap o !! p = Some c → first_job_set c = true → (∀ b, out = Some b → zlen b = udpgw_mtu o) →
    uevent o (run_first_job p out)
| uev_recv data :
    have_server o = true → bytes_ok data → zlen data ≤ udpgw_mtu o →
    uevent o (recv_interface_handler_send data)
| uev_monitor : uevent o send_monitor_handler
| uev_keepalive : keepalive_sending o = true → uevent o keepalive_if_handler_done
| uev_decoder_error : have_server o = true → uevent o decoder_handler_error.
(** ... and by the owner. *)
Inductive uadmissible (o : St) : M St act () → Prop :=
| uadm_event m : uevent o m → uadmissible o m
| uadm_connect decoder : have_server o = false → uadmissible o (_ ← ConnectServer decoder; mret ())
| uadm_disconnect : have_server o = true → uadmissible o DisconnectServer.

Inductive uruns : St → list act → St → Prop :=
| uruns_nil o : uruns o [] o
| uruns_cons o m acts o1 acts' o2 :
    uadmissible o m → m o = Some ((), o1, acts) → uruns o1 acts' o2 → uruns o (acts ++ acts') o2.

(** Events keep the server; a server error is reported alone and only with one. *)
Definition reports (o : St) (acts : list act) : Prop :=
  HandlerServerError ∉ acts ∨ (acts = [HandlerServerError] ∧ have_server o = true).

Lemma usent_no_error out p c fl data : HandlerServerError ∉ usent out p c fl data.
Proof. destruct out; simpl; set_solver. Qed.
Lemma usubmit_no_error e out ca is_dns data o o' acts :
  usubmit_spec e out ca is_dns data o o' acts → HandlerServerError ∉ acts.
Proof.
  unfold usubmit_spec. case_decide; [|destruct (_ =? _); [|destruct (uinit_ok e)]].
  - intros (_ & p & c & _ & _ & ->). apply usent_no_error.
  - intros (_ & p & c & _ & _ & ->). apply usent_no_error.
  - intros (_ & -> & _). set_solver.
  - intros [_ ->]. destruct (e_malloc e); set_solver.
Qed.

Lemma uevent_step o m : uinv o → uevent o m →
  wp m o (λ _ o' acts, uinv o' ∧ have_server o' = have_server o ∧ reports o acts).
Proof.
  unfold reports. intros H [e out l r dns data ? ? ? ? | p c out Hc Hj Ho | data Hs Hb Hd | | Hk | Hs].
  - eapply wp_mono; [by apply usubmit_run|]. intros _ o' acts (? & ? & Hs).
    apply usubmit_no_error in Hs. auto.
  - eapply wp_mono; [by apply (ufirst_job_run p c)|]. intros _ o' acts (? & ? & _ & ->).
    split_and!; [done|done|]. left. apply usent_no_error.
  - eapply wp_mono; [by apply recv_run|]. intros _ o' acts [? Hr]. split; [done|].
    destruct Hr as [(-> & -> & _)|(p & c & d & _ & _ & _ & -> & ->)]; (split; [done|left; set_solver]).
  - unfold send_monitor_handler. wp_pure. destruct (keepalive_sending o); wp_pure;
      (split_and!; [try apply uinv_keepalive; done|done|left; set_solver]).
  - unfold keepalive_if_handler_done. wp_assert.
    split_and!; [by apply uinv_keepalive|done|left; set_solver].
  - unfold decoder_handler_error. wp_assert. split_and!; [done|done|by right].
Qed.

Lemma uadmissible_step o m : uinv o → uadmissible o m → wp m o (λ _ o' _, uinv o').
Proof.
  intros H [m' Hm | d Hs | Hs].
  - eapply wp_mono; [by apply uevent_step|]. by intros _ o' acts [? _].
  - apply wp_bind. eapply wp_mono; [by apply connect_run|]. intros r o' acts [? _]. by apply wp_ret.
  - eapply wp_mono; [by apply disconnect_run|]. by intros _ o' acts [? _].
Qed.

Lemma uruns_inv o acts o' : uruns o acts o' → uinv o → uinv o'.
Proof.
  induction 1 as [o|o m acts o1 acts' o2 Hadm Hm Hr IH]; intros H; [done|].
  pose proof (uadmissible_step o m H Hadm) as Hs. unfold wp in Hs. rewrite Hm in Hs. auto.
Qed.

(** ** Properties *)

(** C29: In every run of the udpgw client, with any datagrams, messages, failed
    allocations, connections and disconnections of the server, both trees, the
    list, the counter and the objects describe the same connections; conids are
    unique and below [max_connections]; exactly the members that are initialised
    can be released; and no call that may come next fails an assertion, writes
    outside its buffer or uses a freed object.  Freeing the client then ends,
    releases every connection in list order and every member of the client. *)
Theorem udpgw_runs android mtu maxc size o :
  0 ≤ mtu → mtu + 22 ≤ 65535 → 0 < maxc → 0 < size → heap o = ∅ → held o = [] →
  ∃ o0, Init android mtu maxc size true o = Some (true, o0, []) ∧ ∀ acts o', uruns o0 acts o' →
    uinv o' ∧ (∀ m, uadmissible o' m → ∃ o'' acts', m o' = Some ((), o'', acts')) ∧
    ∃ o'', Free o' = Some ((), o'', (λ p, FreeMem p []) <$> connections_list o') ∧
      held o'' = [] ∧ heap o'' = ∅ ∧ connections_list o'' = [].
Proof.
  intros Hm0 Hm1 Hmax Hs Hh Hheld.
  pose proof (UInit_run android mtu maxc size true o Hm0 Hm1 Hmax Hs Hh Hheld) as HI.
  apply wp_some in HI as (r & o0 & t0 & E & -> & -> & Hinv & _).
  exists o0. split; [done|]. intros acts o' Hr. pose proof (uruns_inv _ _ _ Hr Hinv) as H'.
  split_and!; [done| |].
  - intros m Hm. pose proof (uadmissible_step o' m H' Hm) as Hw.
    apply wp_some in Hw as ([] & o'' & acts' & E' & _). eauto.
  - assert (wp Free o' (λ _ o'' a, a = ((λ p, FreeMem p []) <$> connections_list o') ∧
      held o'' = [] ∧ heap o'' = ∅ ∧ connections_list o'' = [])) as Hw.
    { unfold Free, assert_flow_free. apply wp_bind, wp_modify. cbv beta.
      apply wp_bind, wp_get, wp_bind. eapply wp_mono; [apply ufree_loop_run; [by apply uinv_queue_freeing|done|done]|].
      intros _ o1 a (H1 & Hq & El & Hsv & ->). apply wp_bind, wp_get.
      assert (heap o1 = ∅) as He.
      { apply map_empty. intros p. apply eq_None_not_Some. rewrite (uinv_heap o1 H1), El. by intros ?%elem_of_nil. }
      apply wp_bind. apply (wp_mono _ _ (λ _ o2 a, o2 = o1 <| held := base_resources |> ∧ a = [])).
      - pose proof (uinv_held o1 H1) as Hb. apply wp_when; intros Hsv1; [by apply free_server_run|].
        rewrite Hsv1 in Hb. destruct o1; simpl in *. by subst.
      - intros _ o2 a [-> ->]. apply wp_bind, wp_bind, wp_get, wp_ASSERT; [done|].
        repeat member_step. split_and!; try done. by rewrite !app_nil_r. }
    apply wp_some in Hw as ([] & o'' & a & E' & -> & ? & ? & ?). eauto 10.
Qed.

(** While a connection can still be created, the search for a conid ends
    within [max_connections] steps, from whatever conid it starts, and returns
    one that no connection uses. *)
Theorem conid_found o : uinv o → num_connections o < max_connections o →
  wp find_unused_conid o (λ id o' acts, acts = [] ∧ o' = o <| next_conid := id |> ∧
    0 ≤ id < max_connections o ∧ ∀ p c, heap o !! p = Some c → con_id c ≠ id).
Proof.
  intros H Hn. eapply wp_mono; [by apply find_unused_conid_run|]. intros id o' acts (-> & -> & ? & Hf).
  split; [done|]. split; [done|]. split; [done|]. intros p c Hc. assert (p ∈ connections_list o) as Hp by (apply uinv_heap; eauto).
  specialize (Hf p Hp). unfold key_id in Hf. by rewrite Hc in Hf.
Qed.

(** C30: Submitting a datagram implements the least-recently-used table: the
    message is sent under the conid of the connection that then belongs to its
    addresses, with the DNS flag as submitted, and with the REBIND flag whenever
    the conid is used for new addresses; a created connection has a fresh conid. *)
Theorem udpgw_submit e out local remote is_dns data o :
  uinv o → conaddr_ok (mk_conaddr local remote) → zlen data ≤ udp_mtu o →
  (∀ b, out = Some b → zlen b = udpgw_mtu o) → (∀ p, e_malloc e = Some p → heap o !! p = None) →
  wp (SubmitPacket e out local remote is_dns data) o (λ _ o' acts,
    uinv o' ∧ usubmit_spec e out (mk_conaddr local remote) is_dns data o o' acts).
Proof. intros. eapply wp_mono; [by apply usubmit_run|]. by intros _ o' acts (? & _ & ?). Qed.

(** A message of the server is delivered if and only if its conid is that of a
    connection and its address is that connection's remote address (and the data
    within the MTU); it is delivered with the addresses of that connection, which
    becomes the most recently used. *)
Theorem udpgw_received data o :
  uinv o → have_server o = true → bytes_ok data → zlen data ≤ udpgw_mtu o →
  wp (recv_interface_handler_send data) o (λ _ o' acts, uinv o' ∧ recv_spec data o o' acts).
Proof. intros. by apply recv_run. Qed.

End Client.

(** ** Witnesses *)
Section Witnesses.
Import UdpGwClient.
Import SocksUdpGwClient(conaddr, mk_conaddr).
#[local] Existing Instance bavl_index.

Definition ug_zero : t CAvl.CAvl CAvl.CAvl :=
  mk_t _ _ 0 0 0 0 0 (BAVL.BAVL_Init ∅) (BAVL.BAVL_Init ∅) [] 0 0 [] false false [] ∅ false.
Definition ug0 : t CAvl.CAvl CAvl.CAvl := final (Init true 100 3 1000 true) ug_zero.
Definition uex_env : env := mk_env (Some 5%nat) true.
Definition ug1 : t CAvl.CAvl CAvl.CAvl := final (SubmitPacket uex_env None ex_local ex_remote true [1; 2]) ug0.
Definition ug2 : t CAvl.CAvl CAvl.CAvl := final (ConnectServer true) ug1.

Ltac uconc := first [apply (bool_decide_unpack _); vm_compute; exact I | done].

Lemma ug0_inv : uinv ug0.
Proof.
  destruct (wp_final _ _ _ (UInit_run true 100 3 1000 true ug_zero ltac:(lia) ltac:(lia) ltac:(lia) ltac:(lia) eq_refl eq_refl))
    as (? & ? & _ & _ & ? & _). done.
Qed.
Lemma ug1_adm : uadmissible ug0 (SubmitPacket uex_env None ex_local ex_remote true [1; 2]).
Proof. apply uadm_event, uev_submit; [uconc|uconc|done|]. intros p [= <-]. reflexivity. Qed.
Lemma ug1_inv : uinv ug1.
Proof. destruct (wp_final _ _ _ (uadmissible_step _ _ ug0_inv ug1_adm)) as (? & ? & ?). done. Qed.
Lemma ug2_inv : uinv ug2.
Proof. destruct (wp_final _ _ _ (connect_run true ug1 ug1_inv eq_refl)) as (? & ? & ? & _). done. Qed.

Lemma udpgw_runs_witness : uinv ug1 ∧ ∃ o'', Free ug1 = Some ((), o'', [FreeMem 5 []]) ∧ held o'' = [].
Proof.
  destruct (udpgw_runs true 100 3 1000 ug_zero) as (o0 & E & H); [lia|lia|lia|lia|reflexivity|reflexivity|].
  assert (o0 = ug0) as -> by (unfold ug0, final; rewrite E; reflexivity).
  assert (∃ acts, uruns ug0 acts ug1) as [acts Hr].
  { eexists. eapply uruns_cons; [apply ug1_adm|vm_compute; reflexivity|apply uruns_nil]. }
  destruct (H acts ug1 Hr) as (? & _ & o'' & Ef & ? & _). split; [done|]. exists o''. split; [|done].
  rewrite Ef. reflexivity.
Defined.

Lemma conid_found_witness :
  wp find_unused_conid ug1 (λ id o' acts, acts = [] ∧ o' = ug1 <| next_conid := id |> ∧
    0 ≤ id < max_connections ug1 ∧ ∀ p c, heap ug1 !! p = Some c → con_id c ≠ id).
Proof. apply conid_found; [apply ug1_inv|uconc]. Defined.

Lemma udpgw_submit_witness :
  wp (SubmitPacket uex_env None ex_local ex_remote true [1; 2]) ug0 (λ _ o' acts, uinv o' ∧
    usubmit_spec uex_env None (mk_conaddr ex_local ex_remote) true [1; 2] ug0 o' acts).
Proof. apply udpgw_submit; [apply ug0_inv|uconc|uconc|done|]. intros p [= <-]. reflexivity. Defined.

Lemma udpgw_received_witness :
  wp (recv_interface_handler_send (udpgw_message 0 ex_remote 0 [7; 7])) ug2 (λ _ o' acts, uinv o' ∧
    recv_spec (udpgw_message 0 ex_remote 0 [7; 7]) ug2 o' acts).
Proof. apply udpgw_received; [apply ug2_inv|reflexivity|uconc|uconc]. Defined.
End Witnesses.
