(* ===== verification/UdpGwReconnect.v ===== *)
(** * The udpgw client over a SOCKS connection: tun2socks/SocksUdpGwClient.c, the
      builds other than Android

    One SOCKS client connects to the udpgw server; when it fails, a timer starts
    a new attempt.  The file composes this state machine with the udpgw client
    of UdpGw.v, whose operations it calls. *)
From stdpp Require Import base list sets gmap numbers.
From Stdlib Require Import ZArith Lia.
From S2P Require Import Prelude ByteOrder Addr Index Avl CAvl BAvl UdpGwProto PacketProto SocksClient SocksUdpGw UdpGw.
#[local] Open Scope Z_scope.

Module Reconnect.
Import SocksUdpGwClient(conaddr).

(** [timer]: whether [reconnect_timer] is running. *)
Record t {TA TI : Type} := mk_t {
  udpgw_client : UdpGwClient.t TA TI; have_socks : bool; socks_up : bool; timer : bool
}.
#[global] Arguments t : clear implicits.
#[global] Instance eta_t {TA TI} : Eta (t TA TI) := λ o,
  mk_t TA TI (udpgw_client o) (have_socks o) (socks_up o) (timer o).

Inductive act :=
| Gw (a : UdpGwClient.act)
| SocksInit | SocksFree
| HandlerReceived (local_addr remote_addr : BAddr) (data : bytes).

Inductive socks_event := EVENT_UP | EVENT_ERROR | EVENT_ERROR_CLOSED.

Section Model.
Context {TA TI : Type} {opsA : IndexOps conaddr TA} {opsI : IndexOps Z TI}.
Abbreviation RM := (M (t TA TI) act).

(** A call of an operation of the udpgw client. *)
Definition gw {A} (m : M (UdpGwClient.t TA TI) UdpGwClient.act A) : RM A := λ o,
  match m (udpgw_client o) with
  | Some (a, g, acts) => Some (a, o <| udpgw_client := g |>, Gw <$> acts)
  | None => None
  end.

Definition set_timer : RM () := modify (λ o, o <| timer := true |>).

Definition free_socks : RM () :=
  o ← get;
  ASSERT (have_socks o);;
  when (socks_up o) (gw UdpGwClient.DisconnectServer);;
  emit SocksFree;;
  modify (λ o, o <| have_socks := false |>).

(** [ok]: the result of [BSocksClient_Init]. *)
Definition try_connect (ok : bool) : RM () :=
  o ← get;
  ASSERT (negb (have_socks o));;
  ASSERT (negb (timer o));;
  if negb ok then set_timer else
  emit SocksInit;;
  modify (λ o, o <| have_socks := true |> <| socks_up := false |>).

(** The reactor stops the timer and calls the handler. *)
Definition reconnect_timer_handler (ok : bool) : RM () :=
  o ← get;
  ASSERT (negb (have_socks o));;
  try_connect ok.
Definition timer_expires (ok : bool) : RM () :=
  modify (λ o, o <| timer := false |>);; reconnect_timer_handler ok.

(** [decoder]: the result of [PacketProtoDecoder_Init] in [ConnectServer]. *)
Definition socks_client_handler (event : socks_event) (decoder : bool) : RM () :=
  o ← get;
  ASSERT (have_socks o);;
  match event with
  | EVENT_UP =>
      ASSERT (negb (socks_up o));;
      ok ← gw (UdpGwClient.ConnectServer decoder);
      if (ok : bool) then modify (λ o, o <| socks_up := true |>)
      else free_socks;; set_timer
  | EVENT_ERROR | EVENT_ERROR_CLOSED => free_socks;; set_timer
  end.

Definition udpgw_handler_servererror : RM () :=
  o ← get;
  ASSERT (have_socks o);;
  ASSERT (socks_up o);;
  free_socks;;
  set_timer.

Definition udpgw_handler_received (local_addr remote_addr : BAddr) (data : bytes) : RM () :=
  emit (HandlerReceived local_addr remote_addr data).

(** The callbacks of the udpgw client, run where it calls them. *)
Fixpoint callbacks (acts : list UdpGwClient.act) : RM () :=
  match acts with
  | [] => mret ()
  | UdpGwClient.HandlerServerError :: acts => udpgw_handler_servererror;; callbacks acts
  | UdpGwClient.HandlerReceived l r d :: acts => udpgw_handler_received l r d;; callbacks acts
  | _ :: acts => callbacks acts
  end.
(** A handler of the udpgw client called by its own interfaces. *)
Definition gw_event (m : M (UdpGwClient.t TA TI) UdpGwClient.act ()) : RM () := λ o,
  match m (udpgw_client o) with
  | Some (_, g, acts) =>
      match callbacks acts (o <| udpgw_client := g |>) with
      | Some (_, o', acts') => Some ((), o', (Gw <$> acts) ++ acts')
      | None => None
      end
  | None => None
  end.

Definition Init (mtu max_conns buffer_size : Z) (queue ok : bool) : RM bool :=
  r ← gw (UdpGwClient.Init false mtu max_conns buffer_size queue);
  if negb r then mret false else
  modify (λ o, o <| timer := false |> <| have_socks := false |>);;
  try_connect ok;;
  mret true.

Definition Free : RM () :=
  o ← get;
  when (have_socks o) free_socks;;
  modify (λ o, o <| timer := false |>);;
  gw UdpGwClient.Free.

End Model.
End Reconnect.

Section Machine.
Import Reconnect.
Import SocksUdpGwClient(conaddr).
Context {TA TI : Type} {opsA : IndexOps conaddr TA} {opsI : IndexOps Z TI}.
Context {lawsA : IndexLaws opsA conaddr_ok UdpGwClient.conaddr_comparator}.
Context {lawsI : IndexLaws opsI is_u16 UdpGwClient.uint16_comparator}.
Abbreviation St := (t TA TI).

(** Either a SOCKS client exists or the timer runs; the udpgw client has a server
    exactly when the SOCKS client is up. *)
Definition rinv (o : St) : Prop :=
  uinv (udpgw_client o) ∧ timer o = negb (have_socks o) ∧
  UdpGwClient.have_server (udpgw_client o) = have_socks o && socks_up o.

Lemma wp_gw {A} (m : M (UdpGwClient.t TA TI) UdpGwClient.act A) (o : St) P (Q : A → St → list act → Prop) :
  wp m (udpgw_client o) P →
  (∀ a g acts, P a g acts → Q a (o <| udpgw_client := g |>) (Gw <$> acts)) → wp (gw m) o Q.
Proof. unfold wp, gw. destruct (m (udpgw_client o)) as [[[a g] acts]|]; [|done]. auto. Qed.

Lemma wp_unbind {A B} (m : M St act A) (f : A → M St act B) s (Q : B → St → Prop) :
  wp (m ≫= f) s (λ b s' _, Q b s') → wp m s (λ a s' _, wp (f a) s' (λ b s'' _, Q b s'')).
Proof.
  unfold wp, mbind, M_bind. destruct (m s) as [[[a s'] t']|]; [|done]. by destruct (f a s') as [[[b s''] t'']|].
Qed.

(** Releasing the SOCKS client and starting the timer restores the invariant. *)
Lemma free_and_retry o : uinv (udpgw_client o) → have_socks o = true →
  UdpGwClient.have_server (udpgw_client o) = socks_up o →
  wp (free_socks;; set_timer) o (λ _ o' _, rinv o' ∧ have_socks o' = false).
Proof.
  intros H Hs Hv. apply wp_bind. unfold free_socks. wp_assert.
  apply (wp_mono _ _ (λ _ o1 _, uinv (udpgw_client o1) ∧ UdpGwClient.have_server (udpgw_client o1) = false)).
  - apply wp_when; intros Hu; [|rewrite Hv, Hu; done].
    eapply wp_gw; [apply disconnect_run; [done|by rewrite Hv, Hu]|]. intros a g acts (? & ? & _). done.
  - intros _ o1 acts [H1 Hv1]. wp_pure. apply wp_modify. split; [|done]. split_and!; [done|done|].
    simpl. by rewrite Hv1.
Qed.

Inductive radmissible (o : St) : M St act () → Prop :=
| radm_timer ok : timer o = true → radmissible o (timer_expires ok)
| radm_up decoder : have_socks o = true → socks_up o = false → radmissible o (socks_client_handler EVENT_UP decoder)
| radm_error e decoder : have_socks o = true → e ≠ EVENT_UP → radmissible o (socks_client_handler e decoder)
| radm_gw m : uevent (udpgw_client o) m → radmissible o (gw_event m).

Inductive rruns : St → list act → St → Prop :=
| rruns_nil o : rruns o [] o
| rruns_cons o m acts o1 acts' o2 :
    radmissible o m → m o = Some ((), o1, acts) → rruns o1 acts' o2 → rruns o (acts ++ acts') o2.

Lemma try_connect_run ok o : uinv (udpgw_client o) → UdpGwClient.have_server (udpgw_client o) = false →
  have_socks o = false → timer o = false → wp (try_connect ok) o (λ _ o' _, rinv o' ∧ have_socks o' = ok).
Proof.
  intros H Hv Hs Ht. unfold try_connect. wp_assert; [by rewrite Hs|]. wp_assert; [by rewrite Ht|].
  destruct ok; simpl; [wp_pure|apply wp_modify]; (split; [|done]); split_and!; try done; simpl; by rewrite ?Hs, ?Hv.
Qed.

Lemma callbacks_run acts o : rinv o → reports (udpgw_client o) acts →
  wp (callbacks acts) o (λ _ o' _, rinv o').
Proof.
  intros H [Hno|[-> Hs]].
  - induction acts as [|a acts IH]; [by apply wp_ret|]. apply not_elem_of_cons in Hno as [Ha Hno].
    destruct a; simpl; auto; [|done]. apply wp_bind. unfold udpgw_handler_received. apply wp_emit. auto.
  - destruct H as (Hu & Ht & Hv). rewrite Hs in Hv. symmetry in Hv. apply andb_true_iff in Hv as [H1 H2].
    simpl. apply wp_bind. unfold udpgw_handler_servererror. wp_assert. wp_assert.
    apply (wp_unbind free_socks (λ _, set_timer) o (λ _ o', wp (mret ()) o' (λ _ o'' _, rinv o''))).
    eapply wp_mono; [apply free_and_retry; congruence|]. intros _ o' acts [? _]. by apply wp_ret.
Qed.

Lemma radmissible_step o m : rinv o → radmissible o m → wp m o (λ _ o' _, rinv o').
Proof.
  intros (Hu & Ht & Hv) [ok Htm | d Hs Hup | e d Hs He | m' Hm].
  - unfold timer_expires, reconnect_timer_handler. assert (have_socks o = false) as Hs.
    { destruct (have_socks o); [|done]. by rewrite Htm in Ht. }
    rewrite Hs in Hv. wp_assert; [by rewrite Hs|].
    eapply wp_mono; [by apply try_connect_run|]. by intros _ o' acts [? _].
  - unfold socks_client_handler. wp_assert. wp_assert; [by rewrite Hup|]. rewrite Hs, Hup in Hv.
    eapply wp_gw; [by apply connect_run|]. intros r g acts (Hg & -> & Hsv & _ & ->).
    destruct d; [apply wp_modify; split_and!; [done|done|simpl; by rewrite Hs]|].
    eapply wp_mono; [apply free_and_retry; [done|done|simpl; by rewrite Hup]|]. by intros _ o' acts [? _].
  - unfold socks_client_handler. wp_assert. rewrite Hs in Hv.
    destruct e; [done| |]; (eapply wp_mono; [by apply free_and_retry|]; by intros _ o' acts [? _]).
  - pose proof (uevent_step _ _ Hu Hm) as Hw. unfold wp in Hw |- *. unfold gw_event.
    destruct (m' (udpgw_client o)) as [[[[] g] acts]|]; [|done]. destruct Hw as (Hg & Hsv & Hr).
    assert (wp (callbacks acts) (o <| udpgw_client := g |>) (λ _ o' _, rinv o')) as Hc.
    { apply callbacks_run; [split_and!; [done|done|simpl; congruence]|].
      unfold reports in *. simpl. by rewrite Hsv. }
    unfold wp in Hc. by destruct (callbacks acts _) as [[[[] o'] acts']|].
Qed.

Lemma rruns_inv o acts o' : rruns o acts o' → rinv o → rinv o'.
Proof.
  induction 1 as [o|o m acts o1 acts' o2 Hadm Hm Hr IH]; intros H; [done|].
  pose proof (radmissible_step o m H Hadm) as Hs. unfold wp in Hs. rewrite Hm in Hs. auto.
Qed.

(** In every run of the two state machines together, whatever connection
    attempts fail and whenever the SOCKS client or the decoder reports an error,
    a SOCKS client exists exactly when the reconnect timer is stopped, the udpgw
    client has a server exactly when the SOCKS connection is up, and no assertion
    of either component fails in any event that may come next. *)
Theorem reconnect_runs mtu maxc size ok o :
  0 ≤ mtu → mtu + 22 ≤ 65535 → 0 < maxc → 0 < size →
  UdpGwClient.heap (udpgw_client o) = ∅ → UdpGwClient.held (udpgw_client o) = [] →
  ∃ o0 acts0, Init mtu maxc size true ok o = Some (true, o0, acts0) ∧ ∀ acts o', rruns o0 acts o' →
    timer o' = negb (have_socks o') ∧
    UdpGwClient.have_server (udpgw_client o') = have_socks o' && socks_up o' ∧
    ∀ m, radmissible o' m → ∃ o'' acts', m o' = Some ((), o'', acts').
Proof.
  intros Hm0 Hm1 Hmax Hs Hh Hheld.
  assert (wp (Init mtu maxc size true ok) o (λ r o0 _, r = true ∧ rinv o0)) as HI.
  { unfold Init. apply wp_bind. eapply wp_gw; [by apply UInit_run|].
    intros r g acts (-> & -> & Hg & _ & _ & Hsv). apply wp_bind, wp_modify, wp_bind.
    eapply wp_mono; [by apply try_connect_run|]. intros _ o' acts [? _]. by apply wp_ret. }
  apply wp_some in HI as (r & o0 & acts0 & E & -> & Hinv). exists o0, acts0. split; [done|].
  intros acts o' Hr. pose proof (rruns_inv _ _ _ Hr Hinv) as H'. split_and!; [apply H'|apply H'|].
  intros m Hm. pose proof (radmissible_step o' m H' Hm) as Hw.
  apply wp_some in Hw as ([] & o'' & acts' & E' & _). eauto.
Qed.
End Machine.

(** ** Witness: connected, then a decoder error *)
Section Witness.
Import Reconnect.
#[local] Existing Instance bavl_index.

Definition rc_zero : t CAvl.CAvl CAvl.CAvl := mk_t _ _ ug_zero false false false.
Definition rc0 : t CAvl.CAvl CAvl.CAvl := final (Init 100 3 1000 true true) rc_zero.
Definition rc1 : t CAvl.CAvl CAvl.CAvl := final (socks_client_handler EVENT_UP true) rc0.
Definition rc2 : t CAvl.CAvl CAvl.CAvl := final (gw_event UdpGwClient.decoder_handler_error) rc1.

Lemma rc2_runs : ∃ acts, rruns rc0 acts rc2.
Proof.
  eexists. eapply rruns_cons; [by apply (radm_up _ true)|vm_compute; reflexivity|].
  eapply rruns_cons; [by apply radm_gw, uev_decoder_error|vm_compute; reflexivity|]. apply rruns_nil.
Qed.

Lemma reconnect_runs_witness :
  timer rc2 = negb (have_socks rc2) ∧
  UdpGwClient.have_server (udpgw_client rc2) = have_socks rc2 && socks_up rc2.
Proof.
  destruct (reconnect_runs 100 3 1000 true rc_zero) as (o0 & acts0 & E & H); [lia|lia|lia|lia|reflexivity|reflexivity|].
  assert (o0 = rc0) as -> by (unfold rc0, final; rewrite E; reflexivity).
  destruct rc2_runs as [acts Hr]. destruct (H acts rc2 Hr) as (? & ? & _). done.
Defined.
End Witness.
