(* ===== verification/Device.v ===== *)
(** * The device and signals: tuntap/BTap.c, system/BSignal.c,
      system/BUnixSignal.c and system/BNetwork.c

    The device is read through the single packet buffer of BufferFlow.v: the
    receiving interface of the device is the input of the buffer, and what [read]
    returns is written into the memory of the buffer.  The results of the system
    calls are arguments of the handlers.  Signals come through a descriptor of
    [signalfd], the only one of the three ways in BUnixSignal.c that is compiled in. *)
From stdpp Require Import base list numbers option relations.
From Stdlib Require Import ZArith Lia.
From S2P Require Import Prelude ByteOrder PacketBuf PacketProto Interfaces BufferFlow History Reactor Connection.
#[local] Open Scope Z_scope.

(** ** The device *)
Module BTap.
Import BReactor.

Definition BTAP_ETHERNET_HEADER_LENGTH : Z := 14.
Inductive BTap_dev_type := BTAP_DEV_TUN | BTAP_DEV_TAP.
Inductive BTap_init := BTAP_INIT_STRING | BTAP_INIT_FD (fd mtu : Z).

(** [bfd]: the descriptor object is registered with the reactor, for [bfd_events]. *)
Record BTap := mk_BTap {
  frame_mtu : Z; output_packet : option Z; close_fd : bool; fd : Z; bfd : bool; bfd_events : Z; poll_events : Z
}.
#[global] Instance eta_BTap : Eta BTap := λ o,
  mk_BTap (frame_mtu o) (output_packet o) (close_fd o) (fd o) (bfd o) (bfd_events o) (poll_events o).

(** *** Initialisation *)

(** What is opened and closed. *)
Inductive act := AOpen (fd : Z) | AClose (fd : Z).
(** The results of [open], [ioctl(TUNSETIFF)], [socket], [ioctl(SIOCGIFMTU)], [fcntl]
    and [BReactor_AddFileDescriptor]. *)
Record answers := mk_answers {
  a_open : option Z; a_tunsetiff : bool; a_socket : option Z; a_mtu : option Z; a_nonblocking : bool; a_added : bool
}.

(** The MTU of the device, asked for through a socket. *)
Definition get_mtu (dev_type : BTap_dev_type) (a : answers) : option Z * list act :=
  match a_socket a with
  | None => (None, [])
  | Some sock =>
      match a_mtu a with
      | None => (None, [AOpen sock; AClose sock])
      | Some ifr_mtu =>
          (Some (match dev_type with BTAP_DEV_TUN => ifr_mtu | BTAP_DEV_TAP => ifr_mtu + BTAP_ETHERNET_HEADER_LENGTH end),
           [AOpen sock; AClose sock])
      end
  end.
(** The case of [BTAP_INIT_STRING]: the descriptor and the MTU. *)
Definition open_device (dev_type : BTap_dev_type) (a : answers) : option (Z * Z) * list act :=
  match a_open a with
  | None => (None, [])
  | Some fd =>
      if negb (a_tunsetiff a) then (None, [AOpen fd; AClose fd]) else
      match get_mtu dev_type a with
      | (None, acts) => (None, AOpen fd :: acts ++ [AClose fd])
      | (Some mtu, acts) => (Some (fd, mtu), AOpen fd :: acts)
      end
  end.

(** [None]: a violated assertion; the object, if it could be initialised. *)
Definition BTap_Init2 (dev_type : BTap_dev_type) (init : BTap_init) (a : answers) : option (option BTap * list act) :=
  let close_fd := match init with BTAP_INIT_FD _ _ => false | BTAP_INIT_STRING => true end in
  '(dev, acts) ← match init with
    | BTAP_INIT_FD fd mtu =>
        _ ← check (0 <=? fd); _ ← check (0 <=? mtu);
        _ ← check (match dev_type with BTAP_DEV_TAP => BTAP_ETHERNET_HEADER_LENGTH <=? mtu | BTAP_DEV_TUN => true end);
        Some (Some (fd, mtu), [])
    | BTAP_INIT_STRING => Some (open_device dev_type a)
    end;
  match dev with
  | None => Some (None, acts)
  | Some (fd, mtu) =>
      let fail1 := Some (None, acts ++ if close_fd then [AClose fd] else []) in
      if negb (a_nonblocking a) then fail1
      else if negb (a_added a) then fail1
      else Some (Some (mk_BTap mtu None close_fd fd true 0 0), acts)
  end.
Definition BTap_Init (tun : bool) (a : answers) : option (option BTap * list act) :=
  BTap_Init2 (if tun then BTAP_DEV_TUN else BTAP_DEV_TAP) BTAP_INIT_STRING a.

Definition BTap_Free (o : BTap) : option (BTap * list act) :=
  _ ← check (bfd o);
  Some (o <| bfd := false |>, if close_fd o then [AClose (fd o)] else []).

Definition BTap_GetMTU (o : BTap) : Z := frame_mtu o.

(** What is passed to [write]; its result only makes a difference to the log. *)
Definition BTap_Send (data : bytes) (o : BTap) : option bytes :=
  _ ← check (zlen data <=? frame_mtu o); Some data.

(** *** Reading *)

(** The results of [read]: a packet, 0, [EAGAIN], another error. *)
Inductive read_result := Read (w : bytes) | ReadZero | ReadAgain | ReadFails.

(** The device, the buffer it fills and what was read from it; [failed]: the error was reported. *)
Record sys := mk_sys { dev : BTap; flow : SinglePacketBuffer.t; reads : list bytes; failed : bool }.
#[global] Instance eta_sys : Eta sys := λ s, mk_sys (dev s) (flow s) (reads s) (failed s).

Definition upd_dev (f : BTap → BTap) (s : sys) : sys := s <| dev := f (dev s) |>.
(** [BReactor_SetFileDescriptorEvents] *)
Definition set_events (s : sys) : option sys :=
  _ ← check (bfd (dev s)); _ ← check (waitable (poll_events (dev s)));
  Some (upd_dev (λ o, o <| bfd_events := poll_events o |>) s).
Definition report_error (s : sys) : option sys := _ ← check (negb (failed s)); Some (s <| failed := true |>).
(** [read] of the packet [w] writes it to [data], in the memory of the buffer. *)
Definition store (data : Z) (w : bytes) (s : sys) : sys :=
  s <| flow := flow s <| SinglePacketBuffer.buf := write_at data w (SinglePacketBuffer.buf (flow s)) |> |>
    <| reads := reads s ++ [w] |>.
(** [PacketRecvInterface_Done] of the output. *)
Definition output_done (len : Z) (s : sys) : option sys :=
  b ← SinglePacketBuffer.step (flow s) (SinglePacketBuffer.EIn len); Some (s <| flow := b |>).

Definition fd_handler (events : Z) (r : read_result) (s : sys) : option sys :=
  _ ← check (negb (failed s));
  if has events BREACTOR_READ then
    data ← output_packet (dev s);
    match r with
    | ReadZero | ReadAgain => Some s
    | ReadFails => report_error s
    | Read w =>
        let s := store data w s in
        _ ← check (zlen w <=? frame_mtu (dev s));
        let s := upd_dev (λ o, o <| output_packet := None |>) s in
        let s := upd_dev (λ o, o <| poll_events := Z.ldiff (poll_events o) BREACTOR_READ |>) s in
        s ← set_events s;
        output_done (zlen w) s
    end
  else Some s.

Definition output_handler_recv (data : Z) (r : read_result) (s : sys) : option sys :=
  _ ← check (negb (failed s));
  _ ← check (bool_decide (output_packet (dev s) = None));
  match r with
  | ReadZero | ReadAgain =>
      let s := upd_dev (λ o, o <| output_packet := Some data |>) s in
      let s := upd_dev (λ o, o <| poll_events := Z.lor (poll_events o) BREACTOR_READ |>) s in
      set_events s
  | ReadFails => report_error s
  | Read w =>
      let s := store data w s in
      _ ← check (zlen w <=? frame_mtu (dev s));
      output_done (zlen w) s
  end.

(** *** The reactor and the jobs *)

Inductive ev :=
| EFd (events : Z) (r : read_result)
| EOperation (r : read_result)                       (** the job that asks the device for a packet *)
| EFlow (e : SinglePacketBuffer.ev).                 (** the other jobs, and the output finishing a packet *)

(** [read] returns at most the size it is given, and does not return an empty packet. *)
Definition read_ok (o : BTap) (r : read_result) : bool :=
  match r with Read w => (0 <? zlen w) && (zlen w <=? frame_mtu o) | _ => true end.
Definition flow_event (e : SinglePacketBuffer.ev) : bool :=
  match e with
  | SinglePacketBuffer.IDone | SinglePacketBuffer.OOperation | SinglePacketBuffer.ODone | SinglePacketBuffer.EOut => true
  | _ => false
  end.
Definition enabled (s : sys) (e : ev) : bool :=
  match e with
  | EFd events r => negb (failed s) && bfd (dev s) && read_ok (dev s) r &&
      (negb (has events BREACTOR_READ) || has (bfd_events (dev s)) BREACTOR_READ)
  | EOperation r => negb (failed s) && read_ok (dev s) r && SinglePacketBuffer.enabled (flow s) SinglePacketBuffer.IOperation
  | EFlow e => flow_event e && SinglePacketBuffer.enabled (flow s) e
  end.
Definition step (s : sys) (e : ev) : option sys :=
  match e with
  | EFd events r => fd_handler events r s
  | EOperation r =>
      '(i, cs) ← fire PacketRecvInterface.run_job_operation (SinglePacketBuffer.input (flow s));
      let s := s <| flow := flow s <| SinglePacketBuffer.input := i |> |> in
      match cs with [CallRecv data] => output_handler_recv data r s | _ => None end
  | EFlow e => b ← SinglePacketBuffer.step (flow s) e; Some (s <| flow := b |>)
  end.
Definition moves (s s' : sys) : Prop := ∃ e, enabled s e = true ∧ step s e = Some s'.

(** As in [main]: the device, an interface of its MTU for its packets, and the buffer
    between them.  [None] inside: a failed initialisation. *)
Definition boot (dev_type : BTap_dev_type) (init : BTap_init) (a : answers) (ji : PacketRecvInterface.t)
    (jo : PacketPassInterface.t) (mem : Z → option bytes) : option (option sys * list act) :=
  '(o, acts) ← BTap_Init2 dev_type init a;
  match o with
  | None => Some (None, acts)
  | Some o =>
      b ← SinglePacketBuffer.boot (frame_mtu o) (BTap_GetMTU o) ji jo mem;
      match b with
      | None => '(_, acts') ← BTap_Free o; Some (None, acts ++ acts')
      | Some b => Some (Some (mk_sys o b [] false), acts)
      end
  end.
End BTap.

(** *** The device and the buffer *)
Section Device.
Import BReactor BTap.
#[local] Arguments exec : simpl never.
#[local] Arguments fire : simpl never.

(** The state of the receiving interface of the device. *)
Definition rstate (b : SinglePacketBuffer.t) : istate := PacketRecvInterface.state (SinglePacketBuffer.input b).

(** The device waits for a packet, registered for reading, exactly while an operation
    is in progress on its interface. *)
Record tap_inv (s : sys) : Prop := mk_tap_inv {
  t_flow : ∃ si so n, SinglePacketBuffer.inv (frame_mtu (dev s)) (frame_mtu (dev s)) (flow s) si so n;
  t_bfd : bfd (dev s) = true;
  t_events : bfd_events (dev s) = poll_events (dev s);
  t_buf : zlen (SinglePacketBuffer.buf (flow s)) = frame_mtu (dev s);
  t_reads : SinglePacketBuffer.ins (flow s) = reads s;
  t_busy : rstate (flow s) = STATE_BUSY → failed s = false →
    output_packet (dev s) = Some 0 ∧ poll_events (dev s) = BREACTOR_READ;
  t_idle : rstate (flow s) ≠ STATE_BUSY → output_packet (dev s) = None ∧ poll_events (dev s) = 0
}.

Lemma inv_rstate im om o si so n : SinglePacketBuffer.inv im om o si so n → rstate o = si.
Proof. intros H. by destruct (pri_jobs _ _ _ _ _ (SinglePacketBuffer.s_in _ _ _ _ _ _ H)) as (_ & _ & ? & _). Qed.

(** The events that are not of the device leave its operation alone. *)
Lemma flow_other im om o si so n e o' : SinglePacketBuffer.inv im om o si so n → flow_event e = true →
  SinglePacketBuffer.enabled o e = true → SinglePacketBuffer.step o e = Some o' →
  (rstate o' = STATE_BUSY ↔ rstate o = STATE_BUSY) ∧ SinglePacketBuffer.ins o' = SinglePacketBuffer.ins o ∧
  SinglePacketBuffer.buf o' = SinglePacketBuffer.buf o.
Proof.
  intros H Hf He E. pose proof (inv_rstate _ _ _ _ _ _ H) as Hst. pose proof H as [Hi Ho Ht Hn Hm _].
  destruct (pri_jobs _ _ _ _ _ Hi) as (Io & Id & Is & Im & _). destruct (ppi_jobs _ _ _ _ _ Ho) as (Oo & _ & Od & Os & _).
  destruct e; try done; simpl in He; rewrite ?Io, ?Id, ?Is, ?Oo, ?Od, ?Os in He.
  - simpl in E. destruct (exec _ _) as [i|]; [|done]. by injection E as <-.
  - apply bool_decide_eq_true in He as ->. destruct Ht as [[? ?]|[_ ->]]; [done|].
    destruct (pri_finished _ _ _ _ Hi) as (i & Ei & Hi'). destruct (ppi_send _ _ _ _ 0 n Ho ltac:(lia)) as (p & Ep & Ho').
    simpl in E. rewrite Ei in E. cbn [mbind option_bind] in E. rewrite SinglePacketBuffer.icalls_one in E.
    cbn [SinglePacketBuffer.icall_run] in E. unfold SinglePacketBuffer.input_handler_done in E. simpl in E. rewrite Ep in E.
    injection E as <-. rewrite Hst. unfold rstate. simpl. by destruct (pri_jobs _ _ _ _ _ Hi') as (_ & _ & -> & _).
  - apply bool_decide_eq_true in He as ->. destruct (ppi_operation _ _ _ _ Ho) as (i & Ei & Ho').
    simpl in E. rewrite Ei in E. by injection E as <-.
  - apply bool_decide_eq_true in He as ->. destruct Ht as [[-> _]|[_ ?]]; [|done]. destruct (ppi_sent _ _ _ _ Ho) as (i & Ei & Ho').
    destruct (pri_recv _ _ _ _ 0 Hi) as (p & Ep & Hi').
    simpl in E. rewrite Ei in E. cbn [mbind option_bind] in E. rewrite SinglePacketBuffer.icalls_one in E.
    cbn [SinglePacketBuffer.icall_run] in E. unfold SinglePacketBuffer.output_handler_done in E. simpl in E. rewrite Ep in E.
    injection E as <-. rewrite Hst. unfold rstate. simpl. by destruct (pri_jobs _ _ _ _ _ Hi') as (_ & _ & -> & _).
Qed.

(** A packet that was read is delivered as it is. *)
Lemma delivered im om b n w : SinglePacketBuffer.inv im om b STATE_BUSY STATE_NONE n → zlen w ≤ im →
  zlen (SinglePacketBuffer.buf b) = im →
  ∃ b', SinglePacketBuffer.step (b <| SinglePacketBuffer.buf := write_at 0 w (SinglePacketBuffer.buf b) |>)
      (SinglePacketBuffer.EIn (zlen w)) = Some b' ∧
    SinglePacketBuffer.inv im om b' STATE_DONE_PENDING STATE_NONE (zlen w) ∧
    SinglePacketBuffer.ins b' = SinglePacketBuffer.ins b ++ [w] ∧ zlen (SinglePacketBuffer.buf b') = im.
Proof.
  intros [Hi Ho Ht Hn Hm Hs] Hw Hb. pose proof (zlen_nonneg w) as H0.
  destruct (pri_done _ _ _ _ (zlen w) Hi ltac:(lia)) as (i & Ei & Hi').
  destruct (pri_jobs _ _ _ _ _ Hi) as (_ & _ & _ & _ & Hd). simpl. rewrite Ei. eexists. split; [reflexivity|].
  rewrite (Hd eq_refl), read_at_write_at by lia. split_and!; simpl; [|done|by rewrite zlen_write_at by lia].
  simpl in Hs. rewrite app_nil_r in Hs.
  split; simpl; try done; [by eapply ppi_any|by right|]. rewrite read_at_write_at by lia. by rewrite Hs.
Qed.

Lemma poll_read_cleared : Z.ldiff BREACTOR_READ BREACTOR_READ = 0.
Proof. done. Qed.

Lemma busy_turn im om b so n : SinglePacketBuffer.inv im om b STATE_BUSY so n → so = STATE_NONE.
Proof. intros H. by destruct (SinglePacketBuffer.s_turn _ _ _ _ _ _ H) as [[? _]|[_ ?]]. Qed.

Definition same_device (o o' : BTap) : Prop := frame_mtu o' = frame_mtu o ∧ close_fd o' = close_fd o ∧ fd o' = fd o.

Lemma same_device_refl o : same_device o o.
Proof. done. Qed.
#[local] Hint Resolve same_device_refl : core.

(** The end of both handlers: a packet was read. *)
Lemma read_run s w o so n : zlen (SinglePacketBuffer.buf (flow s)) = frame_mtu (dev s) →
  SinglePacketBuffer.ins (flow s) = reads s → failed s = false → same_device (dev s) o →
  output_packet o = None → bfd o = true → bfd_events o = poll_events o → poll_events o = 0 →
  SinglePacketBuffer.inv (frame_mtu (dev s)) (frame_mtu (dev s)) (flow s) STATE_BUSY so n →
  zlen w ≤ frame_mtu (dev s) →
  ∃ s', output_done (zlen w) (store 0 w s <| dev := o |>) = Some s' ∧ tap_inv s' ∧ same_device (dev s) (dev s') ∧ failed s' = false.
Proof.
  intros t_buf0 t_reads0 Hf (Hm & Hc & Hfd) Hop Hb He Hp Hi Hw. pose proof (busy_turn _ _ _ _ _ Hi) as ->.
  destruct (delivered _ _ _ _ w Hi Hw t_buf0) as (b & Eb & Hi' & Hins & Hbuf).
  unfold output_done, store. cbn [flow dev]. simpl. simpl in Eb. rewrite Eb. eexists. split; [reflexivity|].
  split; [|by repeat split]. pose proof (inv_rstate _ _ _ _ _ _ Hi') as Hr.
  split; simpl; rewrite ?Hm; try done.
  - by exists STATE_DONE_PENDING, STATE_NONE, (zlen w).
  - by rewrite Hins, t_reads0.
  - by rewrite Hr.
Qed.

Lemma tap_fd s events r : tap_inv s → enabled s (EFd events r) = true →
  ∃ s', fd_handler events r s = Some s' ∧ tap_inv s' ∧ same_device (dev s) (dev s') ∧
    (failed s' = true → r = ReadFails).
Proof.
  intros H He. simpl in He. apply andb_true_iff in He as [[[Hf%negb_true_iff Hb]%andb_true_iff Hr]%andb_true_iff Hev].
  unfold fd_handler. rewrite Hf. cbn [negb check mbind option_bind].
  destruct (has events BREACTOR_READ); [|exists s; split_and!; try done; congruence].
  simpl in Hev. pose proof H as []. rewrite t_events0 in Hev.
  destruct (decide (rstate (flow s) = STATE_BUSY)) as [Hbusy|Hidle]; [|destruct (t_idle0 Hidle) as [_ E]; by rewrite E in Hev].
  destruct (t_busy0 Hbusy Hf) as [Hop Hp]. rewrite Hop. cbn [mbind option_bind].
  destruct r as [w| | |]; [|exists s; split_and!; try done; congruence..|].
  - simpl in Hr. apply andb_true_iff in Hr as [Hw0%Z.ltb_lt Hw%Z.leb_le]. destruct t_flow0 as (si & so & n & Hi).
    pose proof (inv_rstate _ _ _ _ _ _ Hi) as Hst. rewrite Hbusy in Hst. subst si.
    cbn [store dev]. simpl. rewrite (proj2 (Z.leb_le _ _) Hw). cbn [check mbind option_bind].
    unfold set_events, upd_dev. simpl. rewrite Hb, Hp, poll_read_cleared. cbn [check mbind option_bind].
    destruct (read_run s w (dev s <| output_packet := None |> <| poll_events := 0 |> <| bfd_events := 0 |>) so n t_buf0 t_reads0 Hf)
      as (s' & Es & Hs & Hd & Hfs); try done.
    exists s'. split; [exact Es|]. split; [done|]. split; [done|]. congruence.
  - unfold report_error. rewrite Hf. cbn [negb check mbind option_bind]. eexists. split; [reflexivity|].
    split; [|by repeat split]. by split.
Qed.

Lemma tap_operation s r : tap_inv s → enabled s (EOperation r) = true →
  ∃ s', step s (EOperation r) = Some s' ∧ tap_inv s' ∧ same_device (dev s) (dev s') ∧
    (failed s' = true → r = ReadFails).
Proof.
  intros H He. simpl in He. apply andb_true_iff in He as [[Hf%negb_true_iff Hr]%andb_true_iff Hj].
  pose proof H as []. destruct t_flow0 as (si & so & n & Hi). pose proof Hi as [Hin Ho Ht Hn Hm Hs].
  destruct (pri_jobs _ _ _ _ _ Hin) as (Io & _ & Is & _ & _). rewrite Io in Hj. apply bool_decide_eq_true in Hj as ->.
  destruct Ht as [[? _]|[_ ->]]; [done|].
  destruct (t_idle0 ltac:(rewrite (inv_rstate _ _ _ _ _ _ Hi); done)) as [Hop Hp].
  destruct (pri_operation _ _ _ _ Hin) as (i & Ei & Hin'). cbn [step]. rewrite Ei. cbn [mbind option_bind].
  set (s1 := s <| flow := flow s <| SinglePacketBuffer.input := i |> |>).
  assert (SinglePacketBuffer.inv (frame_mtu (dev s)) (frame_mtu (dev s)) (flow s1) STATE_BUSY STATE_NONE n) as Hi1.
  { split; try done. by right. }
  unfold output_handler_recv. cbn [failed dev s1]. simpl. rewrite Hf, Hop. cbn [negb check mbind option_bind].
  rewrite bool_decide_eq_true_2 by done. cbn [check mbind option_bind].
  assert (rstate (flow s1) = STATE_BUSY) as Hst by (apply (inv_rstate _ _ _ _ _ _ Hi1)).
  assert (∃ s', (let s0 := upd_dev (λ o, o <| output_packet := Some 0 |>) s1 in
    set_events (upd_dev (λ o, o <| poll_events := Z.lor (poll_events o) BREACTOR_READ |>) s0)) = Some s' ∧
    tap_inv s' ∧ same_device (dev s) (dev s') ∧ failed s' = false) as (s' & Es & Hs' & Hd & Hfs).
  { unfold set_events, upd_dev. simpl. rewrite t_bfd0, Hp. cbn [check mbind option_bind]. simpl.
    eexists. split; [reflexivity|]. split; [|by repeat split].
    split; simpl; try done. by exists STATE_BUSY, STATE_NONE, n. }
  destruct r as [w| | |]; [|exists s'; split; [exact Es|]; split; [done|]; split; [done|congruence]..|].
  - simpl in Hr. apply andb_true_iff in Hr as [Hw0%Z.ltb_lt Hw%Z.leb_le].
    rewrite (proj2 (Z.leb_le _ _) Hw). cbn [check mbind option_bind].
    destruct (read_run s1 w (dev s) STATE_NONE n t_buf0 t_reads0 Hf) as (s2 & Es2 & Hs2 & Hd2 & Hfs2); try done.
    exists s2. split; [exact Es2|]. split_and!; try done. congruence.
  - unfold report_error. simpl. rewrite Hf. cbn [negb check mbind option_bind]. eexists. split; [reflexivity|].
    split; [|by repeat split]. split; simpl; try done. by exists STATE_BUSY, STATE_NONE, n.
Qed.

Lemma tap_flow s e : tap_inv s → enabled s (EFlow e) = true →
  ∃ s', step s (EFlow e) = Some s' ∧ tap_inv s' ∧ dev s' = dev s ∧ failed s' = failed s.
Proof.
  intros [] He. simpl in He. apply andb_true_iff in He as [Hfe He]. destruct t_flow0 as (si & so & n & Hi).
  destruct (SinglePacketBuffer.spb_step _ _ _ _ _ _ _ Hi He) as (b & si' & so' & n' & Eb & Hi').
  destruct (flow_other _ _ _ _ _ _ _ _ Hi Hfe He Eb) as (Hst & Hins & Hbuf). cbn [step]. rewrite Eb. cbn [mbind option_bind].
  eexists. split; [reflexivity|]. split; [|done]. split; simpl; try done.
  - by exists si', so', n'.
  - by rewrite Hbuf.
  - by rewrite Hins.
  - rewrite Hst. done.
  - rewrite Hst. done.
Qed.

(** The event reports an error of [read]. *)
Definition read_fails (e : ev) : Prop := match e with EFd _ r | EOperation r => r = ReadFails | EFlow _ => False end.

Lemma tap_step s e : tap_inv s → enabled s e = true →
  ∃ s', step s e = Some s' ∧ tap_inv s' ∧ same_device (dev s) (dev s') ∧
    (failed s' = true → failed s = true ∨ read_fails e).
Proof.
  intros H He. destruct e as [events r|r|e].
  - destruct (tap_fd s events r H He) as (s' & ? & ? & ? & ?). exists s'. split_and!; simpl; auto.
  - destruct (tap_operation s r H He) as (s' & ? & ? & ? & ?). exists s'. split_and!; simpl; auto.
  - destruct (tap_flow s e H He) as (s' & ? & ? & Ed & Ef). exists s'. rewrite Ed, Ef. split_and!; simpl; auto.
Qed.
Lemma tap_moves s s' : tap_inv s → rtc moves s s' → tap_inv s' ∧ same_device (dev s) (dev s').
Proof.
  intros H Hr. induction Hr as [s|s s1 s2 (e & He & E) _ IH]; [done|].
  destruct (tap_step s e H He) as (s1' & E' & H1 & (Hm & Hc & Hf) & _). rewrite E in E'. injection E' as <-.
  destruct (IH H1) as (H2 & Hm' & Hc' & Hf'). split; [done|]. split_and!; congruence.
Qed.

(** *** Initialisation and release *)

(** What is open after the actions. *)
Fixpoint opened (acts : list act) (l : list Z) : list Z :=
  match acts with [] => l | AOpen fd :: acts => opened acts (fd :: l) | AClose fd :: acts => opened acts (filter (λ x, x ≠ fd) l) end.
Lemma opened_app acts acts' l : opened (acts ++ acts') l = opened acts' (opened acts l).
Proof. revert l. induction acts as [|[] acts IH]; intros l; simpl; auto. Qed.
(** The descriptors the system gives are new, and an MTU is not negative. *)
Definition answers_ok (a : answers) : Prop :=
  (∀ m, a_mtu a = Some m → 0 ≤ m) ∧ (∀ x y, a_open a = Some x → a_socket a = Some y → x ≠ y).
Definition init_ok (dev_type : BTap_dev_type) (init : BTap_init) : Prop :=
  match init with
  | BTAP_INIT_STRING => True
  | BTAP_INIT_FD fd mtu => 0 ≤ fd ∧ 0 ≤ mtu ∧ (dev_type = BTAP_DEV_TAP → BTAP_ETHERNET_HEADER_LENGTH ≤ mtu)
  end.
(** What the object owns. *)
Definition owned (o : BTap) : list Z := if close_fd o then [fd o] else [].

Lemma Init2_ok dev_type init a : init_ok dev_type init → answers_ok a →
  ∃ o acts, BTap_Init2 dev_type init a = Some (o, acts) ∧
    match o with
    | None => opened acts [] = []
    | Some o => opened acts [] = owned o ∧ 0 ≤ frame_mtu o ∧ output_packet o = None ∧ bfd o = true ∧ bfd_events o = 0 ∧ poll_events o = 0
    end.
Proof.
  intros Hi [Hm Hne]. unfold BTap_Init2. destruct init as [|fd mtu]; cbn [init_ok] in Hi.
  - unfold open_device. destruct (a_open a) as [x|] eqn:Eo; [|by do 2 eexists].
    destruct (a_tunsetiff a); cbn [negb]; [|do 2 eexists; split; [done|]; simpl; by rewrite filter_cons, decide_False by naive_solver].
    unfold get_mtu. destruct (a_socket a) as [y|] eqn:Es; [|do 2 eexists; split; [done|]; simpl; by rewrite filter_cons, decide_False by naive_solver].
    specialize (Hne x y eq_refl eq_refl).
    assert (filter (λ z, z ≠ y) [y; x] = [x]) as Hfy.
    { by rewrite !filter_cons, decide_False, decide_True by naive_solver. }
    assert (filter (λ z, z ≠ x) [x] = []) as Hfx by (by rewrite filter_cons, decide_False by naive_solver).
    destruct (a_mtu a) as [m|] eqn:Em; [|do 2 eexists; split; [done|]; simpl; by rewrite Hfy, Hfx].
    cbn [mbind option_bind]. specialize (Hm m eq_refl).
    destruct (a_nonblocking a); cbn [negb]; [|do 2 eexists; split; [done|]; simpl; by rewrite Hfy, Hfx].
    destruct (a_added a); cbn [negb]; [|do 2 eexists; split; [done|]; simpl; by rewrite Hfy, Hfx].
    do 2 eexists. split; [done|]. simpl. rewrite Hfy. split_and!; try done.
    destruct dev_type; [done|unfold BTAP_ETHERNET_HEADER_LENGTH; lia].
  - destruct Hi as (Hfd & Hmtu & Htap). rewrite (proj2 (Z.leb_le _ _) Hfd), (proj2 (Z.leb_le _ _) Hmtu). cbn [check mbind option_bind].
    assert (match dev_type with BTAP_DEV_TAP => BTAP_ETHERNET_HEADER_LENGTH <=? mtu | BTAP_DEV_TUN => true end = true) as ->.
    { destruct dev_type; [done|]. by apply Z.leb_le, Htap. }
    cbn [check mbind option_bind]. destruct (a_nonblocking a), (a_added a); cbn [negb]; by do 2 eexists.
Qed.

Lemma tap_Free_ok o acts : bfd o = true → opened acts [] = owned o →
  ∃ o' acts', BTap_Free o = Some (o', acts') ∧ bfd o' = false ∧ opened (acts ++ acts') [] = [].
Proof.
  intros Hb Ho. unfold BTap_Free. rewrite Hb. do 2 eexists. split; [reflexivity|]. split; [done|].
  rewrite opened_app, Ho. unfold owned. destruct (close_fd o); [|done]. simpl. by rewrite filter_cons, decide_False by naive_solver.
Qed.

Lemma spb_boot_fresh im om ji jo mem b : mem_ok mem → SinglePacketBuffer.boot im om ji jo mem = Some (Some b) →
  zlen (SinglePacketBuffer.buf b) = im ∧ SinglePacketBuffer.ins b = [].
Proof.
  intros Hmem. unfold SinglePacketBuffer.boot. destruct (PacketRecvInterface.Init im ji) as [i|] eqn:Ei; [|done]. cbn [mbind option_bind].
  destruct (PacketPassInterface.Init om jo) as [o|]; [|done]. cbn [mbind option_bind]. unfold SinglePacketBuffer.Init.
  destruct (check _); [|done]. cbn [mbind option_bind].
  destruct (exec PacketRecvInterface.Receiver_Init i) as [i1|] eqn:Ei1; [|done]. cbn [mbind option_bind].
  destruct (exec PacketPassInterface.Sender_Init o); [|done]. cbn [mbind option_bind].
  destruct (mem _) as [m|] eqn:Em; [|done]. destruct (exec _ i1); [|done]. intros [= <-]. simpl. split; [|done].
  destruct (Hmem _ _ Em) as [_ ->]. unfold PacketRecvInterface.Init in Ei. destruct (0 <=? im); [|done]. injection Ei as <-.
  unfold exec, PacketRecvInterface.Receiver_Init in Ei1. simpl in Ei1. by injection Ei1 as <-.
Qed.

Lemma tap_boot dev_type init a ji jo mem : init_ok dev_type init → answers_ok a → mem_ok mem →
  ∃ o acts, boot dev_type init a ji jo mem = Some (o, acts) ∧
    match o with None => opened acts [] = [] | Some s => tap_inv s ∧ opened acts [] = owned (dev s) ∧ failed s = false end.
Proof.
  intros Hi Ha Hmem. unfold boot. destruct (Init2_ok dev_type init a Hi Ha) as (o & acts & -> & Ho). cbn [mbind option_bind].
  destruct o as [o|]; [|by do 2 eexists]. destruct Ho as (Hopen & Hm & Hop & Hb & He & Hp).
  destruct (SinglePacketBuffer.spb_boot (frame_mtu o) (frame_mtu o) ji jo mem ltac:(lia)) as [E|(b & E & Hinv)];
    unfold BTap_GetMTU; rewrite E; cbn [mbind option_bind].
  - destruct (tap_Free_ok o acts Hb Hopen) as (o' & acts' & -> & _ & Hcl). by do 2 eexists.
  - do 2 eexists. split; [done|]. split; [|done]. pose proof (inv_rstate _ _ _ _ _ _ Hinv) as Hr.
    split; cbn [dev flow reads failed]; try done.
    + by exists STATE_OPERATION_PENDING, STATE_NONE, 0.
    + by rewrite He.
    + by apply (spb_boot_fresh _ _ _ _ _ _ Hmem E).
    + by apply (spb_boot_fresh _ _ _ _ _ _ Hmem E).
    + by rewrite Hr.
Qed.

(** C9: Reading the device.  However the device is initialised, from a descriptor or by
    opening it, and whatever the system answers: if it fails, everything that was
    opened is closed again.  Otherwise, in every order of descriptor events, jobs and
    packets finished by the receiver, and for all results of [read], no assertion
    fails; the packets that were read are handed to the receiver once, in order and
    unchanged, with at most one in the buffer; the error is reported only after a
    [read] failed; unless it was, the flow never stops: a job is set, the receiver is
    at work, or the device has the buffer and is registered for reading.  At every
    point the device can be freed, which leaves nothing open. *)
Theorem device_reads dev_type init a ji jo mem : init_ok dev_type init → answers_ok a → mem_ok mem →
  ∃ o acts, boot dev_type init a ji jo mem = Some (o, acts) ∧
    match o with
    | None => opened acts [] = []
    | Some s0 => ∀ s, rtc moves s0 s →
        (∀ e, enabled s e = true → ∃ s', step s e = Some s' ∧ (failed s' = true → failed s = true ∨ read_fails e)) ∧
        (∃ q, reads s = SinglePacketBuffer.outs (flow s) ++ q ∧ (length q ≤ 1)%nat) ∧
        (failed s = false → (∃ r, enabled s (EOperation r) = true) ∨ (∃ e, enabled s (EFlow e) = true) ∨
          is_Some (output_packet (dev s)) ∧ bfd (dev s) = true ∧ has (bfd_events (dev s)) BREACTOR_READ = true) ∧
        ∃ o' acts', BTap_Free (dev s) = Some (o', acts') ∧ bfd o' = false ∧ opened (acts ++ acts') [] = []
    end.
Proof.
  intros Hi Ha Hmem. destruct (tap_boot dev_type init a ji jo mem Hi Ha Hmem) as (o & acts & E & Ho).
  exists o, acts. split; [done|]. destruct o as [s0|]; [|done]. destruct Ho as (H0 & Hopen & _). intros s Hr.
  destruct (tap_moves s0 s H0 Hr) as (H & Hm & Hc & Hf). split_and!.
  - intros e He. destruct (tap_step s e H He) as (s' & ? & _ & _ & ?). eauto.
  - destruct (t_flow _ H) as (si & so & n & [_ _ _ _ _ Hs]). rewrite <- (t_reads _ H), Hs. eexists. split; [reflexivity|].
    destruct (_ || _); simpl; lia.
  - intros Hfl. destruct (t_flow _ H) as (si & so & n & Hv). pose proof (inv_rstate _ _ _ _ _ _ Hv) as Hst.
    destruct Hv as [Hin Hout Ht _ _ _]. destruct (pri_jobs _ _ _ _ _ Hin) as (Io & Id & Is & _ & _).
    destruct (ppi_jobs _ _ _ _ _ Hout) as (Oo & _ & Od & Os & _). destruct si.
    + destruct Ht as [[_ Hso]|[? _]]; [|done]. right. left.
      destruct so; [done|exists SinglePacketBuffer.OOperation|exists SinglePacketBuffer.EOut|exists SinglePacketBuffer.ODone];
        simpl; by rewrite ?Oo, ?Od, ?Os.
    + left. exists ReadAgain. simpl. by rewrite Hfl, Io.
    + right. right. destruct (t_busy _ H Hst Hfl) as [Hop Hp]. rewrite Hop, (t_bfd _ H), (t_events _ H), Hp. by split_and!.
    + right. left. exists SinglePacketBuffer.IDone. simpl. by rewrite Id.
  - apply tap_Free_ok; [apply (t_bfd _ H)|]. rewrite Hopen. unfold owned. by rewrite Hc, Hf.
Qed.
End Device.

(** ** Examples *)
Module DeviceRun.
Import BReactor BTap.

Fixpoint drive (es : list ev) (s : sys) : option sys :=
  match es with [] => Some s | e :: es => if enabled s e then s ← step s e; drive es s else None end.
Lemma tap_drive_reaches es s s' : drive es s = Some s' → rtc moves s s'.
Proof.
  revert s. induction es as [|e es IH]; cbn [drive]; intros s; [by intros [= ->]; constructor|].
  destruct (enabled s e) eqn:He; [|done]. destruct (step s e) as [s1|] eqn:E; [|done]. cbn [mbind option_bind]. intros H.
  eapply rtc_l; [by exists e|]. by apply IH.
Qed.

(** The descriptor comes from the VPN service; the first packet is there at once, the second one later. *)
Definition a0 : answers := mk_answers None false None None true true.
Definition es0 : list ev :=
  [EOperation (Read [1; 2; 3]); EFlow SinglePacketBuffer.IDone; EFlow SinglePacketBuffer.OOperation; EFlow SinglePacketBuffer.EOut;
   EFlow SinglePacketBuffer.ODone; EOperation ReadAgain; EFd BREACTOR_ERROR ReadAgain; EFd BREACTOR_READ ReadZero;
   EFd BREACTOR_READ (Read [4; 5])].
Definition boot0 : option (option sys * list act) :=
  boot BTAP_DEV_TUN (BTAP_INIT_FD 7 1500) a0 SinglePacketBuffer.j_in SinglePacketBuffer.j_out alloc_zero.
Definition final0 : option sys := '(o, _) ← boot0; s ← o; drive es0 s.
Lemma final0_ok : (λ s, (reads s, SinglePacketBuffer.outs (flow s), poll_events (dev s))) <$> final0 =
  Some ([[1; 2; 3]; [4; 5]], [[1; 2; 3]], 0).
Proof. vm_compute. reflexivity. Qed.
Lemma boots0 : (λ x, bool_decide (is_Some x.1)) <$> boot0 = Some true.
Proof. vm_compute. reflexivity. Qed.
Lemma reached0 s0 acts s : boot0 = Some (Some s0, acts) → final0 = Some s → rtc moves s0 s.
Proof. unfold final0. intros ->. cbn [mbind option_bind]. apply tap_drive_reaches. Qed.

Lemma device_reads_witness :
  match final0 with
  | Some s => reads s = [[1; 2; 3]; [4; 5]] ∧ SinglePacketBuffer.outs (flow s) = [[1; 2; 3]] ∧
      ∀ e, enabled s e = true → is_Some (step s e)
  | None => False
  end.
Proof.
  destruct (device_reads BTAP_DEV_TUN (BTAP_INIT_FD 7 1500) a0 SinglePacketBuffer.j_in SinglePacketBuffer.j_out alloc_zero)
    as (o & acts & E & H).
  { split; [lia|]. split; [lia|discriminate]. }
  { split; intros; discriminate. }
  { exact alloc_zero_ok. }
  pose proof boots0 as Hb. change (boot0 = Some (o, acts)) in E. rewrite E in Hb. injection Hb as Hb.
  destruct o as [s0|]; [|discriminate Hb]. pose proof final0_ok as Hf. destruct final0 as [s|] eqn:Es; [|discriminate Hf].
  injection Hf as Hr Ho _. split; [exact Hr|]. split; [exact Ho|].
  intros e He. destruct (proj1 (H s (reached0 s0 acts s E Es)) e He) as (s' & Est & _). exact (ex_intro _ s' Est).
Defined.
End DeviceRun.

(** ** Signals *)
Module BUnixSignal.
Import BReactor.

Definition INT_MAX : Z := 2147483647.

Record t := mk_t { signals : list Z; signalfd_fd : Z; signalfd_bfd : bool; bfd_events : Z }.
#[global] Instance eta : Eta t := λ o, mk_t (signals o) (signalfd_fd o) (signalfd_bfd o) (bfd_events o).

(** What is done at the system and at the user; [Block] and [Unblock] are [sigprocmask]. *)
Inductive act := Open (fd : Z) | Close (fd : Z) | Block (signals : list Z) | Unblock (signals : list Z) | Handler (signo : Z).

(** Results of [signalfd], [fcntl], [BReactor_AddFileDescriptor] and [sigprocmask]. *)
Record answers := mk_answers { a_signalfd : option Z; a_nonblocking : bool; a_added : bool; a_block : bool }.

Definition Init (signals : list Z) (a : answers) : option t * list act :=
  match a_signalfd a with
  | None => (None, [])
  | Some fd =>
      if negb (a_nonblocking a) then (None, [Open fd; Close fd])
      else if negb (a_added a) then (None, [Open fd; Close fd])
      else
        let o := mk_t signals fd true BREACTOR_READ in
        if negb (a_block a) then (None, [Open fd; Close fd])
        else (Some o, [Open fd; Block signals])
  end.

(** [read] of a [signalfd_siginfo]: its signal number, [EAGAIN], another error. *)
Inductive read_result := Signo (ssi_signo : Z) | ReadAgain | ReadFails.

Definition signalfd_handler (r : read_result) (o : t) : list act :=
  match r with
  | ReadAgain | ReadFails => []
  | Signo ssi_signo =>
      if INT_MAX <? ssi_signo then []
      else if negb (bool_decide (ssi_signo ∈ signals o)) then []
      else [Handler ssi_signo]
  end.

Definition Free (unblock : bool) (o : t) : option (list act) :=
  _ ← check (signalfd_bfd o);
  Some ((if unblock then [Unblock (signals o)] else []) ++ [Close (signalfd_fd o)]).
End BUnixSignal.

Module BSignal.
Definition SIGINT : Z := 2.
Definition SIGTERM : Z := 15.
Definition sset : list Z := [SIGTERM; SIGINT].

(** [bsignal_global]. *)
Record t := mk_t { initialized : bool; finished : bool; signal : option BUnixSignal.t }.
Definition t0 : t := mk_t false false None.

Definition BSignal_Init (a : BUnixSignal.answers) (g : t) : option (bool * t * list BUnixSignal.act) :=
  _ ← check (negb (initialized g));
  match BUnixSignal.Init sset a with
  | (None, acts) => Some (false, g, acts)
  | (Some o, acts) => Some (true, mk_t true false (Some o), acts)
  end.

(** The handler of BUnixSignal; it calls the handler of the program. *)
Definition unix_signal_handler (signo : Z) (g : t) : option unit :=
  _ ← check ((signo =? SIGTERM) || (signo =? SIGINT));
  _ ← check (initialized g);
  check (negb (finished g)).

(** A descriptor event, up to the calls of the program's handler. *)
Definition dispatch (r : BUnixSignal.read_result) (g : t) : option nat :=
  o ← signal g;
  match BUnixSignal.signalfd_handler r o with
  | [BUnixSignal.Handler signo] => _ ← unix_signal_handler signo g; Some 1%nat
  | _ => Some 0%nat
  end.

Definition BSignal_Finish (g : t) : option (t * list BUnixSignal.act) :=
  _ ← check (initialized g); _ ← check (negb (finished g));
  o ← signal g;
  acts ← BUnixSignal.Free false o;
  Some (mk_t (initialized g) true (signal g), acts).
End BSignal.

(** [SIGPIPE] is ignored from the first call on; [sigaction]: its result. *)
Module BNetwork.
Definition BNetwork_GlobalInit (sigaction : bool) (bnetwork_initialized : bool) : option (bool * bool) :=
  _ ← check (negb bnetwork_initialized);
  if negb sigaction then Some (false, bnetwork_initialized) else Some (true, true).
Definition BNetwork_Assert (bnetwork_initialized : bool) : option unit := check bnetwork_initialized.
End BNetwork.

Section Signals.
Import BUnixSignal BSignal.

(** What is open and blocked after the actions. *)
Definition sobs (s : list Z * list Z) (a : act) : list Z * list Z :=
  match a with
  | Open fd => (fd :: s.1, s.2)
  | Close fd => (filter (λ x, x ≠ fd) s.1, s.2)
  | Block l => (s.1, l ++ s.2)
  | Unblock l => (s.1, filter (λ x, x ∉ l) s.2)
  | Handler _ => s
  end.

Lemma close_opened fd : filter (λ x : Z, x ≠ fd) [fd] = [].
Proof. by rewrite filter_cons, decide_False by naive_solver. Qed.

(** Signals.  If the initialisation fails, nothing stays open and nothing is blocked.
    Otherwise both signals are blocked and arrive only through the descriptor: the
    program's handler is called once for each [SIGTERM] and [SIGINT] that is read and
    for nothing else, without a failed assertion, until the end, which closes the
    descriptor and leaves the signals blocked. *)
Theorem signals_delivered a : ∃ res g acts, BSignal_Init a t0 = Some (res, g, acts) ∧
  if res then
    (foldl sobs ([], []) acts).2 = sset ∧
    (∀ r, dispatch r g = Some (match r with Signo s => if bool_decide (s ∈ sset) then 1 else 0 | _ => 0 end)%nat) ∧
    ∃ g' acts', BSignal_Finish g = Some (g', acts') ∧ foldl sobs ([], []) (acts ++ acts') = ([], sset)
  else g = t0 ∧ foldl sobs ([], []) acts = ([], []).
Proof.
  unfold BSignal_Init. cbn [check t0 initialized negb mbind option_bind]. unfold Init.
  destruct (a_signalfd a) as [fd|]; [|by eexists _, _, _].
  destruct (a_nonblocking a), (a_added a), (a_block a); cbn [negb];
    do 3 eexists; (split; [reflexivity|]); cbv iota; simpl; rewrite ?close_opened; try done.
  split; [done|]. split.
  - intros r. unfold dispatch. cbn [signal mbind option_bind]. destruct r as [s| |]; [|done..]. cbn [signalfd_handler signals].
    destruct (Z.ltb_spec INT_MAX s) as [Hs|Hs].
    + rewrite bool_decide_eq_false_2; [done|]. unfold sset, SIGTERM, SIGINT, INT_MAX in *. set_unfold. lia.
    + case_bool_decide as Hin; simpl; [|done]. unfold unix_signal_handler.
      assert ((s =? SIGTERM) || (s =? SIGINT) = true) as ->; [|done]. unfold sset in Hin. set_unfold.
      apply orb_true_iff. rewrite !Z.eqb_eq. tauto.
  - do 2 eexists. split; [reflexivity|]. simpl. by rewrite close_opened.
Qed.
End Signals.
