(* ===== verification/TunMain.v ===== *)
(** * Start and end of the program: [main], [process_arguments], the lwIP
      initialisation and the event loop in tun2socks/tun2socks.c

    [main] initialises the objects of the program one by one; when a step fails it
    jumps to the label that releases what exists so far.  The model keeps the set of
    initialised objects: initialising one needs the objects it uses and must not
    happen twice, releasing one needs it to exist, and a release that leaves an
    object that uses it is recorded in [misused].  The results of the system calls
    and the events of the event loop are arguments. *)
From stdpp Require Import base list sets numbers option.
From Stdlib Require Import ZArith Lia String Ascii.
From S2P Require Import Prelude ByteOrder Addr Index Options PacketProto SocksClient UdpGwProto.
#[local] Open Scope Z_scope.

Module TunMain.

(** The objects with a lifetime. *)
Inductive res :=
| Logger | PasswordFile | Reactor | Signal | Sock | Device | ReadInterface | ReadBuffer | Udpgw
| LwipJob | WriteBuf | TcpTimer | Netif | Pcb | Listener | ListenerIp6 | Client (n : nat).
#[global] Instance res_eq_dec : EqDecision res.
Proof. solve_decision. Defined.

(** What an object uses for as long as it exists: the reactor for jobs, timers and
    descriptors, the device and the write buffer for output. *)
Definition uses (r : res) : list res :=
  match r with
  | Signal | Device | ReadInterface | LwipJob | TcpTimer => [Reactor]
  | ReadBuffer => [Reactor; Device; ReadInterface]
  | Udpgw => [Reactor; Device]
  | Netif => [Device; WriteBuf]
  | Listener | ListenerIp6 => [Netif]
  | Client _ => [Reactor; Netif]
  | _ => []
  end.

Record st := mk_st {
  held : list res; quitting : bool; exiting : bool;
  have_netif : bool; listener : bool; listener_ip6 : bool; tcp_clients : list nat;
  misused : list (res * res)
}.
#[global] Instance eta_st : Eta st := λ s,
  mk_st (held s) (quitting s) (exiting s) (have_netif s) (listener s) (listener_ip6 s) (tcp_clients s)
  (misused s).
Definition st0 : st := mk_st [] false false false false false [] [].

Inductive act := Acquired (r : res) | Released (r : res).
Abbreviation MM := (M st act).

Definition acquire (r : res) : MM () :=
  s ← get;
  ASSERT (bool_decide (r ∉ held s));;
  ASSERT (bool_decide (Forall (λ u, u ∈ held s) (uses r)));;
  modify (λ s, s <| held := r :: held s |>);;
  emit (Acquired r).
Definition release (r : res) : MM () :=
  s ← get;
  ASSERT (bool_decide (r ∈ held s));;
  modify (λ s, s <| misused := misused s ++ ((r,.) <$> filter (λ x, r ∈ uses x) (held s)) |>);;
  modify (λ s, s <| held := filter (λ x, x ≠ r) (held s) |>);;
  emit (Released r).

(** ** Arguments *)

Definition is_ipv4 (a : BIPAddr) : bool := match a with BIPADDR_IPV4 _ => true | _ => false end.

(** Name resolution and files: system/BAddr.h ([getaddrinfo]), misc/read_file.h. *)
Record system := mk_system {
  BIPAddr_Resolve : string → option BIPAddr;
  BAddr_Parse2 : string → option BAddr;
  ipaddr6_parse_ipv6_addr : string → option bytes;
  read_file : string → option bytes
}.

(** The global variables that [process_arguments] sets. *)
Record config := mk_config {
  c_ipaddr : BIPAddr; c_netmask : BIPAddr; c_ip6addr : option bytes; c_socks_server : BAddr;
  c_auth : list BSocksClient.auth_info_t; c_udpgw : option BAddr; c_dnsgw : BAddr
}.

Definition string_bytes (s : string) : bytes := (λ c, Z.of_N (N_of_ascii c)) <$> list_ascii_of_string s.
(** A pointer to a string where the source has one. *)
Definition cstr (s : option string) : string := default EmptyString s.

(** [None]: the result 0. *)
Definition process_arguments (sy : system) (o : options) : MM (option config) :=
  match BIPAddr_Resolve sy (cstr (Options.netif_ipaddr o)) with
  | None => mret None
  | Some ipaddr =>
  if negb (is_ipv4 ipaddr) then mret None else
  match BIPAddr_Resolve sy (cstr (Options.netif_netmask o)) with
  | None => mret None
  | Some netmask =>
  if negb (is_ipv4 netmask) then mret None else
  match (match Options.netif_ip6addr o with
         | None => Some None
         | Some a => Some <$> ipaddr6_parse_ipv6_addr sy a
         end) with
  | None => mret None
  | Some ip6 =>
  match BAddr_Parse2 sy (cstr (Options.socks_server_addr o)) with
  | None => mret None
  | Some socks =>
  auth ← (match username o with
          | None => mret (Some [BSocksClient.auth_none])
          | Some user =>
              match password o with
              | Some pw => mret (Some [BSocksClient.auth_none; BSocksClient.auth_password (string_bytes user) (string_bytes pw)])
              | None =>
                  match read_file sy (cstr (password_file o)) with
                  | None => mret None
                  | Some contents =>
                      acquire PasswordFile;;
                      mret (Some [BSocksClient.auth_none; BSocksClient.auth_password (string_bytes user) contents])
                  end
              end
          end);
  match auth with
  | None => mret None
  | Some auth =>
  match (match Options.udpgw_remote_server_addr o with
         | None => Some None
         | Some a => Some <$> BAddr_Parse2 sy a
         end) with
  | None => mret None
  | Some udpgw =>
  match (match dnsgw o with
         | None => Some BADDR_NONE
         | Some a => match BAddr_Parse2 sy a with
                     | Some (BADDR_IPV4 ip port) => Some (BADDR_IPV4 ip port)
                     | _ => None
                     end
         end) with
  | None => mret None
  | Some dns => mret (Some (mk_config ipaddr netmask ip6 socks auth udpgw dns))
  end end end end end end end.

(** ** The event loop *)

Definition terminate : MM () :=
  s ← get;
  ASSERT (negb (quitting s));;
  modify (λ s, s <| quitting := true |>);;
  modify (λ s, s <| exiting := true |>).

Definition signal_handler : MM () := s ← get; ASSERT (negb (quitting s));; terminate.
Definition device_error_handler : MM () := s ← get; ASSERT (negb (quitting s));; terminate.
(** The timer is set again; [tcp_tmr] is lwIP's. *)
Definition tcp_timer_handler : MM () := s ← get; ASSERT (negb (quitting s)).

(** Results of the lwIP calls of the initialisation, and whether the device reports
    an error while lwIP brings the interface up or adds its IPv6 address. *)
Record lwip_answers := mk_lwip {
  l_netif_add : bool; l_device_fails1 : bool; l_device_fails2 : bool;
  l_tcp_new : bool; l_bind : bool; l_listen : bool;
  l_tcp_new_ip6 : bool; l_bind_ip6 : bool; l_listen_ip6 : bool
}.

Definition device_may_fail (b : bool) : MM () :=
  s ← get; when (b && negb (quitting s)) device_error_handler.
Definition lwip_fail : MM () := s ← get; when (negb (quitting s)) terminate.

(** [tcp_new], [tcp_bind_to_netif], [tcp_listen], [tcp_accept]; the result says
    whether the listener exists. *)
Definition make_listener (new bound listen : bool) (r : res) : MM bool :=
  if negb new then mret false else
  acquire Pcb;;
  if negb bound then release Pcb;; mret false else
  if negb listen then release Pcb;; mret false else
  release Pcb;; acquire r;; mret true.

Definition lwip_init_job_hadler (c : config) (ip6 : bool) (a : lwip_answers) : MM () :=
  s ← get;
  ASSERT (negb (quitting s));;
  ASSERT (is_ipv4 (c_ipaddr c));;
  ASSERT (is_ipv4 (c_netmask c));;
  ASSERT (negb (have_netif s));;
  ASSERT (negb (listener s));;
  ASSERT (negb (listener_ip6 s));;
  if negb (l_netif_add a) then lwip_fail else
  acquire Netif;;
  modify (λ s, s <| have_netif := true |>);;
  device_may_fail (l_device_fails1 a);;
  when ip6 (device_may_fail (l_device_fails2 a));;
  l ← make_listener (l_tcp_new a) (l_bind a) (l_listen a) Listener;
  if negb l then lwip_fail else
  modify (λ s, s <| listener := true |>);;
  if ip6 then
    l6 ← make_listener (l_tcp_new_ip6 a) (l_bind_ip6 a) (l_listen_ip6 a) ListenerIp6;
    if negb l6 then lwip_fail else modify (λ s, s <| listener_ip6 := true |>)
  else mret ().

(** What the reactor dispatches after the initialisation job. *)
Inductive loop_event := Tick | DeviceError | SignalReceived | ClientAccepted (n : nat) | ClientGone (n : nat).
Definition dispatch (e : loop_event) : MM () :=
  match e with
  | Tick => tcp_timer_handler
  | DeviceError => device_error_handler
  | SignalReceived => signal_handler
  | ClientAccepted n => acquire (Client n);; modify (λ s, s <| tcp_clients := tcp_clients s ++ [n] |>)
  | ClientGone n => release (Client n);; modify (λ s, s <| tcp_clients := filter (λ x, x ≠ n) (tcp_clients s) |>)
  end.
(** Clients come through the listener. *)
Definition can_happen (s : st) (e : loop_event) : bool :=
  match e with
  | ClientAccepted n => (listener s || listener_ip6 s) && bool_decide (n ∉ tcp_clients s)
  | ClientGone n => bool_decide (n ∈ tcp_clients s)
  | _ => true
  end.
(** [BReactor_Exec] from after the first job; false: more events are awaited. *)
Fixpoint exec_loop (es : list loop_event) : MM bool :=
  s ← get;
  if exiting s then mret true
  else match es with
  | [] => mret false
  | e :: es => when (can_happen s e) (dispatch e);; exec_loop es
  end.

(** ** [main] *)

Inductive accept_result := AcceptFailed | RecvFdFailed | GotFd.
Record answers := mk_answers {
  a_syslog : bool; a_network : bool; a_reactor : bool; a_signal : bool;
  a_socket : bool; a_bind : bool; a_listen : bool; a_accepts : list accept_result;
  a_tap : bool; a_read_buffer : bool; a_udpgw : bool; a_write_buf : bool;
  a_lwip : lwip_answers; a_events : list loop_event
}.

(** The loop that waits for the file descriptor; false: still waiting. *)
Fixpoint accept_loop (l : list accept_result) : bool :=
  match l with
  | [] => false
  | GotFd :: _ => true
  | _ :: l => accept_loop l
  end.

Definition compute_udp_mtu (mtu : Z) (ip6 : bool) : Z :=
  let udp_mtu := mtu - (20 + 8) in
  let udp_mtu := if ip6 then let udp_ip6_mtu := mtu - (40 + 8) in
                             if udp_mtu <? udp_ip6_mtu then udp_ip6_mtu else udp_mtu
                 else udp_mtu in
  if udp_mtu <? 0 then 0 else udp_mtu.

(** The labels at the end of [main]. *)
Definition fail0 : MM (option Z) := mret (Some 1).
Definition fail1 : MM (option Z) :=
  s ← get;
  when (bool_decide (PasswordFile ∈ held s)) (release PasswordFile);;
  release Logger;; fail0.
Definition fail2 : MM (option Z) := release Reactor;; fail1.
Definition fail3 : MM (option Z) := release Signal;; fail2.
Definition fail4 : MM (option Z) := release ReadInterface;; release Device;; fail3.
Definition fail4a : MM (option Z) := release ReadBuffer;; fail4.
Definition fail5 (udpgw : bool) : MM (option Z) := release LwipJob;; when udpgw (release Udpgw);; fail4a.

(** [while (node = LinkedList1_GetFirst(&tcp_clients)) client_murder(...)] *)
Fixpoint free_clients (fuel : nat) : MM () :=
  s ← get;
  match tcp_clients s with
  | [] => mret ()
  | n :: _ =>
      match fuel with
      | O => ASSERT false
      | S fuel =>
          release (Client n);; modify (λ s, s <| tcp_clients := filter (λ x, x ≠ n) (tcp_clients s) |>);;
          free_clients fuel
      end
  end.

(** After the event loop.  The connections that lwIP still holds without a client
    ([tcp_remove]) are lwIP's own; [free_connections] walks a tree that nothing
    inserts into. *)
Definition main_end (udpgw : bool) : MM (option Z) :=
  s ← get;
  free_clients (List.length (tcp_clients s));;
  s ← get;
  when (listener_ip6 s) (release ListenerIp6);;
  when (listener s) (release Listener);;
  when (have_netif s) (release Netif);;
  release TcpTimer;;
  release WriteBuf;;
  fail5 udpgw.

(** From the initialisation of the device on.  The initialisation job is the first
    one that the event loop runs. *)
Definition main_device (o : options) (c : config) (a : answers) : MM (option Z) :=
  let udpgw := bool_decide (is_Some (Options.udpgw_remote_server_addr o)) in
  let ip6 := bool_decide (is_Some (Options.netif_ip6addr o)) in
  if negb (a_tap a) then fail3 else
  acquire Device;;
  acquire ReadInterface;;
  if negb (a_read_buffer a) then fail4 else
  acquire ReadBuffer;;
  ok ← (if udpgw then
          let udpgw_mtu := udpgw_compute_mtu true (compute_udp_mtu (tun_mtu o) ip6) in
          if (udpgw_mtu <? 0) || (PACKETPROTO_MAXPAYLOAD <? udpgw_mtu) then mret false else
          if negb (a_udpgw a) then mret false else acquire Udpgw;; mret true
        else mret true);
  if negb ok then fail4a else
  acquire LwipJob;;
  if negb (a_write_buf a) then fail5 udpgw else
  acquire WriteBuf;;
  acquire TcpTimer;;
  lwip_init_job_hadler c ip6 (a_lwip a);;
  finished ← exec_loop (a_events a);
  if (finished : bool) then main_end udpgw else mret None.

(** Waiting for the descriptor of the device on a Unix socket. *)
Definition main_socket (o : options) (c : config) (a : answers) : MM (option Z) :=
  if negb (a_socket a) then fail2 else
  acquire Sock;;
  if negb (a_bind a) then release Sock;; fail2 else
  if negb (a_listen a) then release Sock;; fail2 else
  if negb (accept_loop (a_accepts a)) then mret None else
  release Sock;;
  main_device o c a.

(** The result of [main]; [None] while the program waits.  With [--pid] it is the
    process that goes on after [daemonize]; log levels and the process name are
    outside the model. *)
Definition main (channels : list string) (sy : system) (argv : list string) (a : answers) : MM (option Z) :=
  match argv with
  | [] => mret (Some 1)
  | _ =>
  match parse_arguments channels argv with
  | inl _ => fail0
  | inr o =>
  if opt_help o then mret (Some 0) else
  if opt_version o then mret (Some 0) else
  if (logger o =? LOGGER_SYSLOG) && negb (a_syslog a) then fail0 else
  acquire Logger;;
  if negb (a_network a) then fail1 else
  c ← process_arguments sy o;
  match c with
  | None => fail1
  | Some c =>
  if negb (a_reactor a) then fail1 else
  acquire Reactor;;
  if negb (a_signal a) then fail2 else
  acquire Signal;;
  main_socket o c a
  end end end.

End TunMain.

(** ** Every object is released once, in an order that respects its users *)
Section Main.
Import TunMain.

(** The objects that exist, in any order; none was released under a user so far. *)
Definition holds (s : st) (l : list res) : Prop := held s ≡ₚ l ∧ NoDup l ∧ misused s = [].
(** Nothing in [l] uses [r]. *)
Definition unused (r : res) (l : list res) : Prop := Forall (λ x, r ∉ uses x) l.
#[local] Instance unused_dec r l : Decision (unused r l).
Proof. unfold unused. apply _. Defined.

Lemma wp_acquire_object r s l (Q : () → st → list act → Prop) :
  holds s l → r ∉ l → Forall (λ u, u ∈ l) (uses r) →
  (∀ s', s' = s <| held := r :: held s |> → holds s' (r :: l) → Q () s' [Acquired r]) → wp (acquire r) s Q.
Proof.
  intros (Hp & Hnd & Hm) Hr Hu HQ. unfold acquire. apply wp_bind, wp_get, wp_bind, wp_ASSERT.
  { apply bool_decide_true. by rewrite Hp. }
  apply wp_bind, wp_ASSERT.
  { apply bool_decide_true. eapply list.Forall_impl; [exact Hu|]. intros u. by rewrite Hp. }
  apply wp_bind, wp_modify, wp_emit. apply HQ; [done|]. split_and!; [simpl; by rewrite Hp|by constructor|done].
Qed.

Lemma filter_res_notin (r : res) (l : list res) : r ∉ l → filter (λ x, x ≠ r) l = l.
Proof. induction l as [|x l IH]; [done|]. rewrite not_elem_of_cons, filter_cons. intros [? ?]. rewrite decide_True by done. by rewrite IH. Qed.

Lemma filter_nothing (P : res → Prop) `{∀ x, Decision (P x)} (l : list res) :
  Forall (λ x, ¬ P x) l → filter P l = [].
Proof. induction 1 as [|x l Hx _ IH]; [done|]. by rewrite filter_cons, decide_False. Qed.

Lemma wp_release_object r s l l' (Q : () → st → list act → Prop) :
  holds s l → l ≡ₚ r :: l' → unused r l →
  (∀ s', s' = s <| held := filter (λ x, x ≠ r) (held s) |> → holds s' l' → Q () s' [Released r]) → wp (release r) s Q.
Proof.
  intros (Hp & Hnd & Hm) Hl Hu HQ. rewrite Hl in Hnd. apply list.NoDup_cons in Hnd as [Hr Hnd].
  unfold release. apply wp_bind, wp_get, wp_bind, wp_ASSERT.
  { apply bool_decide_true. rewrite Hp, Hl. left. }
  assert (filter (λ x, r ∈ uses x) (held s) = []) as Hno.
  { apply filter_nothing. unfold unused in Hu. by rewrite Hp. }
  apply wp_bind, wp_modify, wp_bind, wp_modify, wp_emit. rewrite Hno, Hm. simpl.
  apply HQ; [destruct s; simpl in *; by subst|]. split_and!; [|done..]. simpl.
  rewrite Hp, Hl, filter_cons, decide_False by naive_solver. by rewrite filter_res_notin.
Qed.

(** The objects in the order of their initialisation, latest first. *)
Definition opt (b : bool) (r : res) : list res := if b then [r] else [].
Definition base (p : bool) : list res := opt p PasswordFile ++ [Logger].
Definition with_device (p : bool) : list res := [ReadInterface; Device; Signal; Reactor] ++ base p.
Definition with_job (p u : bool) : list res := LwipJob :: opt u Udpgw ++ ReadBuffer :: with_device p.
Definition nets (n l l6 : bool) : list res := opt l6 ListenerIp6 ++ opt l Listener ++ opt n Netif.

Definition over (r : option Z) (s : st) (_ : list act) : Prop := r = Some 1 ∧ held s = [] ∧ misused s = [].

Ltac concrete := unfold unused; apply (bool_decide_unpack _); reflexivity.
Ltac expose := unfold base, with_device, with_job, nets, opt; simpl; reflexivity.
Ltac release_first := apply wp_bind; eapply wp_release_object; [eassumption|expose|concrete|];
  let s := fresh "s" in let H := fresh "H" in intros s _ H.

Lemma fail0_run s : holds s [] → wp fail0 s over.
Proof. intros (Hp & _ & Hm). apply wp_ret. split_and!; [done| |done]. by apply Permutation_nil_r. Qed.
Lemma fail1_run p s : holds s (base p) → wp fail1 s over.
Proof.
  intros H. unfold fail1. apply wp_bind, wp_get, wp_bind. pose proof H as (Hp & _ & _). destruct p.
  - rewrite bool_decide_true by (rewrite Hp; left). unfold when.
    eapply (wp_release_object _ _ (base true)); [done|expose|concrete|]. intros s1 _ H1. release_first. by apply fail0_run.
  - rewrite bool_decide_false by (rewrite Hp; set_solver). apply wp_ret.
    release_first. by apply fail0_run.
Qed.
Lemma fail2_run p s : holds s (Reactor :: base p) → wp fail2 s over.
Proof. intros H. unfold fail2. destruct p; release_first; [by apply (fail1_run true)|by apply (fail1_run false)]. Qed.
Lemma fail3_run p s : holds s (Signal :: Reactor :: base p) → wp fail3 s over.
Proof. intros H. unfold fail3. destruct p; release_first; [by apply (fail2_run true)|by apply (fail2_run false)]. Qed.
Lemma fail4_run p s : holds s (with_device p) → wp fail4 s over.
Proof.
  intros H. unfold fail4, with_device in *. destruct p; release_first; release_first; [by apply (fail3_run true)|by apply (fail3_run false)].
Qed.
Lemma fail4a_run p s : holds s (ReadBuffer :: with_device p) → wp fail4a s over.
Proof. intros H. unfold fail4a. destruct p; release_first; [by apply (fail4_run true)|by apply (fail4_run false)]. Qed.
Lemma fail5_run p u s : holds s (with_job p u) → wp (fail5 u) s over.
Proof.
  intros H. unfold fail5, with_job in *. destruct p, u; release_first; unfold when; simpl;
    first [release_first|apply wp_bind, wp_ret]; first [by apply (fail4a_run true)|by apply (fail4a_run false)].
Qed.

(** *** The lwIP initialisation and the event loop *)

(** Nothing uses these. *)
Definition leaf (r : res) : bool := match r with Pcb | Sock | Listener | ListenerIp6 | Client _ => true | _ => false end.
Lemma leaf_unused r l : leaf r = true → unused r l.
Proof.
  intros Hr. apply list.Forall_forall. intros x _. destruct x, r; try discriminate Hr; simpl; rewrite ?elem_of_cons, ?elem_of_nil; naive_solver.
Qed.

Definition stack (p u : bool) (s : st) : list res :=
  (Client <$> tcp_clients s) ++ nets (have_netif s) (listener s) (listener_ip6 s) ++ TcpTimer :: WriteBuf :: with_job p u.
Record linv (p u : bool) (s : st) : Prop := mk_linv {
  li_held : holds s (stack p u s);
  li_netif : listener s = true → have_netif s = true;
  li_ip6 : listener_ip6 s = true → listener s = true;
  li_quit : quitting s = exiting s
}.

Lemma stack_in p u s r : r ∈ TcpTimer :: WriteBuf :: with_job p u → r ∈ stack p u s.
Proof. intros H. unfold stack. rewrite !elem_of_app. auto. Qed.
Lemma with_job_in p u r : r ∈ [LwipJob; ReadBuffer; ReadInterface; Device; Signal; Reactor; Logger] →
  r ∈ TcpTimer :: WriteBuf :: with_job p u.
Proof. destruct p, u; unfold with_job, with_device, base, opt; simpl; set_solver. Qed.
Lemma stack_client p u s n : Client n ∈ stack p u s ↔ n ∈ tcp_clients s.
Proof.
  unfold stack. rewrite !elem_of_app, list_elem_of_fmap. split.
  - intros [(m & [= ->] & ?)|[H|H]]; [done|..]; exfalso; revert H; unfold nets, with_job, with_device, base, opt;
      repeat case_match; simpl; rewrite ?elem_of_cons, ?elem_of_nil; naive_solver.
  - intros H. left. eauto.
Qed.

(** Only [held] changes. *)
Definition only_held (s s' : st) : Prop := s' = s <| held := held s' |>.

Lemma make_listener_run new bound listen r s l : (r = Listener ∨ r = ListenerIp6) → holds s l →
  r ∉ l → Pcb ∉ l → Netif ∈ l →
  wp (make_listener new bound listen r) s (λ b s' _, only_held s s' ∧ holds s' (opt b r ++ l)).
Proof.
  intros Hr H Hrl Hp Hn. unfold make_listener. destruct new; simpl; [|by apply wp_ret; destruct s].
  apply wp_bind. eapply wp_acquire_object; [done|done|by constructor|]. intros s1 E1 H1.
  assert (∀ (Q : () → st → list act → Prop), (∀ s', only_held s s' → holds s' l → Q () s' [Released Pcb]) → wp (release Pcb) s1 Q) as Hrel.
  { intros Q HQ. eapply wp_release_object; [done|reflexivity|by apply leaf_unused|]. intros s2 E2 H2. apply HQ; [|done]. by subst; destruct s. }
  destruct bound; simpl; [|by apply wp_bind, Hrel; intros; apply wp_ret].
  destruct listen; simpl; [|by apply wp_bind, Hrel; intros; apply wp_ret].
  apply wp_bind, Hrel. intros s2 E2 H2. apply wp_bind. eapply wp_acquire_object; [done|done| |].
  { destruct Hr as [-> | ->]; repeat constructor; done. }
  intros s3 E3 H3. apply wp_ret. split; [|done]. unfold only_held in *. subst s3. rewrite E2. by destruct s.
Qed.

Lemma terminate_run p u s : linv p u s → quitting s = false → wp terminate s (λ _ s' _, linv p u s').
Proof.
  intros [H1 H2 H3 H4] Hq. unfold terminate. apply wp_bind, wp_get, wp_bind, wp_ASSERT; [by rewrite Hq|].
  apply wp_bind, wp_modify, wp_modify. by split.
Qed.
Lemma device_error_run p u s : linv p u s → quitting s = false → wp device_error_handler s (λ _ s' _, linv p u s').
Proof.
  intros H Hq. unfold device_error_handler. apply wp_bind, wp_get, wp_bind, wp_ASSERT; [by rewrite Hq|]. by apply terminate_run.
Qed.
(** ... which leaves everything else as it was. *)
Definition same_net (s s' : st) : Prop :=
  have_netif s' = have_netif s ∧ listener s' = listener s ∧ listener_ip6 s' = listener_ip6 s ∧ tcp_clients s' = tcp_clients s ∧ held s' = held s.
Lemma device_may_fail_run p u b s : linv p u s → wp (device_may_fail b) s (λ _ s' _, linv p u s' ∧ same_net s s').
Proof.
  intros H. unfold device_may_fail. apply wp_bind, wp_get, wp_when; [|done].
  intros [-> Hq%negb_true_iff]%andb_true_iff. unfold device_error_handler, terminate.
  apply wp_bind, wp_get, wp_bind, wp_ASSERT; [by rewrite Hq|]. apply wp_bind, wp_get, wp_bind, wp_ASSERT; [by rewrite Hq|].
  apply wp_bind, wp_modify, wp_modify. split; [|done]. by destruct H; split.
Qed.
Lemma lwip_fail_run p u s : linv p u s → wp lwip_fail s (λ _ s' _, linv p u s').
Proof.
  intros H. unfold lwip_fail. apply wp_bind, wp_get, wp_when; [|done]. intros Hq%negb_true_iff. by apply terminate_run.
Qed.

Lemma listener_linv p u s l6 : linv p u s → have_netif s = true → tcp_clients s = [] →
  listener s = l6 → listener_ip6 s = false →
  let r := if l6 then ListenerIp6 else Listener in
  r ∉ stack p u s ∧ Pcb ∉ stack p u s ∧ Netif ∈ stack p u s.
Proof.
  intros H Hn Hc Hl H6. unfold stack. rewrite Hn, Hc, Hl, H6. destruct p, u, l6; split_and!; concrete.
Qed.

Lemma only_held_linv p u s s' : linv p u s → only_held s s' → holds s' (stack p u s) → linv p u s'.
Proof. intros [H1 H2 H3 H4] E H. unfold only_held in E. rewrite E in *. by split. Qed.

(** A listener has been made. *)
Lemma add_listener_run p u new bound listen s (l6 : bool) : linv p u s → have_netif s = true → tcp_clients s = [] →
  listener s = l6 → listener_ip6 s = false →
  wp (b ← make_listener new bound listen (if l6 then ListenerIp6 else Listener);
      if negb b then lwip_fail
      else modify (λ s, if l6 then s <| listener_ip6 := true |> else s <| listener := true |>)) s
    (λ _ s' _, linv p u s').
Proof.
  intros H Hn Hc Hl H6. destruct (listener_linv p u s l6 H Hn Hc Hl H6) as (Hr & Hp & Hni).
  apply wp_bind. eapply wp_mono; [apply (make_listener_run new bound listen _ s (stack p u s)); [destruct l6; auto|apply H|done..]|].
  intros b s1 acts [E1 H1]. destruct b; simpl.
  - apply wp_modify. unfold only_held in E1. destruct H as [_ ? ? ?]. destruct l6; rewrite E1 in *; split; simpl; try done.
    + unfold stack in *. simpl in *. rewrite Hc, Hl, Hn, H6 in *. done.
    + unfold stack in *. simpl in *. rewrite Hc, Hl, Hn, H6 in *. done.
  - apply lwip_fail_run. by eapply only_held_linv.
Qed.

Lemma lwip_init_run p u c ip6 a s : linv p u s → quitting s = false → is_ipv4 (c_ipaddr c) = true →
  is_ipv4 (c_netmask c) = true → have_netif s = false → listener s = false → listener_ip6 s = false → tcp_clients s = [] →
  wp (lwip_init_job_hadler c ip6 a) s (λ _ s' _, linv p u s').
Proof.
  intros H Hq Ha Hm Hn Hl H6 Hc. unfold lwip_init_job_hadler. apply wp_bind, wp_get.
  do 6 (apply wp_bind, wp_ASSERT; [by rewrite ?Hq, ?Ha, ?Hm, ?Hn, ?Hl, ?H6|]).
  destruct (l_netif_add a); simpl; [|by apply lwip_fail_run].
  assert (stack p u s = TcpTimer :: WriteBuf :: with_job p u) as Es by (unfold stack; by rewrite Hc, Hn, Hl, H6).
  destruct H as [Hh _ _ Hqe]. rewrite Es in Hh. apply wp_bind. eapply wp_acquire_object; [exact Hh|destruct p, u; concrete|destruct p, u; concrete|].
  intros s1 E1 H1. apply wp_bind, wp_modify. set (s2 := s1 <| have_netif := true |>).
  assert (linv p u s2) as H2.
  { subst s2 s1. split; simpl; try done; [|by rewrite H6]. unfold stack. simpl. by rewrite Hc, Hl, H6. }
  assert (listener s2 = false ∧ listener_ip6 s2 = false ∧ tcp_clients s2 = [] ∧ have_netif s2 = true) as (Hl2 & H62 & Hc2 & Hn2) by (by subst).
  apply wp_bind. eapply wp_mono; [by apply (device_may_fail_run p u)|]. intros _ s3 acts3 [H3 (N1 & N2 & N3 & N4 & _)]. apply wp_bind.
  apply (wp_mono _ _ (λ _ s4 _, linv p u s4 ∧ same_net s3 s4)).
  { destruct ip6; unfold when; [by apply device_may_fail_run|by apply wp_ret]. }
  intros _ s4 acts4 [H4 (N1' & N2' & N3' & N4' & _)].
  assert (have_netif s4 = true ∧ listener s4 = false ∧ listener_ip6 s4 = false ∧ tcp_clients s4 = []) as (Hn4 & Hl4 & H64 & Hc4) by (split_and!; congruence).
  clear - H4 Hn4 Hl4 H64 Hc4.
  destruct (listener_linv p u s4 false H4 Hn4 Hc4 Hl4 H64) as (Hr & Hp & Hni). apply wp_bind.
  eapply wp_mono; [apply (make_listener_run _ _ _ Listener s4 (stack p u s4)); [auto|apply H4|done..]|].
  intros b s5 acts5 [E5 H5]. destruct b; simpl; [|apply lwip_fail_run; by eapply only_held_linv].
  apply wp_bind, wp_modify. set (s6 := s5 <| listener := true |>).
  assert (linv p u s6 ∧ have_netif s6 = true ∧ tcp_clients s6 = [] ∧ listener s6 = true ∧ listener_ip6 s6 = false) as (H6 & Hn6 & Hc6 & Hl6 & H66).
  { unfold s6. unfold only_held in E5. destruct H4 as [_ ? ? ?]. rewrite E5 in *. split_and!; simpl; try done.
    split; simpl; try done. unfold stack in *. simpl in *. rewrite Hc4, Hl4, Hn4, H64 in *. done. }
  destruct ip6; [|by apply wp_ret]. by apply (add_listener_run p u _ _ _ s6 true).
Qed.

Lemma fmap_client_filter n L : NoDup L → n ∈ L →
  Client <$> L ≡ₚ Client n :: (Client <$> filter (λ x, x ≠ n) L).
Proof.
  intros Hnd Hn. change (Client n :: (Client <$> filter (λ x, x ≠ n) L)) with (Client <$> (n :: filter (λ x, x ≠ n) L)).
  apply fmap_Permutation. by apply remove_filter_perm.
Qed.
Lemma client_gone_run p u n s : linv p u s → n ∈ tcp_clients s →
  wp (release (Client n);; modify (λ s, s <| tcp_clients := filter (λ x, x ≠ n) (tcp_clients s) |>)) s
    (λ _ s' _, linv p u s' ∧ s' = s <| held := held s' |> <| tcp_clients := filter (λ x, x ≠ n) (tcp_clients s) |>).
Proof.
  intros [Hh H2 H3 H4] Hn. pose proof Hh as (_ & Hnd & _). unfold stack in Hnd. apply list.NoDup_app in Hnd as (Hnd & _).
  apply NoDup_fmap_1 in Hnd. apply wp_bind. eapply (wp_release_object _ _ _ (stack p u (s <| tcp_clients := filter (λ x, x ≠ n) (tcp_clients s) |>))).
  - exact Hh.
  - unfold stack. simpl. by rewrite (fmap_client_filter n (tcp_clients s)).
  - by apply leaf_unused.
  - intros s1 -> H1. apply wp_modify. split; [|done]. split; simpl; done.
Qed.

Lemma dispatch_run p u e s : linv p u s → exiting s = false → can_happen s e = true → wp (dispatch e) s (λ _ s' _, linv p u s').
Proof.
  intros H He Hc. pose proof (li_quit p u s H) as Hq. rewrite He in Hq. destruct e as [| | |n|n]; simpl in *.
  - unfold tcp_timer_handler. apply wp_bind, wp_get, wp_ASSERT; [by rewrite Hq|done].
  - by apply device_error_run.
  - unfold signal_handler. apply wp_bind, wp_get, wp_bind, wp_ASSERT; [by rewrite Hq|]. by apply terminate_run.
  - apply andb_true_iff in Hc as [Hl Hn%bool_decide_eq_true]. destruct H as [Hh H2 H3 H4].
    assert (have_netif s = true) as Hnet by (apply H2; destruct (listener s); [done|]; destruct (listener_ip6 s); auto).
    apply wp_bind. eapply wp_acquire_object; [exact Hh|by rewrite stack_client| |].
    { repeat constructor; [apply stack_in, with_job_in; set_solver|]. unfold stack. rewrite Hnet, !elem_of_app. right. left.
      unfold nets. simpl. rewrite !elem_of_app. right. right. left. }
    intros s1 E1 H1. apply wp_modify. subst s1. split; simpl; try done. destruct H1 as (Hp & Hnd & Hm). split_and!; simpl in *; [| |done].
    + rewrite Hp. unfold stack. simpl. rewrite fmap_app. simpl. rewrite <- app_assoc. simpl. by rewrite Permutation_middle.
    + unfold stack in *. simpl. rewrite fmap_app, <- app_assoc. simpl. by rewrite <- Permutation_middle.
  - apply bool_decide_eq_true in Hc. eapply wp_mono; [by apply (client_gone_run p u n s)|]. by intros _ s' acts [? _].
Qed.

Lemma exec_loop_run p u es s : linv p u s → wp (exec_loop es) s (λ _ s' _, linv p u s').
Proof.
  revert s. induction es as [|e es IH]; intros s H; cbn [exec_loop]; apply wp_bind, wp_get;
    (destruct (exiting s) eqn:Ex; [by apply wp_ret|]).
  - by apply wp_ret.
  - apply wp_bind, wp_when; intros Hc; [|by apply IH].
    eapply wp_mono; [by apply (dispatch_run p u e s)|]. intros [] s1 acts H1. by apply IH.
Qed.

Lemma free_clients_run p u fuel s : (List.length (tcp_clients s) ≤ fuel)%nat → linv p u s →
  wp (free_clients fuel) s (λ _ s' _, linv p u s' ∧ tcp_clients s' = []).
Proof.
  revert s. induction fuel as [|fuel IH]; intros s Hf H; cbn [free_clients]; apply wp_bind, wp_get;
    (destruct (tcp_clients s) as [|n L] eqn:El; [by apply wp_ret|]); [simpl in Hf; lia|].
  assert (n ∈ tcp_clients s) as Hn by (rewrite El; left).
  assert (∀ (k : MM ()) Q, wp (release (Client n);; modify (λ s, s <| tcp_clients := filter (λ x, x ≠ n) (tcp_clients s) |>)) s
    (λ _ s' l, wp k s' (λ b s'' l', Q b s'' (l ++ l'))) →
    wp (release (Client n);; modify (λ s, s <| tcp_clients := filter (λ x, x ≠ n) (tcp_clients s) |>);; k) s Q) as Hassoc.
  { intros k Q. unfold wp, mbind, M_bind. destruct (release (Client n) s) as [[[x s1] l1]|]; [|done]. simpl.
    destruct (k _) as [[[y s2] l2]|]; [|done]. by rewrite app_nil_r. }
  apply Hassoc. eapply wp_mono; [by apply (client_gone_run p u n s)|]. intros _ s1 acts [H1 E1].
  eapply wp_mono; [apply IH; [|done]|done]. rewrite E1. simpl. rewrite El in *.
  rewrite filter_cons, decide_False by naive_solver. pose proof (length_filter (λ x, x ≠ n) L). simpl in Hf. lia.
Qed.

Lemma main_end_run p u s : linv p u s → wp (main_end u) s over.
Proof.
  intros H. unfold main_end. apply wp_bind, wp_get, wp_bind.
  eapply wp_mono; [by apply (free_clients_run p u)|]. intros _ s1 acts [[Hh Hn H6 _] Hc]. unfold stack in Hh. rewrite Hc in Hh. simpl in Hh.
  apply wp_bind, wp_get. unfold when. destruct (have_netif s1) eqn:En, (listener s1) eqn:El, (listener_ip6 s1) eqn:E6;
    try (specialize (Hn eq_refl); discriminate Hn); try (specialize (H6 eq_refl); discriminate H6); unfold nets, opt in Hh; simpl in Hh;
    destruct p, u; do 3 (first [release_first|apply wp_bind, wp_ret]); do 2 release_first;
    first [by apply (fail5_run true)|by apply (fail5_run false)].
Qed.

(** *** [main] *)

(** The program is over with everything released, or it waits. *)
Definition ends (r : option Z) (s : st) (_ : list act) : Prop :=
  misused s = [] ∧ (r = None ∨ r = Some 1 ∧ held s = []).
Lemma over_ends r s l : over r s l → ends r s l.
Proof. intros (-> & ? & ?). split; auto. Qed.

Lemma main_device_run p o c a s : holds s (Signal :: Reactor :: base p) →
  quitting s = false → exiting s = false → have_netif s = false → listener s = false → listener_ip6 s = false →
  tcp_clients s = [] → is_ipv4 (c_ipaddr c) = true → is_ipv4 (c_netmask c) = true →
  wp (main_device o c a) s ends.
Proof.
  intros H Hq Hx Hn Hl H6 Hc Ha Hm. unfold main_device. set (u := bool_decide (is_Some (Options.udpgw_remote_server_addr o))).
  set (ip6 := bool_decide (is_Some (Options.netif_ip6addr o))).
  assert (∀ s k, wp k s over → wp k s ends) as Hover by (intros s' k Hk; eapply wp_mono; [exact Hk|exact over_ends]).
  destruct (a_tap a); simpl; [|by apply Hover, (fail3_run p)].
  apply wp_bind. eapply wp_acquire_object; [exact H|destruct p; concrete|destruct p; concrete|]. intros s1 E1 H1.
  apply wp_bind. eapply wp_acquire_object; [exact H1|destruct p; concrete|destruct p; concrete|]. intros s2 E2 H2.
  destruct (a_read_buffer a); simpl; [|by apply Hover, (fail4_run p)].
  apply wp_bind. eapply wp_acquire_object; [exact H2|destruct p; concrete|destruct p; concrete|]. intros s3 E3 H3.
  apply wp_bind. apply (wp_mono _ _ (λ ok s4 _, only_held s3 s4 ∧ if ok : bool then holds s4 (opt u Udpgw ++ ReadBuffer :: with_device p)
    else holds s4 (ReadBuffer :: with_device p))).
  { assert (only_held s3 s3) as Hrefl by (by destruct s3). destruct u; simpl; [|by apply wp_ret].
    destruct (_ || _); [by apply wp_ret|]. destruct (a_udpgw a); simpl; [|by apply wp_ret].
    apply wp_bind. eapply wp_acquire_object; [exact H3|destruct p; concrete|destruct p; concrete|]. intros s4 E4 H4. apply wp_ret. by subst. }
  intros ok s4 acts [E4 H4]. destruct ok; simpl; [|by apply Hover, (fail4a_run p)].
  apply wp_bind. eapply wp_acquire_object; [exact H4|destruct p, u; concrete|destruct p, u; concrete|]. intros s5 E5 H5.
  destruct (a_write_buf a); simpl; [|by apply Hover, (fail5_run p u)].
  apply wp_bind. eapply wp_acquire_object; [exact H5|destruct p, u; concrete|destruct p, u; concrete|]. intros s6 E6 H6'.
  apply wp_bind. eapply wp_acquire_object; [exact H6'|destruct p, u; concrete|destruct p, u; concrete|]. intros s7 E7 H7.
  assert (only_held s s7) as E. { unfold only_held in *. subst s7 s6 s5. rewrite E4. by subst s3 s2 s1. }
  assert (linv p u s7) as Hi.
  { unfold only_held in E. rewrite E in H7 |- *. split; simpl; try (by rewrite ?Hl, ?H6); [|by rewrite Hq, Hx].
    unfold stack. simpl. rewrite Hc, Hn, Hl, H6. exact H7. }
  unfold only_held in E. apply wp_bind. eapply wp_mono; [apply (lwip_init_run p u c ip6 (a_lwip a) s7 Hi); try rewrite E; done|].
  intros [] s8 acts8 H8. apply wp_bind. eapply wp_mono; [by apply exec_loop_run|]. intros b s9 acts9 H9.
  destruct b; [by apply Hover, (main_end_run p u)|]. apply wp_ret.
  split; [apply H9|by left].
Qed.

Lemma process_arguments_run sy o s : holds s [Logger] → held s = [Logger] →
  wp (process_arguments sy o) s (λ c s' _, only_held s s' ∧ ∃ p, holds s' (base p) ∧ held s' = base p ∧
    ∀ c', c = Some c' → is_ipv4 (c_ipaddr c') = true ∧ is_ipv4 (c_netmask c') = true).
Proof.
  intros H Hh. assert (only_held s s) as Hrefl by (by destruct s).
  assert (only_held s s ∧ ∃ p, holds s (base p) ∧ held s = base p ∧ ∀ c', None = Some c' → is_ipv4 (c_ipaddr c') = true ∧ is_ipv4 (c_netmask c') = true) as Hno.
  { split; [done|]. by exists false. }
  unfold process_arguments. destruct (BIPAddr_Resolve sy _) as [ip|]; [|by apply wp_ret].
  destruct (is_ipv4 ip) eqn:Eip; simpl; [|by apply wp_ret].
  destruct (BIPAddr_Resolve sy _) as [nm|]; [|by apply wp_ret].
  destruct (is_ipv4 nm) eqn:Enm; simpl; [|by apply wp_ret].
  destruct (match Options.netif_ip6addr o with Some _ => _ | None => _ end) as [ip6|]; [|by apply wp_ret].
  destruct (BAddr_Parse2 sy _) as [socks|]; [|by apply wp_ret].
  apply wp_bind. apply (wp_mono _ _ (λ _ s1 _, only_held s s1 ∧ ∃ p, holds s1 (base p) ∧ held s1 = base p)).
  { assert (only_held s s ∧ ∃ p, holds s (base p) ∧ held s = base p) as Hs by (split; [done|]; by exists false).
    destruct (username o); [|by apply wp_ret]. destruct (password o); [by apply wp_ret|].
    destruct (read_file sy _) as [contents|]; [|by apply wp_ret].
    apply wp_bind. eapply wp_acquire_object; [exact H|concrete|concrete|]. intros s1 -> H1. apply wp_ret. split; [by destruct s|]. exists true. split; [exact H1|]. simpl. by rewrite Hh. }
  intros auth s1 acts (E1 & p & H1 & Hh1).
  assert (∀ c s' , (∀ c', c = Some c' → is_ipv4 (c_ipaddr c') = true ∧ is_ipv4 (c_netmask c') = true) → s' = s1 →
    only_held s s' ∧ ∃ p, holds s' (base p) ∧ held s' = base p ∧ ∀ c', c = Some c' → is_ipv4 (c_ipaddr c') = true ∧ is_ipv4 (c_netmask c') = true) as Hyes
    by (intros c s' Hc ->; split; [done|]; by exists p).
  destruct auth as [auth|]; [|by apply wp_ret, Hyes].
  destruct (match Options.udpgw_remote_server_addr o with Some _ => _ | None => _ end) as [udpgw|]; [|by apply wp_ret, Hyes].
  destruct (match dnsgw o with Some _ => _ | None => _ end) as [dns|]; [|by apply wp_ret, Hyes].
  apply wp_ret, Hyes; [|done]. by intros c' [= <-].
Qed.

(** Whether the Unix socket for the device's descriptor is set up. *)
Definition socket_ok (a : answers) : bool := a_socket a && a_bind a && a_listen a.

(** What the command line asks for: help or the version, or the program itself. *)
Definition wants_help (channels argv : list string) : bool :=
  match argv, parse_arguments channels argv with
  | _ :: _, inr o => opt_help o || opt_version o
  | _, _ => false
  end.
(** [main] gets as far as the Unix socket: the arguments are accepted, and the
    logger, the network, the reactor and the signal handler are initialised. *)
Definition reaches_socket (channels : list string) (sy : system) (argv : list string) (a : answers) : bool :=
  match argv, parse_arguments channels argv with
  | _ :: _, inr o =>
      negb (opt_help o || opt_version o) && (negb (logger o =? LOGGER_SYSLOG) || a_syslog a) && a_network a &&
      match process_arguments sy o (st0 <| held := [Logger] |>) with Some (Some _, _, _) => true | _ => false end &&
      a_reactor a && a_signal a
  | _, _ => false
  end.

(** [fail2] under the signal handler. *)
Definition under_signal (r : option Z) (s : st) (_ : list act) : Prop :=
  r = Some 1 ∧ held s = [Signal] ∧ misused s = [(Reactor, Signal)].
Lemma fail2_signal p s : held s = Signal :: Reactor :: base p → misused s = [] → wp fail2 s under_signal.
Proof.
  intros Hh Hm. unfold fail2, fail1, fail0, release, base, opt in *. destruct p; simpl in Hh;
    repeat (apply wp_bind; first [apply wp_get|apply wp_modify|apply wp_emit|
      apply wp_ASSERT; [simpl; rewrite ?Hh; reflexivity|]|idtac]; simpl; rewrite ?Hh; simpl);
    try (apply wp_when; intros Hc; [|try discriminate Hc]; try discriminate Hc);
    repeat (first [apply wp_bind, wp_get|apply wp_bind, wp_modify|apply wp_bind, wp_emit|apply wp_emit|
      apply wp_bind, wp_ASSERT; [simpl; rewrite ?Hh; reflexivity|]]; simpl; rewrite ?Hh; simpl);
    apply wp_ret; split_and!; simpl; rewrite ?Hh, ?Hm; reflexivity.
Qed.

Lemma main_socket_signal p o c a s : held s = Signal :: Reactor :: base p → misused s = [] → socket_ok a = false →
  wp (main_socket o c a) s under_signal.
Proof.
  intros Hh Hm Ho. unfold main_socket, socket_ok in *. destruct (a_socket a); simpl in *; [|by apply (fail2_signal p)].
  assert (holds s (Signal :: Reactor :: base p)) as H.
  { split_and!; [by rewrite Hh|destruct p; concrete|done]. }
  apply wp_bind. eapply wp_acquire_object; [exact H|destruct p; concrete|destruct p; concrete|]. intros s1 E1 H1.
  assert (wp (release Sock;; fail2) s1 under_signal) as Hrel.
  { apply wp_bind. eapply wp_release_object; [exact H1|reflexivity|by apply leaf_unused|]. intros s2 E2 H2.
    apply (fail2_signal p); [|apply H2]. subst s2 s1. simpl. rewrite Hh. by destruct p. }
  destruct (a_bind a); simpl in *; [|done]. by rewrite Ho.
Qed.

Lemma main_socket_run p o c a s : holds s (Signal :: Reactor :: base p) →
  quitting s = false → exiting s = false → have_netif s = false → listener s = false → listener_ip6 s = false →
  tcp_clients s = [] → is_ipv4 (c_ipaddr c) = true → is_ipv4 (c_netmask c) = true → socket_ok a = true →
  wp (main_socket o c a) s ends.
Proof.
  intros H Hq Hx Hn Hl H6 Hc Ha Hm Hsock. unfold main_socket. unfold socket_ok in Hsock.
  apply andb_true_iff in Hsock as [[-> ->]%andb_true_iff ->]. simpl.
  apply wp_bind. eapply wp_acquire_object; [exact H|destruct p; concrete|destruct p; concrete|]. intros s1 E1 H1.
  destruct (accept_loop _); simpl; [|by apply wp_ret; split; [apply H1|left]].
  apply wp_bind. eapply wp_release_object; [exact H1|reflexivity|by apply leaf_unused|]. intros s2 E2 H2.
  apply (main_device_run p); try done; by subst s2 s1.
Qed.

(** [main] from the initialised logger on. *)
Lemma main_logged_run sy o a s1 : s1 = st0 <| held := [Logger] |> → holds s1 [Logger] →
  wp (if negb (a_network a) then fail1 else
      c ← process_arguments sy o;
      match c with
      | None => fail1
      | Some c =>
      if negb (a_reactor a) then fail1 else
      acquire Reactor;;
      if negb (a_signal a) then fail2 else
      acquire Signal;;
      main_socket o c a
      end) s1
    (λ r s _, if a_network a &&
        match process_arguments sy o (st0 <| held := [Logger] |>) with Some (Some _, _, _) => true | _ => false end &&
        a_reactor a && a_signal a && negb (socket_ok a)
      then r = Some 1 ∧ held s = [Signal] ∧ misused s = [(Reactor, Signal)]
      else misused s = [] ∧ (r = None ∨ held s = [] ∧ r = Some 1)).
Proof.
  intros E1 Hs1. assert (∀ s k, wp k s over → wp k s (λ r s _, misused s = [] ∧ (r = None ∨ held s = [] ∧ r = Some 1))) as Hover.
  { intros s' k Hk. eapply wp_mono; [exact Hk|]. intros r s l (-> & -> & ->). auto. }
  destruct (a_network a); simpl; [|by apply Hover, (fail1_run false)]. rewrite <- E1.
  apply wp_bind. pose proof (process_arguments_run sy o s1 Hs1 ltac:(by rewrite E1)) as Hpa.
  apply wp_some in Hpa as (c & s2 & acts2 & Epa & E2 & p & Hs2 & Hh2 & Hc). unfold wp at 1. rewrite Epa.
  destruct c as [c|]; [|by apply Hover, (fail1_run p)]. destruct (Hc c eq_refl) as [Hip Hnm].
  destruct (a_reactor a); simpl; [|by apply Hover, (fail1_run p)].
  apply wp_bind. eapply wp_acquire_object; [exact Hs2|destruct p; concrete|destruct p; concrete|]. intros s3 E3 Hs3.
  destruct (a_signal a); simpl; [|by apply Hover, (fail2_run p)].
  apply wp_bind. eapply wp_acquire_object; [exact Hs3|destruct p; concrete|destruct p; concrete|]. intros s4 E4 Hs4.
  assert (only_held st0 s4) as E. { unfold only_held in *. subst s4 s3. rewrite E2. by subst s1. }
  destruct (socket_ok a) eqn:Hsock; simpl.
  - eapply wp_mono; [apply (main_socket_run p); try done; by rewrite E|].
    intros r s l [? [->|[-> ?]]]; auto.
  - eapply wp_mono; [apply (main_socket_signal p); [|apply Hs4|done]|done].
    subst s4 s3. simpl. by rewrite Hh2.
Qed.

(** C20: The program releases what it has initialised.  For every command line,
    every result of the system calls and every sequence of events, [main] runs
    without initialising an object twice or before what it uses and without
    releasing one that does not exist, and asks its event loop to exit at most
    once.  If the Unix socket for the device's descriptor cannot be created, bound
    or listened on, [main] returns 1 with the signal handler left initialised and
    the reactor, which it uses, released under it: the jump to [fail2] skips
    [BSignal_Finish].  In every other case no object is released while another one
    uses it, and when [main] returns, by whichever error label, for help or the
    version, or after the event loop, nothing is left initialised; the result is 0
    exactly for help and the version. *)
Theorem main_releases channels sy argv a :
  ∃ r s acts, main channels sy argv a st0 = Some (r, s, acts) ∧
    if reaches_socket channels sy argv a && negb (socket_ok a)
    then r = Some 1 ∧ held s = [Signal] ∧ misused s = [(Reactor, Signal)]
    else misused s = [] ∧
      (r = None ∨ held s = [] ∧ r = Some (if wants_help channels argv then 0 else 1)).
Proof.
  apply wp_some. unfold wants_help, reaches_socket, main. destruct argv as [|arg args]; [by apply wp_ret; simpl; auto|].
  destruct (parse_arguments channels (arg :: args)) as [e|o]; [by apply wp_ret; simpl; auto|].
  destruct (opt_help o); [by apply wp_ret; simpl; auto|]. destruct (opt_version o); [by apply wp_ret; simpl; auto|]. simpl.
  destruct (logger o =? LOGGER_SYSLOG); simpl; [destruct (a_syslog a); simpl; [|by apply wp_ret; simpl; auto]|].
  all: apply wp_bind; eapply (wp_acquire_object Logger st0 []); [split_and!; done || constructor|concrete|concrete|];
    intros s1 E1 Hs1; by apply main_logged_run.
Qed.

End Main.

(** ** A run of the program *)
Module MainRun.
Import TunMain.
Open Scope string_scope.

(** Addresses resolve to fixed values; there are no files. *)
Definition sy0 : system := mk_system (λ _, Some (BIPADDR_IPV4 1)) (λ _, Some (BADDR_IPV4 2 3)) (λ _, None) (λ _, None).
Definition argv0 : list string :=
  ["tun2socks"; "--netif-ipaddr"; "10.0.0.1"; "--netif-netmask"; "255.255.255.0"; "--socks-server-addr"; "127.0.0.1:1080";
   "--enable-udprelay"].
Definition lwip0 : lwip_answers := mk_lwip true false false true true true true true true.
(** Two clients come, one goes, a signal ends the program. *)
Definition a0 : answers :=
  mk_answers true true true true true true true [AcceptFailed; RecvFdFailed; GotFd] true true true true lwip0
    [Tick; ClientAccepted 0; ClientAccepted 1; Tick; ClientGone 0; SignalReceived; Tick].

Lemma run0_ends : ∃ s acts, main [] sy0 argv0 a0 st0 = Some (Some 1%Z, s, acts) ∧ held s = [] ∧ List.length acts = 32%nat.
Proof. vm_compute. eexists _, _. split; reflexivity || (split; reflexivity). Qed.

(** The socket cannot be bound. *)
Definition a_unbound : answers :=
  mk_answers true true true true true false true [] true true true true lwip0 [].
Lemma run_unbound : ∃ s acts, main [] sy0 argv0 a_unbound st0 = Some (Some 1%Z, s, acts) ∧
  held s = [Signal] ∧ misused s = [(Reactor, Signal)].
Proof. vm_compute. eexists _, _. split; reflexivity || (split; reflexivity). Qed.
End MainRun.
