(* ===== verification/Ancillary.v ===== *)
(** * Passing of descriptors: libancillary/fd_send.c and libancillary/fd_recv.c

    The application hands the descriptor of the VPN device to tun2socks over a Unix
    socket ([sendFd] of jni-helper.cpp, [main] of tun2socks.c): one byte with a control message that carries
    descriptors.  The control buffer is a header with an array of integers
    ([ANCIL_FD_BUFFER]); [None] is an access beyond an array or a violated [assert].
    The header has 12 bytes on 32-bit and 16 bytes on 64-bit machines ([H]).
    [sendmsg] and [recvmsg] are arguments; [recvmsg_ok] is what the documentation of the
    system (recvmsg(2), unix(7), cmsg(3)) says about the control buffer. *)
From stdpp Require Import base list numbers option.
From Stdlib Require Import ZArith Lia.
From S2P Require Import Prelude ByteOrder Device TunMain.
#[local] Open Scope Z_scope.

Module Ancillary.

Definition SOL_SOCKET : Z := 1.
Definition SCM_RIGHTS : Z := 1.
Definition SIZEOF_int : Z := 4.
Definition ANCIL_MAX_N_FDS : Z := 960.

(** [ANCIL_FD_BUFFER(n)]: a [struct cmsghdr] and [int fd[n]]. *)
Record control := mk_control { cmsg_len : Z; cmsg_level : Z; cmsg_type : Z; cmsg_data : list Z }.
(** What [sendmsg] is given: the bytes of the vector and the control buffer with its length. *)
Record message := mk_message { msg_bytes : bytes; msg_controllen : Z; msg_control : control }.

(** [for (i = 0; i < n; i++) a[i] = vals[i]], from [i] on. *)
Fixpoint store_all (vals : list Z) (i : nat) (a : list Z) : option (list Z) :=
  match vals with
  | [] => Some a
  | v :: vals => if decide (i < length a)%nat then store_all vals (S i) (<[i := v]> a) else None
  end.
(** The first [n] elements of an array that has so many. *)
Definition load_all (n : nat) (a : list Z) : option (list Z) :=
  if decide (n ≤ length a)%nat then Some (take n a) else None.

Section Calls.
Context (H : Z).

Definition prepare (vals : list Z) (buffer : control) : option (Z * control) :=
  let controllen := size_t (H + SIZEOF_int * zlen vals) in
  data ← store_all vals 0 (cmsg_data buffer);
  Some (controllen, mk_control controllen SOL_SOCKET SCM_RIGHTS data).

(** [sent] is the result of [sendmsg]. *)
Definition ancil_send_fds_with_buffer (fds : list Z) (n_fds : nat) (buffer : control) (sent : Z) : option (Z * message) :=
  vals ← load_all n_fds fds;
  '(controllen, buffer) ← prepare vals buffer;
  Some (if 0 <=? sent then 0 else -1, mk_message [33] controllen buffer).

(** The result and the contents of [fds]. *)
Definition ancil_recv_fds_with_buffer (recvmsg : Z → control → Z * control) (fds : list Z) (n_fds : nat)
    (buffer : control) : option (Z * list Z) :=
  '(controllen, buffer) ← prepare (replicate n_fds (-1)) buffer;
  let '(r, buffer) := recvmsg controllen buffer in
  if r <? 0 then Some (-1, fds) else
  vals ← load_all n_fds (cmsg_data buffer);
  fds ← store_all vals 0 fds;
  Some (u32 (size_t (cmsg_len buffer - H) / SIZEOF_int), fds).

(** [buffer]: what is in memory, an array of [ANCIL_MAX_N_FDS] or 1 integers. *)
Definition ancil_send_fds (fds : list Z) (n_fds : nat) (buffer : control) (sent : Z) : option (Z * message) :=
  if Z.of_nat n_fds <=? ANCIL_MAX_N_FDS then ancil_send_fds_with_buffer fds n_fds buffer sent else None.
Definition ancil_recv_fds (recvmsg : Z → control → Z * control) (fds : list Z) (n_fds : nat) (buffer : control) :
    option (Z * list Z) :=
  if Z.of_nat n_fds <=? ANCIL_MAX_N_FDS then ancil_recv_fds_with_buffer recvmsg fds n_fds buffer else None.
Definition ancil_send_fd (fd : Z) (buffer : control) (sent : Z) : option (Z * message) :=
  ancil_send_fds_with_buffer [fd] 1 buffer sent.
(** The result and [*fd]. *)
Definition ancil_recv_fd (recvmsg : Z → control → Z * control) (fd : Z) (buffer : control) : option (Z * Z) :=
  '(n, fds) ← ancil_recv_fds_with_buffer recvmsg [fd] 1 buffer;
  fd ← head fds;
  Some (if n =? 1 then 0 else -1, fd).

(** *** What the system does *)

(** The descriptors a message carries. *)
Definition rights (m : message) : list Z :=
  let c := msg_control m in
  if (cmsg_level c =? SOL_SOCKET) && (cmsg_type c =? SCM_RIGHTS) && (cmsg_len c <=? msg_controllen m)
  then take (Z.to_nat ((cmsg_len c - H) / SIZEOF_int)) (cmsg_data c) else [].

(** What arrives at [recvmsg]: an error, the end of the stream, or a byte with descriptors, by
    their numbers in the receiving process. *)
Inductive arrival := Failure | Closed | Message (fds : list Z).

(** The control buffer after [recvmsg]: only descriptors that arrive, as many as fit, are written into it. *)
Definition delivered (fds : list Z) (controllen : Z) (c : control) : control :=
  let k := Z.to_nat (Z.min (zlen fds) ((controllen - H) / SIZEOF_int)) in
  if decide (k = 0%nat) then c
  else mk_control (H + SIZEOF_int * Z.of_nat k) SOL_SOCKET SCM_RIGHTS (take k fds ++ drop k (cmsg_data c)).
Definition recvmsg_ok (a : arrival) (recvmsg : Z → control → Z * control) : Prop :=
  ∀ controllen c, match a with
  | Failure => (recvmsg controllen c).1 < 0
  | Closed => recvmsg controllen c = (0, c)
  | Message fds => recvmsg controllen c = (1, delivered fds controllen c)
  end.

End Calls.
End Ancillary.

(** ** What is received *)
Section Passing.
Import Ancillary.
Context (H : Z) (HH : 0 ≤ H ≤ 16).

Lemma store_all_ok vals i a : (i + length vals ≤ length a)%nat →
  store_all vals i a = Some (take i a ++ vals ++ drop (i + length vals) a).
Proof.
  revert i a. induction vals as [|v vals IH]; intros i a Hl; simpl in *; [by rewrite Nat.add_0_r, take_drop|].
  rewrite decide_True by lia. rewrite IH by (rewrite length_insert; lia). f_equal.
  rewrite (take_S_r _ _ v) by (rewrite list_lookup_insert_eq; [done|lia]).
  rewrite take_insert_ge, drop_insert_lt by lia. rewrite <- app_assoc. by rewrite Nat.add_succ_r.
Qed.
Lemma store_front vals a : (length vals ≤ length a)%nat → store_all vals 0 a = Some (vals ++ drop (length vals) a).
Proof. intros Hl. by rewrite store_all_ok. Qed.

Lemma controllen_id (n : nat) : Z.of_nat n < 2 ^ 30 → size_t (H + SIZEOF_int * Z.of_nat n) = H + SIZEOF_int * Z.of_nat n.
Proof. intros Hn. unfold size_t, u64, SIZEOF_int. apply Z.mod_small. lia. Qed.
Lemma fds_in (n : nat) : (H + SIZEOF_int * Z.of_nat n - H) / SIZEOF_int = Z.of_nat n.
Proof. unfold SIZEOF_int. replace (H + 4 * Z.of_nat n - H) with (Z.of_nat n * 4) by lia. by apply Z.div_mul. Qed.

Lemma prepare_ok vals buffer : zlen vals < 2 ^ 30 → (length vals ≤ length (cmsg_data buffer))%nat →
  prepare H vals buffer = Some (H + SIZEOF_int * zlen vals,
    mk_control (H + SIZEOF_int * zlen vals) SOL_SOCKET SCM_RIGHTS (vals ++ drop (length vals) (cmsg_data buffer))).
Proof. intros Hn Hl. unfold prepare. rewrite store_front by done. unfold zlen in *. by rewrite controllen_id. Qed.

(** The message that is sent carries the descriptors. *)
Lemma send_ok fds n buffer sent : (n ≤ length fds)%nat → (n ≤ length (cmsg_data buffer))%nat → Z.of_nat n < 2 ^ 30 →
  ∃ m, ancil_send_fds_with_buffer H fds n buffer sent = Some (if 0 <=? sent then 0 else -1, m) ∧
    msg_bytes m = [33] ∧ rights H m = take n fds.
Proof.
  intros Hf Hb Hn. unfold ancil_send_fds_with_buffer, load_all. rewrite decide_True by done. cbn [mbind option_bind].
  assert (length (take n fds) = n) as Hl by (rewrite length_take; lia).
  rewrite prepare_ok by (unfold zlen; rewrite ?Hl; done). cbn [mbind option_bind]. eexists. split_and!; [done|done|].
  unfold rights, zlen. cbn. rewrite Z.leb_refl, Hl. cbn -[Z.mul]. rewrite fds_in, Nat2Z.id. apply take_app_length'. lia.
Qed.

(** The number of descriptors that the buffer says it holds. *)
Lemma counted (n : nat) : Z.of_nat n < 2 ^ 30 →
  u32 (size_t (H + SIZEOF_int * Z.of_nat n - H) / SIZEOF_int) = Z.of_nat n.
Proof.
  intros Hn. unfold size_t, u64. rewrite Z.mod_small by (unfold SIZEOF_int; lia). rewrite fds_in. unfold u32. apply Z.mod_small. lia.
Qed.

(** What [recvmsg] leaves in the prepared buffer. *)
Definition received (a : arrival) (n : nat) (fds : list Z) : Z * list Z :=
  match a with
  | Failure => (-1, fds)
  | Closed => (Z.of_nat n, replicate n (-1) ++ drop n fds)
  | Message ds => (if decide (ds = []) then Z.of_nat n else Z.of_nat (n `min` length ds),
      take n (ds ++ replicate n (-1)) ++ drop n fds)
  end.
Lemma recv_ok a recvmsg fds n buffer : recvmsg_ok H a recvmsg → (n ≤ length fds)%nat → (n ≤ length (cmsg_data buffer))%nat →
  Z.of_nat n < 2 ^ 30 → ancil_recv_fds_with_buffer H recvmsg fds n buffer = Some (received a n fds).
Proof.
  intros Hr Hf Hb Hn. unfold ancil_recv_fds_with_buffer. assert (length (replicate n (-1)) = n) as Hl by apply length_replicate.
  rewrite prepare_ok by (unfold zlen; rewrite ?Hl; done). unfold zlen. rewrite Hl. cbn [mbind option_bind].
  set (c := mk_control _ _ _ _). specialize (Hr (H + SIZEOF_int * Z.of_nat n) c).
  assert (∀ vals, length vals = n → load_all n (vals ++ drop n (cmsg_data buffer)) = Some vals) as Hload.
  { intros vals Hv. unfold load_all. rewrite decide_True by (rewrite length_app; lia). by rewrite take_app_length'. }
  assert (∀ vals, length vals = n → store_all vals 0 fds = Some (vals ++ drop n fds)) as Hstore.
  { intros vals Hv. rewrite store_front by lia. by rewrite Hv. }
  destruct a as [| |ds]; simpl in Hr.
  - destruct (recvmsg _ c) as [r c']. simpl in Hr. by rewrite (proj2 (Z.ltb_lt r 0)).
  - rewrite Hr. cbn [Z.ltb Z.compare]. unfold c. cbn [cmsg_data cmsg_len]. rewrite Hload by done. cbn [mbind option_bind].
    rewrite Hstore by done. cbn [mbind option_bind]. by rewrite counted.
  - rewrite Hr. cbn [Z.ltb Z.compare]. unfold delivered. rewrite fds_in. unfold zlen.
    replace (Z.to_nat (Z.min (Z.of_nat (length ds)) (Z.of_nat n))) with (length ds `min` n)%nat by lia.
    destruct (decide (length ds `min` n = 0)%nat) as [E|E].
    + unfold c. cbn [cmsg_data cmsg_len]. rewrite Hload by done. cbn [mbind option_bind].
      rewrite Hstore by done. cbn [mbind option_bind received]. rewrite counted by done.
      destruct (decide (ds = [])) as [->|Hds]; [simpl; by rewrite take_ge by lia|].
      assert (n = 0)%nat as -> by (destruct ds; [done|]; rewrite length_cons in E; lia). done.
    + cbn [cmsg_data cmsg_len]. set (k := (length ds `min` n)%nat) in *.
      assert (take k ds ++ drop k (cmsg_data c) =
        take n (ds ++ replicate n (-1)) ++ drop n (cmsg_data buffer)) as ->.
      { unfold c. cbn [cmsg_data]. rewrite drop_app_le by (rewrite Hl; lia). rewrite app_assoc. f_equal. unfold k. rewrite drop_replicate, take_app.
        rewrite take_replicate. destruct (decide (n ≤ length ds)%nat).
        - rewrite Nat.min_r by lia. by replace (n - n)%nat with 0%nat by lia; replace ((n - length ds) `min` n)%nat with 0%nat by lia.
        - rewrite Nat.min_l by lia. rewrite firstn_all, (take_ge ds) by lia. by rewrite Nat.min_l by lia. }
      assert (length (take n (ds ++ replicate n (-1))) = n) as Hlt by (rewrite length_take, length_app; lia).
      rewrite Hload by done. cbn [mbind option_bind]. rewrite Hstore by done. cbn [mbind option_bind received].
      rewrite counted by lia. rewrite decide_False by (intros Hds; apply E; unfold k; by rewrite Hds). unfold k. by rewrite Nat.min_comm.
Qed.

(** Descriptors that are passed.  What [ancil_send_fds] sends is one byte with exactly the first [n]
    descriptors, without an access beyond the buffer, and its result is 0 exactly when it was
    sent; [ancil_recv_fds] for as many descriptors then returns [n] and stores them in
    order, by their numbers in the receiving process, and leaves the rest of the array alone. *)
Theorem fd_passing (dup : Z → Z) fds out n sb rb sent : (n ≤ length fds)%nat → (n ≤ length out)%nat →
  Z.of_nat n ≤ ANCIL_MAX_N_FDS → zlen (cmsg_data sb) = ANCIL_MAX_N_FDS → zlen (cmsg_data rb) = ANCIL_MAX_N_FDS →
  ∃ r m, ancil_send_fds H fds n sb sent = Some (r, m) ∧ (r = 0 ↔ 0 ≤ sent) ∧ msg_bytes m = [33] ∧ rights H m = take n fds ∧
    ∀ recvmsg, recvmsg_ok H (Message (dup <$> rights H m)) recvmsg →
      ancil_recv_fds H recvmsg out n rb = Some (Z.of_nat n, (dup <$> take n fds) ++ drop n out).
Proof.
  intros Hf Ho Hn Hs Hr. unfold ANCIL_MAX_N_FDS, zlen in *.
  destruct (send_ok fds n sb sent) as (m & E & Hm & Hrt); [lia..|]. unfold ancil_send_fds, ancil_recv_fds, ANCIL_MAX_N_FDS.
  rewrite (proj2 (Z.leb_le _ _) Hn), E. exists (if 0 <=? sent then 0 else -1), m. split; [done|].
  split; [destruct (Z.leb_spec 0 sent); lia|]. split; [done|]. split; [done|]. intros recvmsg Hok.
  rewrite (recv_ok _ _ out n rb Hok) by lia. rewrite Hrt. unfold received. do 2 f_equal.
  - case_decide as Ed; [done|]. rewrite length_fmap, length_take. lia.
  - rewrite take_app_length'; [done|]. rewrite length_fmap, length_take. lia.
Qed.

(** What [main] gets from [ancil_recv_fd]: a descriptor that was sent is stored.  But the end of
    the stream and a byte without a descriptor count as a success too, with the descriptor -1: the header,
    which says one descriptor, is as it was prepared. *)
Theorem fd_received a recvmsg fd buffer : recvmsg_ok H a recvmsg → length (cmsg_data buffer) = 1%nat →
  ancil_recv_fd H recvmsg fd buffer = Some
    match a with
    | Failure => (-1, fd)
    | Closed => (0, -1)
    | Message ds => (0, default (-1) (head ds))
    end.
Proof.
  intros Hok Hb. unfold ancil_recv_fd. rewrite (recv_ok a _ [fd] 1 buffer Hok) by (simpl; lia).
  destruct a as [| |[|d ds]]; done.
Qed.
End Passing.

(** *** The wait of [main] for the device *)

(** The branch of [main]'s loop on a connection. *)
Definition accepted (r : Z) : TunMain.accept_result := if r =? 0 then TunMain.GotFd else TunMain.RecvFdFailed.

(** A process that connects to the socket and closes, without sending a descriptor, ends the wait of [main], which
    passes -1 to [BTap_Init2], against its assertion. *)
Theorem closed_ends_wait H recvmsg fd buffer : 0 ≤ H ≤ 16 → Ancillary.recvmsg_ok H Ancillary.Closed recvmsg →
  length (Ancillary.cmsg_data buffer) = 1%nat →
  ∃ r fd', Ancillary.ancil_recv_fd H recvmsg fd buffer = Some (r, fd') ∧ (∀ l, TunMain.accept_loop (accepted r :: l) = true) ∧
    ∀ mtu a, BTap.BTap_Init2 BTap.BTAP_DEV_TUN (BTap.BTAP_INIT_FD fd' mtu) a = None.
Proof. intros HH Hok Hb. rewrite (fd_received H HH _ recvmsg fd buffer Hok Hb). by exists 0, (-1). Qed.
Lemma closed_ends_wait_witness :
  ∃ r fd', Ancillary.ancil_recv_fd 16 (λ _ c, (0, c)) 3 (Ancillary.mk_control 0 0 0 [99]) = Some (r, fd') ∧
    TunMain.accept_loop [accepted r] = true.
Proof.
  destruct (closed_ends_wait 16 (λ _ c, (0, c)) 3 (Ancillary.mk_control 0 0 0 [99]) ltac:(lia) ltac:(done) eq_refl)
    as (r & fd' & E & Hl & _).
  exists r, fd'. split; [exact E|apply Hl].
Defined.
Lemma fd_passing_example :
  Ancillary.ancil_send_fd 16 7 (Ancillary.mk_control 0 0 0 [99]) 1 =
    Some (0, Ancillary.mk_message [33] 20 (Ancillary.mk_control 20 1 1 [7])) ∧
  Ancillary.ancil_recv_fd 16 (λ len c, (1, Ancillary.delivered 16 [12] len c)) 0 (Ancillary.mk_control 5 5 5 [99]) = Some (0, 12).
Proof. by vm_compute. Qed.
